(* ===== verification/_CoqProject ===== *)
-Q . S2P
Prelude.v
RustStd.v
Proto.v
Common.v
BuildScripts.v
Registry.v
RegistryFacts.v
RegistrySpec.v
RegistryTheorems.v
Ess.v
EssFacts.v
EssSample.v
EssTheorems.v
EssRuntime.v
EssRuntimeWitnesses.v
EssBuffers.v
EssBench.v
StreamingEss.v
StreamingRuntime.v
Connection.v
StreamingTheorems.v
Query.v
QueryFacts.v
Execution.v
Broker.v
BrokerFacts.v
BrokerConnections.v
ExecutionFacts.v
Server.v
ServerFacts.v
ServerTotality.v
PruneLoop.v
ServerTheorems.v
ServerWitnesses.v
MainProgram.v
RuntimeFork.v
AsyncExecution.v
AsyncFacts.v
AsyncInvariant.v
AsyncTheorems.v
AsyncWitnesses.v
ServerStreaming.v
ServiceDiscovery.v
KeyValue.v
ExampleValue.v
ExampleApi.v
ExampleKv.v
ExampleRegistration.v
RegistrationTheorems.v
Hosting.v
Linearizability.v
AtMostOnce.v
EndToEnd.v
EndToEndStreaming.v
EndToEndWitnesses.v
EndToEndConcurrent.v
AtMostOnceWitnesses.v
ProviderLiveness.v
ExampleApps.v
Applications.v
DiscoverySamples.v
LoadTest.v
TestSupport.v
RegistryTests.v
BrokerTests.v
EssTests.v
ServiceTests.v
CommonTests.v
BindingTests.v
IntegrationTests.v
EndToEndTests.v
