(* ===== verification/Prelude.v ===== *)
(** * Chariott: a verification development

    Chariott lets in-vehicle applications find and use each other's services.
    The repository has two programs and the applications around them:

    - the _intent brokering_ server ([intent_brokering/src]).  Providers announce
      and register the intents they offer (a namespace and a kind such as [Read] or
      [Subscribe]); a consumer asks the server to fulfill an intent, and the server
      picks a provider, forwards the request and answers.  A registration expires
      unless the provider announces itself again;
    - the _service discovery_ server ([service_discovery/core]), a registry of
      service metadata that clients query;
    - libraries and example applications ([intent_brokering/examples],
      [intent_brokering/keyvalue], [intent_brokering/ess], [intent_brokering/common])
      that providers and consumers are built from.

    ** How the parts interact

    A gRPC call enters the server ([intent_brokering_grpc.rs]).  [announce] and
    [register] update the registry ([registry.rs]), which reports every batch of
    changes to its observers: the broker ([intent_broker.rs]), which rebuilds the
    bindings of the intents that changed, and the streaming sub-system
    ([streaming_ess.rs] over [ess.rs]), which publishes an event for each namespace
    in which an intent appeared or disappeared.  [fulfill] resolves the intent in
    the broker's table and executes the binding ([execution.rs]): through the
    cached connection of a provider ([connection_provider.rs]), a cloud provider
    before a local one, or in the broker itself for the intents of
    [system.registry].  [main.rs] builds all this from the environment and runs the
    gRPC router and a loop that prunes expired registrations side by side until
    Ctrl+C ([shutdown.rs]).

    ** Files

    Foundations
    - [Prelude]: panics and [Result] as [outcome] and [result], loops, shared
      lemmas, tactics and the hint database [chariott];
    - [RustStd]: what is used of Rust's standard library (iteration order of hash
      maps, [Instant] and [Duration], [u64], strings);
    - [Proto]: the messages of the [.proto] contracts;
    - [Common]: [common/src/error.rs], [ext.rs], [config.rs];
    - [BuildScripts]: the [build.rs] of the five crates that have one.

    The broker
    - [Registry]: [registry.rs], the types and [touch], [upsert], [prune];
      [RegistryFacts] computes them in closed form and has the invariant
      [registry_wf]; [RegistrySpec] is the abstract registry (services with their
      intents and times) and the simulation; [RegistryTheorems] the results;
    - [Ess]: [ess/src/ess.rs]; [EssFacts], [EssTheorems]; [EssSample] is a plain
      implementation of the channels, for witnesses; [EssRuntime] runs the
      sub-system with the tasks that serve its subscriptions, as a step relation
      with its invariant [rt_wf], and [EssRuntimeWitnesses] has its witnesses;
      [EssBuffers] has what its channels hold, and [EssBench] the benchmark
      [ess/benches/load_bench.rs] with all its tasks;
    - [StreamingEss]: [common/src/streaming_ess.rs] and the observer of
      [registry.rs]; [Connection]: [connection_provider.rs]; [StreamingTheorems]
      has the results on both, [StreamingRuntime] the streaming sub-system with its
      tasks running;
    - [Query]: [common/src/query.rs]; [QueryFacts] gives its meaning;
    - [Execution]: [execution.rs]; [Broker]: [intent_broker.rs], with the [World]
      that all shared handles refer to; [BrokerFacts] (the table follows the
      registry), [BrokerConnections] (which connection belongs to which URL),
      [ExecutionFacts] (what executing a binding does);
    - [Server]: [intent_brokering_grpc.rs] and [main.rs]; [ServerFacts] has the
      step relation of the running server and its invariant, [ServerTotality] that
      every call is answered, [PruneLoop] the bound on the age of entries,
      [ServerTheorems] the results, [ServerWitnesses] a concrete run;
    - [MainProgram]: the rest of [main.rs] and [shutdown.rs], the router and the
      prune loop as a state machine with the two cancellation tokens;
      [RuntimeFork]: [common/src/tokio_runtime_fork.rs];
    - [AsyncExecution]: [fulfill], [execute] and [connect] as futures that are
      polled while other requests, registrations, prunes and tasks run;
      [AsyncFacts] and [AsyncInvariant] have what each poll keeps, [AsyncTheorems]
      the results, [AsyncWitnesses] two requests in flight; [Linearizability] what
      the clients of one provider see of a run, over the provider of [Hosting];
      [AtMostOnce] the same over a network that loses messages, with a run of it in
      [AtMostOnceWitnesses];
    - [ServerStreaming]: that server with the tasks of [EssRuntime] running, from a
      registration to the clients that follow its namespace.

    Service discovery: [ServiceDiscovery], [service_registry_impl.rs];
    [DiscoverySamples], its main program and the provider and consumer of the sample.

    Applications
    - [KeyValue]: [keyvalue/src/key_value_store.rs];
    - [ExampleValue], [ExampleApi], [ExampleKv], [ExampleRegistration]: the library
      [examples/common/src], with the kv application in [ExampleKv];
      [RegistrationTheorems] runs a round of the registration client against the
      modelled server, [ProviderLiveness] its whole loop;
    - [Hosting], [EndToEnd], [EndToEndStreaming]: the client API, the server and the
      key-value application together, over a network that hosts the application;
      [EndToEndWitnesses] is such a system; [EndToEndConcurrent] has several clients
      at once;
    - [ExampleApps]: the other example providers and the schedule of the load test;
      [Applications]: the main programs of the providers; [LoadTest]: the load test
      from the environment to its report.

    Tests: [TestSupport], [RegistryTests], [BrokerTests], [BindingTests], [EssTests],
    [ServiceTests] and [CommonTests] replay the unit tests of the source on the
    model, [IntegrationTests] and [EndToEndTests] those of [intent_brokering/tests].

    ** How code is modelled

    A Rust function is a Rocq function of the same name.  A function that can
    panic returns an [outcome]; a [Result] is a [result].  Mutated state is passed
    explicitly.  An [Arc] behind a lock is one piece of state that every handle
    refers to: a handle is an index or a name ([IntentBroker], [StreamingRef],
    [connected_inner]), so that clones alias.  A lock is held for a whole operation
    in the source; here such an operation is one step.  The one lock that is held
    across an await, the mutex of a cached connection, is explicit in
    [AsyncExecution].  Instants and durations are
    integers of nanoseconds and additions to an [Instant] panic when they leave its
    range; sequence numbers are [u64] with their overflow behaviour in both build
    profiles.

    What is outside the repository is a parameter, never a definition of ours:
    [HashOrder] (the order in which hash maps and sets are iterated; every theorem
    holds for all orders), [UrlLib] and [UrlParts] (the crate url), [RegexLib] (the
    crate regex), [Channels] (tokio's channels and cancellation tokens), [Transport]
    (tonic's client and the network), [Communication], [BrokerFulfillClient],
    [StreamClient] and [BrokerClient] (what the example applications call), the
    clock, the environment, random UUIDs, the compiler of the contracts and the [Debug]
    output of generated messages.  The theorems that need more of a parameter say so with a law class ([ChannelLaws]:
    a channel of positive capacity can be made; [RuntimeLaws]: which receivers of a
    channel are live and when it is closed, over the predicates of [RuntimeView];
    [DeliveryLaws]: an event that is sent is there to read for every receiver of its
    channel; [BufferLaws]: it waits there until it is read, unless the buffer is full;
    [HostLaws] and [StreamHostLaws]: a provider is reachable and a call runs its handler once; [LossyHostLaws]: a call that succeeds has run it once, one that
    fails at most once; [RegexLaws]: the meaning of the
    fragment of patterns that queries produce; [UrlLaws]: printing and parsing a
    URL gives it back), each with an instance that satisfies it.

    ** What is proved

    - Registry: every sequence of operations returns and behaves as the abstract
      registry (C1), keeps the invariant (C11), reports exactly the difference of
      the registered intents (C14), protects the system namespace in any letter case
      (C19); announced services survive (C17), deadlines are exact (C18), and the
      one panic, an overflow of [Instant], is characterised (C40).
    - Running server, in every reachable state: the binding table agrees with the
      registry (C2), a request is answered by a provider registered for its intent
      (C4), no sequence of calls panics unless an inspection has a malformed query
      (C5), inspection lists what is advertised (C28), fallback is in order (C27);
      [register] and [announce] on every branch (C30, C31); start-up (C32), the age
      of entries under the prune loop (C15) and shutdown (C16).
    - Requests in flight: whatever else runs meanwhile, an answer comes from a
      service that was registered when the request was resolved (C6), requests
      cannot block each other (C7), a connection is opened by one request at a time
      and never replaced (C13); without interruption a request is [fulfill] (C12);
      the requests to one provider linearize (C8); over a network that loses
      messages, and with fallback, none is executed twice (C9).
    - Events: with the tasks running every subscription is served (C10) and no
      publisher is ever removed (C24, against the intention); sequence numbers and
      lag (C20), (de)registration (C21, C22), termination of the serving task (C23),
      a change of the registry is one event for each client that follows the
      namespace (C25), subscribing over a channel (C26); every iteration of the
      benchmark ends (C39).
    - Queries mean what their wildcards say (C29).
    - Service discovery answers from the first registration (C33).
    - End to end: through the broker the key-value application is a map (C34), also
      for clients whose requests overlap (C35), and a client that listens to its keys
      receives each write as one event (C38).
    - Applications: a provider with its registration loop stays available (C3), the
      key-value application is a map (C36) and answers every request (C37).
    - Further theorems without a number characterise single operations
      ([read_events_spec], [fulfill_not_found], [contract_numbers_round_trip],
      [set_all_spec], [namespaces_published], [discover_by_namespace_exact],
      [listen_subscribes_on_its_channel], [fork_lives_until_dropped],
      [connection_is_reused], [load_test_reports], [applications_register_what_they_serve],
      [proto_build_main_spec], [consumer_is_greeted]) and behaviours that differ from
      the intention or the documentation ([abandoned_task_unsubscribes_current_client],
      [publish_true_without_subscription], [query_dot_is_any_character],
      [invoke_command_panics]).

    ** Bounds and fuel

    Loops over collections are folds.  The loops that wait (the serving task, the
    prune loop, the registration loop) consume the list of what their waits yield;
    the theorems quantify over all such lists, and the result tells whether the loop
    has ended.  [poll_all] polls a future at most as often as its fuel says;
    [polls_left] is enough (C12).  The scheduler of [EssTests] has more fuel than
    the number of events its tests publish.

    ** What is not modelled

    Tracing, how tonic routes and encodes calls, the code that [tonic_build] generates,
    and the time that the benchmark measures.  Poisoning of locks is
    modelled in the load test only: in the server a panic ends a run.  A task that
    serves a subscription is assumed not to reach the 2^64 events at which its
    counter overflows.  The call of a provider is one step of its request: requests
    that are dropped during the call may or may not have run it. *)

From Stdlib Require Export ZArith Lia Ascii.
From stdpp Require Export base gmap strings list fin_maps fin_sets sets.

(** ** Outcome of running Rust code

    A Rust function either returns or panics ([panic!], [unwrap] on [None] or
    [Err], an index out of range, an arithmetic overflow that is checked).
    [outcome] is the monad of code that may panic; [result] is Rust's own
    [Result], a value like any other. *)
Inductive outcome (A : Type) : Type :=
  | Return (a : A)
  | Panic (msg : string).
Arguments Return {A} a.
Arguments Panic {A} msg.

Inductive result (T E : Type) : Type :=
  | Ok (t : T)
  | Err (e : E).
Arguments Ok {T E} t.
Arguments Err {T E} e.

#[export] Instance outcome_ret : MRet outcome := fun A a => Return a.
#[export] Instance outcome_bind : MBind outcome :=
  fun A B f m => match m with Return a => f a | Panic msg => Panic msg end.
#[export] Instance outcome_fmap : FMap outcome :=
  fun A B f m => match m with Return a => Return (f a) | Panic msg => Panic msg end.

#[export] Instance result_eq_dec {T E} `{EqDecision T, EqDecision E} :
  EqDecision (result T E).
Proof. solve_decision. Defined.
#[export] Instance outcome_eq_dec {A} `{EqDecision A} : EqDecision (outcome A).
Proof. solve_decision. Defined.

(** The combinators of [Result] and [Option] the sources use. *)
Definition result_map {T U E} (f : T → U) (r : result T E) : result U E :=
  match r with Ok t => Ok (f t) | Err e => Err e end.
Definition map_err {T E F} (f : E → F) (r : result T E) : result T F :=
  match r with Ok t => Ok t | Err e => Err (f e) end.
Definition and_then {T U E} (r : result T E) (f : T → result U E) : result U E :=
  match r with Ok t => f t | Err e => Err e end.
Definition ok_or {T E} (o : option T) (e : E) : result T E :=
  match o with Some t => Ok t | None => Err e end.
Definition result_ok {T E} (r : result T E) : option T :=
  match r with Ok t => Some t | Err _ => None end.
Definition unwrap {T E} (r : result T E) : outcome T :=
  match r with
  | Ok t => Return t
  | Err _ => Panic "called `Result::unwrap()` on an `Err` value"
  end.
Definition unwrap_option {T} (o : option T) : outcome T :=
  match o with
  | Some t => Return t
  | None => Panic "called `Option::unwrap()` on a `None` value"
  end.

(** [Iterator::collect] into a [Result<Vec<_>, _>]: the first error wins. *)
Fixpoint collect_result {T E} (l : list (result T E)) : result (list T) E :=
  match l with
  | [] => Ok []
  | Ok t :: l' => result_map (cons t) (collect_result l')
  | Err e :: _ => Err e
  end.

(** A [for] loop whose body may panic: a left fold in [outcome]. *)
Fixpoint for_each {A B} (f : A → B → outcome A) (a : A) (l : list B) : outcome A :=
  match l with
  | [] => Return a
  | b :: l' => a' ← f a b; for_each f a' l'
  end.

(** An iterator [map] whose closure may panic. *)
Fixpoint map_outcome {A B} (f : A → outcome B) (l : list A) : outcome (list B) :=
  match l with
  | [] => Return []
  | a :: l' => b ← f a; bs ← map_outcome f l'; Return (b :: bs)
  end.

Declare Scope chariott_scope.
Delimit Scope chariott_scope with chariott.
(** [try! x := r else s in k] is Rust's [let x = r?; k] in a handler whose model
    returns the answer with its state: an error is answered at once, and the
    state, of one or two components, is the current one. *)
Notation "'try!' x ':=' r 'else' s 'in' k" :=
  (match r with Ok x => k | Err e => Return (Err e, s) end)
  (at level 200, x name, r at level 100, s at level 9, k at level 200)
  : chariott_scope.
Notation "'try!' x ':=' r 'else' s 'with' w 'in' k" :=
  (match r with Ok x => k | Err e => Return (Err e, s, w) end)
  (at level 200, x name, r at level 100, s at level 9, w at level 9, k at level 200)
  : chariott_scope.

Definition is_return {A} (o : outcome A) : bool :=
  match o with Return _ => true | Panic _ => false end.

(** The value of a computation that returns. *)
Definition value_or {A} (d : A) (o : outcome A) : A :=
  match o with Return a => a | Panic _ => d end.

(** The least element of a list. *)
Fixpoint list_min (l : list Z) : option Z :=
  match l with
  | [] => None
  | x :: l' => Some (match list_min l' with None => x | Some y => Z.min x y end)
  end.

(** ** Automation *)
Create HintDb chariott.

(** Case analysis on every [match] of the goal and the hypotheses, closing the
    contradictory branches. *)
Ltac case_all :=
  repeat (case_match || case_decide || (progress simplify_eq/=)).

(** Inversion of a bind in [outcome] that returned. *)
Ltac invert_bind :=
  repeat match goal with
  | H : mbind _ ?m = Return _ |- _ =>
      let E := fresh "E" in
      destruct m eqn:E; cbn [mbind outcome_bind] in H; [|discriminate]
  | H : Return _ = Return _ |- _ => injection H as H; subst
  | H : (_, _) = (_, _) |- _ => injection H as ?; subst
  end.

(** ** Generic lemmas *)

Lemma bind_return {A B} (a : A) (f : A → outcome B) : (x ← Return a; f x) = f a.
Proof. done. Qed.

Lemma is_return_inv {A} (o : outcome A) : is_return o = true → ∃ a, o = Return a.
Proof. destruct o; [by eexists|done]. Qed.

Lemma value_or_return {A} (d : A) (o : outcome A) : is_return o = true → o = Return (value_or d o).
Proof. by destruct o. Qed.

Lemma for_each_app {A B} (f : A → B → outcome A) a l1 l2 :
  for_each f a (l1 ++ l2) = (a' ← for_each f a l1; for_each f a' l2).
Proof.
  revert a; induction l1 as [|b l1 IH]; intros a; simpl; [done|].
  destruct (f a b) as [a'|m]; simpl; [apply IH|done].
Qed.

(** Loop rule: an invariant indexed by the elements still to be visited. *)
Lemma for_each_ind {A B} (I : A → list B → Prop) (f : A → B → outcome A) l a :
  I a l →
  (∀ a b l', I a (b :: l') → ∃ a', f a b = Return a' ∧ I a' l') →
  ∃ a', for_each f a l = Return a' ∧ I a' [].
Proof.
  intros Hi Hstep; revert a Hi; induction l as [|b l IH]; intros a Hi; simpl.
  - eauto.
  - destruct (Hstep _ _ _ Hi) as (a' & -> & Hi'). simpl. by apply IH.
Qed.

(** A loop that never panics is a [foldl]. *)
Lemma for_each_foldl {A B} (f : A → B → outcome A) (g : A → B → A) l a :
  (∀ a b, f a b = Return (g a b)) → for_each f a l = Return (foldl g a l).
Proof.
  intros Hfg; revert a; induction l as [|b l IH]; intros a; simpl; [done|].
  rewrite Hfg; simpl. apply IH.
Qed.

Lemma map_outcome_return {A B} (f : A → outcome B) (l : list A) (g : A → B) :
  (∀ a, a ∈ l → f a = Return (g a)) → map_outcome f l = Return (g <$> l).
Proof.
  induction l as [|a l IH]; intros Hf; simpl; [done|].
  rewrite Hf by set_solver. simpl.
  rewrite IH by set_solver. done.
Qed.

Lemma map_outcome_Forall2 {A B} (f : A → outcome B) l bs :
  map_outcome f l = Return bs ↔ Forall2 (λ a b, f a = Return b) l bs.
Proof.
  revert bs; induction l as [|a l IH]; intros bs; simpl.
  - split; [intros [= <-]; constructor|by inversion 1].
  - split.
    + intros H. destruct (f a) as [b|m] eqn:Ef; [|done]; simpl in H.
      destruct (map_outcome f l) as [bs'|m] eqn:El; [|done]; simpl in H.
      injection H as <-. constructor; [done|]. by apply IH.
    + inversion 1 as [|? b ? bs' Hf Hl]; simplify_eq.
      rewrite Hf; simpl. apply IH in Hl. by rewrite Hl.
Qed.

Lemma collect_result_Ok {T E} (l : list (result T E)) ts :
  collect_result l = Ok ts ↔ l = Ok <$> ts.
Proof.
  revert ts; induction l as [|[t|e] l IH]; intros ts; simpl.
  - destruct ts; naive_solver.
  - destruct (collect_result l) as [ts'|e] eqn:El; simpl.
    + split.
      * intros [= <-]. simpl. f_equal. by apply IH.
      * destruct ts as [|t' ts]; simpl; [done|]. intros [= -> Hl].
        f_equal. f_equal. apply IH in Hl. congruence.
    + split; [done|]. destruct ts as [|t' ts]; simpl; [done|].
      intros [= -> Hl]. apply IH in Hl. done.
  - split; [done|]. by destruct ts.
Qed.

Lemma list_min_None l : list_min l = None ↔ l = [].
Proof. by destruct l. Qed.

Lemma list_min_Some l m : list_min l = Some m ↔ m ∈ l ∧ ∀ x, x ∈ l → (m ≤ x)%Z.
Proof.
  revert m; induction l as [|y l IH]; intros m; simpl; [set_solver|].
  destruct (list_min l) as [n|] eqn:E.
  - destruct (proj1 (IH n) eq_refl) as [Hn Hle]. split.
    + intros [= <-]. split.
      * destruct (Z.min_spec y n) as [[_ ->]|[_ ->]]; set_solver.
      * intros x [->|Hx]%elem_of_cons; [lia|]. specialize (Hle x Hx). lia.
    + intros [Hm Hall]. f_equal. apply Z.le_antisymm.
      * apply elem_of_cons in Hm as [->|Hm]; [lia|]. specialize (Hle m Hm). lia.
      * pose proof (Hall y ltac:(set_solver)). pose proof (Hall n ltac:(set_solver)). lia.
  - apply list_min_None in E as ->. split.
    + intros [= ->]. split; [set_solver|]. intros x. rewrite list_elem_of_singleton. lia.
    + intros [->%list_elem_of_singleton _]. done.
Qed.

(** Only the elements of the list matter, not their order or multiplicity. *)
Lemma list_min_ext l1 l2 : (∀ x, x ∈ l1 ↔ x ∈ l2) → list_min l1 = list_min l2.
Proof.
  intros Heq. destruct (list_min l1) as [m|] eqn:E1.
  - symmetry. apply list_min_Some. apply list_min_Some in E1. naive_solver.
  - apply list_min_None in E1 as ->. destruct l2 as [|x l2]; [done|].
    exfalso. apply (not_elem_of_nil x), Heq. set_solver.
Qed.

(** [filter] on a finite map, by cases. *)
Lemma lookup_filter_case `{Countable K} {A} (P : K * A → Prop) `{∀ x, Decision (P x)}
    (m : gmap K A) i :
  filter P m !! i =
    match m !! i with
    | Some x => if decide (P (i, x)) then Some x else None
    | None => None
    end.
Proof.
  rewrite map_lookup_filter. destruct (m !! i) as [x|]; simpl; [|done].
  by repeat case_guard || case_decide.
Qed.

(** A filter that keeps nothing. *)
Lemma list_filter_nil {A} (P : A → Prop) `{∀ x, Decision (P x)} (l : list A) :
  (∀ x, x ∈ l → ¬ P x) → filter P l = [].
Proof.
  induction l as [|a l IH]; intros Hn; [done|]. rewrite filter_cons, decide_False by set_solver.
  apply IH. set_solver.
Qed.

Lemma string_app_cons x (a b : string) : String x a +:+ b = String x (a +:+ b).
Proof. done. Qed.

Lemma string_app_assoc (a b c : string) : (a +:+ b) +:+ c = a +:+ (b +:+ c).
Proof. induction a as [|x a IH]; [done|]. by rewrite !string_app_cons, IH. Qed.

Lemma string_app_nil_r (a : string) : a +:+ "" = a.
Proof. induction a as [|x a IH]; [done|]. by rewrite string_app_cons, IH. Qed.

Lemma string_app_inj_l (a b c : string) : a +:+ b = a +:+ c → b = c.
Proof. induction a as [|x a IH]; [done|]. rewrite !string_app_cons. by intros [= ?%IH]. Qed.

Lemma exists_last_or_nil {A} (l : list A) : l = [] ∨ ∃ l' x, l = l' ++ [x].
Proof. destruct l as [|x l] using rev_ind; [by left|right; by do 2 eexists]. Qed.
