(* ===== verification/RustStd.v ===== *)
(** * The parts of Rust's standard library the sources rely on

    Iteration order of hash maps and sets, [Instant] and [Duration],
    byte-string helpers of [str], and 64-bit counters. *)

From S2P Require Import Prelude.

(** ** Iteration order of [HashMap] and [HashSet]

    The order in which a hash map or set is iterated is unspecified: it depends
    on the hasher's random keys.  [HashOrder] is an arbitrary such order; every
    theorem of the development is proved for all of them. *)
Class HashOrder : Type := {
  set_iter : ∀ {A : Type} `{Countable A}, gset A → list A;
  map_iter : ∀ {K V : Type} `{Countable K}, gmap K V → list (K * V);
  set_iter_perm : ∀ {A : Type} `{Countable A} (s : gset A),
    set_iter s ≡ₚ elements s;
  map_iter_perm : ∀ {K V : Type} `{Countable K} (m : gmap K V),
    map_iter m ≡ₚ map_to_list m
}.

(** Two orders that witnesses run with: stdpp's enumeration order and its
    reverse. *)
#[refine] Definition canonical_order : HashOrder := {|
  set_iter A _ _ s := elements s;
  map_iter K V _ _ m := map_to_list m
|}.
Proof. all: intros; reflexivity. Defined.

#[refine] Definition reversed_order : HashOrder := {|
  set_iter A _ _ s := reverse (elements s);
  map_iter K V _ _ m := reverse (map_to_list m)
|}.
Proof. all: intros; apply reverse_Permutation. Defined.

(** [HashMap::keys] and [HashMap::values] follow the map's own order. *)
Definition map_keys `{!HashOrder} {K V} `{Countable K} (m : gmap K V) : list K :=
  (map_iter m).*1.
Definition map_values `{!HashOrder} {K V} `{Countable K} (m : gmap K V) : list V :=
  (map_iter m).*2.

(** ** [Instant] and [Duration], in nanoseconds

    On the platforms the broker is built for, an [Instant] is a [timespec] with
    a signed 64-bit number of seconds; adding a [Duration] panics when the
    seconds overflow. *)
Definition NANOS_PER_SEC : Z := 1000000000.
Definition INSTANT_MAX : Z := (2 ^ 63 - 1) * NANOS_PER_SEC + (NANOS_PER_SEC - 1).
Definition duration_from_secs (s : Z) : Z := s * NANOS_PER_SEC.

(** [Instant + Duration]. *)
Definition instant_add (t d : Z) : outcome Z :=
  if decide (t + d ≤ INSTANT_MAX)%Z then Return (t + d)%Z
  else Panic "overflow when adding duration to instant".

(** [Instant::duration_since], which saturates at zero. *)
Definition duration_since (t earlier : Z) : Z := Z.max 0 (t - earlier).

(** ** [u64] counters *)
Definition U64_MAX : Z := 2 ^ 64 - 1.
Definition wrapping_add (a b : Z) : Z := (a + b) mod 2 ^ 64.

(** [a += b] on [u64]: a panic when overflow checks are compiled in (debug
    profile), a wrap-around otherwise (release profile). *)
Definition add_u64 (overflow_checks : bool) (a b : Z) : outcome Z :=
  if decide (a + b ≤ U64_MAX)%Z then Return (a + b)%Z
  else if overflow_checks then Panic "attempt to add with overflow"
  else Return (wrapping_add a b).

(** [u64::from_str]: decimal digits with an optional [+] sign; the failure is the
    kind of [ParseIntError]. *)
Inductive IntErrorKind := EmptyInt | InvalidDigit | PosOverflow.

Fixpoint parse_digits (acc : Z) (s : string) : result Z IntErrorKind :=
  match s with
  | EmptyString => Ok acc
  | String c s' =>
      let n := Z.of_nat (nat_of_ascii c) in
      if decide (48 ≤ n ∧ n ≤ 57)%Z then
        let acc := (acc * 10 + (n - 48))%Z in
        if decide (acc ≤ U64_MAX)%Z then parse_digits acc s' else Err PosOverflow
      else Err InvalidDigit
  end.

Definition parse_u64 (s : string) : result Z IntErrorKind :=
  match s with
  | EmptyString => Err EmptyInt
  | String "+" EmptyString => Err InvalidDigit
  | String "+" s' => parse_digits 0 s'
  | _ => parse_digits 0 s
  end.

(** ** [Debug] of [str]

    A string literal: quotes, backslashes and control characters are escaped; bytes
    of longer characters are kept. *)
Definition hex_digit (n : nat) : ascii :=
  if decide (n < 10) then ascii_of_nat (48 + n) else ascii_of_nat (87 + n).
Definition hex_of_byte (n : nat) : string :=
  (if decide (n < 16) then EmptyString else String (hex_digit (n / 16)) EmptyString)
  +:+ String (hex_digit (n mod 16)) EmptyString.

Definition escape_debug (c : ascii) : string :=
  let n := nat_of_ascii c in
  if decide (n = 0) then "\0"
  else if decide (n = 9) then "\t"
  else if decide (n = 10) then "\n"
  else if decide (n = 13) then "\r"
  else if decide (n = 34 ∨ n = 92) then String "092" (String c EmptyString)
  else if decide (n < 32 ∨ n = 127) then "\u{" +:+ hex_of_byte n +:+ "}"
  else String c EmptyString.

Fixpoint escape_debug_str (s : string) : string :=
  match s with
  | EmptyString => EmptyString
  | String c s => escape_debug c +:+ escape_debug_str s
  end.
Definition str_debug (s : string) : string :=
  String "034" (escape_debug_str s) +:+ String "034" EmptyString.

(** The output of a derived [Debug] of a struct. *)
Definition struct_debug (name : string) (fields : list (string * string)) : string :=
  name +:+ " { " +:+ String.concat ", " ((λ '(f, v), f +:+ ": " +:+ v) <$> fields) +:+ " }".

(** ** Byte strings *)
Definition to_ascii_lowercase (c : ascii) : ascii :=
  let n := nat_of_ascii c in
  if decide (65 ≤ n ∧ n ≤ 90) then ascii_of_nat (n + 32) else c.

(** [str::eq_ignore_ascii_case] / [[u8]::eq_ignore_ascii_case]. *)
Fixpoint eq_ignore_ascii_case (a b : string) : bool :=
  match a, b with
  | EmptyString, EmptyString => true
  | String x a', String y b' =>
      bool_decide (to_ascii_lowercase x = to_ascii_lowercase y)
      && eq_ignore_ascii_case a' b'
  | _, _ => false
  end.

(** [str::to_ascii_lowercase]. *)
Fixpoint lowercase (s : string) : string :=
  match s with
  | EmptyString => EmptyString
  | String c s' => String (to_ascii_lowercase c) (lowercase s')
  end.

(** [str::replace]: the non-overlapping occurrences of [from] (not empty), left
    to right.  [skip] counts the characters of the current occurrence that are
    still to be passed over. *)
Fixpoint replace_from (from to : string) (skip : nat) (s : string) : string :=
  match s with
  | EmptyString => EmptyString
  | String c s' =>
      match skip with
      | S k => replace_from from to k s'
      | O => if String.prefix from s
             then to +:+ replace_from from to (String.length from - 1) s'
             else String c (replace_from from to 0 s')
      end
  end.
Definition str_replace (from to s : string) : string := replace_from from to 0 s.

(** ** Lemmas *)

Section hash_order.
Context `{!HashOrder}.

Lemma elem_of_set_iter `{Countable A} (s : gset A) x : x ∈ set_iter s ↔ x ∈ s.
Proof. by rewrite set_iter_perm, elem_of_elements. Qed.

Lemma set_iter_nil `{Countable A} (s : gset A) : set_iter s = [] ↔ s = ∅.
Proof.
  rewrite <- leibniz_equiv_iff, <- elements_empty_iff.
  pose proof (set_iter_perm s) as Hp.
  split; intros E; rewrite E in Hp; by apply Permutation_nil.
Qed.

Lemma NoDup_set_iter `{Countable A} (s : gset A) : NoDup (set_iter s).
Proof. rewrite set_iter_perm. apply NoDup_elements. Qed.

Lemma elem_of_map_iter `{Countable K} {V} (m : gmap K V) k v :
  (k, v) ∈ map_iter m ↔ m !! k = Some v.
Proof. by rewrite map_iter_perm, elem_of_map_to_list. Qed.

Lemma NoDup_map_iter `{Countable K} {V} (m : gmap K V) : NoDup ((map_iter m).*1).
Proof. rewrite map_iter_perm. apply NoDup_fst_map_to_list. Qed.

Lemma elem_of_map_keys `{Countable K} {V} (m : gmap K V) k :
  k ∈ map_keys m ↔ is_Some (m !! k).
Proof.
  unfold map_keys. rewrite list_elem_of_fmap. split.
  - intros ([k' v] & -> & Hk%elem_of_map_iter). by exists v.
  - intros [v Hv]. exists (k, v). split; [done|]. by apply elem_of_map_iter.
Qed.

Lemma elem_of_map_values `{Countable K} {V} (m : gmap K V) v :
  v ∈ map_values m ↔ ∃ k, m !! k = Some v.
Proof.
  unfold map_values. rewrite list_elem_of_fmap. split.
  - intros ([k v'] & -> & Hk%elem_of_map_iter). by exists k.
  - intros [k Hk]. exists (k, v). split; [done|]. by apply elem_of_map_iter.
Qed.

Lemma map_iter_nil `{Countable K} {V} (m : gmap K V) : map_iter m = [] ↔ m = ∅.
Proof.
  rewrite <- map_to_list_empty_iff. pose proof (map_iter_perm m) as Hp.
  split; intros E; rewrite E in Hp; by apply Permutation_nil.
Qed.

Lemma length_map_iter `{Countable K} {V} (m : gmap K V) :
  length (map_iter m) = size m.
Proof. by rewrite map_iter_perm, length_map_to_list. Qed.
End hash_order.

Lemma eq_ignore_ascii_case_iff a b :
  eq_ignore_ascii_case a b = true ↔ lowercase a = lowercase b.
Proof.
  revert b; induction a as [|x a IH]; intros [|y b]; simpl; [done..|].
  rewrite andb_true_iff, bool_decide_eq_true, IH.
  split; [by intros [-> ->]|by intros [= -> ->]].
Qed.

(** A string that begins with [p] up to case, as the prefix test computes it. *)
Lemma prefix_ignore_ascii_case_iff s p :
  bool_decide (String.length p ≤ String.length s)
    && eq_ignore_ascii_case (String.substring 0 (String.length p) s) p = true ↔
  ∃ rest, lowercase s = lowercase p +:+ rest.
Proof.
  rewrite andb_true_iff, bool_decide_eq_true.
  revert s; induction p as [|c p IH]; intros s; simpl.
  - split; [by eexists|]. intros _. split; [lia|]. by destruct s.
  - destruct s as [|x s]; simpl.
    + split; [lia|]. by intros [rest [=]].
    + specialize (IH s). rewrite andb_true_iff, bool_decide_eq_true. split.
      * intros (Hlen & Hc & Heq). destruct (proj1 IH) as [rest Hr]; [split; [lia|done]|].
        exists rest. by rewrite Hc, Hr.
      * intros [rest [= Hc Hr]]. destruct (proj2 IH) as [Hlen Heq]; [by exists rest|].
        split_and!; [lia|done|done].
Qed.

Lemma duration_since_gt t earlier d :
  (0 ≤ d)%Z → (duration_since t earlier > d ↔ t > earlier + d)%Z.
Proof. unfold duration_since. lia. Qed.

#[export] Hint Resolve NoDup_set_iter NoDup_map_iter : chariott.
