(* ===== verification/Proto.v ===== *)
(** * The messages of the gRPC contracts

    The Rust types are generated from the [.proto] files of
    [intent_brokering/proto]; a message is a record of its fields, a [oneof] an
    inductive type, an absent message field [None].  The aliases [*Enum] and
    [*Message] are those of [proto.rs/src/lib.rs].  Floating point payloads are
    kept as their bit patterns, [i32] enum fields as integers. *)

From S2P Require Import Prelude.

(** ** common.proto *)
Record Any := mkAny { type_url : string; any_value : list Byte.byte }.
Record Blob := mkBlob { media_type : string; bytes : list Byte.byte }.
Record Timestamp := mkTimestamp { seconds : Z; nanos : Z }.

Inductive ValueEnum : Type :=
  | VNull (v : Z)
  | VAny (v : Any)
  | VBool (v : bool)
  | VInt32 (v : Z)
  | VInt64 (v : Z)
  | VFloat32 (bits : Z)
  | VFloat64 (bits : Z)
  | VString (v : string)
  | VTimestamp (v : Timestamp)
  | VList (v : list ValueMessage)
  | VMap (v : list (string * ValueMessage))
  | VBlob (v : Blob)
with ValueMessage : Type :=
  | mkValueMessage (value : option ValueEnum).

Definition value (m : ValueMessage) : option ValueEnum :=
  match m with mkValueMessage v => v end.

Record DiscoverIntent := mkDiscoverIntent {}.
Record InspectIntent := mkInspectIntent { query : string }.
Record ReadIntent := mkReadIntent { read_key : string }.
Record WriteIntent := mkWriteIntent { write_key : string; write_value : option ValueMessage }.
Record InvokeIntent := mkInvokeIntent { command : string; args : list ValueMessage }.
Record SubscribeIntent := mkSubscribeIntent { channel_id : string; sources : list string }.

Inductive IntentEnum :=
  | IDiscover (i : DiscoverIntent)
  | IInvoke (i : InvokeIntent)
  | IRead (i : ReadIntent)
  | IWrite (i : WriteIntent)
  | IInspect (i : InspectIntent)
  | ISubscribe (i : SubscribeIntent).

(** Messages can be compared, floating point payloads by their bit patterns. *)
#[export] Instance byte_eq_dec : EqDecision Byte.byte := Byte.byte_eq_dec.
#[export] Instance Any_eq_dec : EqDecision Any.
Proof. solve_decision. Defined.
#[export] Instance Blob_eq_dec : EqDecision Blob.
Proof. solve_decision. Defined.
#[export] Instance Timestamp_eq_dec : EqDecision Timestamp.
Proof. solve_decision. Defined.

Fixpoint ValueEnum_eqd (v w : ValueEnum) {struct v} : Decision (v = w)
with ValueMessage_eqd (m n : ValueMessage) {struct m} : Decision (m = n).
Proof.
  - refine (match v, w with
    | VNull a, VNull b => cast_if (decide (a = b))
    | VAny a, VAny b => cast_if (decide (a = b))
    | VBool a, VBool b => cast_if (decide (a = b))
    | VInt32 a, VInt32 b => cast_if (decide (a = b))
    | VInt64 a, VInt64 b => cast_if (decide (a = b))
    | VFloat32 a, VFloat32 b => cast_if (decide (a = b))
    | VFloat64 a, VFloat64 b => cast_if (decide (a = b))
    | VString a, VString b => cast_if (decide (a = b))
    | VTimestamp a, VTimestamp b => cast_if (decide (a = b))
    | VList a, VList b => cast_if (@list_eq_dec _ ValueMessage_eqd a b)
    | VMap a, VMap b => cast_if (@list_eq_dec _ (@prod_eq_dec _ _ _ ValueMessage_eqd) a b)
    | VBlob a, VBlob b => cast_if (decide (a = b))
    | _, _ => right _
    end); clear ValueEnum_eqd ValueMessage_eqd; abstract congruence.
  - refine (match m, n with
    | mkValueMessage a, mkValueMessage b => cast_if (@option_eq_dec _ ValueEnum_eqd a b)
    end); clear ValueEnum_eqd ValueMessage_eqd; abstract congruence.
Defined.
#[export] Instance ValueEnum_eq_dec : EqDecision ValueEnum := ValueEnum_eqd.
#[export] Instance ValueMessage_eq_dec : EqDecision ValueMessage := ValueMessage_eqd.
#[export] Instance DiscoverIntent_eq_dec : EqDecision DiscoverIntent.
Proof. solve_decision. Defined.
#[export] Instance InspectIntent_eq_dec : EqDecision InspectIntent.
Proof. solve_decision. Defined.
#[export] Instance ReadIntent_eq_dec : EqDecision ReadIntent.
Proof. solve_decision. Defined.
#[export] Instance WriteIntent_eq_dec : EqDecision WriteIntent.
Proof. solve_decision. Defined.
#[export] Instance InvokeIntent_eq_dec : EqDecision InvokeIntent.
Proof. solve_decision. Defined.
#[export] Instance SubscribeIntent_eq_dec : EqDecision SubscribeIntent.
Proof. solve_decision. Defined.
#[export] Instance IntentEnum_eq_dec : EqDecision IntentEnum.
Proof. solve_decision. Defined.

Record IntentMessage := mkIntentMessage { intent_enum : option IntentEnum }.

Record DiscoverService := mkDiscoverService {
  ds_url : string;
  schema_kind : string;
  schema_reference : string;
  metadata : gmap string ValueMessage
}.
Record InspectEntry := mkInspectEntry {
  path : string;
  items : gmap string ValueMessage
}.

Record DiscoverFulfillment := mkDiscoverFulfillment { services : list DiscoverService }.
Record InspectFulfillment := mkInspectFulfillment { entries : list InspectEntry }.
Record ReadFulfillment := mkReadFulfillment { read_result : option ValueMessage }.
Record WriteFulfillment := mkWriteFulfillment {}.
Record InvokeFulfillment := mkInvokeFulfillment { return_value : option ValueMessage }.
Record SubscribeFulfillment := mkSubscribeFulfillment {}.

Inductive FulfillmentEnum :=
  | FDiscover (f : DiscoverFulfillment)
  | FInspect (f : InspectFulfillment)
  | FRead (f : ReadFulfillment)
  | FWrite (f : WriteFulfillment)
  | FInvoke (f : InvokeFulfillment)
  | FSubscribe (f : SubscribeFulfillment).

Record FulfillmentMessage := mkFulfillmentMessage { fulfillment_enum : option FulfillmentEnum }.

(** ** provider.proto *)
Record ProviderFulfillRequest := mkProviderFulfillRequest { pf_intent : option IntentMessage }.
Record FulfillResponse := mkFulfillResponse { fulfillment : option FulfillmentMessage }.

(** ** runtime.proto *)
Record IntentServiceRegistration := mkIntentServiceRegistration {
  isr_name : string;
  isr_version : string;
  isr_url : string;
  isr_locality : Z
}.
Record IntentRegistration := mkIntentRegistration { ir_namespace : string; ir_intent : Z }.

Record AnnounceRequest := mkAnnounceRequest { announce_service : option IntentServiceRegistration }.
Record AnnounceResponse := mkAnnounceResponse { registration_state : Z }.
Record RegisterRequest := mkRegisterRequest {
  register_service : option IntentServiceRegistration;
  register_intents : list IntentRegistration
}.
Record RegisterResponse := mkRegisterResponse {}.
Record RuntimeFulfillRequest := mkRuntimeFulfillRequest {
  rf_namespace : string;
  rf_intent : option IntentMessage
}.

Inductive RegistrationState := Announced | NotChanged.
(** [RegistrationState as i32]. *)
Definition RegistrationState_as_i32 (s : RegistrationState) : Z :=
  match s with Announced => 0 | NotChanged => 1 end.

(** ** streaming.proto *)
Record Event := mkEvent {
  ev_source : string;
  ev_value : option ValueMessage;
  ev_seq : Z;
  ev_timestamp : option Timestamp
}.
