(* ===== verification/Common.v ===== *)
(** * The crate [intent_brokering_common]: errors, configuration, status

    [error.rs], [ext.rs] and [config.rs], with the two third-party data types
    every component uses: a [tonic::Status] is the code and the message it is
    built from, and [url::Url] is a parameter. *)

From S2P Require Import Prelude RustStd.

(** ** [tonic::Status] *)
Inductive Code := Unknown | InvalidArgument | NotFound | AlreadyExists
  | FailedPrecondition | Internal.
Record Status := mkStatus { code : Code; message : string }.

#[export] Instance Code_eq_dec : EqDecision Code.
Proof. solve_decision. Defined.
#[export] Instance Status_eq_dec : EqDecision Status.
Proof. solve_decision. Defined.

(** ** [url::Url]

    The sources parse a URL, print it, and compare it as part of a hash key. *)
Class UrlLib : Type := {
  Url : Type;
  Url_eq_dec :: EqDecision Url;
  Url_countable :: Countable Url;
  url_parse : string → option Url;
  url_to_string : Url → string
}.

(** An instance for witnesses: absolute URLs of one of the schemes the sources
    use, kept verbatim. *)
Definition string_url : UrlLib := {|
  Url := string;
  url_parse s :=
    if String.prefix "http://" s || String.prefix "https://" s then Some s else None;
  url_to_string s := s
|}.

(** ** error.rs *)
(** An error is a description and, when it wraps another one, its source.  The source
    is any [dyn Error]: an error of this crate, or one of another crate, of which the
    sources use the two outputs. *)
Inductive Error :=
  | mkError (description : string) (source : option Error)
  | ForeignError (display debug : string).

Definition Error_new (description : string) : Error := mkError description None.
Definition Error_from_error (description : string) (src : Error) : Error :=
  mkError description (Some src).
Definition Error_message (e : Error) : string :=
  match e with mkError d _ | ForeignError d _ => d end.
Definition Error_source (e : Error) : option Error :=
  match e with mkError _ s => s | ForeignError _ _ => None end.
(** [Display for Error] prints the description only. *)
Definition Error_display (e : Error) : string := Error_message e.
(** The derived [Debug]. *)
Fixpoint Error_debug (e : Error) : string :=
  match e with
  | mkError d s =>
      struct_debug "Error" [("description", str_debug d);
        ("source", match s with None => "None" | Some s => "Some(" +:+ Error_debug s +:+ ")" end)]
  | ForeignError _ debug => debug
  end.

(** [std::io::Error] made from a kind and a message: the text and the name of its
    kind, and its own text. *)
Record IoError := mkIoError { io_kind : string; io_kind_name : string; io_message : string }.
Definition io_as_source (e : IoError) : Error :=
  ForeignError (io_message e)
    (struct_debug "Custom" [("kind", io_kind_name e); ("error", str_debug (io_message e))]).
(** [From<std::io::Error>]. *)
Definition Error_from_io (val : IoError) : Error :=
  Error_from_error (io_kind val) (io_as_source val).

(** [ResultExt::map_err_with]. *)
Definition map_err_with {T} (r : result T Error) (description : string) : result T Error :=
  map_err (Error_from_error description) r.

(** ** ext.rs: [OptionExt::ok] *)
Definition option_ext_ok {T E} (o : option (result T E)) : result (option T) E :=
  match o with
  | None => Ok None
  | Some r => result_map Some r
  end.

(** ** config.rs *)
(** [var_os] is the process environment; [None] for a variable that is not set.
    A value that is not valid Unicode makes [to_str().unwrap()] panic; [OsStr]
    values are byte strings and [utf8] tells the valid ones. *)
Section config.
Context (var_os : string → option string) (utf8 : string → bool).
Context {T E : Type} (from_str : string → result T E).

Definition os_to_str (s : string) : outcome string :=
  if utf8 s then Return s
  else Panic "called `Option::unwrap()` on a `None` value".

Definition env (key : string) : outcome (option T) :=
  match var_os key with
  | None => Return None
  | Some s => s ← os_to_str s; t ← unwrap (from_str s); Return (Some t)
  end.

Definition try_env (key : string) : outcome (option (result T E)) :=
  match var_os key with
  | None => Return None
  | Some s => s ← os_to_str s; Return (Some (from_str s))
  end.
End config.
