(* ===== verification/BuildScripts.v ===== *)
(** * The build scripts ([build.rs] of the five crates that have one)

    They compile the [.proto] contracts.  [tonic_build] and the files it writes are
    parameters: a compiler that is called with its options, the contracts and the
    include directories, and answers whether it succeeded. *)

From S2P Require Import Prelude RustStd Common.

(** The options of [tonic_build::configure()] that the scripts set. *)
Record BuildOptions := mkBuildOptions {
  opt_build_client : bool;
  opt_build_server : bool;
  opt_file_descriptor_set_path : option string
}.

(** One call of the compiler: options, contracts and include directories. *)
Record Compilation := mkCompilation {
  co_options : BuildOptions;
  co_protos : list string;
  co_includes : list string
}.

Section scripts.
(** [env::var], the defaults of [configure()], [compile], and [compile_protos]. *)
Context (env_var : string → result string Error).
Context (configure : BuildOptions).
Context (compile : Compilation → result unit Error) (compile_protos : string → result unit Error).

(** [PathBuf::join] with a relative path. *)
Definition path_join (dir file : string) : string :=
  match String.get (String.length dir - 1) dir with
  | None => file
  | Some c => if decide (c = "/"%char) then dir +:+ file else dir +:+ "/" +:+ file
  end.

(** [build.rs] of the workspace: what it prints for cargo, and its result. *)
Definition cargo_cfg_build (profile : string) : string :=
  "cargo:rustc-cfg=build=" +:+ str_debug profile.
Definition broker_compilation (out_dir : string) : Compilation :=
  mkCompilation (mkBuildOptions true true (Some (path_join out_dir "descriptor.bin")))
    ["./proto/intent_brokering/runtime/v1/runtime.proto";
     "./proto/intent_brokering/provider/v1/provider.proto"] ["./proto/"].
Definition broker_build_main : list string * result unit Error :=
  (match env_var "PROFILE" with Ok profile => [cargo_cfg_build profile] | Err _ => [] end,
   and_then (env_var "OUT_DIR") (λ out_dir, compile (broker_compilation out_dir))).

(** [intent_brokering/proto.rs/build.rs]. *)
Definition compile_with_common (path : string) : result unit Error :=
  compile (mkCompilation configure [path] ["../proto/"]).
Definition proto_build_main : result unit Error :=
  and_then (compile_with_common "../proto/intent_brokering/runtime/v1/runtime.proto") (λ _,
  and_then (compile_with_common "../proto/intent_brokering/provider/v1/provider.proto") (λ _,
  and_then (compile_with_common "../proto/intent_brokering/streaming/v1/streaming.proto") (λ _,
  Ok tt))).

(** [intent_brokering/examples/common/build.rs]. *)
Definition examples_build_main : result unit Error :=
  and_then (compile (mkCompilation configure
    ["../applications/proto/examples/detection/v1/detection.proto"]
    ["../../proto/"; "../applications/proto/examples/detection/v1/"])) (λ _, Ok tt).

(** [service_discovery/proto_build/build.rs] and [samples/proto_build/build.rs]. *)
Definition discovery_build_main : result unit Error :=
  and_then (compile_protos "../proto/core/v1/service_registry.proto") (λ _, Ok tt).
Definition samples_build_main : result unit Error :=
  and_then (compile_protos "../proto/v1/hello_world_service.proto") (λ _, Ok tt).

(** The contracts of the broker are built exactly when each of them compiles; the
    first failure is the result and nothing after it is compiled. *)
Theorem proto_build_main_spec :
  (proto_build_main = Ok tt ↔
     Forall (λ p, compile_with_common p = Ok tt)
       ["../proto/intent_brokering/runtime/v1/runtime.proto";
        "../proto/intent_brokering/provider/v1/provider.proto";
        "../proto/intent_brokering/streaming/v1/streaming.proto"]) ∧
  ∀ e, compile_with_common "../proto/intent_brokering/runtime/v1/runtime.proto" = Err e →
    proto_build_main = Err e.
Proof.
  unfold proto_build_main. split.
  - rewrite !Forall_cons, Forall_nil.
    destruct (compile_with_common "../proto/intent_brokering/runtime/v1/runtime.proto") as [[]|];
      [|by split; [|intros ([=] & _)]].
    destruct (compile_with_common "../proto/intent_brokering/provider/v1/provider.proto") as [[]|];
      [|by split; [|intros (_ & [=] & _)]].
    destruct (compile_with_common "../proto/intent_brokering/streaming/v1/streaming.proto") as [[]|];
      [by split|by split; [|intros (_ & _ & [=] & _)]].
  - by intros e ->.
Qed.

(** The broker is not built without an output directory, whatever the profile. *)
Theorem broker_build_needs_out_dir e :
  env_var "OUT_DIR" = Err e → broker_build_main.2 = Err e.
Proof. unfold broker_build_main. by intros ->. Qed.
End scripts.

Example cargo_cfg_debug :
  cargo_cfg_build "debug" = "cargo:rustc-cfg=build=" +:+ String "034" "debug" +:+ String "034" EmptyString.
Proof. vm_compute. reflexivity. Qed.
Example join_descriptor : path_join "/out" "descriptor.bin" = "/out/descriptor.bin".
Proof. vm_compute. reflexivity. Qed.
