(* ===== verification/Registry.v ===== *)
(** * The registry of intents ([intent_brokering/src/registry.rs])

    The data types of the registry, the [Observer] interface its changes are
    reported through, and the operations [touch], [prune] and [upsert].  An
    operation threads the registry and the store [W] the observer's shared
    handles point into; the iteration order of every hash map and set is that
    of an arbitrary [HashOrder]. *)

From S2P Require Import Prelude RustStd Common.

Definition SYSTEM_NAMESPACE : string := "system".
Definition SYSTEM_NAMESPACE_PREFIX : string := "system.".

Inductive ExecutionLocality := Local | Cloud.

Inductive IntentKind := Discover | Inspect | Read | Write | Invoke | Subscribe.

(** [Display for IntentKind]. *)
Definition IntentKind_to_string (k : IntentKind) : string :=
  match k with
  | Discover => "discover"
  | Inspect => "inspect"
  | Read => "read"
  | Write => "write"
  | Invoke => "invoke"
  | Subscribe => "subscribe"
  end.

Record ServiceId := mkServiceId { sid_name : string; sid_version : string }.

Record IntentConfiguration := mkIntentConfiguration {
  namespace : string;
  intent : IntentKind
}.
Definition into_namespaced_intent (ic : IntentConfiguration) : string * IntentKind :=
  (namespace ic, intent ic).

#[export] Instance ExecutionLocality_eq_dec : EqDecision ExecutionLocality.
Proof. solve_decision. Defined.
#[export] Instance ExecutionLocality_countable : Countable ExecutionLocality.
Proof.
  refine (inj_countable' (λ l, match l with Local => 0 | Cloud => 1 end)
    (λ n, match n with 0 => Local | _ => Cloud end) _).
  by intros [].
Defined.
#[export] Instance IntentKind_eq_dec : EqDecision IntentKind.
Proof. solve_decision. Defined.
#[export] Instance IntentKind_countable : Countable IntentKind.
Proof.
  refine (inj_countable'
    (λ k, match k with Discover => 0 | Inspect => 1 | Read => 2 | Write => 3
                     | Invoke => 4 | Subscribe => 5 end)
    (λ n, match n with 0 => Discover | 1 => Inspect | 2 => Read | 3 => Write
                     | 4 => Invoke | _ => Subscribe end) _).
  by intros [].
Defined.
#[export] Instance ServiceId_eq_dec : EqDecision ServiceId.
Proof. solve_decision. Defined.
#[export] Instance ServiceId_countable : Countable ServiceId.
Proof.
  refine (inj_countable' (λ i, (sid_name i, sid_version i))
    (λ p, mkServiceId p.1 p.2) _).
  by intros [].
Defined.
#[export] Instance IntentConfiguration_eq_dec : EqDecision IntentConfiguration.
Proof. solve_decision. Defined.
#[export] Instance IntentConfiguration_countable : Countable IntentConfiguration.
Proof.
  refine (inj_countable' (λ i, (namespace i, intent i))
    (λ p, mkIntentConfiguration p.1 p.2) _).
  by intros [].
Defined.

(** ** Configuration *)
Record Config := mkConfig { entry_ttl : Z }.
Definition ENTRY_TTL_MIN : Z := duration_from_secs 2.
Definition set_entry_ttl_bounded (c : Config) (value : Z) : Config :=
  mkConfig (Z.max value ENTRY_TTL_MIN).
Definition Config_default : Config := mkConfig (duration_from_secs 15).

Inductive Specificity := Default | Specific.
#[export] Instance Specificity_eq_dec : EqDecision Specificity.
Proof. solve_decision. Defined.

Section registry.
Context `{!UrlLib, !HashOrder}.

Record ServiceConfiguration := mkServiceConfiguration {
  sc_id : ServiceId;
  url : Url;
  locality : ExecutionLocality
}.

#[export] Instance ServiceConfiguration_eq_dec : EqDecision ServiceConfiguration.
Proof. solve_decision. Defined.
#[export] Instance ServiceConfiguration_countable : Countable ServiceConfiguration.
Proof.
  refine (inj_countable' (λ s, (sc_id s, url s, locality s))
    (λ p, mkServiceConfiguration p.1.1 p.1.2 p.2) _).
  by intros [].
Defined.

Inductive Change :=
  | Add (ic : IntentConfiguration) (services : gset ServiceConfiguration)
  | Modify (ic : IntentConfiguration) (services : gset ServiceConfiguration)
  | Remove (ic : IntentConfiguration).

(** [trait Observer]: a handle of type [T] whose [on_change] updates the store
    [W] the handle points into. *)
Class Observer (W T : Type) : Type :=
  on_change : T → list Change → W → outcome W.

(** [struct Composite] notifies its left observer, then its right one. *)
Record Composite (T U : Type) := mkComposite { comp_left : T; comp_right : U }.
#[export] Instance Composite_observer {W T U} `{!Observer W T, !Observer W U} :
  Observer W (Composite T U) := λ c changes w,
  w ← on_change (comp_left _ _ c) changes w;
  on_change (comp_right _ _ c) changes w.

(** ** [ChangeSeries] *)
Inductive ChangeKind := KAdd | KRemove | KModify.

Definition ChangeKind_debug (k : ChangeKind) : string :=
  match k with KAdd => "Add" | KRemove => "Remove" | KModify => "Modify" end.

(** The panic of a transition that must not happen. *)
Definition transition_bug (from : option ChangeKind) (to : ChangeKind) : string :=
  "Bug: Transition from "
  +:+ match from with
      | None => "None"
      | Some k => "Some(" +:+ ChangeKind_debug k +:+ ")"
      end
  +:+ " to " +:+ ChangeKind_debug to +:+ " must not be possible.".

Definition change (changes : gmap IntentConfiguration ChangeKind)
    (ic : IntentConfiguration) (to : ChangeKind)
    : outcome (gmap IntentConfiguration ChangeKind) :=
  let from := changes !! ic in
  value ← match from, to with
          | None, _ => Return to
          | Some KRemove, KAdd => Return KModify
          | Some KModify, KModify => Return KModify
          | Some KAdd, KModify => Return KAdd
          | _, _ => Panic (transition_bug from to)
          end;
  Return (<[ic := value]> changes).

(** ** The registry *)
Record Registry (T : Type) := mkRegistry {
  external_services_by_intent : gmap IntentConfiguration (gset ServiceConfiguration);
  known_services : gmap ServiceConfiguration Z;
  observer : T;
  config : Config
}.
#[global] Arguments mkRegistry {T}.
#[global] Arguments external_services_by_intent {T}.
#[global] Arguments known_services {T}.
#[global] Arguments observer {T}.
#[global] Arguments config {T}.

Section operations.
Context {W T : Type} `{!Observer W T}.

Definition Registry_new (obs : T) (cfg : Config) : Registry T :=
  mkRegistry ∅ ∅ obs cfg.

Definition has_service (r : Registry T) (key : ServiceConfiguration) : bool :=
  bool_decide (is_Some (known_services r !! key)).

Definition count_external_intents (r : Registry T) : nat :=
  size (external_services_by_intent r).

Definition touch (r : Registry T) (key : ServiceConfiguration) (timestamp : Z)
    : bool * Registry T :=
  match known_services r !! key with
  | Some _ =>
      (true, mkRegistry (external_services_by_intent r)
               (<[key := timestamp]> (known_services r)) (observer r) (config r))
  | None => (false, r)
  end.

(** One iteration of the [retain] over [external_services_by_intent]: the
    services that are no longer known are dropped, the change recorded, and
    an intent left without services removed. *)
Definition retain_step (known : gmap ServiceConfiguration Z)
    (acc : gmap IntentConfiguration ChangeKind
           * gmap IntentConfiguration (gset ServiceConfiguration))
    (entry : IntentConfiguration * gset ServiceConfiguration)
    : outcome (gmap IntentConfiguration ChangeKind
               * gmap IntentConfiguration (gset ServiceConfiguration)) :=
  let '(change_series, ext) := acc in
  let '(intent_configuration, services) := entry in
  let service_count := size services in
  let services := filter (λ service, is_Some (known !! service)) services in
  change_series ←
    (if decide (service_count ≠ size services) then
       match size services with
       | O => change change_series intent_configuration KRemove
       | _ => change change_series intent_configuration KModify
       end
     else Return change_series);
  Return (change_series,
          if decide (services = ∅) then delete intent_configuration ext
          else <[intent_configuration := services]> ext).

Definition prune_by (r : Registry T)
    (predicate : ServiceConfiguration → Z → bool)
    : outcome (gmap IntentConfiguration ChangeKind * Registry T) :=
  let initial_known_services_len := size (known_services r) in
  let known := filter (λ kv, predicate kv.1 kv.2 = false) (known_services r) in
  if decide (size known = initial_known_services_len) then
    Return (∅, mkRegistry (external_services_by_intent r) known (observer r) (config r))
  else
    '(change_series, ext) ←
      for_each (retain_step known) (∅, external_services_by_intent r)
        (map_iter (external_services_by_intent r));
    Return (change_series, mkRegistry ext known (observer r) (config r)).

(** [ChangeSeries::observe].  The changes are an iterator the observer
    consumes; indexing the registry panics on an intent it does not hold. *)
Definition change_of (r : Registry T) (entry : IntentConfiguration * ChangeKind)
    : outcome Change :=
  let '(ic, kind) := entry in
  let services := external_services_by_intent r !! ic in
  match kind, services with
  | KAdd, Some s => Return (Add ic s)
  | KModify, Some s => Return (Modify ic s)
  | KRemove, _ => Return (Remove ic)
  | _, None => Panic "no entry found for key"
  end.

Definition observe (change_series : gmap IntentConfiguration ChangeKind)
    (r : Registry T) (w : W) : outcome W :=
  changes ← map_outcome (change_of r) (map_iter change_series);
  if decide (0 < length changes) then on_change (observer r) changes w
  else Return w.

(** [values().map(|ts| ts + ttl).min()] *)
Fixpoint min_deadline (ttl : Z) (values : list Z) : outcome (option Z) :=
  match values with
  | [] => Return None
  | ts :: rest =>
      t ← instant_add ts ttl;
      m ← min_deadline ttl rest;
      Return (Some (match m with None => t | Some t' => Z.min t t' end))
  end.

Definition prune (r : Registry T) (timestamp : Z) (w : W)
    : outcome (Specificity * Z * Registry T * W) :=
  let ttl := entry_ttl (config r) in
  '(change_series, r) ←
    prune_by r (λ _ ts, bool_decide (duration_since timestamp ts > ttl)%Z);
  w ← observe change_series r w;
  next ← min_deadline ttl (map_values (known_services r));
  default ← instant_add timestamp ttl;
  let '(specificity, deadline) :=
    match next with Some t => (Specific, t) | None => (Default, default) end in
  Return (specificity, deadline, r, w).

Definition starts_with_ignore_ascii_case (string prefix : string) : bool :=
  bool_decide (String.length prefix ≤ String.length string)
  && eq_ignore_ascii_case (String.substring 0 (String.length prefix) string) prefix.

Definition is_system_namespace (ns : string) : bool :=
  eq_ignore_ascii_case ns SYSTEM_NAMESPACE
  || starts_with_ignore_ascii_case ns SYSTEM_NAMESPACE_PREFIX.

(** One iteration of the [for] loop of [upsert]. *)
Definition upsert_step (service_configuration : ServiceConfiguration)
    (acc : gmap IntentConfiguration ChangeKind
           * gmap IntentConfiguration (gset ServiceConfiguration))
    (intent_configuration : IntentConfiguration)
    : outcome (gmap IntentConfiguration ChangeKind
               * gmap IntentConfiguration (gset ServiceConfiguration)) :=
  let '(change_series, ext) := acc in
  change_series ←
    match ext !! intent_configuration with
    | Some _ => change change_series intent_configuration KModify
    | None => change change_series intent_configuration KAdd
    end;
  let services := default ∅ (ext !! intent_configuration) in
  Return (change_series,
          <[intent_configuration := {[service_configuration]} ∪ services]> ext).

Definition upsert (r : Registry T) (service_configuration : ServiceConfiguration)
    (intent_configurations : list IntentConfiguration) (timestamp : Z) (w : W)
    : outcome (result unit Error * Registry T * W) :=
  if existsb (λ ic, is_system_namespace (namespace ic)) intent_configurations then
    Return (Err (Error_new
      "It is not possible to overwrite an existing system registration"), r, w)
  else
    '(change_series, r) ←
      prune_by r (λ service _,
        bool_decide (sc_id service = sc_id service_configuration));
    '(change_series, ext) ←
      for_each (upsert_step service_configuration)
        (change_series, external_services_by_intent r) intent_configurations;
    let r := mkRegistry ext
               (<[service_configuration := timestamp]> (known_services r))
               (observer r) (config r) in
    w ← observe change_series r w;
    Return (Ok tt, r, w).
End operations.
End registry.
