(* ===== verification/RegistryFacts.v ===== *)
(** * Correctness of the registry

    The invariant of the registry, the effect of [touch], [prune] and [upsert]
    as maps, and what the observer is told: never a panic of the change series,
    and exactly the difference between the registry before and after. *)

From S2P Require Import Prelude RustStd Common Registry.

Section facts.
Context `{!UrlLib, !HashOrder}.
Context {W T : Type} `{!Observer W T}.
Implicit Types (r : Registry T) (ic : IntentConfiguration) (s : ServiceConfiguration).
Implicit Types (ext : gmap IntentConfiguration (gset ServiceConfiguration)).
Implicit Types (known : gmap ServiceConfiguration Z).
Implicit Types (cs : gmap IntentConfiguration ChangeKind).

(** The services registered for an intent. *)
Definition services_of ext ic : gset ServiceConfiguration := default ∅ (ext !! ic).

(** ** The invariant *)
Record registry_wf (r : Registry T) : Prop := {
  wf_nonempty ic S : external_services_by_intent r !! ic = Some S → S ≠ ∅;
  wf_known ic s :
    s ∈ services_of (external_services_by_intent r) ic → is_Some (known_services r !! s);
  wf_unique s1 s2 :
    is_Some (known_services r !! s1) → is_Some (known_services r !! s2) →
    sc_id s1 = sc_id s2 → s1 = s2;
  wf_system ic :
    is_Some (external_services_by_intent r !! ic) →
    is_system_namespace (namespace ic) = false
}.

(** ** The [retain] of [prune_by] as maps *)
Definition still_known known (S : gset ServiceConfiguration) : gset ServiceConfiguration :=
  filter (λ s, is_Some (known !! s)) S.
Definition retained known ext : gmap IntentConfiguration (gset ServiceConfiguration) :=
  omap (λ S, if decide (still_known known S = ∅) then None
             else Some (still_known known S)) ext.
Definition retain_changes known ext : gmap IntentConfiguration ChangeKind :=
  omap (λ S, if decide (size S ≠ size (still_known known S))
             then Some (if decide (still_known known S = ∅) then KRemove else KModify)
             else None) ext.

(** The state of the loop when the entries [l] are still to be visited. *)
Definition retain_inv known ext0
    (acc : gmap IntentConfiguration ChangeKind
           * gmap IntentConfiguration (gset ServiceConfiguration))
    (l : list (IntentConfiguration * gset ServiceConfiguration)) : Prop :=
  NoDup l.*1 ∧ (∀ ic S, (ic, S) ∈ l → ext0 !! ic = Some S) ∧
  ∀ ic, if decide (ic ∈ l.*1)
        then acc.1 !! ic = None ∧ acc.2 !! ic = ext0 !! ic
        else acc.1 !! ic = retain_changes known ext0 !! ic ∧
             acc.2 !! ic = retained known ext0 !! ic.

(** ** The change series

    [series_of ext0 ext cs]: [cs] records how [ext] differs from [ext0]. *)
Definition series_of ext0 ext cs : Prop := ∀ ic,
  match cs !! ic with
  | None => ext !! ic = ext0 !! ic
  | Some KAdd => ext0 !! ic = None ∧ is_Some (ext !! ic)
  | Some KModify => is_Some (ext0 !! ic) ∧ is_Some (ext !! ic)
  | Some KRemove => is_Some (ext0 !! ic) ∧ ext !! ic = None
  end.

Definition change_intent (c : Change) : IntentConfiguration :=
  match c with Add ic _ => ic | Modify ic _ => ic | Remove ic => ic end.

(** What an observer is told when the registry goes from [ext0] to [ext]: each
    intent at most once, additions and removals exactly, the new services of
    every intent that is mentioned, and no intent that differs is left out. *)
Record changes_describe ext0 ext (changes : list Change) : Prop := {
  describe_once : NoDup (change_intent <$> changes);
  describe_add ic S :
    Add ic S ∈ changes ↔ ext0 !! ic = None ∧ ext !! ic = Some S;
  describe_remove ic :
    Remove ic ∈ changes ↔ is_Some (ext0 !! ic) ∧ ext !! ic = None;
  describe_modify ic S :
    Modify ic S ∈ changes → is_Some (ext0 !! ic) ∧ ext !! ic = Some S;
  describe_complete ic :
    ext0 !! ic ≠ ext !! ic → ic ∈ change_intent <$> changes
}.

(** The observer is called once, and only when something changed. *)
Definition notify (obs : T) (changes : list Change) (w : W) : outcome W :=
  match changes with [] => Return w | _ => on_change obs changes w end.

(** ** The loop of [upsert] as a map *)
Definition add_service (s : ServiceConfiguration) (ics : list IntentConfiguration) ext
    : gmap IntentConfiguration (gset ServiceConfiguration) :=
  foldl (λ ext ic, <[ic := {[s]} ∪ services_of ext ic]> ext) ext ics.

(** The registry without the services [p] holds of. *)
Definition pruned (p : ServiceConfiguration → Z → bool) r : Registry T :=
  let known := filter (λ kv, p kv.1 kv.2 = false) (known_services r) in
  mkRegistry (retained known (external_services_by_intent r)) known (observer r) (config r).

(** The registry after a successful [upsert]. *)
Definition upserted r s (ics : list IntentConfiguration) (t : Z) : Registry T :=
  let r' := pruned (λ s' _, bool_decide (sc_id s' = sc_id s)) r in
  mkRegistry (add_service s ics (external_services_by_intent r'))
    (<[s := t]> (known_services r')) (observer r) (config r).

Lemma change_fresh cs ic k : cs !! ic = None → change cs ic k = Return (<[ic:=k]> cs).
Proof. unfold change. by intros ->. Qed.

Lemma retain_step_eq known cs ext ic S :
  cs !! ic = None →
  retain_step known (cs, ext) (ic, S) =
    Return (if decide (size S ≠ size (still_known known S))
            then <[ic := if decide (still_known known S = ∅) then KRemove else KModify]> cs
            else cs,
            if decide (still_known known S = ∅) then delete ic ext
            else <[ic := still_known known S]> ext).
Proof.
  intros Hcs. unfold retain_step. fold (still_known known S).
  destruct (decide (size S ≠ size (still_known known S))) as [Hsz|Hsz]; [|done].
  destruct (size (still_known known S)) eqn:E.
  - rewrite change_fresh by done. simpl.
    by rewrite !decide_True by by apply leibniz_equiv, size_empty_inv.
  - rewrite change_fresh by done. simpl.
    rewrite !decide_False; [done| |];
      intros He; rewrite He, size_empty in E; done.
Qed.

Lemma retain_inv_step known ext0 acc ic S l :
  retain_inv known ext0 acc ((ic, S) :: l) →
  ∃ acc', retain_step known acc (ic, S) = Return acc' ∧ retain_inv known ext0 acc' l.
Proof.
  destruct acc as [cs ext]. intros (Hnd & Hl & Hinv); simpl in *.
  apply NoDup_cons in Hnd as [Hni Hnd].
  assert (ext0 !! ic = Some S) as Hic by (apply Hl; set_solver).
  pose proof (Hinv ic) as Hv. rewrite decide_True in Hv by set_solver.
  destruct Hv as [Hcs Hext].
  eexists. split; [by apply retain_step_eq|].
  split_and!; [done|set_solver|]. intros i; simpl.
  destruct (decide (i = ic)) as [->|Hne].
  - rewrite decide_False by done.
    unfold retain_changes, retained. rewrite !lookup_omap, Hic. simpl.
    split; repeat case_decide; simplify_map_eq; done.
  - specialize (Hinv i).
    destruct (decide (i ∈ l.*1)) as [Hi|Hi].
    + rewrite decide_True in Hinv by set_solver.
      repeat case_decide; by simplify_map_eq.
    + rewrite decide_False in Hinv by set_solver.
      repeat case_decide; by simplify_map_eq.
Qed.

Lemma retain_loop known ext :
  for_each (retain_step known) (∅, ext) (map_iter ext) =
    Return (retain_changes known ext, retained known ext).
Proof.
  destruct (for_each_ind (retain_inv known ext) (retain_step known)
              (map_iter ext) (∅, ext)) as ([cs ext'] & -> & _ & _ & Hinv).
  - split_and!; [apply NoDup_map_iter| |].
    + intros ic S. by rewrite elem_of_map_iter.
    + intros ic. simpl. destruct (decide _) as [Hi|Hi]; [by rewrite lookup_empty|].
      rewrite lookup_empty. unfold retain_changes, retained. rewrite !lookup_omap.
      destruct (ext !! ic) as [S|] eqn:Hic; [|done]. destruct Hi.
      apply list_elem_of_fmap. exists (ic, S). by rewrite elem_of_map_iter.
  - intros acc [ic S] l. apply retain_inv_step.
  - f_equal. f_equal; apply map_eq; intros ic; specialize (Hinv ic);
      rewrite decide_False in Hinv by set_solver; apply Hinv.
Qed.

Lemma lookup_retained known ext ic :
  retained known ext !! ic =
    S ← ext !! ic;
    if decide (still_known known S = ∅) then None else Some (still_known known S).
Proof. apply lookup_omap. Qed.

Lemma services_of_retained known ext ic :
  services_of (retained known ext) ic = still_known known (services_of ext ic).
Proof.
  unfold services_of. rewrite lookup_retained.
  destruct (ext !! ic) as [S|]; simpl; [|by apply leibniz_equiv; set_solver].
  case_decide; simpl; congruence.
Qed.

Lemma series_of_retained known ext :
  (∀ ic S, ext !! ic = Some S → S ≠ ∅) →
  series_of ext (retained known ext) (retain_changes known ext).
Proof.
  intros Hne ic. unfold retain_changes. rewrite lookup_omap, lookup_retained.
  destruct (ext !! ic) as [S|] eqn:Hic; simpl; [|done].
  assert (still_known known S ⊆ S) as Hsub by (unfold still_known; set_solver).
  destruct (decide (size S ≠ _)) as [Hsz|Hsz], (decide (_ = ∅)) as [He|He];
    simpl; eauto.
  - destruct (Hne _ _ Hic). apply leibniz_equiv, size_empty_inv.
    rewrite He, size_empty in Hsz. lia.
  - f_equal. apply set_subseteq_size_eq; [done|lia].
Qed.

Lemma prune_by_eq r p :
  registry_wf r →
  prune_by r p =
    Return (retain_changes (known_services (pruned p r)) (external_services_by_intent r),
            pruned p r).
Proof.
  intros Hwf. unfold prune_by, pruned. simpl.
  set (known := filter _ (known_services r)).
  destruct (decide (size known = _)) as [Hsz|Hsz].
  - assert (known = known_services r) as ->.
    { apply map_subseteq_size_eq; [apply map_filter_subseteq|lia]. }
    assert (∀ ic S, external_services_by_intent r !! ic = Some S →
              still_known (known_services r) S = S) as Hk.
    { intros ic S Hic. apply leibniz_equiv. intros s. unfold still_known.
      rewrite elem_of_filter. split; [naive_solver|]. intros Hs. split; [|done].
      apply (wf_known _ Hwf ic). unfold services_of. by rewrite Hic. }
    f_equal. f_equal; [|f_equal]; apply map_eq; intros ic.
    + rewrite lookup_empty. unfold retain_changes. rewrite lookup_omap.
      destruct (_ !! ic) as [S|] eqn:Hic; simpl; [|done].
      rewrite (Hk _ _ Hic). by rewrite decide_False by naive_solver.
    + rewrite lookup_retained. destruct (_ !! ic) as [S|] eqn:Hic; simpl; [|done].
      rewrite (Hk _ _ Hic), decide_False; [done|]. by apply (wf_nonempty _ Hwf ic).
  - by rewrite retain_loop.
Qed.

Lemma pruned_wf r p : registry_wf r → registry_wf (pruned p r).
Proof.
  intros Hwf. split; simpl.
  - intros ic S. rewrite lookup_retained.
    destruct (_ !! ic) as [S'|]; simpl; [|done]. case_decide; naive_solver.
  - intros ic s. rewrite services_of_retained.
    unfold still_known. rewrite elem_of_filter. naive_solver.
  - intros s1 s2 [t1 H1%map_lookup_filter_Some] [t2 H2%map_lookup_filter_Some].
    apply (wf_unique _ Hwf); naive_solver.
  - intros ic [S HS]. rewrite lookup_retained in HS.
    apply (wf_system _ Hwf). by destruct (_ !! ic).
Qed.

(** ** Recording and reporting changes *)

Lemma upsert_step_series s ext0 ext cs ic :
  series_of ext0 ext cs →
  ∃ cs', upsert_step s (cs, ext) ic =
           Return (cs', <[ic := {[s]} ∪ services_of ext ic]> ext) ∧
         series_of ext0 (<[ic := {[s]} ∪ services_of ext ic]> ext) cs'.
Proof.
  intros Hser. pose proof (Hser ic) as Hic.
  assert (∀ k cs', cs' = <[ic := k]> cs →
    match k with KAdd => ext0 !! ic = None | KModify => is_Some (ext0 !! ic)
               | KRemove => False end →
    series_of ext0 (<[ic := {[s]} ∪ services_of ext ic]> ext) cs') as Hins.
  { intros k cs' -> Hk i. destruct (decide (i = ic)) as [->|Hne].
    - rewrite !lookup_insert_eq. destruct k; naive_solver.
    - rewrite !lookup_insert_ne by done. apply Hser. }
  unfold upsert_step, change. fold (services_of ext ic).
  destruct (cs !! ic) as [[]|] eqn:Hcs.
  - destruct Hic as [Hext0 [S HS]]. rewrite HS. simpl. eexists; split; [done|].
    by eapply (Hins KAdd).
  - destruct Hic as [Hext0 HS]. rewrite HS. simpl. eexists; split; [done|].
    by eapply (Hins KModify).
  - destruct Hic as [Hext0 [S HS]]. rewrite HS. simpl. eexists; split; [done|].
    by eapply (Hins KModify).
  - destruct (ext !! ic) as [S|] eqn:HS; simpl; (eexists; split; [done|]).
    + eapply (Hins KModify); [done|]. rewrite <- Hic. eauto.
    + by eapply (Hins KAdd).
Qed.

Lemma upsert_loop s ext0 ext cs ics :
  series_of ext0 ext cs →
  ∃ cs', for_each (upsert_step s) (cs, ext) ics = Return (cs', add_service s ics ext) ∧
         series_of ext0 (add_service s ics ext) cs'.
Proof.
  revert ext cs; induction ics as [|ic ics IH]; intros ext cs Hser; [by exists cs|].
  destruct (upsert_step_series s _ _ _ ic Hser) as (cs' & Hstep & Hser').
  cbn [for_each]. rewrite Hstep. by apply IH.
Qed.

Lemma lookup_add_service s ics ext ic :
  add_service s ics ext !! ic =
    if decide (ic ∈ ics) then Some ({[s]} ∪ services_of ext ic) else ext !! ic.
Proof.
  unfold add_service. revert ext; induction ics as [|i ics IH]; intros ext.
  { by rewrite decide_False by set_solver. }
  cbn [foldl]. rewrite IH. unfold services_of at 1.
  destruct (decide (i = ic)) as [->|Hne].
  - rewrite lookup_insert_eq. simpl. rewrite (decide_True (P:=ic ∈ ic :: ics)) by set_solver.
    case_decide; f_equal; apply leibniz_equiv; set_solver.
  - rewrite lookup_insert_ne by done. fold (services_of ext ic).
    destruct (decide (ic ∈ ics)); [rewrite decide_True by set_solver|
      rewrite decide_False by set_solver]; done.
Qed.

Lemma services_of_add_service s ics ext ic :
  services_of (add_service s ics ext) ic =
    (if decide (ic ∈ ics) then {[s]} else ∅) ∪ services_of ext ic.
Proof.
  unfold services_of at 1. rewrite lookup_add_service.
  case_decide; simpl; [done|]. fold (services_of ext ic). set_solver.
Qed.

(** The change reported for an entry of a series that describes the registry. *)
Definition reported r (entry : IntentConfiguration * ChangeKind) : Change :=
  let '(ic, kind) := entry in
  let services := services_of (external_services_by_intent r) ic in
  match kind with
  | KAdd => Add ic services | KModify => Modify ic services | KRemove => Remove ic
  end.

Lemma change_of_reported ext0 r cs entry :
  series_of ext0 (external_services_by_intent r) cs →
  entry ∈ map_iter cs →
  change_of r entry = Return (reported r entry).
Proof.
  destruct entry as [ic k]. intros Hser Hin%elem_of_map_iter.
  specialize (Hser ic). rewrite Hin in Hser. unfold change_of, reported, services_of.
  destruct k; [|done|]; destruct Hser as [_ [S HS]]; by rewrite HS.
Qed.

Lemma elem_of_reported ext0 r cs c :
  series_of ext0 (external_services_by_intent r) cs →
  c ∈ reported r <$> map_iter cs ↔
  ∃ k, cs !! change_intent c = Some k ∧ c = reported r (change_intent c, k).
Proof.
  intros Hser. rewrite list_elem_of_fmap. split.
  - intros ([ic k] & -> & Hin%elem_of_map_iter). exists k. by destruct k.
  - intros (k & Hk & ->). exists (change_intent c, k).
    split; [by destruct k|]. by apply elem_of_map_iter.
Qed.

Lemma reported_describe ext0 r cs :
  series_of ext0 (external_services_by_intent r) cs →
  changes_describe ext0 (external_services_by_intent r) (reported r <$> map_iter cs).
Proof.
  intros Hser.
  assert (change_intent <$> (reported r <$> map_iter cs) = (map_iter cs).*1) as Hint.
  { rewrite <- list_fmap_compose. apply list_fmap_ext. by intros _ [ic []] _. }
  split.
  - rewrite Hint. apply NoDup_map_iter.
  - intros ic S. rewrite (elem_of_reported _ _ _ _ Hser). simpl.
    specialize (Hser ic). unfold services_of. split.
    + intros (k & Hk & Heq). rewrite Hk in Hser.
      destruct k; [|done|done]. injection Heq as ->.
      destruct Hser as [? [S' HS]]. by rewrite HS.
    + intros [Hn HS]. destruct (cs !! ic) as [[]|] eqn:E.
      * exists KAdd. by rewrite HS.
      * destruct Hser as [[? ?] _]; congruence.
      * destruct Hser as [[? ?] _]; congruence.
      * congruence.
  - intros ic. rewrite (elem_of_reported _ _ _ _ Hser). simpl.
    specialize (Hser ic). split.
    + intros (k & Hk & Heq). rewrite Hk in Hser. by destruct k.
    + intros [[S HS] Hn]. destruct (cs !! ic) as [[]|] eqn:E.
      * destruct Hser; congruence.
      * by exists KRemove.
      * destruct Hser as [_ [? ?]]; congruence.
      * congruence.
  - intros ic S. rewrite (elem_of_reported _ _ _ _ Hser). simpl.
    specialize (Hser ic). unfold services_of. intros (k & Hk & Heq). rewrite Hk in Hser.
    destruct k; try done. injection Heq as ->. destruct Hser as [? [S' HS]]. by rewrite HS.
  - intros ic Hne. rewrite Hint. apply (elem_of_map_keys cs).
    specialize (Hser ic). destruct (cs !! ic); [by eexists|congruence].
Qed.

Lemma observe_eq ext0 r cs w :
  series_of ext0 (external_services_by_intent r) cs →
  observe cs r w = notify (observer r) (reported r <$> map_iter cs) w.
Proof.
  intros Hser. unfold observe.
  rewrite (map_outcome_return _ _ (reported r)).
  - unfold notify. by destruct (map_iter cs).
  - intros e He. by eapply change_of_reported.
Qed.

(** ** [upsert] *)

Lemma upsert_eq r s ics t w :
  registry_wf r →
  existsb (λ ic, is_system_namespace (namespace ic)) ics = false →
  ∃ changes,
    changes_describe (external_services_by_intent r)
      (external_services_by_intent (upserted r s ics t)) changes ∧
    upsert r s ics t w =
      w' ← notify (observer r) changes w; Return (Ok tt, upserted r s ics t, w').
Proof.
  intros Hwf Hsys. unfold upsert. rewrite Hsys, prune_by_eq by done. cbn [mbind outcome_bind].
  set (r' := pruned _ r).
  destruct (upsert_loop s (external_services_by_intent r) (external_services_by_intent r')
    (retain_changes (known_services r') (external_services_by_intent r)) ics)
    as (cs & Hloop & Hser).
  { apply series_of_retained. apply (wf_nonempty _ Hwf). }
  rewrite Hloop. cbn [mbind outcome_bind].
  fold (upserted r s ics t).
  exists (reported (upserted r s ics t) <$> map_iter cs). split.
  - by apply reported_describe.
  - by rewrite (observe_eq (external_services_by_intent r)).
Qed.

Lemma upserted_wf r s ics t :
  registry_wf r →
  existsb (λ ic, is_system_namespace (namespace ic)) ics = false →
  registry_wf (upserted r s ics t).
Proof.
  intros Hwf Hsys. unfold upserted.
  set (p := λ s' (_ : Z), bool_decide (sc_id s' = sc_id s)).
  pose proof (pruned_wf r p Hwf) as Hwf'.
  split; cbn [external_services_by_intent known_services observer config].
  - intros ic S. rewrite lookup_add_service. case_decide.
    + intros [= <-]. set_solver.
    + apply (wf_nonempty _ Hwf').
  - intros ic s'. rewrite services_of_add_service.
    intros [Hs|Hs]%elem_of_union.
    + case_decide; [|set_solver]. apply elem_of_singleton in Hs as ->.
      rewrite lookup_insert_eq. by eexists.
    + apply (wf_known _ Hwf') in Hs. rewrite lookup_insert_is_Some'. by right.
  - assert (∀ s', is_Some (known_services (pruned p r) !! s') → sc_id s' ≠ sc_id s) as Hp.
    { intros s' [t' [_ Ht]%map_lookup_filter_Some]. unfold p in Ht. simpl in Ht.
      by apply bool_decide_eq_false in Ht. }
    intros s1 s2 H1 H2 Hid. rewrite lookup_insert_is_Some' in H1, H2.
    destruct H1 as [<-|H1], H2 as [<-|H2]; [done| | |].
    + by apply Hp in H2.
    + by apply Hp in H1.
    + by apply (wf_unique _ Hwf').
  - intros ic. rewrite lookup_add_service. case_decide as Hin.
    + intros _. destruct (is_system_namespace (namespace ic)) eqn:E; [|done].
      rewrite <- Hsys. symmetry. apply existsb_exists. exists ic.
      by rewrite <- list_elem_of_In.
    + apply (wf_system _ Hwf').
Qed.

Lemma new_wf (obs : T) cfg : registry_wf (Registry_new obs cfg).
Proof.
  split; simpl; intros.
  - by rewrite lookup_empty in *.
  - unfold services_of in *. rewrite lookup_empty in *. set_solver.
  - by rewrite lookup_empty in *.
  - rewrite lookup_empty in *. by destruct H.
Qed.

Lemma touch_wf r s t : registry_wf r → registry_wf (touch r s t).2.
Proof.
  intros Hwf. unfold touch. destruct (known_services r !! s) as [t'|] eqn:Hs; [|done].
  assert (∀ s', is_Some (<[s := t]> (known_services r) !! s') →
                is_Some (known_services r !! s')) as Hk.
  { intros s'. rewrite lookup_insert_is_Some'. intros [<-|?]; [by eexists|done]. }
  split; simpl.
  - apply Hwf.
  - intros ic s' Hs'%(wf_known _ Hwf). rewrite lookup_insert_is_Some'. by right.
  - intros s1 s2 H1%Hk H2%Hk. by apply (wf_unique _ Hwf).
  - apply Hwf.
Qed.
End facts.
