(* ===== verification/RegistrySpec.v ===== *)
(** * What the registry promises, and that it keeps the promise

    The abstract registry maps each registered service to the intents it serves
    and the time of its last sign of life.  Registering replaces every entry of
    the same service id, announcing refreshes the time of a registered service,
    pruning drops the entries whose time to live has passed.  The detailed
    registry, with its two indexes, its change series and its observer, refines
    it for every sequence of operations. *)

From S2P Require Import Prelude RustStd Common Registry RegistryFacts.

Section spec.
Context `{!UrlLib}.

(** ** The abstract registry *)
#[local] Abbreviation registrations := (gmap ServiceConfiguration (gset IntentConfiguration * Z)).

Definition spec_touch (s : ServiceConfiguration) (t : Z) (m : registrations)
    : bool * registrations :=
  match m !! s with
  | Some (ics, _) => (true, <[s := (ics, t)]> m)
  | None => (false, m)
  end.

Definition spec_upsert (s : ServiceConfiguration) (ics : list IntentConfiguration)
    (t : Z) (m : registrations) : registrations :=
  <[s := (list_to_set ics, t)]> (filter (λ kv, sc_id kv.1 ≠ sc_id s) m).

Definition expired (ttl now t : Z) : bool := bool_decide (now > t + ttl)%Z.

Definition spec_prune (ttl now : Z) (m : registrations) : registrations :=
  filter (λ kv, expired ttl now kv.2.2 = false) m.

(** When to prune next: the first moment a remaining entry expires, or one time
    to live from now when there is none. *)
Definition spec_deadline (ttl now : Z) (m : registrations) : Specificity * Z :=
  match list_min ((λ kv, kv.2.2 + ttl)%Z <$> map_to_list m) with
  | Some t => (Specific, t)
  | None => (Default, now + ttl)%Z
  end.

(** ** Operations and their replies *)
Inductive Op :=
  | OpTouch (s : ServiceConfiguration) (t : Z)
  | OpUpsert (s : ServiceConfiguration) (ics : list IntentConfiguration) (t : Z)
  | OpPrune (now : Z).
Inductive Reply :=
  | Touched (found : bool)
  | Upserted (accepted : bool)
  | Pruned (specificity : Specificity) (deadline : Z).

Definition op_time (op : Op) : Z :=
  match op with OpTouch _ t => t | OpUpsert _ _ t => t | OpPrune now => now end.

Definition spec_step (ttl : Z) (op : Op) (m : registrations) : Reply * registrations :=
  match op with
  | OpTouch s t => let '(b, m) := spec_touch s t m in (Touched b, m)
  | OpUpsert s ics t =>
      if existsb (λ ic, is_system_namespace (namespace ic)) ics
      then (Upserted false, m) else (Upserted true, spec_upsert s ics t m)
  | OpPrune now =>
      let m := spec_prune ttl now m in
      let '(sp, t) := spec_deadline ttl now m in (Pruned sp t, m)
  end.

Fixpoint spec_run (ttl : Z) (ops : list Op) (m : registrations) : list Reply * registrations :=
  match ops with
  | [] => ([], m)
  | op :: ops =>
      let '(reply, m) := spec_step ttl op m in
      let '(replies, m) := spec_run ttl ops m in
      (reply :: replies, m)
  end.

(** ** Staying registered

    [survives s ttl t op]: the service [s], last seen at [t], is still there
    after [op]; [last_seen] is when it was last seen then. *)
Definition survives (s : ServiceConfiguration) (ttl t : Z) (op : Op) : Prop :=
  match op with
  | OpTouch _ _ => True
  | OpUpsert s' _ _ => sc_id s' ≠ sc_id s
  | OpPrune now => (now ≤ t + ttl)%Z
  end.
Definition last_seen (s : ServiceConfiguration) (t : Z) (op : Op) : Z :=
  match op with OpTouch s' t' => if decide (s' = s) then t' else t | _ => t end.

(** Every [prune] comes at most a time to live after the last announcement, and
    nobody registers with the id of [s]. *)
Fixpoint heartbeat (s : ServiceConfiguration) (ttl t : Z) (ops : list Op) : Prop :=
  match ops with
  | [] => True
  | op :: ops => survives s ttl t op ∧ heartbeat s ttl (last_seen s t op) ops
  end.

Section refinement.
Context `{!HashOrder}.
Context {W T : Type} `{!Observer W T}.
Implicit Types (r : Registry T) (w : W).

Definition step (op : Op) (r : Registry T) (w : W) : outcome (Reply * Registry T * W) :=
  match op with
  | OpTouch s t => let '(b, r) := touch r s t in Return (Touched b, r, w)
  | OpUpsert s ics t =>
      '(res, r, w) ← upsert r s ics t w;
      Return (Upserted (match res with Ok _ => true | Err _ => false end), r, w)
  | OpPrune now => '(sp, t, r, w) ← prune r now w; Return (Pruned sp t, r, w)
  end.

Fixpoint run (ops : list Op) (r : Registry T) (w : W) : outcome (list Reply * Registry T * W) :=
  match ops with
  | [] => Return ([], r, w)
  | op :: ops =>
      '(reply, r, w) ← step op r w;
      '(replies, r, w) ← run ops r w;
      Return (reply :: replies, r, w)
  end.

(** The abstract registry a detailed one stands for. *)
Definition abs (r : Registry T) : registrations :=
  map_imap (λ s t,
    Some (filter (λ ic, s ∈ services_of (external_services_by_intent r) ic)
            (dom (external_services_by_intent r)), t)) (known_services r).

Definition intents_of (r : Registry T) (s : ServiceConfiguration) : gset IntentConfiguration :=
  filter (λ ic, s ∈ services_of (external_services_by_intent r) ic)
    (dom (external_services_by_intent r)).

(** No deadline computed from the entries of [r] overflows. *)
Definition deadlines_fit (r : Registry T) : Prop :=
  map_Forall (λ _ t, t + entry_ttl (config r) ≤ INSTANT_MAX)%Z (known_services r).

Definition is_expired (r : Registry T) (now : Z) : ServiceConfiguration → Z → bool :=
  λ _ ts, bool_decide (duration_since now ts > entry_ttl (config r))%Z.

(** ** The abstraction of each operation *)

Lemma lookup_abs r s : abs r !! s = (λ t, (intents_of r s, t)) <$> known_services r !! s.
Proof. unfold abs. rewrite map_lookup_imap. by destruct (_ !! s). Qed.

Lemma elem_of_intents_of r s ic :
  ic ∈ intents_of r s ↔ s ∈ services_of (external_services_by_intent r) ic.
Proof.
  unfold intents_of. rewrite elem_of_filter, elem_of_dom. split; [naive_solver|].
  intros Hs. split; [done|]. unfold services_of in Hs.
  destruct (_ !! ic); [by eexists|set_solver].
Qed.

Lemma intents_of_ext r1 r2 s1 s2 :
  (∀ ic, s1 ∈ services_of (external_services_by_intent r1) ic ↔
         s2 ∈ services_of (external_services_by_intent r2) ic) →
  intents_of r1 s1 = intents_of r2 s2.
Proof.
  intros Heq. apply set_eq. intros ic. by rewrite !elem_of_intents_of.
Qed.

Lemma abs_pruned r p :
  abs (pruned p r) = filter (λ kv, p kv.1 kv.2.2 = false) (abs r).
Proof.
  apply map_eq. intros s. rewrite lookup_filter_case, !lookup_abs.
  cbn [pruned known_services]. rewrite lookup_filter_case.
  destruct (known_services r !! s) as [t|] eqn:Hs; simpl; [|done].
  destruct (decide (p s t = false)) as [Hp|Hp]; simpl; [|done].
  f_equal. f_equal. apply intents_of_ext. intros ic. simpl.
  rewrite services_of_retained. unfold still_known.
  rewrite elem_of_filter, lookup_filter_case, Hs, decide_True by done. naive_solver.
Qed.

Lemma abs_upserted r s ics t :
  registry_wf r → abs (upserted r s ics t) = spec_upsert s ics t (abs r).
Proof.
  intros Hwf. unfold spec_upsert.
  set (p := λ s' (_ : Z), bool_decide (sc_id s' = sc_id s)).
  assert (filter (λ kv, sc_id kv.1 ≠ sc_id s) (abs r) = abs (pruned p r)) as ->.
  { rewrite abs_pruned. apply map_filter_ext. intros s' [ics' t'] _. simpl.
    unfold p. by rewrite bool_decide_eq_false. }
  pose proof (pruned_wf r p Hwf) as Hwf'.
  apply map_eq. intros s'. rewrite lookup_abs. cbn [upserted known_services].
  rewrite !lookup_insert. case_decide as Heq; simpl; f_equal.
  - subst s'. f_equal. apply set_eq. intros ic.
    rewrite elem_of_intents_of, elem_of_list_to_set. cbn [upserted external_services_by_intent].
    rewrite services_of_add_service, elem_of_union. split.
    + intros [Hs|Hs]; [case_decide; set_solver|].
      apply (wf_known _ Hwf') in Hs as [t' Hs].
      apply map_lookup_filter_Some in Hs as [_ Hs]. unfold p in Hs; simpl in Hs.
      by rewrite bool_decide_eq_false in Hs.
    + intros Hin. left. rewrite decide_True by done. set_solver.
  - rewrite lookup_abs. fold p. change (filter _ (known_services r)) with (known_services (pruned p r)).
    destruct (_ !! s') as [t'|]; simpl; [|done]. f_equal. f_equal.
    apply intents_of_ext. intros ic. cbn [upserted external_services_by_intent].
    rewrite services_of_add_service, elem_of_union. fold p.
    split; [intros [Hs|Hs]; [case_decide; set_solver|done]|by right].
Qed.

Lemma abs_touch r s t :
  let '(b, r') := touch r s t in spec_touch s t (abs r) = (b, abs r').
Proof.
  unfold touch, spec_touch. rewrite lookup_abs.
  destruct (known_services r !! s) as [t'|] eqn:Hs; simpl; [|done].
  f_equal. apply map_eq. intros s'. rewrite lookup_abs. simpl. rewrite !lookup_insert.
  case_decide as Heq; [by subst|]. by rewrite lookup_abs.
Qed.

(** ** [prune] *)

Lemma instant_add_fits t d : (t + d ≤ INSTANT_MAX)%Z → instant_add t d = Return (t + d)%Z.
Proof. intros. unfold instant_add. by rewrite decide_True. Qed.

Lemma min_deadline_fits ttl ts :
  (∀ t, t ∈ ts → t + ttl ≤ INSTANT_MAX)%Z →
  min_deadline ttl ts = Return (list_min ((λ t, t + ttl)%Z <$> ts)).
Proof.
  induction ts as [|t ts IH]; intros Hfit; simpl; [done|].
  rewrite instant_add_fits by (apply Hfit; set_solver). simpl.
  by rewrite IH by (intros; apply Hfit; set_solver).
Qed.

Lemma spec_deadline_known ttl now r :
  spec_deadline ttl now (abs r) =
    match list_min ((λ t, t + ttl)%Z <$> map_values (known_services r)) with
    | Some t => (Specific, t)
    | None => (Default, now + ttl)%Z
    end.
Proof.
  unfold spec_deadline. erewrite list_min_ext; [done|]. intros x.
  rewrite !list_elem_of_fmap. split.
  - intros ([s [ics t]] & -> & Hin%elem_of_map_to_list). exists t. split; [done|].
    rewrite lookup_abs in Hin. apply elem_of_map_values. exists s.
    destruct (_ !! s); naive_solver.
  - intros (t & -> & [s Hs]%elem_of_map_values).
    exists (s, (intents_of r s, t)). split; [done|].
    by rewrite elem_of_map_to_list, lookup_abs, Hs.
Qed.

Lemma pruned_fit r p : deadlines_fit r → deadlines_fit (pruned p r).
Proof.
  intros Hfit s t [Ht _]%map_lookup_filter_Some. by apply Hfit in Ht.
Qed.

Lemma prune_eq r now w :
  registry_wf r → deadlines_fit r → (now + entry_ttl (config r) ≤ INSTANT_MAX)%Z →
  ∃ changes,
    changes_describe (external_services_by_intent r)
      (external_services_by_intent (pruned (is_expired r now) r)) changes ∧
    prune r now w =
      w' ← notify (observer r) changes w;
      Return (spec_deadline (entry_ttl (config r)) now (abs (pruned (is_expired r now) r)),
              pruned (is_expired r now) r, w').
Proof.
  intros Hwf Hfit Hnow. unfold prune. fold (is_expired r now).
  rewrite prune_by_eq by done. cbn [mbind outcome_bind].
  set (r' := pruned _ r).
  assert (series_of (external_services_by_intent r) (external_services_by_intent r')
    (retain_changes (known_services r') (external_services_by_intent r))) as Hser.
  { apply series_of_retained. apply (wf_nonempty _ Hwf). }
  eexists. split; [by apply reported_describe|].
  rewrite (observe_eq (external_services_by_intent r)) by done.
  change (observer r') with (observer r).
  destruct (notify _ _ _) as [w'|m]; [|done]. cbn [mbind outcome_bind].
  rewrite min_deadline_fits, instant_add_fits.
  - cbn [mbind outcome_bind]. rewrite spec_deadline_known. by destruct (list_min _).
  - done.
  - intros t [s Hs]%elem_of_map_values. by apply (pruned_fit _ _ Hfit) in Hs.
Qed.

Lemma abs_prune r now :
  (0 ≤ entry_ttl (config r))%Z →
  abs (pruned (is_expired r now) r) = spec_prune (entry_ttl (config r)) now (abs r).
Proof.
  intros Httl. rewrite abs_pruned. apply map_filter_ext. intros s [ics t] _. simpl.
  unfold is_expired, expired. rewrite !bool_decide_eq_false.
  by rewrite duration_since_gt.
Qed.

Lemma touch_spec_wf r s t b r' : touch r s t = (b, r') → registry_wf r → registry_wf r'.
Proof. intros Ht Hwf. pose proof (touch_wf r s t Hwf) as H'. by rewrite Ht in H'. Qed.

(** The invariant is preserved by every step that returns. *)
Lemma step_wf op r w reply r' w' :
  registry_wf r → step op r w = Return (reply, r', w') → registry_wf r'.
Proof.
  intros Hwf. destruct op as [s t|s ics t|now]; simpl.
  - destruct (touch r s t) as [b r1] eqn:Ht. intros [= _ <- _]. by eapply touch_spec_wf.
  - destruct (existsb (λ ic, is_system_namespace (namespace ic)) ics) eqn:Hsys.
    + unfold upsert. rewrite Hsys. simpl. by intros [= _ <- _].
    + destruct (upsert_eq r s ics t w Hwf Hsys) as (changes & _ & ->).
      destruct (notify _ _ _); simpl; [|done]. intros [= _ <- _]. by apply upserted_wf.
  - unfold prune. rewrite prune_by_eq by done. simpl.
    destruct (observe _ _ _); simpl; [|done].
    destruct (min_deadline _ _) as [d|]; simpl; [|done].
    destruct (instant_add _ _); simpl; [|done].
    destruct d; intros [= _ <- _]; by apply pruned_wf.
Qed.

(** Whenever a step returns, its effect is that of the abstract registry. *)
Lemma step_abs op r w reply r' w' :
  registry_wf r → (0 ≤ entry_ttl (config r))%Z →
  step op r w = Return (reply, r', w') →
  config r' = config r ∧ abs r' = (spec_step (entry_ttl (config r)) op (abs r)).2.
Proof.
  intros Hwf Httl. destruct op as [s t|s ics t|now]; simpl.
  - pose proof (abs_touch r s t) as Ha. unfold touch in *.
    destruct (_ !! s); rewrite Ha; intros [= _ <- _]; done.
  - destruct (existsb (λ ic, is_system_namespace (namespace ic)) ics) eqn:Hsys.
    + unfold upsert. rewrite Hsys. simpl. by intros [= _ <- _].
    + destruct (upsert_eq r s ics t w Hwf Hsys) as (changes & _ & ->).
      destruct (notify _ _ _); simpl; [|done]. intros [= _ <- _].
      split; [done|]. by apply abs_upserted.
  - unfold prune. rewrite prune_by_eq by done. cbn [mbind outcome_bind].
    destruct (observe _ _ _); simpl; [|done].
    destruct (min_deadline _ _) as [d|]; simpl; [|done].
    destruct (instant_add _ _); simpl; [|done].
    rewrite <- abs_prune by done. destruct (spec_deadline _ _ _).
    destruct d; intros [= _ <- _]; done.
Qed.

Lemma changes_describe_refl ext : changes_describe ext ext [].
Proof.
  split.
  - constructor.
  - intros ic S. split; [set_solver|]. intros [? ?]; congruence.
  - intros ic. split; [set_solver|]. intros [[? ?] ?]; congruence.
  - set_solver.
  - done.
Qed.

(** Whenever a step returns, the observer was told exactly what it changed. *)
Lemma step_changes op r w reply r' w' :
  registry_wf r → step op r w = Return (reply, r', w') →
  observer r' = observer r ∧
  ∃ changes, changes_describe (external_services_by_intent r)
               (external_services_by_intent r') changes ∧
             notify (observer r) changes w = Return w'.
Proof.
  intros Hwf. destruct op as [s t|s ics t|now]; simpl.
  - unfold touch. destruct (known_services r !! s); intros [= _ <- <-]; (split; [done|]);
      exists []; (split; [apply changes_describe_refl|done]).
  - destruct (existsb (λ ic, is_system_namespace (namespace ic)) ics) eqn:Hsys.
    + unfold upsert. rewrite Hsys. simpl. intros [= _ <- <-]. split; [done|].
      exists []. split; [apply changes_describe_refl|done].
    + destruct (upsert_eq r s ics t w Hwf Hsys) as (changes & Hd & ->).
      destruct (notify _ _ _) as [w1|] eqn:Hn; simpl; [|done]. intros [= _ <- <-].
      split; [done|]. by exists changes.
  - unfold prune. rewrite prune_by_eq by done. cbn [mbind outcome_bind].
    set (p := λ _ ts, bool_decide (duration_since now ts > entry_ttl (config r))%Z).
    pose proof (series_of_retained (known_services (pruned p r))
      (external_services_by_intent r) (wf_nonempty _ Hwf)) as Hser.
    rewrite (observe_eq (external_services_by_intent r)) by done.
    destruct (notify _ _ _) as [w1|] eqn:Hn; simpl; [|done].
    destruct (min_deadline _ _) as [d|]; simpl; [|done].
    destruct (instant_add _ _); simpl; [|done].
    destruct d; intros [= _ <- <-]; (split; [done|]);
      (eexists; split; [by apply (reported_describe _ (pruned p r))|done]).
Qed.

Lemma spec_step_survives ttl op m s ics t :
  m !! s = Some (ics, t) → survives s ttl t op →
  (spec_step ttl op m).2 !! s = Some (ics, last_seen s t op).
Proof.
  intros Hs. destruct op as [s' t'|s' ics' t'|now]; simpl.
  - intros _. unfold spec_touch. destruct (decide (s' = s)) as [->|Hne].
    + rewrite Hs. simpl. by rewrite lookup_insert_eq.
    + destruct (m !! s') as [[ics' t'']|]; simpl; [|done]. by rewrite lookup_insert_ne.
  - intros Hid. destruct (existsb _ ics'); simpl; [done|]. unfold spec_upsert.
    rewrite lookup_insert_ne by congruence.
    rewrite lookup_filter_case, Hs, decide_True; [done|]. simpl. congruence.
  - intros Hnow. destruct (spec_deadline _ _ _). simpl. unfold spec_prune.
    rewrite lookup_filter_case, Hs, decide_True; [done|]. simpl. unfold expired.
    apply bool_decide_eq_false. lia.
Qed.

(** ** Simulation *)

Lemma notify_total (obs : T) :
  (∀ changes w, ∃ w', on_change obs changes w = Return w') →
  ∀ changes w, ∃ w', notify obs changes w = Return w'.
Proof. intros Htot [|c cs] w; simpl; eauto. Qed.

(** What holds of the registry between operations. *)
Record registry_ok (obs : T) (cfg : Config) (r : Registry T) : Prop := {
  ok_wf : registry_wf r;
  ok_fit : deadlines_fit r;
  ok_observer : observer r = obs;
  ok_config : config r = cfg
}.

Lemma step_refines obs cfg op r w :
  (0 ≤ entry_ttl cfg)%Z →
  (∀ changes w, ∃ w', on_change obs changes w = Return w') →
  (op_time op + entry_ttl cfg ≤ INSTANT_MAX)%Z →
  registry_ok obs cfg r →
  ∃ reply r' w', step op r w = Return (reply, r', w') ∧ registry_ok obs cfg r' ∧
    spec_step (entry_ttl cfg) op (abs r) = (reply, abs r').
Proof.
  intros Httl Hobs Htime [Hwf Hfit <- <-]. destruct op as [s t|s ics t|now]; simpl in *.
  - pose proof (abs_touch r s t) as Habs. pose proof (touch_wf r s t Hwf) as Hwf'.
    unfold touch in *. destruct (known_services r !! s) as [t'|] eqn:Hs; simpl in *;
      rewrite Habs; (do 3 eexists; split_and!; [done| |done]); split; simpl; try done.
    apply map_Forall_insert_2; simpl; done.
  - destruct (existsb _ ics) eqn:Hsys.
    + unfold upsert. rewrite Hsys. simpl. do 3 eexists. split_and!; [done| |done]. done.
    + destruct (upsert_eq r s ics t w Hwf Hsys) as (changes & _ & ->).
      destruct (notify_total _ Hobs changes w) as [w' ->]. simpl.
      do 3 eexists. split_and!; [done| |by rewrite abs_upserted].
      split; [by apply upserted_wf| |done|done].
      apply map_Forall_insert_2; [done|]. by apply (pruned_fit r).
  - destruct (prune_eq r now w Hwf Hfit Htime) as (changes & _ & ->).
    destruct (notify_total _ Hobs changes w) as [w' ->]. simpl.
    rewrite <- abs_prune by done. destruct (spec_deadline _ _ _) as [sp t]. simpl.
    do 3 eexists. split_and!; [done| |done].
    split; [by apply pruned_wf|by apply pruned_fit|done|done].
Qed.

Lemma run_refines obs cfg ops r w :
  (0 ≤ entry_ttl cfg)%Z →
  (∀ changes w, ∃ w', on_change obs changes w = Return w') →
  Forall (λ op, op_time op + entry_ttl cfg ≤ INSTANT_MAX)%Z ops →
  registry_ok obs cfg r →
  ∃ replies r' w', run ops r w = Return (replies, r', w') ∧ registry_ok obs cfg r' ∧
    spec_run (entry_ttl cfg) ops (abs r) = (replies, abs r').
Proof.
  intros Httl Hobs Htimes. revert r w.
  induction Htimes as [|op ops Htime _ IH]; intros r w Hok.
  - simpl. do 3 eexists. by split_and!.
  - destruct (step_refines obs cfg op r w) as (reply & r1 & w1 & Hst & Hok1 & Habs); [done..|].
    destruct (IH r1 w1 Hok1) as (replies & r2 & w2 & Hrun & Hok2 & Habs2).
    simpl. rewrite Hst. simpl. rewrite Hrun. simpl. rewrite Habs, Habs2.
    do 3 eexists. by split_and!.
Qed.

Lemma new_ok obs cfg : registry_ok obs cfg (Registry_new obs cfg).
Proof. split; [apply new_wf| |done|done]. intros s t. simpl. by rewrite lookup_empty. Qed.

Lemma abs_new obs cfg : abs (Registry_new obs cfg) = ∅.
Proof. apply map_eq. intros s. by rewrite lookup_abs. Qed.
End refinement.
End spec.
