(* ===== verification/RegistryTheorems.v ===== *)
(** * The theorems about the registry

    Refinement of the abstract registry, preservation of the invariant, what
    observers are told, the protection of the system namespace, the schedule
    [prune] computes and its overflow behaviour; and a small concrete registry
    the witnesses run. *)

From S2P Require Import Prelude RustStd Common Registry RegistryFacts.
From S2P Require Import RegistrySpec.

(** ** A concrete setting for witnesses

    An observer that records the batches of changes it is given (the
    [MockBroker] of the unit tests of [registry.rs]). *)
Module Sample.
#[export] Existing Instance string_url.
#[export] Existing Instance canonical_order.

#[export] Instance recorder : Observer (list (list Change)) unit :=
  λ _ changes w, Return (w ++ [changes]).

Definition service (nonce : string) (l : ExecutionLocality) : ServiceConfiguration :=
  mkServiceConfiguration (mkServiceId ("mock-service-" +:+ nonce) "0.1.0")
    ("http://service-" +:+ nonce) l.
Definition intent_of (nonce : string) : IntentConfiguration :=
  mkIntentConfiguration ("namespace-" +:+ nonce) Discover.
Definition secs (n : Z) : Z := duration_from_secs n.

Definition ops : list Op :=
  [OpUpsert (service "a" Cloud) [intent_of "1"; intent_of "2"] (secs 0);
   OpUpsert (service "b" Local) [intent_of "1"] (secs 10);
   OpTouch (service "a" Cloud) (secs 12);
   OpPrune (secs 26)].

Definition empty : Registry unit := Registry_new tt Config_default.
Definition one : Registry unit := upserted empty (service "a" Cloud) [intent_of "1"] (secs 0).
End Sample.

Section theorems.
Context `{!UrlLib, !HashOrder}.
Context {W T : Type} `{!Observer W T}.
Implicit Types (r : Registry T) (w : W).

(** C1: Every sequence of [touch], [upsert] and [prune] calls on a new registry
    runs without a panic (in particular none of the "must not be possible"
    transitions of the change series is taken and no index is out of range) and
    gives the replies and the final state of the abstract registry, provided the
    observer itself returns and no deadline exceeds the range of [Instant]. *)
Theorem registry_refines (ops : list Op) (obs : T) (cfg : Config) w :
  (0 ≤ entry_ttl cfg)%Z →
  (∀ changes w, ∃ w', on_change obs changes w = Return w') →
  Forall (λ op, op_time op + entry_ttl cfg ≤ INSTANT_MAX)%Z ops →
  ∃ replies r w',
    run ops (Registry_new obs cfg) w = Return (replies, r, w') ∧
    spec_run (entry_ttl cfg) ops ∅ = (replies, abs r).
Proof.
  intros Httl Hobs Htimes.
  destruct (run_refines obs cfg ops (Registry_new obs cfg) w) as (rs & r & w' & ? & _ & ?);
    [done..|apply new_ok|].
  rewrite abs_new in *. eauto.
Qed.

(** C11: The invariant of the registry holds in every state reached from a new
    registry, whatever the observer does and whatever the timestamps are: no
    intent is kept without a service, every service of an intent is known, two
    known services never share an id, and no intent is in the system namespace. *)
Theorem registry_invariant (ops : list Op) (obs : T) (cfg : Config) w replies r w' :
  run ops (Registry_new obs cfg) w = Return (replies, r, w') → registry_wf r.
Proof.
  pose proof (new_wf obs cfg) as Hwf. revert Hwf. generalize (Registry_new obs cfg) as r0.
  revert w replies r w'. induction ops as [|op ops IH]; intros w replies r w' r0 Hwf; simpl.
  - by intros [= _ <- _].
  - destruct (step op r0 w) as [[[reply r1] w1]|m] eqn:Hst; [|done]. simpl.
    destruct (run ops r1 w1) as [[[replies1 r2] w2]|m] eqn:Hrun; [|done]. simpl.
    intros [= _ <- _]. eapply IH, Hrun. by eapply step_wf, Hst.
Qed.


(** C19: A registration for an intent whose namespace is "system" or starts with
    "system.", in any letter case, is refused with an error and leaves registry
    and observer as they were; every other registration is accepted. *)
Theorem system_namespace_protected r s ics t w :
  registry_wf r →
  (∀ changes w, ∃ w', on_change (observer r) changes w = Return w') →
  let system ic := lowercase (namespace ic) = "system" ∨
                   ∃ rest, lowercase (namespace ic) = "system." +:+ rest in
  (Exists system ics ∧
   upsert r s ics t w = Return (Err (Error_new
     "It is not possible to overwrite an existing system registration"), r, w)) ∨
  (Forall (λ ic, ¬ system ic) ics ∧
   ∃ r' w', upsert r s ics t w = Return (Ok tt, r', w')).
Proof.
  intros Hwf Hobs system.
  assert (∀ ic, is_system_namespace (namespace ic) = true ↔ system ic) as Hsys.
  { intros ic. unfold is_system_namespace, system, starts_with_ignore_ascii_case.
    by rewrite orb_true_iff, prefix_ignore_ascii_case_iff, eq_ignore_ascii_case_iff. }
  destruct (existsb (λ ic, is_system_namespace (namespace ic)) ics) eqn:E.
  - left. split.
    + apply existsb_exists in E as (ic & Hin & Hic). apply Exists_exists.
      exists ic. rewrite <- Hsys. by rewrite list_elem_of_In.
    + unfold upsert. by rewrite E.
  - right. split.
    + apply Forall_forall. intros ic Hin. rewrite <- Hsys. intros Hic.
      assert (existsb (λ ic, is_system_namespace (namespace ic)) ics = true) as E'; [|congruence].
      apply existsb_exists. exists ic. by rewrite <- list_elem_of_In.
    + destruct (upsert_eq r s ics t w Hwf E) as (changes & _ & ->).
      destruct (notify_total _ Hobs changes w) as [w' ->]. by do 2 eexists.
Qed.

(** A service with a heartbeat survives every sequence of operations that returns. *)
Lemma run_survives (ops : list Op) r w s t replies r' w' :
  registry_wf r → (0 ≤ entry_ttl (config r))%Z →
  known_services r !! s = Some t →
  heartbeat s (entry_ttl (config r)) t ops →
  run ops r w = Return (replies, r', w') →
  is_Some (known_services r' !! s) ∧ intents_of r' s = intents_of r s.
Proof.
  intros Hwf Httl Hs. assert (abs r !! s = Some (intents_of r s, t)) as Ha.
  { by rewrite lookup_abs, Hs. }
  clear Hs. generalize (intents_of r s) Ha. clear Ha. intros I Ha.
  revert r w t replies Hwf Httl Ha.
  induction ops as [|op ops IH]; intros r w t replies Hwf Httl Ha; simpl.
  - intros _ [= _ <- _]. rewrite lookup_abs in Ha.
    destruct (_ !! s); simpl in Ha; [|done]. injection Ha as -> ->. by split; [eexists|].
  - intros [Hop Hbeat].
    destruct (step op r w) as [[[reply r1] w1]|m] eqn:Hst; [|done]. simpl.
    destruct (run ops r1 w1) as [[[replies1 r2] w2]|m] eqn:Hrun; [|done]. simpl.
    intros [= _ <- <-].
    destruct (step_abs _ _ _ _ _ _ Hwf Httl Hst) as [Hcfg Habs].
    rewrite <- Hcfg in Hbeat. eapply (IH r1 w1).
    + by eapply step_wf, Hst.
    + by rewrite Hcfg.
    + rewrite Habs. by eapply spec_step_survives.
    + done.
    + done.
Qed.

(** C17: A service that keeps announcing itself stays registered with its intents: if
    every [prune] of a sequence of operations comes at most a time to live after the
    service was last seen and no registration takes its id, then the operations
    return and the service is still registered for the same intents afterwards. *)
Theorem announced_service_survives (ops : list Op) r w s t :
  registry_wf r → (0 ≤ entry_ttl (config r))%Z → deadlines_fit r →
  (∀ changes w, ∃ w', on_change (observer r) changes w = Return w') →
  Forall (λ op, op_time op + entry_ttl (config r) ≤ INSTANT_MAX)%Z ops →
  known_services r !! s = Some t →
  heartbeat s (entry_ttl (config r)) t ops →
  ∃ replies r' w', run ops r w = Return (replies, r', w') ∧
    is_Some (known_services r' !! s) ∧ intents_of r' s = intents_of r s.
Proof.
  intros Hwf Httl Hfit Hobs Htimes Hs Hbeat.
  destruct (run_refines (observer r) (config r) ops r w Httl Hobs Htimes)
    as (replies & r' & w' & E & _); [by split|].
  exists replies, r', w'. split; [done|]. by eapply run_survives.
Qed.

(** C18: [prune] returns, and its deadline is tight.  After pruning at [now] no entry is
    expired; if the deadline is [Specific], no entry expires before or at the
    deadline and one is expired at every later moment; if it is [Default] the
    registry is empty and the deadline is one time to live from [now]. *)
Theorem prune_deadline_tight r now w :
  registry_wf r → (0 ≤ entry_ttl (config r))%Z →
  (∀ changes w, ∃ w', on_change (observer r) changes w = Return w') →
  deadlines_fit r → (now + entry_ttl (config r) ≤ INSTANT_MAX)%Z →
  let ttl := entry_ttl (config r) in
  ∃ sp d r' w', prune r now w = Return (sp, d, r', w') ∧
  (∀ s t, known_services r' !! s = Some t → expired ttl now t = false) ∧
  match sp with
  | Specific =>
      (∀ s t t', known_services r' !! s = Some t → (t' ≤ d)%Z → expired ttl t' t = false) ∧
      (∃ s t, known_services r' !! s = Some t ∧
              ∀ t', (d < t')%Z → expired ttl t' t = true)
  | Default => known_services r' = ∅ ∧ d = (now + ttl)%Z
  end.
Proof.
  intros Hwf Httl Hobs Hfit Hnow ttl.
  destruct (prune_eq r now w Hwf Hfit Hnow) as (changes & _ & ->).
  destruct (notify_total _ Hobs changes w) as [w1 ->]. cbn [mbind outcome_bind].
  rewrite spec_deadline_known. fold ttl. set (r1 := pruned (is_expired r now) r) in *.
  destruct (match list_min _ with Some _ => _ | None => _ end) as [sp d] eqn:Ed.
  exists sp, d, r1, w1. split_and!; [done| |].
  - intros s t Hs.
    apply map_lookup_filter_Some in Hs as [_ Hs]. simpl in Hs. unfold is_expired in Hs.
    unfold expired. rewrite bool_decide_eq_false in *. by rewrite <- duration_since_gt.
  - destruct (list_min _) as [m|] eqn:Em; injection Ed as <- <-.
    + apply list_min_Some in Em as [Hin Hle]. split.
      * intros s t t' Hs Ht'. unfold expired. apply bool_decide_eq_false.
        specialize (Hle (t + ttl)%Z). rewrite list_elem_of_fmap in Hle.
        assert (m ≤ t + ttl)%Z; [|lia]. apply Hle. exists t. split; [done|].
        apply elem_of_map_values. by exists s.
      * apply list_elem_of_fmap in Hin as (t & -> & [s Hs]%elem_of_map_values).
        exists s, t. split; [done|]. intros t' Ht'. unfold expired.
        apply bool_decide_eq_true. lia.
    + split; [|done]. apply list_min_None, fmap_nil_inv in Em.
      unfold map_values in Em. apply fmap_nil_inv in Em. by apply map_iter_nil.
Qed.

(** C40: [prune] never returns when the current time plus the time to live exceeds
    the range of [Instant], even if the sum is not needed for the deadline: the
    default deadline is computed eagerly and the addition panics. *)
Theorem prune_overflow_panics r now w :
  (INSTANT_MAX < now + entry_ttl (config r))%Z →
  ∃ msg, prune r now w = Panic msg.
Proof.
  intros Hmax. unfold prune.
  destruct (prune_by _ _) as [[cs r1]|m] eqn:Ep; [|by eexists]. cbn [mbind outcome_bind].
  destruct (observe _ _ _); [|by eexists]. cbn [mbind outcome_bind].
  destruct (min_deadline _ _); [|by eexists]. cbn [mbind outcome_bind].
  unfold instant_add. rewrite decide_False by lia. by eexists.
Qed.
End theorems.

(** ** Witnesses *)
Module Witnesses.
Import Sample.

Definition W0 : list (list Change) := [].

Lemma empty_wf : registry_wf empty.
Proof. apply new_wf. Qed.
Lemma one_wf : registry_wf one.
Proof. apply upserted_wf; [apply new_wf|vm_compute; reflexivity]. Qed.

(** The replies of the sample run: "b" has expired at 26 s, "a" was announced at
    12 s and expires at 27 s. *)
Example sample_replies :
  fmap (λ x, x.1.1) (run ops empty W0) =
    Return [Upserted true; Upserted true; Touched true; Pruned Specific (secs 27)].
Proof. vm_compute. reflexivity. Qed.

Lemma registry_refines_witness :
  ∃ replies r w',
    run ops (Registry_new tt Config_default) W0 = Return (replies, r, w') ∧
    spec_run (entry_ttl Config_default) ops ∅ = (replies, abs r).
Proof.
  apply (registry_refines ops tt Config_default W0).
  - vm_compute. discriminate.
  - intros changes w. by exists (w ++ [changes]).
  - repeat constructor; vm_compute; discriminate.
Defined.

Lemma registry_invariant_witness :
  ∃ replies r w', run ops (Registry_new tt Config_default) W0 = Return (replies, r, w') ∧
                  registry_wf r.
Proof.
  destruct (is_return_inv (run ops (Registry_new tt Config_default) W0))
    as [[[rs r] w'] E]; [vm_compute; reflexivity|].
  exists rs, r, w'. split; [exact E|].
  exact (registry_invariant ops tt Config_default W0 rs r w' E).
Defined.


Lemma system_namespace_protected_witness :
  let ics := [mkIntentConfiguration "SYSTEM.Registry" Inspect] in
  let system ic := lowercase (namespace ic) = "system" ∨
                   ∃ rest, lowercase (namespace ic) = "system." +:+ rest in
  (Exists system ics ∧
   upsert one (service "b" Local) ics (secs 1) W0 = Return (Err (Error_new
     "It is not possible to overwrite an existing system registration"), one, W0)) ∨
  (Forall (λ ic, ¬ system ic) ics ∧
   ∃ r' w', upsert one (service "b" Local) ics (secs 1) W0 = Return (Ok tt, r', w')).
Proof.
  apply (system_namespace_protected one (service "b" Local) _ (secs 1) W0).
  - apply one_wf.
  - intros changes w. by exists (w ++ [changes]).
Defined.

Lemma one_fit : deadlines_fit one.
Proof.
  apply map_Forall_insert_2; [vm_compute; discriminate|].
  intros s t Hs. by apply map_lookup_filter_Some in Hs as [? _].
Qed.

Lemma announced_service_survives_witness :
  let ops := [OpTouch (service "a" Cloud) (secs 14);
              OpUpsert (service "b" Local) [] (secs 20); OpPrune (secs 29)] in
  ∃ replies r' w', run ops one W0 = Return (replies, r', w') ∧
    is_Some (known_services r' !! service "a" Cloud) ∧
    intents_of r' (service "a" Cloud) = intents_of one (service "a" Cloud).
Proof.
  intros ops.
  apply (announced_service_survives ops one W0 (service "a" Cloud) (secs 0)).
  - apply one_wf.
  - vm_compute. discriminate.
  - apply one_fit.
  - intros changes w. by exists (w ++ [changes]).
  - repeat constructor; vm_compute; discriminate.
  - vm_compute. reflexivity.
  - split; [exact I|]. split; [vm_compute; discriminate|].
    split; [|exact I]. vm_compute. discriminate.
Defined.

Lemma prune_deadline_tight_witness :
  ∃ sp d r' w', prune one (secs 10) W0 = Return (sp, d, r', w') ∧
    (∀ s t, known_services r' !! s = Some t →
            expired (entry_ttl (config one)) (secs 10) t = false).
Proof.
  destruct (prune_deadline_tight one (secs 10) W0) as (sp & d & r' & w' & E & Hexp & _).
  - apply one_wf.
  - vm_compute. discriminate.
  - intros changes w. by exists (w ++ [changes]).
  - apply one_fit.
  - vm_compute. discriminate.
  - exists sp, d, r', w'. split; [exact E|exact Hexp].
Defined.

Lemma prune_overflow_panics_witness :
  ∃ msg, prune (Registry_new tt (set_entry_ttl_bounded Config_default (secs U64_MAX)))
           (secs 0) W0 = Panic msg.
Proof.
  apply (prune_overflow_panics
    (Registry_new tt (set_entry_ttl_bounded Config_default (secs U64_MAX))) (secs 0) W0).
  vm_compute. reflexivity.
Defined.
End Witnesses.
