(* ===== verification/Ess.v ===== *)
(** * The event sub-system ([intent_brokering/ess/src/ess.rs])

    The two hash maps of [EventSubSystem] (a broadcast sender per event, a client
    with its delivery channel and its subscriptions per client id), the
    operations on them, and the loop that serves one subscription.

    The channels and cancellation tokens are tokio's: they are the parameter
    [Channels], a store of channels with the operations the source calls. *)

From S2P Require Import Prelude RustStd.

(** ** tokio's channels and cancellation tokens *)
Inductive TrySend (E : Type) := Sent | Full (e : E) | Closed (e : E).
Arguments Sent {E}.
Arguments Full {E} e.
Arguments Closed {E} e.

Class Channels (Event ClientEvent : Type) : Type := {
  chans : Type;
  bsender : Type;
  breceiver : Type;
  msender : Type;
  mreceiver : Type;
  token : Type;
  broadcast_channel : nat → chans → outcome (bsender * breceiver * chans);
  broadcast_subscribe : bsender → chans → breceiver * chans;
  broadcast_send : bsender → Event → chans → result nat Event * chans;
  receiver_count : bsender → chans → nat;
  drop_receiver : breceiver → chans → chans;
  drop_bsender : bsender → chans → chans;
  mpsc_channel : nat → chans → outcome (msender * mreceiver * chans);
  try_send : msender → ClientEvent → chans → TrySend ClientEvent * chans;
  drop_msender : msender → chans → chans;
  clone_msender : msender → chans → chans;
  token_new : chans → token * chans;
  token_cancel : token → chans → chans
}.

Inductive UpsertResult := Inserted | Updated.
Inductive NotReadingEvents := mkNotReadingEvents.

#[export] Instance UpsertResult_eq_dec : EqDecision UpsertResult.
Proof. solve_decision. Defined.

(** ** Configuration *)
Definition DEFAULT_PUBLISH_BUFFER_SIZE : nat := 10.
Definition DEFAULT_CLIENT_BUFFER_SIZE : nat := 200.

Record EssConfig := mkEssConfig { publish_buffer_size : nat; client_buffer_size : nat }.
Definition EssConfig_default : EssConfig :=
  mkEssConfig DEFAULT_PUBLISH_BUFFER_SIZE DEFAULT_CLIENT_BUFFER_SIZE.
Definition set_publish_buffer_size (c : EssConfig) (value : nat) : EssConfig :=
  mkEssConfig value (client_buffer_size c).
Definition set_client_buffer_size (c : EssConfig) (value : nat) : EssConfig :=
  mkEssConfig (publish_buffer_size c) value.

Section ess.
Context {ClientId EventId Event ClientEvent : Type}.
Context `{Countable ClientId, Countable EventId}.
Context `{!HashOrder} `{!Channels Event ClientEvent}.

Record Client := mkClient {
  sender : msender;
  subscriptions : gmap EventId token
}.

(** [EventSubSystem], with the store its channels live in.  The two maps are
    behind [Arc<RwLock<_>>]: there is one of each, shared by every handle. *)
Record EventSubSystem := mkEss {
  ess_config : EssConfig;
  sender_by_event_id : gmap EventId bsender;
  client_by_id : gmap ClientId Client;
  channels : chans
}.

Record SubscriptionId := mkSubscriptionId {
  client_id : ClientId;
  event_id : EventId
}.

Record Subscription := mkSubscription {
  sub_id : SubscriptionId;
  cancellation_token : token;
  receiver : breceiver;
  sub_sender : msender
}.

Definition Ess_new_with_config (cfg : EssConfig) (ch : chans) : EventSubSystem :=
  mkEss cfg ∅ ∅ ch.
Definition Ess_new (ch : chans) : EventSubSystem := Ess_new_with_config EssConfig_default ch.

Definition publish (ev_id : EventId) (event : Event) (ess : EventSubSystem)
    : bool * EventSubSystem :=
  match sender_by_event_id ess !! ev_id with
  | Some snd =>
      let '(_, ch) := broadcast_send snd event (channels ess) in
      (true, mkEss (ess_config ess) (sender_by_event_id ess) (client_by_id ess) ch)
  | None => (false, ess)
  end.

Definition read_events (cid : ClientId) (ess : EventSubSystem)
    : outcome (UpsertResult * mreceiver * EventSubSystem) :=
  '(tx, rx, ch) ← mpsc_channel (client_buffer_size (ess_config ess)) (channels ess);
  let old := client_by_id ess !! cid in
  let clients := <[cid := mkClient tx ∅]> (client_by_id ess) in
  let '(upsert, ch) :=
    match old with
    | Some c => (Updated, drop_msender (sender c) ch)
    | None => (Inserted, ch)
    end in
  Return (upsert, rx, mkEss (ess_config ess) (sender_by_event_id ess) clients ch).

(** One iteration of the loop of [register_subscriptions] for a client whose
    delivery sender is [tx]. *)
Definition register_step (cfg : EssConfig) (cid : ClientId) (tx : msender)
    (acc : gmap EventId token * gmap EventId bsender * list Subscription * chans)
    (ev_id : EventId)
    : outcome (gmap EventId token * gmap EventId bsender * list Subscription * chans) :=
  let '(subs, senders, new_subscriptions, ch) := acc in
  match subs !! ev_id with
  | Some _ => Return acc
  | None =>
      '(snd, senders, ch) ←
        match senders !! ev_id with
        | Some snd => Return (snd, senders, ch)
        | None =>
            '(snd, rx, ch) ← broadcast_channel (publish_buffer_size cfg) ch;
            Return (snd, <[ev_id := snd]> senders, drop_receiver rx ch)
        end;
      let '(rx, ch) := broadcast_subscribe snd ch in
      let '(tok, ch) := token_new ch in
      Return (<[ev_id := tok]> subs, senders,
              new_subscriptions ++ [mkSubscription (mkSubscriptionId cid ev_id) tok rx tx],
              clone_msender tx ch)
  end.

Definition register_subscriptions (cid : ClientId) (requested : list EventId)
    (ess : EventSubSystem)
    : outcome (result (list Subscription) NotReadingEvents * EventSubSystem) :=
  match client_by_id ess !! cid with
  | None => Return (Err mkNotReadingEvents, ess)
  | Some client =>
      '(subs, senders, new_subscriptions, ch) ←
        for_each (register_step (ess_config ess) cid (sender client))
          (subscriptions client, sender_by_event_id ess, [], channels ess) requested;
      Return (Ok new_subscriptions,
              mkEss (ess_config ess) senders
                (<[cid := mkClient (sender client) subs]> (client_by_id ess)) ch)
  end.

Definition get_subscriptions (cid : ClientId) (ess : EventSubSystem) : list EventId :=
  match client_by_id ess !! cid with
  | Some client => map_keys (subscriptions client)
  | None => []
  end.

(** One iteration of the loop of [deregister_subscriptions]. *)
Definition deregister_step
    (acc : gmap EventId token * gmap EventId bsender * chans) (ev_id : EventId)
    : gmap EventId token * gmap EventId bsender * chans :=
  let '(subs, senders, ch) := acc in
  match subs !! ev_id with
  | Some tok =>
      let ch := token_cancel tok ch in
      match senders !! ev_id with
      | Some snd =>
          if decide (receiver_count snd ch = 0)
          then (delete ev_id subs, delete ev_id senders, drop_bsender snd ch)
          else (delete ev_id subs, senders, ch)
      | None => (delete ev_id subs, senders, ch)
      end
  | None => (subs, senders, ch)
  end.

Definition deregister_subscriptions (cid : ClientId) (ev_ids : list EventId)
    (ess : EventSubSystem) : result unit NotReadingEvents * EventSubSystem :=
  match client_by_id ess !! cid with
  | None => (Err mkNotReadingEvents, ess)
  | Some client =>
      let '(subs, senders, ch) :=
        foldl deregister_step
          (subscriptions client, sender_by_event_id ess, channels ess) ev_ids in
      (Ok tt, mkEss (ess_config ess) senders
                (<[cid := mkClient (sender client) subs]> (client_by_id ess)) ch)
  end.

(** ** Serving a subscription *)

(** What [tokio::select!] yields: the subscription's token was cancelled, or
    [recv] returned an event, [RecvError::Closed] or [RecvError::Lagged]. *)
Inductive Selected :=
  | Cancelled
  | Received (event : Event)
  | RecvClosed
  | RecvLagged (amount : Z).

(** The optional handlers, as updates of a state [H]. *)
Record Handlers (H : Type) := mkHandlers {
  on_subscription_revoked : option (SubscriptionId → H → H);
  on_client_disconnected : option (SubscriptionId → H → H);
  on_done : option (SubscriptionId → H → H);
  on_client_abandoned : option (SubscriptionId → ClientEvent → H → H);
  on_event_dropped : option (SubscriptionId → ClientEvent → H → H);
  on_publisher_lagged : option (SubscriptionId → Z → H → H)
}.

Definition call {H} (handler : option (SubscriptionId → H → H)) (i : SubscriptionId) (h : H) : H :=
  match handler with Some g => g i h | None => h end.
Definition call_with {A H} (handler : option (SubscriptionId → A → H → H))
    (i : SubscriptionId) (a : A) (h : H) : H :=
  match handler with Some g => g i a h | None => h end.

(** The client entry without its subscription to [ev_id]: what the loop does
    under the write lock when the delivery channel is closed. *)
Definition forget_subscription (i : SubscriptionId) (clients : gmap ClientId Client)
    : gmap ClientId Client :=
  match clients !! client_id i with
  | Some client =>
      <[client_id i := mkClient (sender client) (delete (event_id i) (subscriptions client))]> clients
  | None => clients
  end.

(** One iteration of the loop of [serve_with_handlers]: [true] in the result
    means [continue] (or falling through to the next iteration), [false] means
    [break].  [ess] is the shared state at that moment. *)
Definition serve_iteration {H} (overflow_checks : bool) (self : Subscription)
    (f : Event → Z → ClientEvent) (hs : Handlers H) (selected : Selected)
    (seq : Z) (ess : EventSubSystem) (h : H) : outcome (bool * Z * EventSubSystem * H) :=
  match selected with
  | Cancelled =>
      Return (false, seq, ess, call (on_subscription_revoked _ hs) (sub_id self) h)
  | Received event =>
      seq ← add_u64 overflow_checks seq 1;
      let '(res, ch) := try_send (sub_sender self) (f event seq) (channels ess) in
      let ess := mkEss (ess_config ess) (sender_by_event_id ess) (client_by_id ess) ch in
      match res with
      | Sent => Return (true, seq, ess, h)
      | Full event =>
          Return (true, seq, ess, call_with (on_event_dropped _ hs) (sub_id self) event h)
      | Closed event =>
          let h := call_with (on_client_abandoned _ hs) (sub_id self) event h in
          Return (false, seq,
                  mkEss (ess_config ess) (sender_by_event_id ess)
                    (forget_subscription (sub_id self) (client_by_id ess)) (channels ess), h)
      end
  | RecvClosed =>
      Return (false, seq, ess, call (on_client_disconnected _ hs) (sub_id self) h)
  | RecvLagged amount =>
      Return (true, wrapping_add seq amount, ess,
              call_with (on_publisher_lagged _ hs) (sub_id self) amount h)
  end.

(** The end of the task drops [self], hence its receiver and its sender. *)
Definition drop_subscription (self : Subscription) (ess : EventSubSystem) : EventSubSystem :=
  mkEss (ess_config ess) (sender_by_event_id ess) (client_by_id ess)
    (drop_msender (sub_sender self) (drop_receiver (receiver self) (channels ess))).

(** The loop, driven by what [select!] yields at each iteration and by how the
    rest of the program changes the shared state in between ([interfere]).  When
    the inputs are exhausted the task is still pending and the result says so: its
    first component is [true] only after a [break], when [on_done] has run. *)
Fixpoint serve_loop {H} (overflow_checks : bool) (self : Subscription)
    (f : Event → Z → ClientEvent) (hs : Handlers H)
    (inputs : list (Selected * (EventSubSystem → EventSubSystem)))
    (seq : Z) (ess : EventSubSystem) (h : H) : outcome (bool * Z * EventSubSystem * H) :=
  match inputs with
  | [] => Return (false, seq, ess, h)
  | (selected, interfere) :: inputs =>
      '(continue, seq, ess, h) ←
        serve_iteration overflow_checks self f hs selected seq (interfere ess) h;
      if continue : bool then serve_loop overflow_checks self f hs inputs seq ess h
      else Return (true, seq, drop_subscription self ess, call (on_done _ hs) (sub_id self) h)
  end.

Definition serve_with_handlers {H} (overflow_checks : bool) (self : Subscription)
    (f : Event → Z → ClientEvent) (hs : Handlers H)
    (inputs : list (Selected * (EventSubSystem → EventSubSystem)))
    (ess : EventSubSystem) (h : H) : outcome (bool * Z * EventSubSystem * H) :=
  serve_loop overflow_checks self f hs inputs 0 ess h.

(** [serve]: every handler logs. *)
Inductive LogEntry :=
  | SubscriptionRevoked (i : SubscriptionId)
  | ReceiverClosed (i : SubscriptionId)
  | TaskEnded (i : SubscriptionId)
  | RemovingSubscription (i : SubscriptionId)
  | DroppedEvent (i : SubscriptionId)
  | ReceiverLagged (i : SubscriptionId) (amount : Z).

Definition log_handlers : Handlers (list LogEntry) := {|
  on_subscription_revoked := Some (λ i h, h ++ [SubscriptionRevoked i]);
  on_client_disconnected := Some (λ i h, h ++ [ReceiverClosed i]);
  on_done := Some (λ i h, h ++ [TaskEnded i]);
  on_client_abandoned := Some (λ i _ h, h ++ [RemovingSubscription i]);
  on_event_dropped := Some (λ i _ h, h ++ [DroppedEvent i]);
  on_publisher_lagged := Some (λ i amount h, h ++ [ReceiverLagged i amount])
|}.

Definition serve (overflow_checks : bool) (self : Subscription) (f : Event → Z → ClientEvent)
    (inputs : list (Selected * (EventSubSystem → EventSubSystem)))
    (ess : EventSubSystem) (log : list LogEntry) : outcome (bool * Z * EventSubSystem * list LogEntry) :=
  serve_with_handlers overflow_checks self f log_handlers inputs ess log.
End ess.
