(* ===== verification/EssFacts.v ===== *)
(** * Correctness of the event sub-system

    The effect of registering and deregistering subscriptions as maps, and the
    numbering of the events a subscription delivers. *)

From S2P Require Import Prelude RustStd Ess.

(** What the sources rely on of tokio's constructors: a channel with a positive
    buffer can be made. *)
Class ChannelLaws (Event ClientEvent : Type) `{!Channels Event ClientEvent} : Prop := {
  broadcast_channel_total n ch : 0 < n → is_return (broadcast_channel n ch) = true;
  mpsc_channel_total n ch : 0 < n → is_return (mpsc_channel n ch) = true
}.

Section facts.
Context {ClientId EventId Event ClientEvent : Type}.
Context `{Countable ClientId, Countable EventId}.
Context `{!HashOrder} `{!Channels Event ClientEvent}.
Abbreviation Ess := (@EventSubSystem ClientId EventId Event ClientEvent _ _ _ _ _).
Abbreviation Sub := (@Subscription ClientId EventId Event ClientEvent _).

(** ** Reference definitions *)

(** The requested events a client is not yet subscribed to, in the order they are
    requested, each once. *)
Fixpoint fresh_ids (known : gset EventId) (requested : list EventId) : list EventId :=
  match requested with
  | [] => []
  | e :: rest => if decide (e ∈ known) then fresh_ids known rest
                 else e :: fresh_ids ({[e]} ∪ known) rest
  end.

(** The subscriptions of a client, by event. *)
Definition subscribed (ess : Ess) (cid : ClientId) : gset EventId :=
  match client_by_id ess !! cid with
  | Some c => dom (subscriptions c)
  | None => ∅
  end.

(** Everything [register_subscriptions] does to the maps, relative to the state
    it started from. *)
Record registered (subs0 : gmap EventId token) (senders0 : gmap EventId bsender)
    (cid : ClientId) (tx : msender) (requested : list EventId)
    (subs : gmap EventId token) (senders : gmap EventId bsender) (news : list Sub) : Prop := {
  reg_new_ids : (λ s, event_id (sub_id s)) <$> news = fresh_ids (dom subs0) requested;
  reg_new_client : Forall (λ s, client_id (sub_id s) = cid ∧ sub_sender s = tx) news;
  reg_tokens : Forall (λ s, subs !! event_id (sub_id s) = Some (cancellation_token s)) news;
  reg_dom : dom subs = list_to_set requested ∪ dom subs0;
  reg_old : subs0 ⊆ subs;
  reg_senders : senders0 ⊆ senders;
  reg_has_sender e : e ∈ dom subs ∖ dom subs0 → e ∈ dom senders
}.

Lemma registered_nil subs senders cid tx : registered subs senders cid tx [] subs senders [].
Proof. split; try done; set_solver. Qed.

Lemma registered_skip subs0 senders0 cid tx e req subs senders news :
  is_Some (subs0 !! e) →
  registered subs0 senders0 cid tx req subs senders news →
  registered subs0 senders0 cid tx (e :: req) subs senders news.
Proof.
  intros He%elem_of_dom []. split; simpl; try done.
  - by rewrite decide_True.
  - set_solver.
Qed.

Lemma registered_cons subs0 senders0 senders1 cid tx e tok rx req subs senders news :
  subs0 !! e = None → senders0 ⊆ senders1 → e ∈ dom senders1 →
  registered (<[e := tok]> subs0) senders1 cid tx req subs senders news →
  registered subs0 senders0 cid tx (e :: req) subs senders
    (mkSubscription (mkSubscriptionId cid e) tok rx tx :: news).
Proof.
  intros He Hs0 He1 [Hids Hcl Htok Hdom Hold Hsnd Hhas].
  assert (subs !! e = Some tok) as Htok_e.
  { eapply lookup_weaken, Hold. apply lookup_insert_eq. }
  split.
  - rewrite fmap_cons, Hids. cbn [fresh_ids event_id sub_id].
    by rewrite decide_False, dom_insert_L by by apply not_elem_of_dom.
  - by constructor.
  - by constructor.
  - rewrite Hdom, dom_insert_L. set_solver.
  - etrans; [|exact Hold]. by apply insert_subseteq.
  - by etrans.
  - intros e' He'. destruct (decide (e' = e)) as [->|Hne].
    + apply subseteq_dom in Hsnd. set_solver.
    + apply Hhas. rewrite dom_insert_L. set_solver.
Qed.

Lemma register_loop cfg cid tx req subs senders news ch :
  ChannelLaws Event ClientEvent → 0 < publish_buffer_size cfg →
  ∃ subs' senders' news' ch',
    for_each (register_step cfg cid tx) (subs, senders, news, ch) req =
      Return (subs', senders', news ++ news', ch') ∧
    registered subs senders cid tx req subs' senders' news'.
Proof.
  intros Hlaws Hbuf. revert subs senders news ch.
  induction req as [|e req IH]; intros subs senders news ch; cbn [for_each].
  { exists subs, senders, [], ch. rewrite app_nil_r. split; [done|apply registered_nil]. }
  unfold register_step at 2. destruct (subs !! e) as [t|] eqn:He.
  { cbn [mbind outcome_bind]. destruct (IH subs senders news ch) as (su & se & nw & c & -> & Hreg).
    exists su, se, nw, c. split; [done|]. apply registered_skip; [by eexists|done]. }
  destruct (senders !! e) as [snd|] eqn:Hse.
  - cbn [mbind outcome_bind]. destruct (broadcast_subscribe snd ch) as [rx ch1].
    destruct (token_new ch1) as [tok ch2]. cbn [mbind outcome_bind].
    destruct (IH (<[e := tok]> subs) senders
      (news ++ [mkSubscription (mkSubscriptionId cid e) tok rx tx]) (clone_msender tx ch2))
      as (su & se & nw & c & -> & Hreg).
    eexists _, _, (_ :: nw), c. rewrite <- (assoc (++)). split; [done|].
    eapply registered_cons; [done|done| |done]. apply elem_of_dom. by eexists.
  - destruct (is_return_inv (broadcast_channel (publish_buffer_size cfg) ch))
      as [[[snd rx0] ch0] ->]; [by apply broadcast_channel_total|].
    cbn [mbind outcome_bind]. destruct (broadcast_subscribe snd _) as [rx ch1].
    destruct (token_new ch1) as [tok ch2]. cbn [mbind outcome_bind].
    destruct (IH (<[e := tok]> subs) (<[e := snd]> senders)
      (news ++ [mkSubscription (mkSubscriptionId cid e) tok rx tx]) (clone_msender tx ch2))
      as (su & se & nw & c & -> & Hreg).
    eexists _, _, (_ :: nw), c. rewrite <- (assoc (++)). split; [done|].
    eapply registered_cons; [done| | |done].
    + by apply insert_subseteq.
    + rewrite dom_insert_L. set_solver.
Qed.

(** ** Deregistration *)

(** Deregistering removes the subscriptions asked for and nothing else, whatever
    the channels do. *)
Lemma deregister_loop_subs (ids : list EventId) (subs : gmap EventId token)
    (senders : gmap EventId bsender) ch :
  let '(subs', senders', _) := foldl deregister_step (subs, senders, ch) ids in
  subs' = filter (λ kv, kv.1 ∉ ids) subs ∧ senders' ⊆ senders ∧
  (∀ e, e ∉ ids → senders' !! e = senders !! e).
Proof.
  revert subs senders ch; induction ids as [|e ids IH]; intros subs senders ch; cbn [foldl].
  { split_and!; [|done|done]. symmetry. apply map_filter_id. set_solver. }
  assert (∀ senders1 ch1,
    senders1 ⊆ senders → (∀ e', e' ≠ e → senders1 !! e' = senders !! e') →
    let '(subs', senders', _) := foldl deregister_step (delete e subs, senders1, ch1) ids in
    subs' = filter (λ kv, kv.1 ∉ e :: ids) subs ∧ senders' ⊆ senders ∧
    (∀ e', e' ∉ e :: ids → senders' !! e' = senders !! e')) as Hgo.
  { intros senders1 ch1 Hsub Hoth. specialize (IH (delete e subs) senders1 ch1).
    destruct (foldl _ _ _) as [[subs' senders'] ch']. destruct IH as (-> & Hs & Ho).
    split_and!.
    - apply map_eq. intros i. rewrite !lookup_filter_case, lookup_delete.
      destruct (decide (e = i)) as [->|Hne]; simpl.
      + destruct (subs !! i); [|done]. by rewrite decide_False by set_solver.
      + destruct (subs !! i); [|done]. repeat case_decide; set_solver.
    - by etrans.
    - intros e' He'. rewrite Ho by set_solver. apply Hoth. set_solver. }
  unfold deregister_step at 2. destruct (subs !! e) as [tok|] eqn:He.
  - destruct (senders !! e) as [snd|] eqn:Hse; [case_decide|].
    + apply Hgo; [apply delete_subseteq|]. intros. by rewrite lookup_delete_ne.
    + by apply Hgo.
    + by apply Hgo.
  - specialize (Hgo senders ch (reflexivity _) (λ _ _, eq_refl)).
    by rewrite delete_id in Hgo.
Qed.

(** ** Numbering *)

(** How far the sequence number of a subscription advances at one iteration. *)
Definition advance (i : @Selected Event) : Z :=
  match i with Received _ => 1 | RecvLagged n => n | _ => 0 end.
Definition total_advance (inputs : list (@Selected Event)) : Z :=
  foldr (λ i acc, advance i + acc)%Z 0%Z inputs.

(** An iteration of the loop, as far as numbering and control flow go. *)
Lemma serve_iteration_seq {H'} checks (self : Sub) f (hs : Handlers H') i seq ess h c seq' ess' h' :
  (0 ≤ seq)%Z → (0 ≤ advance i)%Z → (seq + advance i ≤ U64_MAX)%Z →
  serve_iteration checks self f hs i seq ess h = Return (c, seq', ess', h') →
  seq' = (seq + advance i)%Z.
Proof.
  intros Hpos Ha Hmax. destruct i as [|ev| |n]; simpl in *.
  - intros [= _ <- _ _]. lia.
  - unfold add_u64. rewrite decide_True by lia. simpl.
    destruct (try_send _ _ _) as [[|e|e] ch]; intros [= _ <- _ _]; lia.
  - intros [= _ <- _ _]. lia.
  - intros [= _ <- _ _]. unfold wrapping_add. rewrite Z.mod_small; [done|].
    unfold U64_MAX in *. lia.
Qed.
Lemma publish_config event (e : Event) (x : EventSubSystem) :
  ess_config (publish (ClientId := ClientId) (EventId := EventId) event e x).2 = ess_config x.
Proof. unfold publish. destruct (_ !! event); [|done]. by destruct (broadcast_send _ _ _). Qed.
End facts.
