(* ===== verification/EssSample.v ===== *)
(** * Channels for witnesses

    A plain implementation of the channel interface the event sub-system is
    written against: bounded broadcast channels that drop the oldest events for a
    receiver that lags, bounded delivery queues, cancellation tokens.  Witnesses
    and examples run the model with it; no theorem depends on it. *)

From S2P Require Import Prelude RustStd Ess EssFacts.

Section sample.
Context (Event ClientEvent : Type).

Record bchan := mkBchan {
  b_cap : nat;
  b_log : list Event;
  b_pos : gmap nat nat
}.
Record mchan := mkMchan {
  m_cap : nat;
  m_queue : list ClientEvent;
  m_open : bool
}.
Record store := mkStore {
  bchans : list bchan;
  mchans : list mchan;
  next_rx : nat;
  cancelled : list bool
}.
Definition empty_store : store := mkStore [] [] 0 [].

Definition sample_broadcast_channel (n : nat) (s : store) : outcome (nat * (nat * nat) * store) :=
  if decide (n = 0) then Panic "broadcast channel capacity cannot be zero"
  else
    let b := mkBchan n [] {[next_rx s := 0]} in
    Return (length (bchans s), (length (bchans s), next_rx s),
            mkStore (bchans s ++ [b]) (mchans s) (S (next_rx s)) (cancelled s)).

Definition sample_update_b (i : nat) (f : bchan → bchan) (s : store) : store :=
  mkStore (alter f i (bchans s)) (mchans s) (next_rx s) (cancelled s).

Definition sample_subscribe (i : nat) (s : store) : (nat * nat) * store :=
  let s' := sample_update_b i (λ b, mkBchan (b_cap b) (b_log b)
              (<[next_rx s := length (b_log b)]> (b_pos b))) s in
  ((i, next_rx s), mkStore (bchans s') (mchans s') (S (next_rx s)) (cancelled s')).

Definition sample_receiver_count (i : nat) (s : store) : nat :=
  match bchans s !! i with Some b => size (b_pos b) | None => 0 end.

Definition sample_send (i : nat) (e : Event) (s : store) : result nat Event * store :=
  match sample_receiver_count i s with
  | O => (Err e, s)
  | n => (Ok n, sample_update_b i (λ b, mkBchan (b_cap b) (b_log b ++ [e]) (b_pos b)) s)
  end.

Definition sample_drop_receiver (r : nat * nat) (s : store) : store :=
  sample_update_b r.1 (λ b, mkBchan (b_cap b) (b_log b) (delete r.2 (b_pos b))) s.

Definition sample_mpsc_channel (n : nat) (s : store) : outcome (nat * nat * store) :=
  if decide (n = 0) then Panic "mpsc bounded channel requires buffer > 0"
  else Return (length (mchans s), length (mchans s),
               mkStore (bchans s) (mchans s ++ [mkMchan n [] true]) (next_rx s) (cancelled s)).

Definition sample_update_m (i : nat) (f : mchan → mchan) (s : store) : store :=
  mkStore (bchans s) (alter f i (mchans s)) (next_rx s) (cancelled s).

Definition sample_try_send (i : nat) (e : ClientEvent) (s : store) : TrySend ClientEvent * store :=
  match mchans s !! i with
  | Some m =>
      if negb (m_open m) then (Closed e, s)
      else if decide (m_cap m ≤ length (m_queue m)) then (Full e, s)
      else (Sent, sample_update_m i (λ m, mkMchan (m_cap m) (m_queue m ++ [e]) (m_open m)) s)
  | None => (Closed e, s)
  end.

(** The client closes its stream. *)
Definition close_stream (i : nat) (s : store) : store :=
  sample_update_m i (λ m, mkMchan (m_cap m) (m_queue m) false) s.

(** What [recv] yields for a receiver, [None] while there is nothing to read. *)
Definition sample_recv (r : nat * nat) (s : store) : option (@Selected Event * store) :=
  b ← bchans s !! r.1;
  pos ← b_pos b !! r.2;
  let behind := length (b_log b) - b_cap b - pos in
  let moved p := sample_update_b r.1
                   (λ b, mkBchan (b_cap b) (b_log b) (<[r.2 := p]> (b_pos b))) s in
  if decide (0 < behind) then Some (RecvLagged (Z.of_nat behind), moved (pos + behind))
  else e ← b_log b !! pos; Some (Received e, moved (S pos)).

#[export] Instance sample_channels : Channels Event ClientEvent := {|
  chans := store;
  bsender := nat;
  breceiver := nat * nat;
  msender := nat;
  mreceiver := nat;
  token := nat;
  broadcast_channel := sample_broadcast_channel;
  broadcast_subscribe := sample_subscribe;
  broadcast_send := sample_send;
  receiver_count := sample_receiver_count;
  drop_receiver := sample_drop_receiver;
  drop_bsender _ s := s;
  mpsc_channel := sample_mpsc_channel;
  try_send := sample_try_send;
  drop_msender _ s := s;
  clone_msender _ s := s;
  token_new s := (length (cancelled s),
                  mkStore (bchans s) (mchans s) (next_rx s) (cancelled s ++ [false]));
  token_cancel t s := mkStore (bchans s) (mchans s) (next_rx s) (<[t := true]> (cancelled s))
|}.

#[export] Instance sample_laws : ChannelLaws Event ClientEvent.
Proof.
  split; intros n ch Hn; simpl;
    unfold sample_broadcast_channel, sample_mpsc_channel; by rewrite decide_False by lia.
Qed.
End sample.
