(* ===== verification/EssTheorems.v ===== *)
(** * The theorems about the event sub-system

    Registration and deregistration of subscriptions, the numbering and delivery
    of events by the serving loop and how it ends, and three behaviours of the
    code that differ from what its comments say. *)

From S2P Require Import Prelude RustStd Ess EssFacts EssSample.

Section theorems.
Context {ClientId EventId Event ClientEvent : Type}.
Context `{Countable ClientId, Countable EventId}.
Context `{!HashOrder} `{!Channels Event ClientEvent}.
#[local] Abbreviation Ess := (@EventSubSystem ClientId EventId Event ClientEvent _ _ _ _ _).
#[local] Abbreviation Sub := (@Subscription ClientId EventId Event ClientEvent _).

Lemma serve_loop_app {H'} checks (self : Sub) f (hs : Handlers H') a b seq (ess : Ess) h :
  serve_loop checks self f hs (a ++ b) seq ess h =
    '(fin, seq, ess, h) ← serve_loop checks self f hs a seq ess h;
    if fin : bool then Return (true, seq, ess, h)
    else serve_loop checks self f hs b seq ess h.
Proof.
  revert seq ess h; induction a as [|[i g] a IH]; intros seq ess h; [done|].
  cbn [serve_loop app]. destruct (serve_iteration _ _ _ _ _ _ _ _) as [[[[c n] e] h']|m]; [|done].
  cbn [mbind outcome_bind]. destruct c; [apply IH|done].
Qed.

Lemma serve_loop_seq {H'} checks (self : Sub) f (hs : Handlers H') inputs seq (ess : Ess) h n ess' h' :
  Forall (λ i, 0 ≤ advance i)%Z inputs.*1 → (0 ≤ seq)%Z →
  (seq + total_advance inputs.*1 ≤ U64_MAX)%Z →
  serve_loop checks self f hs inputs seq ess h = Return (false, n, ess', h') →
  n = (seq + total_advance inputs.*1)%Z.
Proof.
  revert seq ess h. induction inputs as [|[i g] inputs IH]; intros seq ess h Hpos Hseq Hmax.
  { simpl. intros [= <- _ _]. lia. }
  cbn [serve_loop fmap list_fmap fst] in *. apply Forall_cons in Hpos as [Hi Hpos].
  cbn [total_advance foldr] in Hmax. fold (total_advance inputs.*1) in Hmax.
  assert (0 ≤ total_advance inputs.*1)%Z.
  { clear - Hpos. induction Hpos as [|j l]; simpl; [done|]. unfold total_advance in *. lia. }
  destruct (serve_iteration _ _ _ _ _ _ _ _) as [[[[c m] e] h1]|msg] eqn:E; [|done].
  cbn [mbind outcome_bind]. destruct c; [|done]. intros Hrun.
  apply serve_iteration_seq in E; [|lia..]. subst m.
  rewrite (IH (seq + advance i)%Z _ _ Hpos ltac:(lia) ltac:(lia) Hrun).
  cbn [total_advance foldr]. unfold total_advance. lia.
Qed.

(** Serving a subscription never adds or removes a publisher, and never adds a
    subscription. *)
Lemma forget_subscription_subscribed (self : Sub) (ess : Ess) ch cid :
  subscribed (mkEss (ess_config ess) (sender_by_event_id ess)
    (forget_subscription (sub_id self) (client_by_id ess)) ch) cid ⊆ subscribed ess cid.
Proof.
  unfold subscribed, forget_subscription; simpl.
  destruct (client_by_id ess !! client_id (sub_id self)) as [c|] eqn:Hc; [|done].
  rewrite lookup_insert. case_decide as Heq; [|done]. subst cid. rewrite Hc. simpl.
  rewrite dom_delete_L. set_solver.
Qed.

Lemma serve_iteration_frame {H'} checks (self : Sub) f (hs : Handlers H') i seq (ess : Ess) h c n ess' h' :
  serve_iteration checks self f hs i seq ess h = Return (c, n, ess', h') →
  sender_by_event_id ess' = sender_by_event_id ess ∧
  ∀ cid, subscribed ess' cid ⊆ subscribed ess cid.
Proof.
  destruct i; cbn [serve_iteration].
  - by intros [= _ _ <- _].
  - destruct (add_u64 _ _ _); [|done]. cbn [mbind outcome_bind].
    destruct (try_send _ _ _) as [[|e|e] ch]; intros [= _ _ <- _]; (split; [done|]); intros cid;
      [done|done|apply forget_subscription_subscribed].
  - by intros [= _ _ <- _].
  - by intros [= _ _ <- _].
Qed.

Lemma serve_loop_frame {H'} checks (self : Sub) f (hs : Handlers H') inputs seq (ess : Ess) h fin n ess' h' :
  Forall (λ i, ∀ x : Ess, i.2 x = x) inputs →
  serve_loop checks self f hs inputs seq ess h = Return (fin, n, ess', h') →
  sender_by_event_id ess' = sender_by_event_id ess ∧
  ∀ cid, subscribed ess' cid ⊆ subscribed ess cid.
Proof.
  intros Hint. revert seq ess h. induction Hint as [|[i g] inputs Hg _ IH]; intros seq ess h.
  { by intros [= _ _ <- _]. }
  cbn [serve_loop]. simpl in Hg. rewrite Hg.
  destruct (serve_iteration _ _ _ _ _ _ _ _) as [[[[c m] e] h1]|msg] eqn:E; [|done].
  apply serve_iteration_frame in E as [Es Esub]. cbn [mbind outcome_bind].
  destruct c; [|by intros [= _ _ <- _]].
  intros [-> Hsub]%IH. split; [done|]. intros cid. etrans; [apply Hsub|apply Esub].
Qed.

(** C21: [register_subscriptions] fails, without changing anything, exactly when
    the client is not reading events; otherwise it returns one subscription for
    each requested event the client was not subscribed to, in the order of the
    request and without duplicates, each carrying the token recorded for it and
    the client's delivery channel; afterwards the client is subscribed to the
    requested events and those it had before, every new subscription has a
    publisher, and no other client is affected. *)
Theorem register_subscriptions_spec (cid : ClientId) (requested : list EventId) (ess : Ess) :
  ChannelLaws Event ClientEvent → 0 < publish_buffer_size (ess_config ess) →
  match client_by_id ess !! cid with
  | None => register_subscriptions cid requested ess = Return (Err mkNotReadingEvents, ess)
  | Some client =>
      ∃ news ess',
        register_subscriptions cid requested ess = Return (Ok news, ess') ∧
        (λ s, event_id (sub_id s)) <$> news = fresh_ids (subscribed ess cid) requested ∧
        Forall (λ s, client_id (sub_id s) = cid ∧ sub_sender s = sender client ∧
          ∃ c, client_by_id ess' !! cid = Some c ∧
               subscriptions c !! event_id (sub_id s) = Some (cancellation_token s)) news ∧
        subscribed ess' cid = list_to_set requested ∪ subscribed ess cid ∧
        (∀ e, e ∈ subscribed ess' cid ∖ subscribed ess cid → is_Some (sender_by_event_id ess' !! e)) ∧
        (∀ cid', cid' ≠ cid → client_by_id ess' !! cid' = client_by_id ess !! cid')
  end.
Proof.
  intros Hlaws Hbuf. unfold register_subscriptions, subscribed.
  destruct (client_by_id ess !! cid) as [client|] eqn:Hc; [|done].
  destruct (register_loop (ess_config ess) cid (sender client) requested
    (subscriptions client) (sender_by_event_id ess) [] (channels ess) Hlaws Hbuf)
    as (subs & senders & news & ch & -> & [Hids Hcl Htok Hdom _ _ Hhas]).
  cbn [mbind outcome_bind app]. do 2 eexists. split; [done|]. simpl.
  rewrite lookup_insert_eq. simpl. split_and!; [done| |done| |].
  - apply Forall_forall. intros s Hs. rewrite Forall_forall in Hcl, Htok.
    destruct (Hcl s Hs). split_and!; [done|done|]. eexists. split; [done|]. by apply Htok.
  - intros e He. apply elem_of_dom. by apply Hhas.
  - intros cid' Hne. by rewrite lookup_insert_ne.
Qed.

(** C22: [deregister_subscriptions] fails, without changing anything, exactly when
    the client is not reading events; otherwise the client keeps exactly the
    subscriptions that were not named, no other client is affected, and no
    publisher of an event that was not named is removed. *)
Theorem deregister_subscriptions_spec (cid : ClientId) (ids : list EventId) (ess : Ess) :
  match client_by_id ess !! cid, deregister_subscriptions cid ids ess with
  | None, (res, ess') => res = Err mkNotReadingEvents ∧ ess' = ess
  | Some client, (res, ess') =>
      res = Ok tt ∧
      client_by_id ess' !! cid = Some (mkClient (sender client)
        (filter (λ kv, kv.1 ∉ ids) (subscriptions client))) ∧
      (∀ cid', cid' ≠ cid → client_by_id ess' !! cid' = client_by_id ess !! cid') ∧
      (∀ e, e ∉ ids → sender_by_event_id ess' !! e = sender_by_event_id ess !! e)
  end.
Proof.
  unfold deregister_subscriptions. destruct (client_by_id ess !! cid) as [client|]; [|done].
  pose proof (deregister_loop_subs ids (subscriptions client) (sender_by_event_id ess)
    (channels ess)) as Hl.
  destruct (foldl _ _ _) as [[subs senders] ch]. destruct Hl as (-> & _ & Hs).
  split_and!; simpl; [done|by rewrite lookup_insert_eq| |done].
  intros cid' Hne. by rewrite lookup_insert_ne.
Qed.

(** C20: The events a subscription delivers are numbered by their position in what
    was published to it: after any number of iterations that did not end the
    loop, the next event received gets the number of events received and skipped
    so far plus one, and is offered to the client's channel once; a full channel
    drops it and the loop goes on, a closed one ends the task and removes the
    subscription.  This holds while the numbers fit 64 bits, in debug and release
    builds alike. *)
Theorem serve_numbers_events {H'} checks (self : Sub) f (hs : Handlers H')
    pre ev (g : Ess → Ess) ess h n ess1 h1 :
  Forall (λ i, 0 ≤ advance i)%Z pre.*1 →
  (total_advance pre.*1 + 1 ≤ U64_MAX)%Z →
  serve_with_handlers checks self f hs pre ess h = Return (false, n, ess1, h1) →
  n = total_advance pre.*1 ∧
  serve_with_handlers checks self f hs (pre ++ [(Received ev, g)]) ess h =
    let '(res, ch) := try_send (sub_sender self) (f ev (n + 1)%Z) (channels (g ess1)) in
    let ess2 := mkEss (ess_config (g ess1)) (sender_by_event_id (g ess1))
                  (client_by_id (g ess1)) ch in
    match res with
    | Sent => Return (false, (n + 1)%Z, ess2, h1)
    | Full e => Return (false, (n + 1)%Z, ess2,
                        call_with (on_event_dropped _ hs) (sub_id self) e h1)
    | Closed e =>
        Return (true, (n + 1)%Z,
          drop_subscription self (mkEss (ess_config ess2) (sender_by_event_id ess2)
            (forget_subscription (sub_id self) (client_by_id ess2)) ch),
          call (on_done _ hs) (sub_id self)
            (call_with (on_client_abandoned _ hs) (sub_id self) e h1))
    end.
Proof.
  intros Hpos Hmax Hpre. unfold serve_with_handlers in *.
  assert (n = total_advance pre.*1) as Hn.
  { rewrite (serve_loop_seq _ _ _ _ _ 0%Z _ _ _ _ _ Hpos ltac:(lia) ltac:(lia) Hpre). lia. }
  split; [done|]. rewrite serve_loop_app, Hpre. cbn [mbind outcome_bind].
  cbn [serve_loop serve_iteration]. unfold add_u64. rewrite decide_True by lia.
  cbn [mbind outcome_bind]. by destruct (try_send _ _ _) as [[|e|e] ch].
Qed.


(** [read_events] replies [Inserted] for a new client and [Updated] for a
    known one, and in both cases leaves the client with a fresh delivery channel
    and no subscriptions; other clients and all publishers are untouched. *)
Theorem read_events_spec (cid : ClientId) (ess : Ess) :
  ChannelLaws Event ClientEvent → 0 < client_buffer_size (ess_config ess) →
  ∃ upsert rx ess' tx,
    read_events cid ess = Return (upsert, rx, ess') ∧
    (upsert = Inserted ↔ client_by_id ess !! cid = None) ∧
    client_by_id ess' = <[cid := mkClient tx ∅]> (client_by_id ess) ∧
    sender_by_event_id ess' = sender_by_event_id ess.
Proof.
  intros Hlaws Hbuf. unfold read_events.
  destruct (is_return_inv (mpsc_channel (client_buffer_size (ess_config ess)) (channels ess)))
    as [[[tx rx] ch] ->]; [by apply mpsc_channel_total|].
  cbn [mbind outcome_bind].
  destruct (client_by_id ess !! cid) as [c|]; (do 4 eexists; split; [done|]); done.
Qed.

(** A task whose client has abandoned its stream removes the subscription to
    its event from the client entry that has the same id by then, whichever
    [read_events] and [register_subscriptions] calls created that entry: the
    token recorded there is not compared with the task's own. *)
Theorem abandoned_task_unsubscribes_current_client {H'} checks (self : Sub) f (hs : Handlers H')
    ev seq (ess : Ess) h client tok e ch :
  (seq + 1 ≤ U64_MAX)%Z →
  client_by_id ess !! client_id (sub_id self) = Some client →
  subscriptions client !! event_id (sub_id self) = Some tok →
  try_send (sub_sender self) (f ev (seq + 1)%Z) (channels ess) = (Closed e, ch) →
  ∃ ess' h',
    serve_iteration checks self f hs (Received ev) seq ess h =
      Return (false, (seq + 1)%Z, ess', h') ∧
    subscribed ess' (client_id (sub_id self)) =
      subscribed ess (client_id (sub_id self)) ∖ {[event_id (sub_id self)]}.
Proof.
  intros Hmax Hc Htok Hsend. cbn [serve_iteration]. unfold add_u64. rewrite decide_True by lia.
  cbn [mbind outcome_bind]. rewrite Hsend. do 2 eexists. split; [done|].
  unfold subscribed, forget_subscription. simpl. rewrite Hc. simpl.
  rewrite lookup_insert_eq. simpl. by rewrite dom_delete_L.
Qed.

(** [publish] answers [true] although no subscription is active.  When the
    subscription is deregistered while its task still holds its receiver, the
    publisher of the event stays registered, and nothing the serving task does
    afterwards removes it: once the task has ended, the client is no longer
    subscribed and [publish] still answers [true]. *)
Theorem publish_true_without_subscription {H'} (cid : ClientId) (e : EventId) (ev : Event)
    checks (self : Sub) f (hs : Handlers H') inputs (ess : Ess) client tok snd h fin n ended h' :
  client_by_id ess !! cid = Some client → subscriptions client !! e = Some tok →
  sender_by_event_id ess !! e = Some snd →
  receiver_count snd (token_cancel tok (channels ess)) ≠ 0 →
  Forall (λ i, ∀ x : Ess, i.2 x = x) inputs →
  serve_with_handlers checks self f hs inputs (deregister_subscriptions cid [e] ess).2 h =
    Return (fin, n, ended, h') →
  e ∉ subscribed ended cid ∧ (publish e ev ended).1 = true.
Proof.
  intros Hc Ht Hs Hr Hint Hserve.
  apply serve_loop_frame in Hserve as [Hsend Hsub]; [|done].
  unfold deregister_subscriptions in Hsend, Hsub. rewrite Hc in Hsend, Hsub. simpl in Hsend, Hsub.
  rewrite Ht, Hs, decide_False in Hsend, Hsub by done. simpl in Hsend, Hsub. split.
  - intros He%Hsub. unfold subscribed in He. simpl in He.
    rewrite lookup_insert_eq in He. simpl in He. set_solver.
  - unfold publish. rewrite Hsend, Hs. by destruct (broadcast_send _ _ _).
Qed.
End theorems.

(** ** Witnesses and scenarios *)
Module EssWitnesses.
#[local] Existing Instance canonical_order.
#[local] Instance chs : Channels string (string * Z) := sample_channels string (string * Z).
#[local] Abbreviation E := (@EventSubSystem string string string (string * Z) _ _ _ _ _).

Definition deliver (ev : string) (n : Z) : string * Z := (ev, n).
Definition start : E := Ess_new (empty_store string (string * Z)).

(** The state after a client "c" opened its stream (channel 0) and subscribed to
    the event "e". *)
Definition reading : E := (value_or (Inserted, 0, start) (read_events "c" start)).2.
Definition first : result (list Subscription) NotReadingEvents * E :=
  value_or (Err mkNotReadingEvents, reading) (register_subscriptions "c" ["e"; "e"] reading).
Definition old_task : @Subscription string string string (string * Z) _ :=
  mkSubscription (mkSubscriptionId "c" "e") 0 (0, 1) 0.

Example first_is_old_task : first.1 = Ok [old_task].
Proof. vm_compute. reflexivity. Qed.

Lemma register_subscriptions_spec_witness :
  ∃ news ess',
    register_subscriptions "c" ["f"; "e"; "f"] first.2 = Return (Ok news, ess') ∧
    (λ s, event_id (sub_id s)) <$> news = ["f"].
Proof.
  destruct (register_subscriptions_spec "c" ["f"; "e"; "f"] first.2)
    as (news & ess' & Hreg & Hids & _).
  - apply sample_laws.
  - vm_compute. lia.
  - exists news, ess'. split; [exact Hreg|]. rewrite Hids. vm_compute. reflexivity.
Defined.

Definition lagging : list (@Selected string * (E → E)) :=
  [(Received "x", λ e, e); (RecvLagged 3, λ e, e)].

Lemma serve_numbers_events_witness :
  ∃ n ess1 h1,
    serve_with_handlers true old_task deliver log_handlers lagging first.2 [] =
      Return (false, n, ess1, h1) ∧ n = 4%Z.
Proof.
  destruct (is_return_inv
    (serve_with_handlers true old_task deliver log_handlers lagging first.2 []))
    as [[[[fin n] ess1] h1] E1]; [vm_compute; reflexivity|].
  assert (fin = false) as ->.
  { transitivity (match serve_with_handlers true old_task deliver log_handlers lagging first.2 []
                  with Return x => x.1.1.1 | Panic _ => true end).
    - by rewrite E1.
    - vm_compute. reflexivity. }
  exists n, ess1, h1. split; [exact E1|].
  refine (proj1 (serve_numbers_events true old_task deliver log_handlers lagging "y" (λ e, e)
    first.2 [] n ess1 h1 _ _ E1)).
  - repeat constructor; vm_compute; discriminate.
  - vm_compute. discriminate.
Defined.


Lemma read_events_spec_witness :
  ∃ rx ess' tx,
    read_events "c" first.2 = Return (Updated, rx, ess') ∧
    client_by_id ess' = <["c" := mkClient tx ∅]> (client_by_id first.2).
Proof.
  destruct (read_events_spec "c" first.2) as (u & rx & ess' & tx & Hr & Hu & Hc & _).
  - apply sample_laws.
  - vm_compute. lia.
  - exists rx, ess', tx. split; [|exact Hc]. rewrite Hr. destruct u; [|reflexivity].
    exfalso. destruct (proj1 Hu eq_refl). vm_compute. discriminate.
Defined.

(** The client opens a second stream (channel 1) and subscribes to "e" again; the
    first stream is then closed. *)
Definition reopened : E := (value_or (Inserted, 0, start) (read_events "c" first.2)).2.
Definition second : result (list Subscription) NotReadingEvents * E :=
  value_or (Err mkNotReadingEvents, reopened) (register_subscriptions "c" ["e"] reopened).
Definition closed : E :=
  mkEss (ess_config second.2) (sender_by_event_id second.2) (client_by_id second.2)
    (close_stream string (string * Z) 0 (channels second.2)).

Definition current : @Client string string (string * Z) _ _ chs := mkClient 1 {["e" := 1]}.

(** The stale task of the first stream removes the subscription of the second
    one, whose own token is 1 and is not cancelled. *)
Lemma abandoned_task_unsubscribes_current_client_witness :
  get_subscriptions "c" closed = ["e"] ∧
  ∃ ess' h',
    serve_iteration true old_task deliver log_handlers (Received "x") 0 closed [] =
      Return (false, 1%Z, ess', h') ∧
    subscribed ess' "c" = subscribed closed "c" ∖ {["e"]}.
Proof.
  split; [vm_compute; reflexivity|].
  apply (abandoned_task_unsubscribes_current_client true old_task deliver log_handlers "x" 0
    closed [] current 1 ("x", 1%Z) (channels closed)).
  - vm_compute. discriminate.
  - vm_compute. reflexivity.
  - vm_compute. reflexivity.
  - vm_compute. reflexivity.
Defined.

Lemma publish_true_without_subscription_witness :
  let deregistered := (deregister_subscriptions "c" ["e"] first.2).2 in
  let ended := drop_subscription old_task deregistered in
  serve true old_task deliver [(Cancelled, λ e, e)] deregistered [] =
    Return (true, 0%Z, ended,
      [SubscriptionRevoked (mkSubscriptionId "c" "e"); TaskEnded (mkSubscriptionId "c" "e")]) ∧
  get_subscriptions "c" ended = [] ∧
  sample_receiver_count string (string * Z) 0 (channels ended) = 0 ∧
  (publish "e" "x" ended).1 = true.
Proof.
  intros deregistered ended.
  split; [reflexivity|]. split; [vm_compute; reflexivity|]. split; [vm_compute; reflexivity|].
  refine (proj2 (publish_true_without_subscription "c" "e" "x" true old_task deliver log_handlers
    [(Cancelled, λ e, e)] first.2 (mkClient 0 {["e" := 0]}) 0 0 [] true 0%Z ended
    [SubscriptionRevoked (mkSubscriptionId "c" "e"); TaskEnded (mkSubscriptionId "c" "e")]
    _ _ _ _ _ _)).
  - vm_compute. reflexivity.
  - reflexivity.
  - vm_compute. reflexivity.
  - vm_compute. discriminate.
  - repeat constructor.
  - reflexivity.
Defined.
End EssWitnesses.
