(* ===== verification/EssRuntime.v ===== *)
(** * The event sub-system with its tasks running

    [ess.rs] leaves it to its caller to serve the subscriptions that
    [register_subscriptions] returns; [StreamingEss::serve_subscriptions] of
    [streaming_ess.rs] spawns a task for each of them.  Here the event sub-system
    runs with these tasks: its operations, the iterations of the tasks and what the
    clients do with their streams are interleaved in any order.

    [RuntimeView] and [RuntimeLaws] are what is relied on of tokio: which receivers
    are live, which tokens are cancelled, and when a channel is closed; [DeliveryLaws]
    adds what a receiver has to read. *)

From stdpp Require Import relations.
From S2P Require Import Prelude RustStd Ess EssFacts.

Class RuntimeView (Event ClientEvent : Type) `{!Channels Event ClientEvent} : Type := {
  (** The receiver belongs to the channel of the sender and was not dropped. *)
  receives : breceiver → bsender → chans → Prop;
  (** The channel exists and this sender of it was not dropped. *)
  is_sender : bsender → chans → Prop;
  issued : token → chans → Prop;
  is_cancelled : token → chans → bool;
  (** [recv] answers [RecvError::Closed]. *)
  recv_closed : breceiver → chans → Prop
}.

(** From one store to another, receivers but for those in [gone] stay live, senders
    stay open, and tokens but for those in [hit] stay as they are. *)
Definition keeps_but `{RuntimeView Event ClientEvent} (gone : breceiver → Prop)
    (hit : token → Prop) (ch ch' : chans) : Prop :=
  (∀ r s, receives r s ch → ¬ gone r → receives r s ch') ∧
  (∀ s, is_sender s ch → is_sender s ch') ∧
  (∀ t, issued t ch → issued t ch' ∧ (¬ hit t → is_cancelled t ch' = is_cancelled t ch)).
#[global] Abbreviation keeps := (keeps_but (λ _, False) (λ _, False)).

Class RuntimeLaws (Event ClientEvent : Type) `{RuntimeView Event ClientEvent} : Prop := {
  receives_counted r s ch : receives r s ch → receiver_count s ch ≠ 0;
  open_while_sender r s ch : receives r s ch → is_sender s ch → ¬ recv_closed r ch;
  channel_law n ch s r ch' :
    broadcast_channel n ch = Return (s, r, ch') →
    keeps ch ch' ∧ ¬ is_sender s ch ∧ is_sender s ch' ∧ (∀ r' s', receives r' s' ch → r' ≠ r);
  subscribe_law s ch r ch' :
    broadcast_subscribe s ch = (r, ch') → is_sender s ch →
    keeps ch ch' ∧ receives r s ch' ∧ (∀ r' s', receives r' s' ch → r' ≠ r);
  drop_receiver_law r ch : keeps_but (λ r', r' = r) (λ _, False) ch (drop_receiver r ch);
  token_new_law ch t ch' :
    token_new ch = (t, ch') →
    keeps ch ch' ∧ ¬ issued t ch ∧ issued t ch' ∧ is_cancelled t ch' = false;
  token_cancel_law t ch : keeps_but (λ _, False) (λ t', t' = t) ch (token_cancel t ch);
  send_keeps s e ch : keeps ch (broadcast_send s e ch).2;
  mpsc_keeps n ch tx rx ch' : mpsc_channel n ch = Return (tx, rx, ch') → keeps ch ch';
  try_send_keeps tx e ch : keeps ch (try_send tx e ch).2;
  drop_msender_keeps tx ch : keeps ch (drop_msender tx ch);
  clone_msender_keeps tx ch : keeps ch (clone_msender tx ch)
}.

(** How many events were sent to a channel that a receiver has not read, those it will
    be told to have missed included. *)
Class Unread (Event ClientEvent : Type) `{!Channels Event ClientEvent} : Type :=
  unread : breceiver → chans → nat.

(** [send] hands the event to every receiver of the channel and to no other one. *)
Class DeliveryLaws (Event ClientEvent : Type) `{RuntimeView Event ClientEvent}
    `{!Unread Event ClientEvent} : Prop := {
  send_unread r s e ch :
    receives r s ch → unread r (broadcast_send s e ch).2 = S (unread r ch);
  send_unread_other r s s' e ch :
    receives r s ch → s ≠ s' → unread r (broadcast_send s' e ch).2 = unread r ch
}.

Section runtime.
Context {ClientId EventId Event ClientEvent : Type}.
Context `{Countable ClientId, Countable EventId}.
Context `{!HashOrder} `{RuntimeView Event ClientEvent}.
#[local] Abbreviation Ess := (@EventSubSystem ClientId EventId Event ClientEvent _ _ _ _ _).
#[local] Abbreviation Sub := (@Subscription ClientId EventId Event ClientEvent _).
#[local] Abbreviation Clients := (gmap ClientId (@Client EventId Event ClientEvent _ _ _)).

(** ** The running system *)
Record Runtime := mkRuntime { rt_ess : Ess; rt_live : list Sub }.

(** [select!] may take a branch only when its future is ready. *)
Definition may_select (t : Sub) (selected : @Selected Event) (ch : chans) : Prop :=
  match selected with
  | Cancelled => is_cancelled (cancellation_token t) ch = true
  | RecvClosed => recv_closed (receiver t) ch
  | Received _ | RecvLagged _ => True
  end.

Section steps.
Context {L : Type} (overflow_checks : bool).
Context (hs : @Handlers ClientId EventId ClientEvent L).

Inductive rt_step : Runtime → Runtime → Prop :=
  | rt_read cid upsert rx e live e' :
      read_events cid e = Return (upsert, rx, e') →
      rt_step (mkRuntime e live) (mkRuntime e' live)
  (** Every new subscription is served by a task of its own. *)
  | rt_register cid requested res e live e' :
      register_subscriptions cid requested e = Return (res, e') →
      rt_step (mkRuntime e live)
        (mkRuntime e' (live ++ match res with Ok subs => subs | Err _ => [] end))
  | rt_deregister cid ev_ids res e live e' :
      deregister_subscriptions cid ev_ids e = (res, e') →
      rt_step (mkRuntime e live) (mkRuntime e' live)
  | rt_publish ev_id event answer e live e' :
      publish ev_id event e = (answer, e') →
      rt_step (mkRuntime e live) (mkRuntime e' live)
  (** A task goes through its loop; after a [break] it ends. *)
  | rt_task t f selected seq h continue seq' h' e l1 l2 e' :
      may_select t selected (channels e) →
      serve_iteration overflow_checks t f hs selected seq e h = Return (continue, seq', e', h') →
      rt_step (mkRuntime e (l1 ++ t :: l2))
        (if continue : bool then mkRuntime e' (l1 ++ t :: l2)
         else mkRuntime (drop_subscription t e') (l1 ++ l2))
  (** A receiver reads, a client reads from its stream or closes it. *)
  | rt_environment e live ch' :
      keeps (channels e) ch' →
      rt_step (mkRuntime e live)
        (mkRuntime (mkEss (ess_config e) (sender_by_event_id e) (client_by_id e) ch') live).

Inductive rt_reachable : Runtime → Prop :=
  | rt_reachable_init cfg ch : rt_reachable (mkRuntime (Ess_new_with_config cfg ch) [])
  | rt_reachable_step st st' : rt_reachable st → rt_step st st' → rt_reachable st'.
End steps.

(** ** Well-formed states *)
Record rt_wf (senders : gmap EventId bsender) (clients : Clients) (live : list Sub)
    (ch : chans) : Prop := {
  wf_senders e s : senders !! e = Some s → is_sender s ch;
  wf_own_sender e1 e2 s : senders !! e1 = Some s → senders !! e2 = Some s → e1 = e2;
  wf_live t : t ∈ live → ∃ s, senders !! event_id (sub_id t) = Some s ∧ receives (receiver t) s ch;
  wf_receivers : NoDup (receiver <$> live);
  wf_tokens : NoDup (cancellation_token <$> live);
  wf_issued t : t ∈ live → issued (cancellation_token t) ch;
  wf_subscribed cid c e tok :
    clients !! cid = Some c → subscriptions c !! e = Some tok →
    is_cancelled tok ch = false ∧
    ∃ t, t ∈ live ∧ sub_id t = mkSubscriptionId cid e ∧ cancellation_token t = tok
}.
Definition rt_ok (st : Runtime) : Prop :=
  rt_wf (sender_by_event_id (rt_ess st)) (client_by_id (rt_ess st)) (rt_live st)
    (channels (rt_ess st)).

Context `{!RuntimeLaws Event ClientEvent}.
Implicit Types (senders : gmap EventId bsender) (clients : Clients) (live : list Sub) (ch : chans).

Lemma keeps_simple ch ch' :
  keeps ch ch' ↔
    (∀ r s, receives r s ch → receives r s ch') ∧
    (∀ s, is_sender s ch → is_sender s ch') ∧
    (∀ t, issued t ch → issued t ch' ∧ is_cancelled t ch' = is_cancelled t ch).
Proof. unfold keeps_but. split; intros (Hr & Hs & Ht); (split_and!; [by eauto..|]); naive_solver. Qed.

Lemma wf_keeps senders clients live ch ch' :
  keeps ch ch' → rt_wf senders clients live ch → rt_wf senders clients live ch'.
Proof.
  rewrite keeps_simple. intros (Hr & Hs & Ht) [W1 W0 W2 W3 W4 W5 W6]. split; [by eauto|done| |done|done| |].
  - intros t (s & Hse & Hre)%W2. exists s. split; [done|]. by apply Hr.
  - intros t Hin. by apply Ht, W5.
  - intros cid c e tok Hc Hsub. destruct (W6 _ _ _ _ Hc Hsub) as (Hca & t & Hin & Hid & <-).
    split; [|by exists t]. by destruct (Ht _ (W5 t Hin)) as [_ ->].
Qed.

(** Two tasks with the same token are the same task. *)
Lemma wf_same_token senders clients live ch t1 t2 :
  rt_wf senders clients live ch → t1 ∈ live → t2 ∈ live →
  cancellation_token t1 = cancellation_token t2 → t1 = t2.
Proof.
  intros Hwf [i Hi]%list_elem_of_lookup [j Hj]%list_elem_of_lookup Heq.
  assert (i = j) as ->; [|congruence].
  eapply NoDup_lookup; [exact (wf_tokens _ _ _ _ Hwf)| |].
  - rewrite list_lookup_fmap, Hi. done.
  - rewrite list_lookup_fmap, Hj. simpl. by f_equal.
Qed.

(** *** Registration *)
Lemma wf_subscribe senders clients live ch cid c e s tok rx ch1 ch2 :
  rt_wf senders clients live ch → senders !! e = Some s → clients !! cid = Some c →
  broadcast_subscribe s ch = (rx, ch1) → token_new ch1 = (tok, ch2) →
  rt_wf senders (<[cid := mkClient (sender c) (<[e := tok]> (subscriptions c))]> clients)
    (live ++ [mkSubscription (mkSubscriptionId cid e) tok rx (sender c)]) ch2.
Proof.
  intros Hwf Hs Hc Hsub Htok.
  destruct (subscribe_law _ _ _ _ Hsub (wf_senders _ _ _ _ Hwf _ _ Hs)) as (Hk1 & Hrx & Hfresh).
  pose proof (wf_keeps _ _ _ _ _ Hk1 Hwf) as Hwf1.
  destruct (token_new_law _ _ _ Htok) as (Hk2 & Hnew & Hiss & Hnc).
  destruct (wf_keeps _ _ _ _ _ Hk2 Hwf1) as [W1 W0 W2 W3 W4 W5 W6].
  split; [done|done| | | | |].
  - intros t [Ht|Ht%list_elem_of_singleton]%elem_of_app; [by apply W2|]. subst t. simpl.
    exists s. split; [done|]. by apply (proj1 (proj1 (keeps_simple _ _) Hk2)).
  - rewrite fmap_app. apply NoDup_app. split_and!; [done| |apply NoDup_singleton].
    intros r (t & -> & Ht)%list_elem_of_fmap Hr%list_elem_of_singleton. simpl in Hr.
    destruct (wf_live _ _ _ _ Hwf t Ht) as (s' & _ & Hre). by apply (Hfresh _ _ Hre).
  - rewrite fmap_app. apply NoDup_app. split_and!; [done| |apply NoDup_singleton].
    intros r (t & -> & Ht)%list_elem_of_fmap Hr%list_elem_of_singleton. simpl in Hr.
    apply Hnew. rewrite <- Hr. by apply (wf_issued _ _ _ _ Hwf1).
  - intros t [Ht|Ht%list_elem_of_singleton]%elem_of_app; [by apply W5|]. by subst t.
  - intros cid' c' e' tok' Hc' He'. destruct (decide (cid' = cid)) as [->|Hne].
    + rewrite lookup_insert_eq in Hc'. simplify_eq. simpl in He'.
      destruct (decide (e' = e)) as [->|Hne].
      * rewrite lookup_insert_eq in He'. simplify_eq. split; [done|]. eexists.
        split; [apply elem_of_app; right; by apply list_elem_of_singleton|done].
      * rewrite lookup_insert_ne in He' by done. destruct (W6 _ _ _ _ Hc He') as (? & t & ? & ?).
        split; [done|]. exists t. split; [set_solver|done].
    + rewrite lookup_insert_ne in Hc' by done. destruct (W6 _ _ _ _ Hc' He') as (? & t & ? & ?).
      split; [done|]. exists t. split; [set_solver|done].
Qed.

Lemma wf_new_publisher senders clients live ch cfg s rx ch1 e :
  rt_wf senders clients live ch → senders !! e = None →
  broadcast_channel (publish_buffer_size cfg) ch = Return (s, rx, ch1) →
  rt_wf (<[e := s]> senders) clients live (drop_receiver rx ch1).
Proof.
  intros Hwf He Hch. destruct (channel_law _ _ _ _ _ Hch) as (Hk & Hnew & Hs & Hfresh).
  destruct (wf_keeps _ _ _ _ _ Hk Hwf) as [W1 W0 W2 W3 W4 W5 W6].
  destruct (drop_receiver_law rx ch1) as (Hdr & Hds & Hdt). split; [| | |done|done| |].
  - intros e' s' [[<- <-]|[_ Hs']]%lookup_insert_Some; [by apply Hds|by apply Hds, (W1 e')].
  - intros e1 e2 s'. pose proof (wf_senders _ _ _ _ Hwf) as Hold.
    intros [[<- <-]|[? Hs1]]%lookup_insert_Some [[<- ?]|[? Hs2]]%lookup_insert_Some;
      [done|by destruct Hnew; eapply Hold|subst; by destruct Hnew; eapply Hold|by eapply W0].
  - intros t Ht. destruct (W2 t Ht) as (s' & Hs' & Hr'). exists s'.
    rewrite lookup_insert_ne by congruence. split; [done|]. apply Hdr; [done|].
    destruct (wf_live _ _ _ _ Hwf t Ht) as (s0 & _ & Hr0). by apply (Hfresh _ _ Hr0).
  - intros t Ht. by apply Hdt, W5.
  - intros cid c e' tok Hc Hsub. destruct (W6 _ _ _ _ Hc Hsub) as (Hca & t & Hin & Hid & <-).
    split; [|by exists t]. destruct (Hdt _ (W5 t Hin)) as [_ Heq]. by rewrite Heq by tauto.
Qed.

Lemma register_step_wf cfg cid tx e clients live subs senders news ch acc' :
  rt_wf senders (<[cid := mkClient tx subs]> clients) (live ++ news) ch →
  register_step cfg cid tx (subs, senders, news, ch) e = Return acc' →
  let '(subs', senders', news', ch') := acc' in
  rt_wf senders' (<[cid := mkClient tx subs']> clients) (live ++ news') ch' ∧ senders ⊆ senders'.
Proof.
  intros Hwf. unfold register_step. destruct (subs !! e) as [t0|]; [by intros [= <-]|].
  assert (∀ s senders1 ch1 acc',
    rt_wf senders1 (<[cid := mkClient tx subs]> clients) (live ++ news) ch1 →
    senders1 !! e = Some s → senders ⊆ senders1 →
    (let '(rx, ch) := broadcast_subscribe s ch1 in
     let '(tok, ch) := token_new ch in
     Return (<[e := tok]> subs, senders1,
       news ++ [mkSubscription (mkSubscriptionId cid e) tok rx tx], clone_msender tx ch))
      = Return acc' →
    let '(subs', senders', news', ch') := acc' in
    rt_wf senders' (<[cid := mkClient tx subs']> clients) (live ++ news') ch' ∧ senders ⊆ senders')
    as Hgo.
  { intros s senders1 ch1 acc1 Hwf1 Hs Hsub.
    destruct (broadcast_subscribe s ch1) as [rx ch2] eqn:Es.
    destruct (token_new ch2) as [tok ch3] eqn:Et. intros [= <-]. split; [|done].
    eapply wf_keeps; [apply clone_msender_keeps|].
    pose proof (wf_subscribe _ _ _ _ cid (mkClient tx subs) e s tok rx ch2 ch3 Hwf1 Hs
      ltac:(apply lookup_insert_eq) Es Et) as Hr. simpl in Hr.
    by rewrite insert_insert_eq, <- (assoc (++)) in Hr. }
  destruct (senders !! e) as [s|] eqn:Hs; cbn [mbind outcome_bind].
  - by apply Hgo.
  - destruct (broadcast_channel _ ch) as [[[s rx0] ch1]|] eqn:Hch; [|done].
    cbn [mbind outcome_bind]. apply Hgo.
    + by eapply wf_new_publisher.
    + apply lookup_insert_eq.
    + by apply insert_subseteq.
Qed.

Lemma register_loop_wf cfg cid tx requested clients live subs senders news ch acc' :
  rt_wf senders (<[cid := mkClient tx subs]> clients) (live ++ news) ch →
  for_each (register_step cfg cid tx) (subs, senders, news, ch) requested = Return acc' →
  let '(subs', senders', news', ch') := acc' in
  rt_wf senders' (<[cid := mkClient tx subs']> clients) (live ++ news') ch' ∧ senders ⊆ senders'.
Proof.
  revert subs senders news ch. induction requested as [|e requested IH]; intros subs senders news ch Hwf;
    cbn [for_each]; [by intros [= <-]|].
  destruct (register_step _ _ _ _ _) as [[[[subs1 senders1] news1] ch1]|] eqn:E; [|done].
  cbn [mbind outcome_bind]. intros Hr.
  destruct (register_step_wf _ _ _ _ _ _ _ _ _ _ _ Hwf E) as [Hwf1 Hs1].
  specialize (IH _ _ _ _ Hwf1 Hr). destruct acc' as [[[subs2 senders2] news2] ch2].
  destruct IH as [? ?]. split; [done|]. by etrans.
Qed.

(** *** Deregistration *)
Lemma wf_cancel senders clients live ch cid c e tok :
  rt_wf senders clients live ch → clients !! cid = Some c → subscriptions c !! e = Some tok →
  rt_wf senders (<[cid := mkClient (sender c) (delete e (subscriptions c))]> clients) live
    (token_cancel tok ch).
Proof.
  intros Hwf Hc He. destruct (wf_subscribed _ _ _ _ Hwf _ _ _ _ Hc He) as (_ & t0 & Ht0 & Hid0 & Htok0).
  destruct (token_cancel_law tok ch) as (Hr & Hs & Ht).
  split; [by eauto using wf_senders|by apply Hwf| |by apply Hwf|by apply Hwf| |].
  - intros t (s & Hse & Hre)%(wf_live _ _ _ _ Hwf). exists s. split; [done|]. apply Hr; [done|tauto].
  - intros t Hin. by apply Ht, (wf_issued _ _ _ _ Hwf).
  - intros cid' c' e' tok' Hc' He'.
    assert (∃ c0, clients !! cid' = Some c0 ∧ subscriptions c0 !! e' = Some tok' ∧
                  ¬ (cid' = cid ∧ e' = e)) as (c0 & Hc0 & He0 & Hne).
    { destruct (decide (cid' = cid)) as [->|Hne].
      - rewrite lookup_insert_eq in Hc'. simplify_eq. simpl in He'.
        apply lookup_delete_Some in He' as [? ?]. exists c. naive_solver.
      - rewrite lookup_insert_ne in Hc' by done. exists c'. naive_solver. }
    destruct (wf_subscribed _ _ _ _ Hwf _ _ _ _ Hc0 He0) as (Hca & t & Hin & Hid & Htok).
    split; [|by exists t]. rewrite <- Htok. destruct (Ht _ (wf_issued _ _ _ _ Hwf t Hin)) as [_ ->].
    + by rewrite Htok.
    + intros Heq. apply Hne. assert (t = t0) as ->.
      { eapply wf_same_token; [exact Hwf|done|done|congruence]. }
      rewrite Hid in Hid0. by simplify_eq.
Qed.

(** The receiver of a subscription is live as long as the subscription is
    registered: the publisher is not removed. *)
Lemma deregister_step_wf clients live cid tx e subs senders ch :
  rt_wf senders (<[cid := mkClient tx subs]> clients) live ch →
  let '(subs', senders', ch') := deregister_step (subs, senders, ch) e in
  rt_wf senders' (<[cid := mkClient tx subs']> clients) live ch' ∧ senders' = senders.
Proof.
  intros Hwf. unfold deregister_step. destruct (subs !! e) as [tok|] eqn:He; [|done].
  destruct (wf_subscribed _ _ _ _ Hwf cid (mkClient tx subs) e tok) as (_ & t & Ht & Hid & _);
    [apply lookup_insert_eq|done|].
  pose proof (wf_cancel _ _ _ _ cid (mkClient tx subs) e tok Hwf
    ltac:(apply lookup_insert_eq) He) as Hwf'. simpl in Hwf'. rewrite insert_insert_eq in Hwf'.
  destruct (wf_live _ _ _ _ Hwf' t Ht) as (s & Hs & Hre). rewrite Hid in Hs. simpl in Hs.
  rewrite Hs, decide_False by by eapply receives_counted. done.
Qed.

Lemma deregister_loop_wf clients live cid tx ids subs senders ch :
  rt_wf senders (<[cid := mkClient tx subs]> clients) live ch →
  let '(subs', senders', ch') := foldl deregister_step (subs, senders, ch) ids in
  rt_wf senders' (<[cid := mkClient tx subs']> clients) live ch' ∧ senders' = senders.
Proof.
  revert subs senders ch. induction ids as [|e ids IH]; intros subs senders ch Hwf; [done|].
  cbn [foldl]. pose proof (deregister_step_wf _ _ _ _ e _ _ _ Hwf) as Hstep.
  destruct (deregister_step _ e) as [[subs1 senders1] ch1]. destruct Hstep as [Hwf1 ->].
  by apply IH.
Qed.

(** *** The end of a task *)
Lemma wf_task_ends senders clients l1 t l2 ch :
  (∀ cid c e tok, clients !! cid = Some c → subscriptions c !! e = Some tok →
     cancellation_token t ≠ tok) →
  rt_wf senders clients (l1 ++ t :: l2) ch →
  rt_wf senders clients (l1 ++ l2) (drop_msender (sub_sender t) (drop_receiver (receiver t) ch)).
Proof.
  intros Hdone [W1 W0 W2 W3 W4 W5 W6]. apply (wf_keeps _ _ _ _ _ (drop_msender_keeps _ _)).
  assert (∀ t', t' ∈ l1 ++ l2 → t' ∈ l1 ++ t :: l2) as Hin by set_solver.
  assert (NoDup (receiver <$> t :: l1 ++ l2)) as Hnd.
  { by rewrite Permutation_middle. }
  destruct (drop_receiver_law (receiver t) ch) as (Hr & Hs & Ht). split; [by eauto|done| | | | |].
  - intros t' Ht'. destruct (W2 t' (Hin t' Ht')) as (s & Hse & Hre). exists s. split; [done|].
    apply Hr; [done|]. rewrite fmap_cons in Hnd. apply NoDup_cons in Hnd as [Hnin _].
    intros Heq. apply Hnin. rewrite <- Heq. by apply list_elem_of_fmap_2.
  - rewrite fmap_cons in Hnd. by apply NoDup_cons in Hnd as [_ ?].
  - rewrite <- Permutation_middle, fmap_cons in W4. by apply NoDup_cons in W4 as [_ ?].
  - intros t' Ht'. by apply Ht, W5, Hin.
  - intros cid c e tok Hc He. destruct (W6 _ _ _ _ Hc He) as (Hca & t' & Hin' & Hid & <-). split.
    + destruct (Ht _ (W5 t' Hin')) as [_ ->]; [done|tauto].
    + exists t'. split; [|done]. specialize (Hdone _ _ _ _ Hc He). set_solver.
Qed.

Lemma wf_fewer_subscriptions senders clients clients' live ch :
  (∀ cid c' e tok, clients' !! cid = Some c' → subscriptions c' !! e = Some tok →
     ∃ c, clients !! cid = Some c ∧ subscriptions c !! e = Some tok) →
  rt_wf senders clients live ch → rt_wf senders clients' live ch.
Proof.
  intros Hsub Hwf. split; try by apply Hwf. intros cid c' e tok Hc He.
  destruct (Hsub _ _ _ _ Hc He) as (c & Hc0 & He0). by eapply wf_subscribed.
Qed.

Lemma forget_subscription_fewer (i : SubscriptionId) clients cid c' e tok :
  forget_subscription i clients !! cid = Some c' → subscriptions c' !! e = Some tok →
  (∃ c, clients !! cid = Some c ∧ subscriptions c !! e = Some tok) ∧ mkSubscriptionId cid e ≠ i.
Proof.
  unfold forget_subscription. destruct (clients !! client_id i) as [c|] eqn:Hc.
  - destruct (decide (cid = client_id i)) as [->|Hne].
    + rewrite lookup_insert_eq. intros [= <-]. cbn [subscriptions].
      intros [? ?]%lookup_delete_Some. split; [by exists c|].
      destruct i. simpl in *. congruence.
    + rewrite lookup_insert_ne by done. intros ? ?. split; [by exists c'|]. destruct i. simpl in *. congruence.
  - intros Hc' ?. split; [by exists c'|]. destruct i. simpl in *. congruence.
Qed.

(** ** Every step preserves well-formedness *)
Section theorems.
Context {L : Type} (overflow_checks : bool).
Context (hs : @Handlers ClientId EventId ClientEvent L).
#[local] Abbreviation rt_step := (rt_step overflow_checks hs).
#[local] Abbreviation rt_reachable := (rt_reachable overflow_checks hs).

Lemma task_step_ok t f selected seq h continue seq' h' e l1 l2 e' :
  rt_ok (mkRuntime e (l1 ++ t :: l2)) → may_select t selected (channels e) →
  serve_iteration overflow_checks t f hs selected seq e h = Return (continue, seq', e', h') →
  rt_ok (if continue : bool then mkRuntime e' (l1 ++ t :: l2)
         else mkRuntime (drop_subscription t e') (l1 ++ l2)) ∧
  sender_by_event_id e' = sender_by_event_id e.
Proof.
  unfold rt_ok. simpl. intros Hwf Hsel.
  assert (t ∈ l1 ++ t :: l2) as Hin by set_solver.
  destruct selected as [|ev| |n]; cbn [serve_iteration].
  - intros [= <- _ <- _]. split; [|done]. apply wf_task_ends; [|done].
    intros cid c e0 tok Hc He <-. simpl in Hsel.
    by destruct (wf_subscribed _ _ _ _ Hwf _ _ _ _ Hc He) as [Hca _]; rewrite Hca in Hsel.
  - destruct (add_u64 _ _ _) as [seq1|]; [|done]. cbn [mbind outcome_bind].
    pose proof (try_send_keeps (sub_sender t) (f ev seq1) (channels e)) as Hk.
    destruct (try_send _ _ _) as [[|ce|ce] ch']; simpl in Hk; intros [= <- _ <- _]; (split; [|done]);
      [by eapply wf_keeps|by eapply wf_keeps|].
    apply wf_task_ends; cbn [client_by_id sender_by_event_id channels ess_config].
    + intros cid c e0 tok Hc He <-.
      destruct (forget_subscription_fewer _ _ _ _ _ _ Hc He) as [(c0 & Hc0 & He0) Hne].
      destruct (wf_subscribed _ _ _ _ Hwf _ _ _ _ Hc0 He0) as (_ & t' & Hin' & Hid & Htok).
      apply Hne. rewrite <- Hid. f_equal. eapply wf_same_token; [exact Hwf|done..].
    + eapply wf_fewer_subscriptions; [|by eapply wf_keeps].
      intros cid c' e0 tok Hc He. by destruct (forget_subscription_fewer _ _ _ _ _ _ Hc He).
  - exfalso. destruct (wf_live _ _ _ _ Hwf t Hin) as (s & Hs & Hre).
    eapply open_while_sender; [exact Hre|by eapply wf_senders|done].
  - intros [= <- _ <- _]. done.
Qed.

Lemma rt_step_ok st st' :
  rt_ok st → rt_step st st' →
  rt_ok st' ∧ sender_by_event_id (rt_ess st) ⊆ sender_by_event_id (rt_ess st').
Proof.
  intros Hok. destruct 1 as [cid up rx e live e' Hr|cid req res e live e' Hr|cid ids res e live e' Hr
    |ev_id ev a e live e' Hr|t f sel seq h c seq' h' e l1 l2 e' Hsel Hr|e live ch' Hk];
    unfold rt_ok in *; simpl in *.
  - unfold read_events in Hr. destruct (mpsc_channel _ _) as [[[tx rx1] ch1]|] eqn:Hm; [|done].
    cbn [mbind outcome_bind] in Hr.
    assert (rt_wf (sender_by_event_id e) (<[cid := mkClient tx ∅]> (client_by_id e)) live ch1) as Hwf.
    { eapply wf_fewer_subscriptions; [|eapply wf_keeps; [by eapply mpsc_keeps|done]].
      intros cid' c' e0 tok Hc He. destruct (decide (cid' = cid)) as [->|Hne].
      - rewrite lookup_insert_eq in Hc. by simplify_eq.
      - rewrite lookup_insert_ne in Hc by done. by exists c'. }
    destruct (client_by_id e !! cid); simplify_eq; simpl; (split; [|done]); [|done].
    eapply wf_keeps; [apply drop_msender_keeps|done].
  - unfold register_subscriptions in Hr. destruct (client_by_id e !! cid) as [c|] eqn:Hc.
    2: { simplify_eq. by rewrite app_nil_r. }
    destruct (for_each _ _ _) as [[[[subs senders] news] ch]|] eqn:Hf; [|done].
    cbn [mbind outcome_bind] in Hr. simplify_eq. simpl.
    refine (register_loop_wf _ _ _ _ _ _ _ _ [] _ _ _ Hf). rewrite app_nil_r.
    destruct c as [tx subs0]. simpl. by rewrite insert_id.
  - unfold deregister_subscriptions in Hr. destruct (client_by_id e !! cid) as [c|] eqn:Hc.
    2: { by simplify_eq. }
    pose proof (deregister_loop_wf (client_by_id e) live cid (sender c) ids (subscriptions c)
      (sender_by_event_id e) (channels e)) as Hl.
    destruct (foldl _ _ _) as [[subs senders] ch]. simplify_eq. simpl.
    destruct Hl as [? ->]; [|done]. destruct c as [tx subs0]. simpl. by rewrite insert_id.
  - unfold publish in Hr. destruct (sender_by_event_id e !! ev_id) as [s|]; [|by simplify_eq].
    pose proof (send_keeps s ev (channels e)) as Hk. destruct (broadcast_send _ _ _) as [n ch].
    simplify_eq. simpl in *. split; [by eapply wf_keeps|done].
  - destruct (task_step_ok _ _ _ _ _ _ _ _ _ _ _ _ Hok Hsel Hr) as [Hok' <-].
    by destruct c.
  - split; [by eapply wf_keeps|done].
Qed.

Lemma rt_reachable_ok st : rt_reachable st → rt_ok st.
Proof.
  induction 1 as [cfg ch|st st' _ IH Hs].
  - split; try done; try constructor; set_solver.
  - by destruct (rt_step_ok _ _ IH Hs).
Qed.

(** C10: In every state that the event sub-system reaches with its tasks running, each
    registered subscription has exactly one live task, which holds the token that
    deregistering cancels and which is not cancelled yet; the event has a publisher
    with that task among its receivers, so that publishing it answers true. *)
Theorem subscriptions_are_served st cid c e tok :
  rt_reachable st → client_by_id (rt_ess st) !! cid = Some c →
  subscriptions c !! e = Some tok →
  is_cancelled tok (channels (rt_ess st)) = false ∧
  (∃ l1 t l2 s, rt_live st = l1 ++ t :: l2 ∧
     (∀ t', t' ∈ l1 ++ l2 → cancellation_token t' ≠ tok) ∧
     sub_id t = mkSubscriptionId cid e ∧ cancellation_token t = tok ∧
     sender_by_event_id (rt_ess st) !! e = Some s ∧
     receives (receiver t) s (channels (rt_ess st)) ∧
     receiver_count s (channels (rt_ess st)) ≠ 0) ∧
  ∀ event, (publish e event (rt_ess st)).1 = true.
Proof.
  intros Hwf%rt_reachable_ok Hc He. unfold rt_ok in Hwf.
  destruct (wf_subscribed _ _ _ _ Hwf _ _ _ _ Hc He) as (Hca & t & Hin & Hid & Htok).
  destruct (wf_live _ _ _ _ Hwf t Hin) as (s & Hs & Hre). rewrite Hid in Hs. simpl in Hs.
  split_and!; [done| |].
  - apply list_elem_of_split in Hin as (l1 & l2 & Hl). exists l1, t, l2, s.
    split_and!; [done| |done|done|done|done|by eapply receives_counted].
    intros t' Ht' Heq. pose proof (wf_tokens _ _ _ _ Hwf) as Hnd.
    rewrite Hl, <- Permutation_middle, fmap_cons in Hnd. apply NoDup_cons in Hnd as [Hnin _].
    apply Hnin. rewrite Htok, <- Heq. by apply list_elem_of_fmap_2.
  - intros event. unfold publish. rewrite Hs. by destruct (broadcast_send _ _ _).
Qed.

(** C24: A publisher is never removed while the system runs, although
    [deregister_subscriptions] means to remove the publisher of an event without
    receivers: the subscription that is deregistered has a live task, whose receiver
    is counted.  Hence publishing an event answers true for good once somebody
    subscribed to it, and the publishers of past subscriptions accumulate. *)
Theorem publishers_never_removed st st' e :
  rt_reachable st → rtc rt_step st st' →
  is_Some (sender_by_event_id (rt_ess st) !! e) →
  sender_by_event_id (rt_ess st') !! e = sender_by_event_id (rt_ess st) !! e ∧
  (∀ event, (publish e event (rt_ess st')).1 = true) ∧
  ∀ cid ids, sender_by_event_id (deregister_subscriptions cid ids (rt_ess st')).2 =
             sender_by_event_id (rt_ess st').
Proof.
  intros Hok%rt_reachable_ok Hst [s Hs].
  assert (rt_ok st' ∧ sender_by_event_id (rt_ess st) ⊆ sender_by_event_id (rt_ess st')) as [Hok' Hsub].
  { clear Hs. induction Hst as [|st1 st2 st3 H12 _ IH]; [done|].
    destruct (rt_step_ok _ _ Hok H12) as [Hok2 Hsub]. destruct (IH Hok2). split; [done|]. by etrans. }
  pose proof (lookup_weaken _ _ _ _ Hs Hsub) as Hs'. split_and!; [congruence| |].
  - intros event. unfold publish. rewrite Hs'. by destruct (broadcast_send _ _ _).
  - intros cid ids. unfold deregister_subscriptions.
    destruct (client_by_id (rt_ess st') !! cid) as [c|] eqn:Hc; [|done].
    pose proof (deregister_loop_wf (client_by_id (rt_ess st')) (rt_live st') cid (sender c) ids
      (subscriptions c) (sender_by_event_id (rt_ess st')) (channels (rt_ess st'))) as Hl.
    destruct (foldl _ _ _) as [[subs senders] ch]. simpl. apply Hl.
    destruct c as [tx subs0]. simpl. by rewrite insert_id.
Qed.
End theorems.
End runtime.
