(* ===== verification/EssRuntimeWitnesses.v ===== *)
(** * A running event sub-system

    The sample channels satisfy the laws that [EssRuntime] relies on, and a client
    that reads, subscribes and deregisters gives states in which the hypotheses of
    its theorems hold. *)

From stdpp Require Import relations.
From S2P Require Import Prelude RustStd Ess EssFacts EssSample EssRuntime EssTheorems.

Section sample.
Context (Event ClientEvent : Type).
#[local] Existing Instance sample_channels.
#[local] Abbreviation store := (store Event ClientEvent).

(** The receiver has a position within the channel's log. *)
Definition attached (b : bchan Event) (k : nat) : Prop :=
  ∃ p, b_pos _ b !! k = Some p ∧ p ≤ length (b_log _ b).

Definition sample_receives (r : nat * nat) (s : nat) (ch : store) : Prop :=
  r.1 = s ∧ r.2 < next_rx _ _ ch ∧
  ∃ b, bchans _ _ ch !! s = Some b ∧ attached b r.2.

(** A sender is never dropped in a sample store: no channel is closed. *)
#[export] Instance sample_view : RuntimeView Event ClientEvent := {|
  receives := sample_receives;
  is_sender s (ch : store) := s < length (bchans _ _ ch);
  issued t (ch : store) := t < length (cancelled _ _ ch);
  is_cancelled t (ch : store) := default false (cancelled _ _ ch !! t);
  recv_closed _ _ := False
|}.

Lemma sample_fresh r s (ch : store) i : sample_receives r s ch → r ≠ (i, next_rx _ _ ch).
Proof. intros (_ & Hlt & _) ->. simpl in Hlt. lia. Qed.

(** A store that differs only in delivery queues keeps everything. *)
Lemma sample_same (ch ch' : store) :
  bchans _ _ ch' = bchans _ _ ch → next_rx _ _ ch' = next_rx _ _ ch →
  cancelled _ _ ch' = cancelled _ _ ch → keeps ch ch'.
Proof.
  intros Hb Hn Hc. rewrite keeps_simple. simpl. unfold sample_receives. by rewrite Hb, Hn, Hc.
Qed.

(** Changing a channel keeps its receivers if it keeps their positions. *)
Lemma sample_update_keeps (gone : nat * nat → Prop) i (g : bchan Event → bchan Event) (ch : store) :
  (∀ b k, ¬ gone (i, k) → attached b k → attached (g b) k) →
  keeps_but gone (λ _, False) ch (sample_update_b _ _ i g ch).
Proof.
  intros Hg. unfold keeps_but, sample_update_b. simpl. split_and!.
  - intros [j k] s (Hs & Hlt & b & Hb & Hk) Hgone. simpl in *. subst j. split_and!; [done|done|]. simpl.
    destruct (decide (s = i)) as [->|Hne].
    + exists (g b). rewrite list_lookup_alter_eq, Hb. split; [done|]. by apply Hg.
    + exists b. by rewrite list_lookup_alter_ne.
  - intros s. by rewrite length_alter.
  - done.
Qed.

#[export] Instance sample_runtime_laws : RuntimeLaws Event ClientEvent.
Proof.
  split.
  - intros r s ch (_ & _ & b & Hb & p & Hp & _). simpl. unfold sample_receiver_count. rewrite Hb.
    intros E. apply map_size_empty_inv in E. by rewrite E in Hp.
  - tauto.
  - intros n ch s r ch'. simpl. unfold sample_broadcast_channel. case_decide; [done|].
    intros [= <- <- <-]. split_and!.
    + rewrite keeps_simple. simpl. unfold sample_receives. simpl. split_and!; [|intros; rewrite length_app; lia|done].
      intros r s (-> & ? & b & Hb & ?). split_and!; [done|lia|]. exists b. split; [|done].
      by apply lookup_app_l_Some.
    + simpl. lia.
    + simpl. rewrite length_app. simpl. lia.
    + intros r' s' Hr. by eapply sample_fresh.
  - intros s ch r ch'. simpl. unfold sample_subscribe. intros [= <- <-] Hs. split_and!.
    + destruct (sample_update_keeps (λ _, False) s (λ b, mkBchan _ (b_cap _ b) (b_log _ b)
        (<[next_rx _ _ ch := length (b_log _ b)]> (b_pos _ b))) ch) as (Hr & Hs' & Ht).
      { intros b k _ (p & Hk & Hp). unfold attached. simpl.
        destruct (decide (k = next_rx _ _ ch)) as [->|];
          [rewrite lookup_insert_eq; by eexists|rewrite lookup_insert_ne by done; by exists p]. }
      split_and!; [|done|done]. intros r s' Hre Hf. destruct (Hr r s' Hre Hf) as (? & ? & ?).
      split_and!; [done|simpl in *; lia|done].
    + destruct (lookup_lt_is_Some_2 _ _ Hs) as [b Hb]. split_and!; [done|simpl; lia|].
      simpl. rewrite list_lookup_alter_eq, Hb. eexists. split; [done|].
      exists (length (b_log _ b)). simpl. by rewrite lookup_insert_eq.
    + intros r' s' Hr. by eapply sample_fresh.
  - intros [i k] ch. apply sample_update_keeps. intros b k' Hne (p & Hk & Hp).
    exists p. simpl in *. rewrite lookup_delete_ne; [done|congruence].
  - intros ch t ch'. simpl. intros [= <- <-]. rewrite keeps_simple. simpl.
    split_and!; [done|done| |lia|rewrite length_app; simpl; lia|].
    + intros t Ht. rewrite length_app. split; [simpl; lia|]. by rewrite lookup_app_l.
    + by rewrite lookup_app_r, Nat.sub_diag by lia.
  - intros t ch. unfold keeps_but. simpl. split_and!; [done|done|]. intros t' Ht.
    rewrite length_insert. split; [done|]. intros Hne. by rewrite list_lookup_insert_ne by done.
  - intros s e ch. simpl. unfold sample_send.
    destruct (sample_receiver_count _ _ s ch); simpl; [by apply sample_same|].
    apply sample_update_keeps. intros b k _ (p & Hk & Hp). exists p. simpl.
    rewrite length_app. split; [done|lia].
  - intros n ch tx rx ch'. simpl. unfold sample_mpsc_channel. case_decide; [done|].
    intros [= _ _ <-]. by apply sample_same.
  - intros tx e ch. simpl. unfold sample_try_send.
    repeat case_match; by apply sample_same.
  - intros tx ch. by apply sample_same.
  - intros tx ch. by apply sample_same.
Qed.

#[export] Instance sample_unread : Unread Event ClientEvent :=
  λ (r : nat * nat) (ch : store),
    match bchans _ _ ch !! r.1 with
    | Some b => length (b_log _ b) - default 0 (b_pos _ b !! r.2)
    | None => 0
    end.

#[export] Instance sample_delivery : DeliveryLaws Event ClientEvent.
Proof.
  split.
  - intros [i k] s e ch Hre. pose proof (receives_counted _ _ _ Hre) as Hcount.
    destruct Hre as (<- & _ & b & Hb & p & Hp & Hle). simpl in *. unfold sample_send.
    destruct (sample_receiver_count _ _ i ch); [done|]. unfold unread, sample_unread. simpl.
    rewrite list_lookup_alter_eq, Hb. simpl in *. rewrite Hp, length_app. simpl. lia.
  - intros [i k] s s' e ch (<- & _) Hne. simpl in *. unfold sample_send.
    destruct (sample_receiver_count _ _ s' ch); [done|]. unfold unread, sample_unread. simpl.
    by rewrite list_lookup_alter_ne.
Qed.
End sample.

(** ** A client that subscribes and deregisters *)
Module EssRuntimeWitnesses.
Import EssWitnesses.
#[local] Existing Instance canonical_order.
#[local] Existing Instance chs.
#[local] Instance view : RuntimeView string (string * Z) := sample_view string (string * Z).
#[local] Abbreviation RT := (@Runtime string string string (string * Z) _ _ _ _ _).
#[local] Abbreviation E := (@EventSubSystem string string string (string * Z) _ _ _ _ _).
#[local] Abbreviation hs := (@log_handlers string string (string * Z)).

Definition served : RT := mkRuntime first.2 [old_task].
(** The client deregisters, its task finds its token cancelled and ends. *)
Definition deregistered : E := (deregister_subscriptions "c" ["e"] first.2).2.
Definition ended : RT := mkRuntime (drop_subscription old_task deregistered) [].

Lemma served_reachable : rt_reachable true hs served.
Proof.
  eapply rt_reachable_step.
  2: { apply (rt_register true hs "c" ["e"; "e"] first.1 reading [] first.2). vm_compute. reflexivity. }
  eapply rt_reachable_step; [exact (rt_reachable_init true hs EssConfig_default (empty_store _ _))|].
  eapply (rt_read true hs "c" Inserted (0 : @mreceiver _ _ chs) start [] reading). vm_compute. reflexivity.
Qed.

Lemma served_then_ended : rtc (rt_step true hs) served ended.
Proof.
  eapply rtc_l; [eapply (rt_deregister true hs "c" ["e"] (Ok tt) first.2 [old_task] deregistered)|].
  { vm_compute. reflexivity. }
  apply rtc_once.
  refine (rt_task true hs old_task deliver Cancelled 0%Z [] false 0%Z _ deregistered [] [] deregistered _ _);
    reflexivity.
Qed.

Definition subscriber : @Client string string (string * Z) _ _ chs := mkClient 0 {["e" := 0]}.

Lemma subscriptions_are_served_witness :
  is_cancelled 0 (channels first.2) = false ∧
  (∃ l1 t l2 s, rt_live served = l1 ++ t :: l2 ∧
     (∀ t', t' ∈ l1 ++ l2 → cancellation_token t' ≠ 0) ∧
     sub_id t = mkSubscriptionId "c" "e" ∧ cancellation_token t = 0 ∧
     sender_by_event_id first.2 !! "e" = Some s ∧
     receives (receiver t) s (channels first.2) ∧
     receiver_count s (channels first.2) ≠ 0) ∧
  ∀ event, (publish "e" event first.2).1 = true.
Proof.
  apply (subscriptions_are_served true hs served "c" subscriber "e" 0).
  - apply served_reachable.
  - vm_compute. reflexivity.
  - vm_compute. reflexivity.
Defined.

(** Nobody is subscribed any more and no task is left, yet the publisher stays. *)
Lemma publishers_never_removed_witness :
  get_subscriptions "c" (rt_ess ended) = [] ∧ rt_live ended = [] ∧
  (∀ event, (publish "e" event (rt_ess ended)).1 = true).
Proof.
  split; [vm_compute; reflexivity|]. split; [reflexivity|].
  refine (proj1 (proj2 (publishers_never_removed true hs served ended "e"
    served_reachable served_then_ended _))).
  exists 0. vm_compute. reflexivity.
Defined.
End EssRuntimeWitnesses.
