(* ===== verification/EssBuffers.v ===== *)
(** * What the buffers of the event sub-system hold

    [recv] of a subscription and [next] of a client's stream, and what is relied on of
    tokio's bounded channels: an event waits in a channel until it is read, unless the
    buffer is full.  The channels of [EssSample] are such channels. *)

From S2P Require Import Prelude RustStd Ess EssFacts EssSample EssRuntime.
From S2P Require Import EssRuntimeWitnesses.

Class Buffers (Event ClientEvent : Type) `{!Channels Event ClientEvent} : Type := {
  (** A poll of [recv], and of [next] of a [ReceiverStream] that is not at its end:
      [None] while it waits. *)
  recv : breceiver → chans → option (@Selected Event * chans);
  next : mreceiver → chans → option (ClientEvent * chans);
  (** The sender belongs to the open delivery channel of the receiver. *)
  delivers : msender → mreceiver → chans → Prop;
  waiting : mreceiver → chans → nat;
  buffer_size : bsender → chans → nat;
  queue_size : mreceiver → chans → nat
}.

(** Nothing changes for receivers but for those in [R], and for queues but for those
    in [Q], whose channels stay as they are. *)
Definition leaves `{RuntimeView Event ClientEvent, !Unread Event ClientEvent, !Buffers Event ClientEvent}
    (R : breceiver → Prop) (Q : mreceiver → Prop) (ch ch' : chans) : Prop :=
  (∀ r s, receives r s ch → ¬ R r → receives r s ch' ∧ unread r ch' = unread r ch) ∧
  (∀ s, is_sender s ch → is_sender s ch' ∧ buffer_size s ch' = buffer_size s ch) ∧
  (∀ tx q, delivers tx q ch →
     delivers tx q ch' ∧ queue_size q ch' = queue_size q ch ∧ (¬ Q q → waiting q ch' = waiting q ch)).

#[local] Abbreviation none := (λ _, False).
Class BufferLaws (Event ClientEvent : Type) `{RuntimeView Event ClientEvent}
    `{!Unread Event ClientEvent, !Buffers Event ClientEvent} : Prop := {
  recv_waits r s ch : receives r s ch → is_sender s ch → unread r ch = 0 → recv r ch = None;
  recv_event r s ch :
    receives r s ch → 0 < unread r ch ≤ buffer_size s ch →
    ∃ e ch', recv r ch = Some (Received e, ch') ∧ receives r s ch' ∧
      S (unread r ch') = unread r ch ∧ leaves (λ r', r' = r) none ch ch';
  next_waits tx q ch : delivers tx q ch → waiting q ch = 0 → next q ch = None;
  next_event tx q ch :
    delivers tx q ch → 0 < waiting q ch →
    ∃ e ch', next q ch = Some (e, ch') ∧ S (waiting q ch') = waiting q ch ∧
      leaves none (λ q', q' = q) ch ch';
  try_send_room tx q e ch :
    delivers tx q ch → waiting q ch < queue_size q ch →
    ∃ ch', try_send tx e ch = (Sent, ch') ∧ waiting q ch' = S (waiting q ch) ∧
      leaves none (λ q', q' = q) ch ch';
  send_reaches r s e ch :
    receives r s ch →
    ∃ n ch', broadcast_send s e ch = (Ok n, ch') ∧ receives r s ch' ∧ unread r ch' = S (unread r ch);
  send_leaves s e ch : leaves (λ r, receives r s ch) none ch (broadcast_send s e ch).2;
  mpsc_empty n ch tx q ch' :
    mpsc_channel n ch = Return (tx, q, ch') →
    leaves none none ch ch' ∧ delivers tx q ch' ∧ waiting q ch' = 0 ∧ queue_size q ch' = n ∧
    (∀ tx' q', delivers tx' q' ch → q' ≠ q);
  channel_empty n ch s r ch' :
    broadcast_channel n ch = Return (s, r, ch') →
    leaves none none ch ch' ∧ is_sender s ch' ∧ buffer_size s ch' = n ∧
    (∀ r' s', receives r' s' ch → r' ≠ r);
  subscribe_empty s ch r ch' :
    broadcast_subscribe s ch = (r, ch') → is_sender s ch →
    leaves none none ch ch' ∧ receives r s ch' ∧ unread r ch' = 0 ∧
    (∀ r' s', receives r' s' ch → r' ≠ r);
  drop_leaves r ch : leaves (λ r', r' = r) none ch (drop_receiver r ch);
  token_leaves ch : leaves none none ch (token_new ch).2;
  clone_leaves tx ch : leaves none none ch (clone_msender tx ch)
}.

Section facts.
Context `{RuntimeView Event ClientEvent, !Unread Event ClientEvent, !Buffers Event ClientEvent}.
Implicit Types (R : breceiver → Prop) (Q : mreceiver → Prop) (ch : chans).

Lemma leaves_refl R Q ch : leaves R Q ch ch.
Proof. by split_and!. Qed.

Lemma leaves_trans R Q ch1 ch2 ch3 : leaves R Q ch1 ch2 → leaves R Q ch2 ch3 → leaves R Q ch1 ch3.
Proof.
  intros (R1 & S1 & Q1) (R2 & S2 & Q2). split_and!.
  - intros r s Hr Hn. destruct (R1 r s Hr Hn) as [Hr' <-]. by apply R2.
  - intros s Hs. destruct (S1 s Hs) as [Hs' <-]. by apply S2.
  - intros tx q Hq. destruct (Q1 tx q Hq) as (Hq' & <- & Hw). destruct (Q2 tx q Hq') as (? & ? & Hw').
    split_and!; [done|done|]. intros Hn. by rewrite Hw', Hw.
Qed.

Lemma leaves_weaken R R' Q Q' ch ch' :
  (∀ r s, receives r s ch → R r → R' r) → (∀ q, Q q → Q' q) → leaves R Q ch ch' → leaves R' Q' ch ch'.
Proof.
  intros HR HQ (Hr & Hs & Hq). split_and!; [|done|].
  - intros r s Hre Hn. apply Hr; [done|]. intros HRr. by eapply Hn, HR.
  - intros tx q Hd. destruct (Hq tx q Hd) as (? & ? & Hw). split_and!; [done|done|].
    intros Hn. apply Hw. intros HQq. by apply Hn, HQ.
Qed.
End facts.

(** ** The sample channels *)
Section sample.
Context (Event ClientEvent : Type).
#[local] Existing Instance sample_channels.
#[local] Existing Instance sample_view.
#[local] Existing Instance sample_unread.
#[local] Existing Instance sample_runtime_laws.
#[local] Existing Instance sample_delivery.
#[local] Abbreviation store := (store Event ClientEvent).
Implicit Types (ch : store).

Definition sample_next (q : nat) ch : option (ClientEvent * store) :=
  m ← mchans _ _ ch !! q;
  match m_queue _ m with
  | [] => None
  | e :: rest => Some (e, sample_update_m _ _ q (λ m, mkMchan _ (m_cap _ m) rest (m_open _ m)) ch)
  end.
Definition sample_delivers (tx q : nat) ch : Prop :=
  tx = q ∧ ∃ m, mchans _ _ ch !! q = Some m ∧ m_open _ m = true.

#[export] Instance sample_buffers : Buffers Event ClientEvent := {|
  recv := sample_recv Event ClientEvent;
  next := sample_next;
  delivers := sample_delivers;
  waiting q (ch : store) := match mchans _ _ ch !! q with Some m => length (m_queue _ m) | None => 0 end;
  buffer_size s (ch : store) := match bchans _ _ ch !! s with Some b => b_cap _ b | None => 0 end;
  queue_size q (ch : store) := match mchans _ _ ch !! q with Some m => m_cap _ m | None => 0 end
|}.

(** A store that differs in one queue, in one channel. *)
Lemma sample_queue_leaves (Q : nat → Prop) q (g : mchan ClientEvent → mchan ClientEvent) ch :
  Q q → (∀ m, m_cap _ (g m) = m_cap _ m ∧ m_open _ (g m) = m_open _ m) →
  leaves none Q ch (sample_update_m _ _ q g ch).
Proof.
  intros Hq Hg. split_and!; [done|done|]. intros tx q' (-> & m & Hm & Ho). simpl in *.
  destruct (decide (q' = q)) as [->|Hne].
  - unfold sample_delivers. simpl. rewrite list_lookup_alter_eq, Hm. simpl. destruct (Hg m) as [Hc Ho'].
    split_and!; [done| |done|done]. eexists. split; [done|]. congruence.
  - unfold sample_delivers. simpl. rewrite list_lookup_alter_ne, Hm by done.
    split_and!; [done| |done|done]. by exists m.
Qed.

Lemma sample_channel_leaves (R : nat * nat → Prop) i (g : bchan Event → bchan Event) ch :
  (∀ b, b_cap _ (g b) = b_cap _ b) →
  (∀ b k, k < next_rx _ _ ch → ¬ R (i, k) → attached _ b k → attached _ (g b) k ∧
     length (b_log _ (g b)) - default 0 (b_pos _ (g b) !! k) = length (b_log _ b) - default 0 (b_pos _ b !! k)) →
  leaves R none ch (sample_update_b _ _ i g ch).
Proof.
  intros Hc Hg. split_and!.
  - intros [j k] s (Hs & Hlt & b & Hb & Hk) Hn. simpl in *. subst j.
    unfold sample_receives, unread, sample_unread. simpl. destruct (decide (s = i)) as [->|Hne].
    + rewrite list_lookup_alter_eq, Hb. simpl. destruct (Hg b k Hlt Hn Hk) as [Ha Hu].
      split_and!; [done|done| |done]. by eexists.
    + rewrite list_lookup_alter_ne, Hb by done. split_and!; [done|done| |done]. by exists b.
  - intros s Hs. simpl. rewrite length_alter. split; [done|]. destruct (decide (s = i)) as [->|Hne].
    + rewrite list_lookup_alter_eq. destruct (bchans _ _ ch !! i); [apply Hc|done].
    + by rewrite list_lookup_alter_ne.
  - done.
Qed.

Lemma sample_same_leaves ch ch' :
  bchans _ _ ch' = bchans _ _ ch → next_rx _ _ ch ≤ next_rx _ _ ch' →
  mchans _ _ ch' = mchans _ _ ch → leaves none none ch ch'.
Proof.
  intros Hb Hn Hm. unfold leaves. simpl. unfold sample_receives, sample_delivers, unread, sample_unread.
  rewrite Hb, Hm. split_and!; [|done|done]. intros r s (-> & ? & ?) _. split_and!; [done|lia|done|done].
Qed.

Lemma sample_recv_event r s ch :
  sample_receives _ _ r s ch → 0 < unread r (ch : chans) ≤ buffer_size s (ch : chans) →
  ∃ e ch', sample_recv _ _ r ch = Some (Received e, ch') ∧ sample_receives _ _ r s ch' ∧
    S (unread r (ch' : chans)) = unread r (ch : chans) ∧ leaves (λ r', r' = r) none ch ch'.
Proof.
  destruct r as [i k]. intros (Hs & Hlt & b & Hb & p & Hp & Hle) Hu. simpl in Hs, Hlt, Hp. subst s.
  unfold unread, sample_unread in Hu |- *. simpl in Hu |- *. rewrite Hb, Hp in Hu. simpl in Hu.
  destruct (lookup_lt_is_Some_2 (b_log _ b) p) as [e He]; [lia|].
  unfold sample_recv. simpl. rewrite Hb. simpl. rewrite Hp. simpl. rewrite decide_False, He by lia. do 2 eexists. split; [reflexivity|]. split_and!.
  - split_and!; [done|done|]. simpl. rewrite list_lookup_alter_eq, Hb. eexists. split; [done|].
    exists (S p). simpl. rewrite lookup_insert_eq. split; [done|]. lia.
  - simpl. rewrite list_lookup_alter_eq, Hb. simpl. rewrite lookup_insert_eq. simpl. lia.
  - apply sample_channel_leaves; [done|]. intros b' k' _ Hne (p' & Hp' & Hle'). simpl in *.
    assert (k' ≠ k) by congruence. unfold attached. simpl. rewrite lookup_insert_ne by done.
    split; [by exists p'|done].
Qed.

Lemma sample_send_leaves s e ch :
  leaves (λ r, sample_receives _ _ r s ch) none ch (sample_send _ _ s e ch).2.
Proof.
  unfold sample_send. destruct (sample_receiver_count _ _ s ch) eqn:Hn; simpl.
  { apply leaves_refl. }
  split_and!; [|intros s' Hs'|done].
  - intros [j k] s' (Hs & Hlt & b & Hb & Hk) Hnr. simpl in *. subst j.
    assert (s' ≠ s) as Hne by (intros ->; apply Hnr; split_and!; [done|done|by exists b]).
    unfold sample_receives, unread, sample_unread. simpl. rewrite list_lookup_alter_ne, Hb by done.
    split_and!; [done|done| |done]. by exists b.
  - simpl in *. rewrite length_alter. split; [done|]. destruct (decide (s' = s)) as [->|Hne].
    + rewrite list_lookup_alter_eq. by destruct (bchans _ _ ch !! s).
    + by rewrite list_lookup_alter_ne.
Qed.

#[export] Instance sample_buffer_laws : BufferLaws Event ClientEvent.
Proof.
  split.
  - intros [i k] s ch (<- & _ & b & Hb & p & Hp & Hle) _. unfold unread, sample_unread. simpl in *.
    unfold sample_recv. rewrite Hb. simpl. rewrite Hb. simpl. rewrite Hp. simpl. intros Hu.
    rewrite decide_False by lia. by rewrite lookup_ge_None_2 by lia.
  - apply sample_recv_event.
  - intros tx q ch (-> & m & Hm & _). simpl. unfold sample_next. rewrite Hm. simpl.
    by destruct (m_queue _ m).
  - intros tx q ch (-> & m & Hm & _). simpl. unfold sample_next. rewrite Hm. simpl.
    destruct (m_queue _ m) as [|e rest]; simpl; [lia|]. intros _. do 2 eexists. split; [done|].
    split; [simpl; by rewrite list_lookup_alter_eq, Hm|]. by apply sample_queue_leaves.
  - intros tx q e ch (-> & m & Hm & Ho). simpl. unfold sample_try_send. rewrite Hm, Ho. simpl. intros Hlt.
    rewrite decide_False by lia. eexists. split; [done|].
    split; [simpl; rewrite list_lookup_alter_eq, Hm; simpl; rewrite length_app; simpl; lia|].
    by apply sample_queue_leaves.
  - intros r s e ch Hre. pose proof (receives_counted _ _ _ Hre) as Hcount.
    pose proof (send_unread r s e ch Hre) as Hu.
    destruct (send_keeps s e ch) as (Hk & _ & _). specialize (Hk r s Hre ltac:(tauto)).
    simpl in *. unfold sample_send in *. destruct (sample_receiver_count _ _ s ch); [done|]. simpl in *.
    do 2 eexists. by split_and!.
  - apply sample_send_leaves.
  - intros n ch tx q ch'. simpl. unfold sample_mpsc_channel. case_decide; [done|]. intros [= <- <- <-].
    assert (∀ q m, mchans _ _ ch !! q = Some m → (mchans _ _ ch ++ [mkMchan _ n [] true]) !! q = Some m) as Hl
      by (intros; by apply lookup_app_l_Some).
    simpl. rewrite list_lookup_middle by done. split_and!; [|split; [done|]| done|done|].
    + split_and!; [done|done|]. intros tx q (-> & m & Hm & Ho). simpl. unfold sample_delivers. simpl.
      rewrite Hm, (Hl q m Hm). split_and!; [done| |done|done]. by exists m.
    + simpl. rewrite list_lookup_middle by done. by eexists.
    + intros tx' q' (_ & m & Hm & _) ->. apply lookup_lt_Some in Hm. simpl in *. lia.
  - intros n ch s r ch' Hch. destruct (channel_law _ _ _ _ _ Hch) as (_ & _ & Hs & Hf). revert Hch.
    simpl. unfold sample_broadcast_channel. case_decide; [done|]. intros [= <- <- <-].
    split_and!; [|done|simpl; by rewrite list_lookup_middle|done].
    assert (∀ i b, bchans _ _ ch !! i = Some b →
      (bchans _ _ ch ++ [mkBchan _ n [] {[next_rx _ _ ch := 0]}]) !! i = Some b) as Hl
      by (intros; by apply lookup_app_l_Some).
    split_and!; [| |done].
    + intros [i k] s (Hs' & Hlt & b & Hb & Hk) _. simpl in *. subst i.
      unfold sample_receives, unread, sample_unread. simpl. rewrite Hb, (Hl s b Hb).
      split_and!; [done|lia| |done]. by exists b.
    + intros s Hs'. simpl in *. rewrite length_app. split; [lia|].
      destruct (lookup_lt_is_Some_2 _ _ Hs') as [b Hb]. by rewrite Hb, (Hl s b Hb).
  - intros s ch r ch' Hsub Hs. destruct (subscribe_law _ _ _ _ Hsub Hs) as (_ & Hr & Hf). revert Hsub.
    simpl. unfold sample_subscribe. intros [= <- <-]. split_and!; [|done| |done].
    + set (g := λ b : bchan Event, mkBchan _ (b_cap _ b) (b_log _ b)
        (<[next_rx _ _ ch := length (b_log _ b)]> (b_pos _ b))).
      apply (leaves_trans _ _ _ (sample_update_b _ _ s g ch : chans (Channels := sample_channels Event ClientEvent)));
        [|apply sample_same_leaves; [done|simpl; lia|done]].
      apply (sample_channel_leaves none s g); [done|]. intros b k Hlt _ (p & Hp & Hle).
      unfold attached. simpl. rewrite lookup_insert_ne by lia. split; [by exists p|done].
    + unfold unread, sample_unread. simpl. destruct (lookup_lt_is_Some_2 _ _ Hs) as [b Hb].
      rewrite list_lookup_alter_eq, Hb. simpl. rewrite lookup_insert_eq. simpl. lia.
  - intros [i k] ch. apply sample_channel_leaves; [done|]. intros b k' _ Hne (p & Hp & Hle). simpl in *.
    unfold attached. simpl. rewrite lookup_delete_ne by congruence. split; [by exists p|done].
  - intros ch. simpl. by apply sample_same_leaves.
  - intros tx ch. simpl. apply leaves_refl.
Qed.
End sample.
