(* ===== verification/EssBench.v ===== *)
(** * The load benchmark of the event sub-system ([ess/benches/load_bench.rs])

    For each of its setups the benchmark starts clients that read a stream and tasks
    that serve their subscriptions, and measures how long it takes until every client
    has told that it read all events of an iteration.  The model leaves out the
    measuring: what is proved is that an iteration ends, whatever the schedule. *)

From stdpp Require Import pretty relations.
From S2P Require Import Prelude RustStd Ess EssFacts EssSample EssRuntime.
From S2P Require Import EssRuntimeWitnesses EssBuffers.

Inductive BenchEventId := mkBenchEventId.
#[export] Instance BenchEventId_eq_dec : EqDecision BenchEventId.
Proof. solve_decision. Defined.
#[export] Instance BenchEventId_countable : Countable BenchEventId.
Proof. refine (inj_countable' (λ _, tt) (λ _, mkBenchEventId) _). by intros []. Defined.
Definition BenchEventId_display (_ : BenchEventId) : string := "BenchmarkEvent".

Record BenchEvent := mkBenchEvent { be_id : BenchEventId; be_seq : Z; be_data : string }.

Definition BENCH_EVENT_ID : BenchEventId := mkBenchEventId.
Definition BENCH_DATA1 : string := "data1".
Definition BENCH_NUMBER_OF_EVENTS : list N := [1000; 10000]%N.
Definition BENCH_NUMBER_OF_SUBSCRIBERS : list N := [1; 10; 100]%N.

Record FunctionSetup := mkFunctionSetup { fs_events : nat; fs_subscribers : nat }.
Definition FunctionSetup_display (s : FunctionSetup) : string :=
  pretty (fs_subscribers s) +:+ "-subscribers/" +:+ pretty (fs_events s) +:+ "-events".

(** The setups, in the order of the two loops. *)
Definition bench_setups : list FunctionSetup :=
  e ← BENCH_NUMBER_OF_EVENTS; s ← BENCH_NUMBER_OF_SUBSCRIBERS;
  [mkFunctionSetup (N.to_nat e) (N.to_nat s)].

(** Every setup has events and subscribers. *)
Lemma bench_setups_positive s : s ∈ bench_setups → 0 < fs_events s ∧ 0 < fs_subscribers s.
Proof.
  unfold bench_setups. intros (e & (n & Hs & Hn)%list_elem_of_bind & He)%list_elem_of_bind.
  assert (Forall (λ n, 0 < n)%N BENCH_NUMBER_OF_EVENTS) as Hev by (repeat constructor).
  assert (Forall (λ n, 0 < n)%N BENCH_NUMBER_OF_SUBSCRIBERS) as Hsu by (repeat constructor).
  rewrite Forall_forall in Hev, Hsu. apply list_elem_of_singleton in Hs as ->. simpl.
  apply Hev in He. apply Hsu in Hn. lia.
Qed.

(** Sums of two functions that differ at one place, and everywhere by the same. *)
Lemma sum_list_at {A} (f g : A → nat) l i x k :
  l !! i = Some x → f x = k + g x → (∀ j y, l !! j = Some y → i ≠ j → f y = g y) →
  sum_list (f <$> l) = k + sum_list (g <$> l).
Proof.
  revert i. induction l as [|y l IH]; intros i Hx Hk Hne; [done|].
  rewrite !fmap_cons. cbn [sum_list_with id]. destruct i as [|i]; simpl in Hx.
  - injection Hx as ->. rewrite Hk.
    assert (f <$> l = g <$> l) as ->; [|lia]. apply list_fmap_ext. intros j z Hz.
    by apply (Hne (S j)).
  - rewrite (Hne 0 y eq_refl) by done. rewrite (IH i); [lia|done|done|].
    intros j z Hz Hij. by apply (Hne (S j)); [|congruence].
Qed.

Lemma sum_list_shift {A} (f g : A → nat) l k :
  (∀ x, x ∈ l → g x = k + f x) → sum_list (g <$> l) = length l * k + sum_list (f <$> l).
Proof.
  induction l as [|y l IH]; intros Hk; [done|].
  rewrite !fmap_cons. cbn [sum_list_with id length]. rewrite Hk by apply list_elem_of_here.
  rewrite IH; [lia|]. intros x Hx. apply Hk. by apply list_elem_of_further.
Qed.

Section bench.
Context `{!HashOrder}.
Context `{RuntimeView BenchEvent BenchEvent} `{!Unread BenchEvent BenchEvent, !Buffers BenchEvent BenchEvent}.
(** The channel over which the clients tell that they are done. *)
Context `{RuntimeView unit unit} `{!Unread unit unit, !Buffers unit unit}.
#[local] Abbreviation Ess := (@EventSubSystem string BenchEventId BenchEvent BenchEvent _ _ _ _ _).
#[local] Abbreviation Sub := (@Subscription string BenchEventId BenchEvent BenchEvent _).
#[local] Abbreviation stream := (@mreceiver BenchEvent BenchEvent _).
#[local] Abbreviation publisher := (@bsender BenchEvent BenchEvent _).
#[local] Abbreviation events_chans := (@chans BenchEvent BenchEvent _).
#[local] Abbreviation signal_chans := (@chans unit unit _).

(** The spawned tasks: those that serve a subscription with their sequence number, and
    those that read a stream with their [count]. *)
Record Bench := mkBench {
  b_sut : Ess;
  b_servers : list (Sub * Z);
  b_readers : list (stream * nat);
  b_sender : @bsender unit unit _;
  b_signals : signal_chans
}.

Definition bench_client (i : nat) : string := "client" +:+ pretty i.

(** The body of [for i in 0..subscribers]. *)
Definition add_subscriber (b : Bench) (i : nat) : outcome Bench :=
  let client_id := bench_client i in
  '(_, receiver_stream, sut) ← read_events client_id (b_sut b);
  '(res, sut) ← register_subscriptions client_id [BENCH_EVENT_ID] sut;
  subs ← unwrap (T := list Sub) res;
  Return (mkBench sut (b_servers b ++ ((λ sub, (sub, 0%Z)) <$> subs))
            (b_readers b ++ [(receiver_stream, 0)]) (b_sender b) (b_signals b)).

Definition bench_config (events : nat) : EssConfig :=
  set_publish_buffer_size (set_client_buffer_size EssConfig_default events) events.

(** [event_sub_system_bench] for one setup, up to its measurement. *)
Definition bench_start (setup : FunctionSetup) (ch : events_chans) (sig : signal_chans) : outcome Bench :=
  let sut := Ess_new_with_config (bench_config (fs_events setup)) ch in
  '(sender, rx, sig) ← broadcast_channel (fs_subscribers setup) sig;
  for_each add_subscriber (mkBench sut [] [] sender (drop_receiver rx sig))
    (seq 0 (fs_subscribers setup)).

(** ** One iteration

    [bench_function] has [it_left] events to publish, then [it_collect] signals to
    receive. *)
Record Iteration := mkIteration {
  it_bench : Bench;
  it_receiver : @breceiver unit unit _;
  it_left : nat;
  it_collect : nat
}.

Definition bench_into_event (e : BenchEvent) (seq : Z) : BenchEvent := mkBenchEvent (be_id e) seq (be_data e).

Section setup.
Context (setup : FunctionSetup).
#[local] Abbreviation events := (fs_events setup).
#[local] Abbreviation subscribers := (fs_subscribers setup).

Definition with_sut (it : Iteration) (sut : Ess) (servers : list (Sub * Z)) : Iteration :=
  let b := it_bench it in
  mkIteration (mkBench sut servers (b_readers b) (b_sender b) (b_signals b))
    (it_receiver it) (it_left it) (it_collect it).
Definition set_channels (e : Ess) (ch : events_chans) : Ess :=
  mkEss (ess_config e) (sender_by_event_id e) (client_by_id e) ch.

(** A poll of [bench_function]: [None] when it waits or has returned. *)
Definition bench_function (it : Iteration) : outcome (option Iteration) :=
  let b := it_bench it in
  match it_left it, it_collect it with
  | S rest, _ =>
      let i := events - S rest in
      let '(_, sut) := publish BENCH_EVENT_ID
                         (mkBenchEvent BENCH_EVENT_ID (Z.of_nat i) BENCH_DATA1) (b_sut b) in
      Return (Some (mkIteration (mkBench sut (b_servers b) (b_readers b) (b_sender b) (b_signals b))
                      (it_receiver it) rest (it_collect it)))
  | O, S collect =>
      match recv (it_receiver it) (b_signals b) with
      | None => Return None
      | Some (Received _, sig) =>
          Return (Some (mkIteration (mkBench (b_sut b) (b_servers b) (b_readers b) (b_sender b) sig)
                          (it_receiver it) 0 collect))
      | Some (_, _) => Panic "called `Result::unwrap()` on an `Err` value"
      end
  | O, O => Return None
  end.

(** A poll of the task [sub.serve(...)]; its token is never cancelled. *)
Definition server_poll (i : nat) (it : Iteration) : outcome (option Iteration) :=
  match b_servers (it_bench it) !! i with
  | None => Return None
  | Some (sub, seq) =>
      match recv (receiver sub) (channels (b_sut (it_bench it))) with
      | None => Return None
      | Some (selected, ch) =>
          '(continue, seq, sut, _) ← serve_iteration false sub bench_into_event log_handlers selected seq
             (set_channels (b_sut (it_bench it)) ch) [];
          Return (Some (if continue : bool
                        then with_sut it sut (<[i := (sub, seq)]> (b_servers (it_bench it)))
                        else with_sut it (drop_subscription sub sut) (delete i (b_servers (it_bench it)))))
      end
  end.

(** A poll of the task that reads the stream of a client. *)
Definition reader_poll (i : nat) (it : Iteration) : outcome (option Iteration) :=
  let b := it_bench it in
  match b_readers b !! i with
  | None => Return None
  | Some (receiver_stream, count) =>
      match next receiver_stream (channels (b_sut b)) with
      | None => Return None
      | Some (_, ch) =>
          let count := S count in
          '(count, sig) ←
            (if decide (count = events) then
               let '(res, sig) := broadcast_send (b_sender b) tt (b_signals b) in
               _ ← unwrap res; Return (0, sig)
             else Return (count, b_signals b));
          Return (Some (mkIteration
            (mkBench (set_channels (b_sut b) ch) (b_servers b)
               (<[i := (receiver_stream, count)]> (b_readers b)) (b_sender b) sig)
            (it_receiver it) (it_left it) (it_collect it)))
      end
  end.

Inductive Actor := Main | Server (i : nat) | Reader (i : nat).
Definition bench_poll (a : Actor) (it : Iteration) : outcome (option Iteration) :=
  match a with
  | Main => bench_function it
  | Server i => server_poll i it
  | Reader i => reader_poll i it
  end.
Definition bench_step (it it' : Iteration) : Prop := ∃ a, bench_poll a it = Return (Some it').

(** [sender.subscribe()] before the call of [bench_function], whose end drops the
    receiver. *)
Definition start_iteration (b : Bench) : Iteration :=
  let '(rx, sig) := broadcast_subscribe (b_sender b) (b_signals b) in
  mkIteration (mkBench (b_sut b) (b_servers b) (b_readers b) (b_sender b) sig) rx events subscribers.
Definition end_iteration (it : Iteration) : Bench :=
  let b := it_bench it in
  mkBench (b_sut b) (b_servers b) (b_readers b) (b_sender b) (drop_receiver (it_receiver it) (b_signals b)).

(** Everything that is reached while iterations follow each other. *)
Inductive bench_reachable (ch : events_chans) (sig : signal_chans) : Iteration → Prop :=
  | bench_first b : bench_start setup ch sig = Return b → bench_reachable ch sig (start_iteration b)
  | bench_goes_on it it' : bench_reachable ch sig it → bench_step it it' → bench_reachable ch sig it'
  | bench_again it :
      bench_reachable ch sig it → it_left it = 0 → it_collect it = 0 →
      bench_reachable ch sig (start_iteration (end_iteration it)).

(** The polls that are left to do. *)
Definition ends (b : Bench) : list (@breceiver BenchEvent BenchEvent _ * stream) :=
  zip (receiver ∘ fst <$> b_servers b) (b_readers b).*1.
Definition load (ch : events_chans) (l : list (@breceiver BenchEvent BenchEvent _ * stream)) : nat :=
  sum_list ((λ e, 2 * unread e.1 ch + waiting e.2 ch) <$> l).
#[local] Arguments load : simpl never.
Definition work (it : Iteration) : nat :=
  it_left it * (1 + 2 * subscribers) + load (channels (b_sut (it_bench it))) (ends (it_bench it))
  + it_collect it.
#[local] Arguments work : simpl never.

(** ** The invariant

    [flags] tells which clients have signalled in this iteration.  Until then every
    event of the iteration is at one place: not published, not served, not read, or
    counted. *)
Definition client_ok (s : publisher) (ch : events_chans) (rest : nat) (sv : Sub * Z) (rd : stream * nat)
    (signalled : bool) : Prop :=
  receives (receiver sv.1) s ch ∧ delivers (sub_sender sv.1) rd.1 ch ∧ queue_size rd.1 ch = events ∧
  if signalled then unread (receiver sv.1) ch = 0 ∧ waiting rd.1 ch = 0 ∧ rd.2 = 0 ∧ rest = 0
  else unread (receiver sv.1) ch + waiting rd.1 ch + rd.2 + rest = events ∧ rd.2 < events.

Record clients_ok (n : nat) (s : publisher) (ch : events_chans) (rest : nat)
    (servers : list (Sub * Z)) (readers : list (stream * nat)) (flags : list bool) : Prop := {
  cl_publisher : is_sender s ch ∧ buffer_size s ch = events;
  cl_servers : length servers = n;
  cl_readers : length readers = n;
  cl_flags : length flags = n;
  cl_receivers : NoDup (receiver ∘ fst <$> servers);
  cl_streams : NoDup readers.*1;
  cl_clients i sv rd fl :
    servers !! i = Some sv → readers !! i = Some rd → flags !! i = Some fl →
    client_ok s ch rest sv rd fl
}.

Definition signals (flags : list bool) : nat := sum_list (Nat.b2n <$> flags).

Record bench_ok (s : publisher) (flags : list bool) (it : Iteration) : Prop := {
  bo_sender : sender_by_event_id (b_sut (it_bench it)) !! BENCH_EVENT_ID = Some s;
  bo_clients : clients_ok subscribers s (channels (b_sut (it_bench it))) (it_left it)
                 (b_servers (it_bench it)) (b_readers (it_bench it)) flags;
  bo_receiver : receives (it_receiver it) (b_sender (it_bench it)) (b_signals (it_bench it));
  bo_done : is_sender (b_sender (it_bench it)) (b_signals (it_bench it)) ∧
            buffer_size (b_sender (it_bench it)) (b_signals (it_bench it)) = subscribers;
  bo_signals : unread (it_receiver it) (b_signals (it_bench it)) + subscribers =
               signals flags + it_collect it;
  bo_collect : it_collect it ≤ subscribers
}.

Context `{!RuntimeLaws BenchEvent BenchEvent, !BufferLaws BenchEvent BenchEvent}.
Context `{!RuntimeLaws unit unit, !BufferLaws unit unit}.
Context (events_pos : 0 < events) (subscribers_pos : 0 < subscribers).
Implicit Types (ch : events_chans) (servers : list (Sub * Z)) (readers : list (stream * nat)).
Implicit Types (s : publisher).

(** *** One client is polled, the others are left alone *)
Lemma clients_ends n s ch rest servers readers flags i sv rd :
  clients_ok n s ch rest servers readers flags →
  servers !! i = Some sv → readers !! i = Some rd →
  zip (receiver ∘ fst <$> servers) readers.*1 !! i = Some (receiver sv.1, rd.1).
Proof. intros _ Hs Hr. rewrite lookup_zip_with, !list_lookup_fmap, Hs, Hr. done. Qed.

Lemma client_at n s ch rest servers readers flags i :
  clients_ok n s ch rest servers readers flags → i < n →
  ∃ sv rd fl, servers !! i = Some sv ∧ readers !! i = Some rd ∧ flags !! i = Some fl ∧
    client_ok s ch rest sv rd fl.
Proof.
  intros Hok Hi. destruct (lookup_lt_is_Some_2 servers i) as [sv Hsv]; [by rewrite (cl_servers _ _ _ _ _ _ _ Hok)|].
  destruct (lookup_lt_is_Some_2 readers i) as [rd Hrd]; [by rewrite (cl_readers _ _ _ _ _ _ _ Hok)|].
  destruct (lookup_lt_is_Some_2 flags i) as [fl Hfl]; [by rewrite (cl_flags _ _ _ _ _ _ _ Hok)|].
  exists sv, rd, fl. split_and!; [done..|]. by eapply cl_clients.
Qed.

(** The other clients keep what they have to do. *)
Lemma client_apart n s ch ch' rest servers readers flags i j sv rd sv' rd' :
  clients_ok n s ch rest servers readers flags →
  leaves (λ r, r = receiver sv.1) (λ q, q = rd.1) ch ch' →
  servers !! i = Some sv → readers !! i = Some rd → i ≠ j →
  servers !! j = Some sv' → readers !! j = Some rd' →
  receives (receiver sv'.1) s ch' ∧ unread (receiver sv'.1) ch' = unread (receiver sv'.1) ch ∧
  delivers (sub_sender sv'.1) rd'.1 ch' ∧ queue_size rd'.1 ch' = queue_size rd'.1 ch ∧
  waiting rd'.1 ch' = waiting rd'.1 ch.
Proof.
  intros Hok (Hr & _ & Hq) Hsv Hrd Hne Hsv' Hrd'.
  assert (receiver sv'.1 ≠ receiver sv.1) as Hr'.
  { intros Heq. apply Hne. eapply NoDup_lookup; [exact (cl_receivers _ _ _ _ _ _ _ Hok)| |].
    - by rewrite list_lookup_fmap, Hsv.
    - rewrite list_lookup_fmap, Hsv'. simpl. by rewrite Heq. }
  assert (rd'.1 ≠ rd.1) as Hq'.
  { intros Heq. apply Hne. eapply NoDup_lookup; [exact (cl_streams _ _ _ _ _ _ _ Hok)| |].
    - by rewrite list_lookup_fmap, Hrd.
    - rewrite list_lookup_fmap, Hrd'. simpl. by rewrite Heq. }
  destruct (client_at _ _ _ _ _ _ _ j Hok) as (sv1 & rd1 & fl & E1 & E2 & _ & Hre & Hde & _).
  { rewrite <- (cl_servers _ _ _ _ _ _ _ Hok). by eapply lookup_lt_Some. }
  simplify_eq. destruct (Hr _ _ Hre Hr') as [? ?]. destruct (Hq _ _ Hde) as (? & ? & Hw).
  split_and!; [done..|]. by apply Hw.
Qed.

Lemma clients_update n s ch ch' rest servers readers flags i sv rd sv' rd' fl' :
  clients_ok n s ch rest servers readers flags →
  leaves (λ r, r = receiver sv.1) (λ q, q = rd.1) ch ch' →
  servers !! i = Some sv → readers !! i = Some rd →
  sv'.1 = sv.1 → rd'.1 = rd.1 → client_ok s ch' rest sv' rd' fl' →
  clients_ok n s ch' rest (<[i := sv']> servers) (<[i := rd']> readers) (<[i := fl']> flags).
Proof.
  intros Hok Hl Hsv Hrd Hs1 Hr1 Hcl. split; rewrite ?length_insert; try by apply Hok.
  - destruct Hl as (_ & Hs & _). destruct (cl_publisher _ _ _ _ _ _ _ Hok) as [Hp Hb].
    destruct (Hs s Hp) as [? ->]. done.
  - rewrite list_fmap_insert, list_insert_id; [by apply Hok|]. rewrite list_lookup_fmap, Hsv.
    simpl. by rewrite Hs1.
  - rewrite list_fmap_insert, list_insert_id; [by apply Hok|]. rewrite list_lookup_fmap, Hrd. simpl. by rewrite Hr1.
  - intros j sv2 rd2 fl2. destruct (decide (i = j)) as [<-|Hne].
    + rewrite !list_lookup_insert_eq; [by intros [= <-] [= <-] [= <-]|..];
        rewrite ?(cl_flags _ _ _ _ _ _ _ Hok), <- ?(cl_servers _ _ _ _ _ _ _ Hok); by eapply lookup_lt_Some.
    + rewrite !list_lookup_insert_ne by done. intros Hsv2 Hrd2 Hfl2.
      destruct (client_apart _ _ _ _ _ _ _ _ _ _ _ _ _ _ Hok Hl Hsv Hrd Hne Hsv2 Hrd2)
        as (? & Hu & ? & Hz & Hw).
      destruct (cl_clients _ _ _ _ _ _ _ Hok _ _ _ _ Hsv2 Hrd2 Hfl2) as (_ & _ & Hz0 & Hcase).
      unfold client_ok. rewrite Hu, Hw, Hz. by split_and!.
Qed.

Lemma load_update n s ch ch' rest servers readers flags i sv rd k :
  clients_ok n s ch rest servers readers flags →
  leaves (λ r, r = receiver sv.1) (λ q, q = rd.1) ch ch' →
  servers !! i = Some sv → readers !! i = Some rd →
  2 * unread (receiver sv.1) ch + waiting rd.1 ch =
    k + (2 * unread (receiver sv.1) ch' + waiting rd.1 ch') →
  load ch (zip (receiver ∘ fst <$> servers) readers.*1) =
    k + load ch' (zip (receiver ∘ fst <$> servers) readers.*1).
Proof.
  intros Hok Hl Hsv Hrd Hk. eapply sum_list_at; [by eapply clients_ends|done|].
  intros j [r q]. rewrite lookup_zip_with, !list_lookup_fmap.
  destruct (servers !! j) as [sv'|] eqn:Hsv'; [|done].
  destruct (readers !! j) as [rd'|] eqn:Hrd'; [|done]. simpl. intros [= <- <-] Hne.
  destruct (client_apart _ _ _ _ _ _ _ _ _ _ _ _ _ _ Hok Hl Hsv Hrd Hne Hsv' Hrd')
    as (_ & -> & _ & _ & ->). done.
Qed.

Lemma ends_insert_server servers readers i (sv : Sub * Z) seq :
  servers !! i = Some sv →
  zip (receiver ∘ fst <$> <[i := (sv.1, seq)]> servers) readers.*1 =
  zip (receiver ∘ fst <$> servers) (readers : list (stream * nat)).*1.
Proof. intros Hi. rewrite list_fmap_insert, list_insert_id; [done|]. by rewrite list_lookup_fmap, Hi. Qed.
Lemma ends_insert_reader servers readers i (rd : stream * nat) count :
  readers !! i = Some rd →
  zip (receiver ∘ fst <$> (servers : list (Sub * Z))) (<[i := (rd.1, count)]> readers).*1 =
  zip (receiver ∘ fst <$> servers) readers.*1.
Proof. intros Hi. rewrite list_fmap_insert, (list_insert_id readers.*1); [done|]. by rewrite list_lookup_fmap, Hi. Qed.

Lemma signals_cons b flags : signals (b :: flags) = Nat.b2n b + signals flags.
Proof. done. Qed.
Lemma signals_insert flags i : flags !! i = Some false → signals (<[i := true]> flags) = S (signals flags).
Proof.
  revert i. induction flags as [|b flags IH]; intros [|i] Hi; try done.
  - injection Hi as ->. done.
  - change (<[S i := true]> (b :: flags)) with (b :: <[i := true]> flags).
    rewrite !signals_cons, (IH i Hi). lia.
Qed.
Lemma signals_le flags : signals flags ≤ length flags.
Proof. induction flags as [|[] flags IH]; [done|..]; rewrite signals_cons; simpl; lia. Qed.
Lemma signals_all flags : length flags ≤ signals flags → flags = replicate (length flags) true.
Proof.
  induction flags as [|b flags IH]; [done|]. rewrite signals_cons. pose proof (signals_le flags).
  destruct b; simpl; [|lia]. intros. f_equal. apply IH. lia.
Qed.

(** *** The polls

    A poll returns, keeps the invariant and leaves less work; a poll that waits has
    nothing to do. *)
Definition polled (it : Iteration) (o : outcome (option Iteration)) (idle : Prop) : Prop :=
  match o with
  | Return (Some it') => (∃ s flags, bench_ok s flags it') ∧ work it' < work it
  | Return None => idle
  | Panic _ => False
  end.

Lemma server_polled s flags it i sv :
  bench_ok s flags it → b_servers (it_bench it) !! i = Some sv →
  polled it (server_poll i it) (unread (receiver sv.1) (channels (b_sut (it_bench it))) = 0).
Proof.
  intros Hok Hsv. pose proof (bo_clients _ _ _ Hok) as Hcl. destruct sv as [sub seq].
  destruct (client_at _ _ _ _ _ _ _ i Hcl) as (sv & rd & fl & Hsv' & Hrd & Hfl & Hre & Hde & Hqs & Hcase).
  { rewrite <- (cl_servers _ _ _ _ _ _ _ Hcl). by eapply lookup_lt_Some. }
  simplify_eq. simpl in *. unfold server_poll. rewrite Hsv.
  set (ch := channels (b_sut (it_bench it))) in *.
  destruct (cl_publisher _ _ _ _ _ _ _ Hcl) as [Hp Hb].
  destruct (decide (unread (receiver sub) ch = 0)) as [Hz|Hz].
  { by rewrite (recv_waits _ _ _ Hre Hp Hz). }
  assert (fl = false) as -> by (destruct fl; [by destruct Hcase|done]).
  destruct Hcase as [Hsum Hlt].
  destruct (recv_event (receiver sub) s ch Hre) as (e & ch1 & -> & Hre1 & Hu1 & Hl1); [lia|].
  cbn [serve_iteration]. unfold add_u64. cbn [mbind outcome_bind].
  assert (∃ seq', (if decide (seq + 1 ≤ U64_MAX)%Z then Return (seq + 1)%Z else Return (wrapping_add seq 1))
    = Return seq') as [seq' ->] by (case_decide; by eexists).
  cbn [mbind outcome_bind].
  pose proof Hl1 as (_ & _ & HQ). destruct (HQ _ _ Hde) as (Hde1 & Hqs1 & Hw1). specialize (Hw1 ltac:(tauto)).
  destruct (try_send_room (sub_sender sub) rd.1 (bench_into_event e seq') ch1 Hde1) as (ch2 & Hts & Hw2 & Hl2);
    [rewrite Hw1, Hqs1; lia|].
  unfold set_channels at 1. cbn [channels]. rewrite Hts. cbn.
  assert (leaves (λ r, r = receiver sub) (λ q, q = rd.1) ch ch2) as Hl.
  { apply (leaves_trans _ _ _ ch1); (eapply leaves_weaken; [..|by (exact Hl1 || exact Hl2)]); by simpl. }
  destruct Hl2 as (HR2 & _ & HQ2). destruct (HR2 _ _ Hre1 ltac:(tauto)) as [Hre2 Hu2].
  destruct (HQ2 _ _ Hde1) as (Hde2 & Hqs2 & _). split.
  - exists s, flags. split; simpl; try by apply Hok.
    rewrite <- (list_insert_id flags i false) by done.
    rewrite <- (list_insert_id (b_readers (it_bench it)) i rd) by done.
    apply (clients_update _ _ ch ch2 _ _ _ _ i (sub, seq) rd); [done..|].
    unfold client_ok. simpl. split_and!; [done|done|congruence|lia|done].
  - unfold work. simpl. unfold ends. fold ch. simpl. rewrite (ends_insert_server _ _ _ (sub, seq)) by done.
    rewrite (load_update _ _ ch ch2 _ _ _ _ i (sub, seq) rd 1 Hcl Hl); [lia|done|done|].
    cbn [fst]. rewrite Hw2, Hw1, Hu2. lia.
Qed.

Lemma reader_polled s flags it i rd :
  bench_ok s flags it → b_readers (it_bench it) !! i = Some rd →
  polled it (reader_poll i it) (waiting rd.1 (channels (b_sut (it_bench it))) = 0).
Proof.
  intros Hok Hrd. pose proof (bo_clients _ _ _ Hok) as Hcl. destruct rd as [q count].
  destruct (client_at _ _ _ _ _ _ _ i Hcl) as (sv & rd & fl & Hsv & Hrd' & Hfl & Hre & Hde & Hqs & Hcase).
  { rewrite <- (cl_readers _ _ _ _ _ _ _ Hcl). by eapply lookup_lt_Some. }
  simplify_eq. simpl in *. unfold reader_poll. rewrite Hrd.
  set (ch := channels (b_sut (it_bench it))) in *.
  destruct (decide (waiting q ch = 0)) as [Hz|Hz]; [by rewrite (next_waits _ _ _ Hde Hz)|].
  assert (fl = false) as -> by (destruct fl; [by destruct Hcase as (_ & ? & _)|done]).
  destruct Hcase as [Hsum Hlt].
  destruct (next_event _ _ ch Hde) as (e & ch1 & -> & Hw1 & Hl1); [lia|].
  assert (leaves (λ r, r = receiver sv.1) (λ q', q' = q) ch ch1) as Hl
    by (by eapply leaves_weaken; [..|exact Hl1]).
  destruct Hl1 as (HR & _ & HQ). destruct (HR _ _ Hre ltac:(tauto)) as [Hre1 Hu1].
  destruct (HQ _ _ Hde) as (Hde1 & Hqs1 & _).
  assert (∀ fl' count', client_ok s ch1 (it_left it) sv (q, count') fl' →
    clients_ok subscribers s ch1 (it_left it) (b_servers (it_bench it))
      (<[i := (q, count')]> (b_readers (it_bench it))) (<[i := fl']> flags)) as Hcl'.
  { intros fl' count' Hc. rewrite <- (list_insert_id (b_servers (it_bench it)) i sv) by done.
    by apply (clients_update _ _ ch ch1 _ _ _ _ i sv (q, count)). }
  assert (∀ b : Bench, channels (b_sut b) = ch1 →
    ends b = ends (it_bench it) → work (mkIteration b (it_receiver it) (it_left it) (it_collect it)) < work it)
    as Hwork.
  { intros b Hb He. unfold work. simpl. rewrite Hb, He. unfold ends. fold ch.
    rewrite (load_update _ _ ch ch1 _ _ _ _ i sv (q, count) 1 Hcl Hl) by (done || simpl; lia). lia. }
  assert (∀ count' sig, ends (mkBench (set_channels (b_sut (it_bench it)) ch1) (b_servers (it_bench it))
    (<[i := (q, count')]> (b_readers (it_bench it))) (b_sender (it_bench it)) sig) =
    ends (it_bench it)) as Hends by (intros; by apply (ends_insert_reader _ _ _ (q, count))).
  destruct (decide (S count = events)) as [Hev|Hev].
  - destruct (send_reaches _ _ tt _ (bo_receiver _ _ _ Hok)) as (n & sig & Hsend & Hre' & Hu').
    pose proof (send_leaves (b_sender (it_bench it)) tt (b_signals (it_bench it))) as (_ & HS & _).
    rewrite Hsend in HS |- *. cbn. split; [|apply Hwork; [done|apply Hends]].
    exists s, (<[i := true]> flags). destruct (bo_done _ _ _ Hok) as [Hd Hbs]. destruct (HS _ Hd).
    split; simpl; [by apply Hok| |done|by rewrite Hbs in *| |by apply Hok].
    + apply Hcl'. unfold client_ok. simpl. split_and!; [done|done|congruence|lia..].
    + rewrite Hu', signals_insert by done. pose proof (bo_signals _ _ _ Hok). lia.
  - cbn. split; [|apply Hwork; [done|apply Hends]].
    exists s, flags. split; simpl; try by apply Hok. rewrite <- (list_insert_id flags i false) by done.
    apply Hcl'. unfold client_ok. simpl. split_and!; [done|done|congruence|lia|lia].
Qed.

Lemma publish_clients n s ch e rest servers readers flags :
  clients_ok n s ch (S rest) servers readers flags →
  let ch' := (broadcast_send s e ch).2 in
  clients_ok n s ch' rest servers readers flags ∧
  load ch' (zip (receiver ∘ fst <$> servers) readers.*1) =
    2 * n + load ch (zip (receiver ∘ fst <$> servers) readers.*1).
Proof.
  intros Hok ch'. pose proof (send_leaves s e ch) as (_ & HS & HQ).
  assert (∀ i sv rd, servers !! i = Some sv → readers !! i = Some rd →
    client_ok s ch' rest sv rd false ∧ flags !! i = Some false ∧
    unread (receiver sv.1) ch' = S (unread (receiver sv.1) ch) ∧ waiting rd.1 ch' = waiting rd.1 ch) as Hnew.
  { intros i sv rd Hsv Hrd.
    destruct (client_at _ _ _ _ _ _ _ i Hok) as (sv1 & rd1 & fl & E1 & E2 & Hfl & Hre & Hde & Hqs & Hcase).
    { rewrite <- (cl_servers _ _ _ _ _ _ _ Hok). by eapply lookup_lt_Some. }
    simplify_eq. destruct fl; [by destruct Hcase as (_ & _ & _ & ?)|]. destruct Hcase as [Hsum Hlt].
    destruct (send_reaches _ _ e _ Hre) as (k & ch1 & Hs & Hre' & Hu).
    assert (ch1 = ch') as -> by (unfold ch'; by rewrite Hs).
    destruct (HQ _ _ Hde) as (Hde' & Hqs' & Hw). specialize (Hw ltac:(tauto)). fold ch' in Hde', Hqs', Hw.
    split_and!; [|done|done|done]. unfold client_ok. rewrite Hu, Hw. split_and!; [done|done|congruence|lia|done]. }
  split.
  - split; try by apply Hok.
    + destruct (cl_publisher _ _ _ _ _ _ _ Hok) as [Hp <-]. by apply HS.
    + intros i sv rd fl Hsv Hrd Hfl. destruct (Hnew i sv rd Hsv Hrd) as (? & ? & _). by simplify_eq.
  - unfold load. rewrite (sum_list_shift (λ x, 2 * unread x.1 ch + waiting x.2 ch) _ _ 2).
    + rewrite length_zip_with, !length_fmap, (cl_servers _ _ _ _ _ _ _ Hok), (cl_readers _ _ _ _ _ _ _ Hok). lia.
    + intros [r q] Hin. apply list_elem_of_lookup in Hin as [i Hi].
      rewrite lookup_zip_with, !list_lookup_fmap in Hi.
      destruct (servers !! i) as [sv|] eqn:Hsv; [|done]. destruct (readers !! i) as [rd|] eqn:Hrd; [|done].
      simpl in Hi. simplify_eq. destruct (Hnew i sv rd Hsv Hrd) as (_ & _ & Hu & Hw). simpl. rewrite Hu, Hw. lia.
Qed.

Lemma main_polled s flags it :
  bench_ok s flags it →
  polled it (bench_function it) (it_left it = 0 ∧
    (0 < it_collect it → unread (it_receiver it) (b_signals (it_bench it)) = 0)).
Proof.
  intros Hok. unfold bench_function. destruct (it_left it) as [|rest] eqn:Hleft.
  - destruct (it_collect it) as [|k] eqn:Hc; [by split; [|lia]|].
    destruct (bo_done _ _ _ Hok) as [Hd Hbs]. pose proof (bo_receiver _ _ _ Hok) as Hre.
    destruct (decide (unread (it_receiver it) (b_signals (it_bench it)) = 0)) as [Hz|Hz].
    { by rewrite (recv_waits _ _ _ Hre Hd Hz). }
    pose proof (bo_signals _ _ _ Hok) as Hs. pose proof (signals_le flags) as Hle.
    rewrite (cl_flags _ _ _ _ _ _ _ (bo_clients _ _ _ Hok)) in Hle.
    pose proof (bo_collect _ _ _ Hok) as Hcol. rewrite Hc in *.
    destruct (recv_event _ _ _ Hre) as (e & sig & -> & Hre' & Hu' & _ & HS & _); [lia|].
    destruct (HS _ Hd). split; [|unfold work, ends; simpl; rewrite Hc, Hleft; lia].
    exists s, flags. split; simpl; [by apply Hok| |done|by rewrite Hbs in *|lia|lia].
    rewrite <- Hleft. apply Hok.
  - unfold publish. rewrite (bo_sender _ _ _ Hok).
    pose proof (bo_clients _ _ _ Hok) as Hcl. rewrite Hleft in Hcl.
    destruct (publish_clients _ _ _ (mkBenchEvent BENCH_EVENT_ID (Z.of_nat (events - S rest)) BENCH_DATA1)
      _ _ _ _ Hcl) as [Hcl' Hload].
    destruct (broadcast_send s _ _) as [res ch'] eqn:Hsend. simpl in Hcl', Hload. split.
    + exists s, flags. split; simpl; try by apply Hok. done.
    + unfold work. simpl. rewrite Hleft. unfold ends in *. simpl. rewrite Hload. lia.
Qed.

(** *** The setup *)
Context `{!ChannelLaws BenchEvent BenchEvent, !ChannelLaws unit unit}.

Lemma bench_client_inj i j : bench_client i = bench_client j → i = j.
Proof. intros Heq. apply string_app_inj_l in Heq. by apply (inj pretty) in Heq. Qed.

(** Subscribing to a publisher: a receiver with nothing to read. *)
Lemma subscribe_task s ch r ch1 tok ch2 tx :
  is_sender s ch → broadcast_subscribe s ch = (r, ch1) → token_new ch1 = (tok, ch2) →
  let ch' := clone_msender tx ch2 in
  leaves (λ _, False) (λ _, False) ch ch' ∧ receives r s ch' ∧ unread r ch' = 0 ∧
  (∀ r' s', receives r' s' ch → r' ≠ r).
Proof.
  intros Hs Hsub Htok ch'. destruct (subscribe_empty _ _ _ _ Hsub Hs) as (Hl & Hr & Hu & Hf).
  pose proof (token_leaves ch1) as Hl2. rewrite Htok in Hl2. simpl in Hl2.
  pose proof (leaves_trans _ _ _ _ _ Hl2 (clone_leaves tx ch2)) as Hl3.
  pose proof Hl3 as (HR & _ & _). destruct (HR _ _ Hr ltac:(tauto)) as [? ?].
  split_and!; [by eapply leaves_trans|done|unfold ch'; congruence|done].
Qed.

(** The first subscription makes the publisher, the others find it. *)
Lemma register_one cid tx (e : Ess) :
  client_by_id e !! cid = Some (mkClient tx ∅) → ess_config e = bench_config events →
  (∀ s, sender_by_event_id e !! BENCH_EVENT_ID = Some s → is_sender s (channels e)) →
  ∃ s r tok ch0 ch' clients',
    register_subscriptions cid [BENCH_EVENT_ID] e =
      Return (Ok [mkSubscription (mkSubscriptionId cid BENCH_EVENT_ID) tok r tx],
              mkEss (ess_config e) (<[BENCH_EVENT_ID := s]> (sender_by_event_id e))
                (<[cid := clients']> (client_by_id e)) ch') ∧
    match sender_by_event_id e !! BENCH_EVENT_ID with
    | Some s' => s' = s ∧ ch0 = channels e
    | None => buffer_size s ch0 = events ∧ leaves (λ _, True) (λ _, False) (channels e) ch0
    end ∧
    is_sender s ch0 ∧ leaves (λ _, False) (λ _, False) ch0 ch' ∧
    receives r s ch' ∧ unread r ch' = 0 ∧ (∀ r' s', receives r' s' ch0 → r' ≠ r).
Proof.
  intros Hc Hcfg Hsend. unfold register_subscriptions. rewrite Hc. cbn [for_each register_step subscriptions].
  rewrite lookup_empty. destruct (sender_by_event_id e !! BENCH_EVENT_ID) as [s|] eqn:Hs; cbn [mbind outcome_bind].
  - destruct (broadcast_subscribe s (channels e)) as [r ch1] eqn:Hsub.
    destruct (token_new ch1) as [tok ch2] eqn:Htok. cbn.
    destruct (subscribe_task s _ r ch1 tok ch2 tx (Hsend s eq_refl) Hsub Htok) as (? & ? & ? & ?).
    exists s, r, tok, (channels e). do 2 eexists. split; [|by split_and!; [..|by apply Hsend| | | |]].
    rewrite (insert_id _ _ _ Hs). reflexivity.
  - rewrite Hcfg. destruct (is_return_inv (broadcast_channel events (channels e))) as [[[s rx] ch0] Hch].
    { by apply broadcast_channel_total. }
    simpl. rewrite Hch. cbn [mbind outcome_bind].
    destruct (channel_empty _ _ _ _ _ Hch) as (Hl & Hp & Hb & _).
    pose proof (drop_leaves rx ch0) as Hd. pose proof Hd as (_ & HS & _). destruct (HS s Hp) as [Hp' Hb'].
    destruct (broadcast_subscribe s (drop_receiver rx ch0)) as [r ch1] eqn:Hsub.
    destruct (token_new ch1) as [tok ch2] eqn:Htok. cbn.
    destruct (subscribe_task s _ r ch1 tok ch2 tx Hp' Hsub Htok) as (? & ? & ? & ?).
    exists s, r, tok, (drop_receiver rx ch0). do 2 eexists.
    split; [reflexivity|]. split_and!; [congruence| |done..].
    eapply leaves_trans; (eapply leaves_weaken; [..|by (exact Hl || exact Hd)]); by simpl.
Qed.

(** The state between iterations: [n] clients are served and idle. *)
Record setup_ok (n : nat) (b : Bench) : Prop := {
  su_config : ess_config (b_sut b) = bench_config events;
  su_fresh i : n ≤ i → client_by_id (b_sut b) !! bench_client i = None;
  su_clients :
    match sender_by_event_id (b_sut b) !! BENCH_EVENT_ID with
    | Some s => clients_ok n s (channels (b_sut b)) 0 (b_servers b) (b_readers b) (replicate n true)
    | None => n = 0 ∧ b_servers b = [] ∧ b_readers b = []
    end;
  su_signals : is_sender (b_sender b) (b_signals b) ∧ buffer_size (b_sender b) (b_signals b) = subscribers
}.

Lemma clients_none s ch : is_sender s ch → buffer_size s ch = events → clients_ok 0 s ch 0 [] [] [].
Proof. intros. split; [done..|constructor|constructor|done]. Qed.

Lemma clients_leaves n s ch ch' rest servers readers flags :
  leaves (λ _, False) (λ _, False) ch ch' →
  clients_ok n s ch rest servers readers flags → clients_ok n s ch' rest servers readers flags.
Proof.
  intros (HR & HS & HQ) Hok. split; try by apply Hok.
  - destruct (cl_publisher _ _ _ _ _ _ _ Hok) as [Hp <-]. by apply HS.
  - intros i sv rd fl Hsv Hrd Hfl. destruct (cl_clients _ _ _ _ _ _ _ Hok _ _ _ _ Hsv Hrd Hfl) as (Hr & Hd & Hq & Hc).
    destruct (HR _ _ Hr ltac:(tauto)) as [? Hu]. destruct (HQ _ _ Hd) as (? & Hq' & Hw).
    specialize (Hw ltac:(tauto)). unfold client_ok. rewrite Hu, Hw, Hq'. by split_and!.
Qed.

Lemma clients_extend n s ch servers readers sv rd :
  clients_ok n s ch 0 servers readers (replicate n true) → client_ok s ch 0 sv rd true →
  receiver sv.1 ∉ receiver ∘ fst <$> servers → rd.1 ∉ readers.*1 →
  clients_ok (S n) s ch 0 (servers ++ [sv]) (readers ++ [rd]) (replicate (S n) true).
Proof.
  intros Hok Hcl Hr Hq. pose proof (cl_servers _ _ _ _ _ _ _ Hok) as Hls. pose proof (cl_readers _ _ _ _ _ _ _ Hok) as Hlr.
  split.
  - by apply Hok.
  - rewrite length_app. simpl. lia.
  - rewrite length_app. simpl. lia.
  - by rewrite length_replicate.
  - rewrite fmap_app. apply NoDup_app. split_and!; [by apply Hok| |apply NoDup_singleton].
    by intros x Hx ->%list_elem_of_singleton.
  - rewrite fmap_app. apply NoDup_app. split_and!; [by apply Hok| |apply NoDup_singleton].
    by intros x Hx ->%list_elem_of_singleton.
  - intros i sv' rd' fl [Hsv|[Hi Hsv]]%lookup_app_Some [Hrd|[Hi' Hrd]]%lookup_app_Some Hfl%lookup_replicate.
    + destruct Hfl as [-> _]. eapply cl_clients; [exact Hok|done|done|]. apply lookup_replicate.
      split; [done|]. rewrite <- Hls. by eapply lookup_lt_Some.
    + apply lookup_lt_Some in Hsv. lia.
    + apply lookup_lt_Some in Hrd. lia.
    + apply list_lookup_singleton_Some in Hsv as [_ <-], Hrd as [_ <-]. by destruct Hfl as [-> _].
Qed.

Lemma add_subscriber_ok n b :
  setup_ok n b → ∃ b', add_subscriber b n = Return b' ∧ setup_ok (S n) b'.
Proof.
  intros [Hcfg Hfresh Hcl Hsig]. unfold add_subscriber, read_events. rewrite Hcfg, Hfresh by done.
  destruct (is_return_inv (mpsc_channel events (channels (b_sut b)))) as [[[tx q] ch1] Hm].
  { by apply mpsc_channel_total. }
  simpl. rewrite Hm. cbn [mbind outcome_bind].
  destruct (mpsc_empty _ _ _ _ _ Hm) as (Hl1 & Hd1 & Hw1 & Hq1 & Hqf).
  edestruct (register_one (bench_client n) tx (mkEss (bench_config events) (sender_by_event_id (b_sut b))
    (<[bench_client n := mkClient tx ∅]> (client_by_id (b_sut b))) ch1))
    as (s & r & tok & ch0 & ch' & c' & Hreg & Hpub & Hp & Hl & Hr & Hu & Hrf).
  { apply lookup_insert_eq. }
  { done. }
  { simpl. intros s Hs. rewrite Hs in Hcl. destruct (cl_publisher _ _ _ _ _ _ _ Hcl) as [Hp _].
    destruct Hl1 as (_ & HS & _). by apply HS. }
  simpl in Hpub. rewrite Hreg. cbn. eexists. split; [reflexivity|]. split; simpl; [done| | |done].
  { intros i Hi. rewrite insert_insert_eq, lookup_insert_ne.
    - apply Hfresh. lia.
    - intros Heq%bench_client_inj. lia. }
  rewrite lookup_insert_eq.
  set (sv := (mkSubscription (mkSubscriptionId (bench_client n) BENCH_EVENT_ID) tok r tx, 0%Z)).
  assert (∀ servers readers, clients_ok n s ch0 0 servers readers (replicate n true) →
    delivers tx q ch0 ∧ waiting q ch0 = 0 ∧ queue_size q ch0 = events → q ∉ readers.*1 →
    clients_ok (S n) s ch' 0 (servers ++ [sv]) (readers ++ [(q, 0)]) (replicate (S n) true)) as Hgo.
  { intros servers readers Hok (Hd & Hw & Hq) Hqn. pose proof Hl as (_ & _ & HQ).
    destruct (HQ _ _ Hd) as (? & ? & Hw'). specialize (Hw' ltac:(tauto)).
    apply clients_extend; [by eapply clients_leaves| | |done].
    - unfold client_ok. simpl. split_and!; [done|done|congruence|done|congruence|done|done].
    - intros (x & Hx & Hin)%list_elem_of_fmap. apply list_elem_of_lookup in Hin as [i Hi].
      destruct (client_at _ _ _ _ _ _ _ i Hok) as (sv1 & ? & ? & ? & _ & _ & Hre & _).
      { rewrite <- (cl_servers _ _ _ _ _ _ _ Hok). by eapply lookup_lt_Some. }
      simplify_eq. by apply (Hrf _ _ Hre). }
  destruct (sender_by_event_id (b_sut b) !! BENCH_EVENT_ID) as [s0|].
  - destruct Hpub as [-> ->]. apply Hgo; [by eapply clients_leaves|by split_and!|].
    intros (x & Hx & Hin)%list_elem_of_fmap. apply list_elem_of_lookup in Hin as [i Hi].
    destruct (client_at _ _ _ _ _ _ _ i Hcl) as (? & rd & ? & _ & ? & _ & _ & Hde & _).
    { rewrite <- (cl_readers _ _ _ _ _ _ _ Hcl). by eapply lookup_lt_Some. }
    simplify_eq. by apply (Hqf _ _ Hde).
  - destruct Hcl as (-> & -> & ->). destruct Hpub as [Hb (_ & _ & HQ)].
    destruct (HQ _ _ Hd1) as (? & ? & Hw). specialize (Hw ltac:(tauto)).
    apply (Hgo [] []); [by apply clients_none|split_and!; [done|congruence..]|apply not_elem_of_nil].
Qed.

Lemma bench_start_ok ch sig : ∃ b, bench_start setup ch sig = Return b ∧ setup_ok subscribers b.
Proof.
  unfold bench_start.
  destruct (is_return_inv (broadcast_channel subscribers sig)) as [[[s rx] sig1] Hch].
  { by apply broadcast_channel_total. }
  rewrite Hch. cbn [mbind outcome_bind]. destruct (channel_empty _ _ _ _ _ Hch) as (_ & Hp & Hb & _).
  pose proof (drop_leaves rx sig1) as (_ & HS & _). destruct (HS s Hp) as [Hp' Hb'].
  set (b0 := mkBench _ _ _ _ _).
  assert (∀ k n b, setup_ok n b → ∃ b', for_each add_subscriber b (seq n k) = Return b' ∧ setup_ok (n + k) b') as Hloop.
  { intros k. induction k as [|k IH]; intros n b Hb0; simpl; [exists b; by rewrite Nat.add_0_r|].
    destruct (add_subscriber_ok n b Hb0) as (b1 & -> & Hb1). cbn [mbind outcome_bind].
    rewrite <- Nat.add_succ_comm. by apply IH. }
  apply (Hloop subscribers 0 b0). split; simpl; [done|done| |].
  - by rewrite lookup_empty.
  - split; [done|congruence].
Qed.

(** *** Iterations *)

(** Every client is served and has nothing to do. *)
Definition bench_idle (b : Bench) : Prop :=
  (∃ s, sender_by_event_id (b_sut b) !! BENCH_EVENT_ID = Some s ∧
     clients_ok subscribers s (channels (b_sut b)) 0 (b_servers b) (b_readers b)
       (replicate subscribers true)) ∧
  is_sender (b_sender b) (b_signals b) ∧ buffer_size (b_sender b) (b_signals b) = subscribers.

Lemma setup_idle b : setup_ok subscribers b → bench_idle b.
Proof.
  intros [_ _ Hcl Hsig]. split; [|done].
  destruct (sender_by_event_id (b_sut b) !! BENCH_EVENT_ID) as [s|]; [by exists s|lia].
Qed.

Lemma start_iteration_ok b : bench_idle b → ∃ s flags, bench_ok s flags (start_iteration b).
Proof.
  intros [(s & Hs & Hcl) [Hd Hb]]. unfold start_iteration.
  destruct (broadcast_subscribe (b_sender b) (b_signals b)) as [rx sig] eqn:Hsub.
  destruct (subscribe_empty _ _ _ _ Hsub Hd) as ((_ & HS & _) & Hr & Hu & _).
  destruct (HS _ Hd) as [Hd' Hb'].
  exists s, (replicate subscribers false). split; simpl; [done| |done|split; [done|congruence]| |done].
  - split; rewrite ?length_replicate; try done; try by apply Hcl.
    intros i sv rd fl Hsv Hrd [-> Hi]%lookup_replicate.
    destruct (cl_clients _ _ _ _ _ _ _ Hcl i sv rd true Hsv Hrd) as (? & ? & ? & Hu' & Hw & Hc & _).
    { by apply lookup_replicate. }
    unfold client_ok. rewrite Hu', Hw, Hc. split_and!; [done..|lia].
  - rewrite Hu. unfold signals. assert (∀ k, sum_list (Nat.b2n <$> replicate k false) = 0) as ->; [|lia].
    intros k. rewrite fmap_replicate. by induction k.
Qed.

(** An iteration that is complete leaves every client idle. *)
Lemma end_iteration_ok s flags it :
  bench_ok s flags it → it_left it = 0 → it_collect it = 0 → bench_idle (end_iteration it).
Proof.
  intros Hok Hleft Hc. pose proof (bo_signals _ _ _ Hok) as Hs. rewrite Hc in Hs.
  pose proof (bo_clients _ _ _ Hok) as Hcl. pose proof (cl_flags _ _ _ _ _ _ _ Hcl) as Hlen.
  assert (flags = replicate subscribers true) as -> by (rewrite <- Hlen; apply signals_all; lia).
  rewrite Hleft in Hcl. destruct (bo_done _ _ _ Hok) as [Hd Hb].
  pose proof (drop_leaves (it_receiver it) (b_signals (it_bench it))) as (_ & HS & _).
  destruct (HS _ Hd). split; [exists s; split; [by apply Hok|done]|]. split; [done|]. simpl. congruence.
Qed.

Lemma bench_step_ok s flags it it' :
  bench_ok s flags it → bench_step it it' → (∃ s flags, bench_ok s flags it') ∧ work it' < work it.
Proof.
  intros Hok [[|i|i] Hp]; simpl in Hp.
  - pose proof (main_polled _ _ _ Hok) as Hm. by rewrite Hp in Hm.
  - destruct (b_servers (it_bench it) !! i) as [sv|] eqn:Hsv.
    + pose proof (server_polled _ _ _ _ _ Hok Hsv) as Hm. by rewrite Hp in Hm.
    + unfold server_poll in Hp. by rewrite Hsv in Hp.
  - destruct (b_readers (it_bench it) !! i) as [rd|] eqn:Hrd.
    + pose proof (reader_polled _ _ _ _ _ Hok Hrd) as Hm. by rewrite Hp in Hm.
    + unfold reader_poll in Hp. by rewrite Hrd in Hp.
Qed.

Lemma bench_returns s flags it a : bench_ok s flags it → ∃ o, bench_poll a it = Return o.
Proof.
  intros Hok. destruct a as [|i|i]; simpl.
  - pose proof (main_polled _ _ _ Hok) as Hm. destruct (bench_function it); [by eexists|done].
  - destruct (b_servers (it_bench it) !! i) as [sv|] eqn:Hsv.
    + pose proof (server_polled _ _ _ _ _ Hok Hsv) as Hm. destruct (server_poll i it); [by eexists|done].
    + unfold server_poll. rewrite Hsv. by eexists.
  - destruct (b_readers (it_bench it) !! i) as [rd|] eqn:Hrd.
    + pose proof (reader_polled _ _ _ _ _ Hok Hrd) as Hm. destruct (reader_poll i it); [by eexists|done].
    + unfold reader_poll. rewrite Hrd. by eexists.
Qed.

Lemma bench_stops s flags it :
  bench_ok s flags it → nf bench_step it → it_left it = 0 ∧ it_collect it = 0.
Proof.
  intros Hok Hnf.
  assert (∀ a o, bench_poll a it = Return o → o = None) as Hnone.
  { intros a [it'|] Hp; [|done]. destruct Hnf. exists it'. by exists a. }
  pose proof (main_polled _ _ _ Hok) as Hm. destruct (bench_returns _ _ _ Main Hok) as [o Ho].
  rewrite (Hnone _ _ Ho) in Ho. simpl in Ho. rewrite Ho in Hm. destruct Hm as [Hleft Hcol].
  split; [done|]. destruct (it_collect it) as [|k] eqn:Hc; [done|exfalso]. specialize (Hcol ltac:(lia)).
  pose proof (bo_clients _ _ _ Hok) as Hcl. pose proof (bo_signals _ _ _ Hok) as Hs.
  pose proof (cl_flags _ _ _ _ _ _ _ Hcl) as Hlen.
  assert (flags = replicate subscribers true) as ->.
  { apply list_eq_same_length with subscribers; [by rewrite length_replicate|done|].
    intros i fl1 fl2 Hi Hfl [-> _]%lookup_replicate.
    destruct (client_at _ _ _ _ _ _ _ i Hcl Hi) as (sv & rd & fl & Hsv & Hrd & Hfl' & _ & _ & _ & Hcase).
    simplify_eq. destruct fl1; [done|exfalso].
    pose proof (server_polled _ _ _ _ _ Hok Hsv) as Hu. destruct (bench_returns _ _ _ (Server i) Hok) as [o1 Ho1].
    rewrite (Hnone _ _ Ho1) in Ho1. simpl in Ho1. rewrite Ho1 in Hu. simpl in Hu.
    pose proof (reader_polled _ _ _ _ _ Hok Hrd) as Hw. destruct (bench_returns _ _ _ (Reader i) Hok) as [o2 Ho2].
    rewrite (Hnone _ _ Ho2) in Ho2. simpl in Ho2. rewrite Ho2 in Hw. simpl in Hw.
    rewrite Hu, Hw, Hleft in Hcase. lia. }
  assert (∀ k, signals (replicate k true) = k) as Hall.
  { intros j. induction j as [|j IH]; [done|]. simpl. rewrite signals_cons, IH. done. }
  rewrite Hall, Hc, Hcol in Hs. lia.
Qed.

Lemma bench_reachable_ok ch sig it : bench_reachable ch sig it → ∃ s flags, bench_ok s flags it.
Proof.
  induction 1 as [b Hb|it it' _ (s & flags & Hok) Hst|it _ (s & flags & Hok) Hleft Hc].
  - destruct (bench_start_ok ch sig) as (b' & Hb' & Hs). rewrite Hb in Hb'. injection Hb' as <-.
    apply start_iteration_ok. by apply setup_idle.
  - by destruct (bench_step_ok _ _ _ _ Hok Hst).
  - apply start_iteration_ok. by eapply end_iteration_ok.
Qed.

(** C39: The benchmark measures complete iterations.  With buffers as large as the number
    of events, its setup succeeds; and however the publishing, the tasks that serve
    the subscriptions and the readers are scheduled, in every iteration nothing
    panics, at most [work] polls are left, and when nothing can go on the iteration has
    published all its events and received the signal of every subscriber: no event
    was lost. *)
Theorem benchmark_iterations_complete ch sig :
  (∃ b, bench_start setup ch sig = Return b) ∧
  ∀ it, bench_reachable ch sig it →
    (∀ a, ∃ o, bench_poll a it = Return o) ∧
    (∀ k it', nsteps bench_step k it it' → k ≤ work it) ∧
    (nf bench_step it → it_left it = 0 ∧ it_collect it = 0).
Proof.
  split; [destruct (bench_start_ok ch sig) as (b & ? & _); by exists b|].
  intros it (s & flags & Hok)%bench_reachable_ok. split_and!.
  - intros a. by eapply bench_returns.
  - intros k it' Hk. revert s flags Hok.
    induction Hk as [it|k it1 it2 it3 H12 _ IH]; intros s flags Hok; [lia|].
    destruct (bench_step_ok _ _ _ _ Hok H12) as [(s' & flags' & Hok2) Hlt]. specialize (IH _ _ Hok2). lia.
  - by eapply bench_stops.
Qed.
End setup.
End bench.

(** ** A small setup *)
Module BenchWitnesses.
#[local] Existing Instance canonical_order.
#[local] Instance event_channels : Channels BenchEvent BenchEvent := sample_channels _ _.
#[local] Instance event_view : RuntimeView BenchEvent BenchEvent := sample_view _ _.
#[local] Instance event_unread : Unread BenchEvent BenchEvent := sample_unread _ _.
#[local] Instance event_buffers : Buffers BenchEvent BenchEvent := sample_buffers _ _.
#[local] Instance signal_channels : Channels unit unit := sample_channels _ _.
#[local] Instance signal_view : RuntimeView unit unit := sample_view _ _.
#[local] Instance signal_unread : Unread unit unit := sample_unread _ _.
#[local] Instance signal_buffers : Buffers unit unit := sample_buffers _ _.

Definition small : FunctionSetup := mkFunctionSetup 3 2.
Definition no_events : @chans BenchEvent BenchEvent _ := empty_store BenchEvent BenchEvent.
Definition no_signals : @chans unit unit _ := empty_store unit unit.

(** A run: an actor of the list is polled if it can go on. *)
Definition run (actors : list Actor) (it : Iteration) : Iteration :=
  foldl (λ it a, match bench_poll small a it with Return (Some it') => it' | _ => it end) it actors.
Definition round : list Actor := [Main; Server 1; Server 0; Reader 0; Reader 1].
Definition idle_bench : option Bench :=
  match bench_start small no_events no_signals with Return b => Some b | Panic _ => None end.

(** Two iterations complete, with a full round of polls for each event. *)
Example two_iterations :
  (λ b, let it := run (mjoin (replicate 5 round)) (start_iteration small b) in
        let it2 := run (mjoin (replicate 5 round)) (start_iteration small (end_iteration it)) in
        (it_left it, it_collect it, it_left it2, it_collect it2, it_left (run [Main] it2)))
    <$> idle_bench = Some (0, 0, 0, 0, 0).
Proof. vm_compute. reflexivity. Qed.
Example setup_names : FunctionSetup_display small = "2-subscribers/3-events".
Proof. vm_compute. reflexivity. Qed.

Lemma benchmark_iterations_complete_witness :
  ∃ b, bench_start small no_events no_signals = Return b ∧
    ∀ k it', nsteps (bench_step small) k (start_iteration small b) it' → k ≤ work small (start_iteration small b).
Proof.
  destruct (benchmark_iterations_complete small ltac:(simpl; lia) ltac:(simpl; lia) no_events no_signals)
    as [[b Hb] Hall].
  exists b. split; [exact Hb|]. apply (Hall (start_iteration small b)). by apply bench_first.
Defined.
End BenchWitnesses.
