(* ===== verification/StreamingEss.v ===== *)
(** * Streaming of events to gRPC clients

    [intent_brokering/common/src/streaming_ess.rs], which ties the event
    sub-system to the gRPC streaming contract, and the [Observer] instance of
    [intent_brokering/src/registry.rs] through which the registry publishes the
    namespaces that gain or lose an intent. *)

From S2P Require Import Prelude RustStd Common Proto Registry Ess.

Section streaming.
Context {T : Type}.
Context `{!HashOrder} `{!Channels T (result Event Status)}.

(** A task spawned by [serve_subscriptions]: the subscription it serves and what
    its closure captures. *)
Record Task := mkTask {
  task_subscription : @Subscription string string T (result Event Status) _;
  task_source : string;
  task_into_value : T → ValueEnum
}.

(** What a [StreamingEss] refers to (a clone is a reference to the same
    instance), with the tasks spawned on the runtime so far. *)
Record StreamingEss := mkStreamingEss {
  ess : @EventSubSystem string string T (result Event Status) _ _ _ _ _;
  tasks : list Task
}.

Definition StreamingEss_new (ch : chans) : StreamingEss := mkStreamingEss (Ess_new ch) [].

(** The closure a task is served with.  [now seq] is what [SystemTime::now]
    answers when the event numbered [seq] is delivered. *)
Definition into_event (now : Z → Timestamp) (t : Task) (data : T) (seq : Z)
    : result Event Status :=
  Ok (mkEvent (task_source t)
        (Some (mkValueMessage (Some (task_into_value t data)))) seq (Some (now seq))).

Definition serve_subscriptions (subscribe_intent : SubscribeIntent) (into_value : T → ValueEnum)
    (s : StreamingEss) : outcome (result SubscribeFulfillment Status * StreamingEss) :=
  '(registered, e) ←
    register_subscriptions (channel_id subscribe_intent) (sources subscribe_intent) (ess s);
  match registered with
  | Err _ =>
      Return (Err (mkStatus FailedPrecondition "The specified client does not exist."),
              mkStreamingEss e (tasks s))
  | Ok subscriptions =>
      Return (Ok mkSubscribeFulfillment,
              mkStreamingEss e (tasks s ++
                ((λ sub, mkTask sub (event_id (sub_id sub)) into_value) <$> subscriptions)))
  end.

(** A spawned task runs [serve] with its closure. *)
Definition run_task (overflow_checks : bool) (now : Z → Timestamp) (t : Task)
    (inputs : list (@Selected T * (_ → _)))
    (e : @EventSubSystem string string T (result Event Status) _ _ _ _ _)
    (log : list LogEntry) : outcome (bool * Z * _ * list LogEntry) :=
  serve overflow_checks (task_subscription t) (into_event now t) inputs e log.

Definition METADATA_KEY : string := "x-chariott-channel-id".

(** The response of [open]: the event stream and the response metadata. *)
Record OpenResponse := mkOpenResponse {
  open_stream : mreceiver;
  open_metadata : list (string * string)
}.

(** [id] is the new random UUID as a string; [metadata_value] is the conversion
    of a string to a metadata value. *)
Definition open (metadata_value : string → option string) (id : string) (s : StreamingEss)
    : outcome (result OpenResponse Status * StreamingEss) :=
  '(_, receiver_stream, e) ← read_events id (ess s);
  v ← unwrap_option (metadata_value id);
  Return (Ok (mkOpenResponse receiver_stream [(METADATA_KEY, v)]), mkStreamingEss e (tasks s)).
End streaming.

(** ** The registry's observer

    [StreamingEss = StreamingEss<()>] in the broker: events carry no payload. *)
Section observer.
Context `{!UrlLib, !HashOrder} `{!Channels unit (result Event Status)}.

Definition changed_namespace (c : Change) : option string :=
  match c with
  | Add ic _ => Some (namespace ic)
  | Modify _ _ => None
  | Remove ic => Some (namespace ic)
  end.

Definition namespace_event (ns : string) : string := "namespaces/" +:+ ns.

Definition streaming_on_change (changes : list Change) (s : StreamingEss (T := unit))
    : StreamingEss (T := unit) :=
  foldl (λ s ns, mkStreamingEss (publish (namespace_event ns) tt (ess s)).2 (tasks s)) s
    (set_iter (list_to_set (omap changed_namespace changes) : gset string)).
End observer.
