(* ===== verification/StreamingRuntime.v ===== *)
(** * A streaming sub-system with its tasks running

    [EssRuntime] for the sub-system of [streaming_ess.rs], whose [serve_subscriptions]
    spawns the tasks: what each operation spawns, that it keeps the running system
    well-formed, and what a task has to read after an event is published. *)

From S2P Require Import Prelude RustStd Common Proto Ess EssFacts EssRuntime StreamingEss.

Section streaming.
Context {T : Type} `{!HashOrder}.
Context `{RuntimeView T (result Event Status)} `{!RuntimeLaws T (result Event Status)}.
#[local] Abbreviation Streaming := (StreamingEss (T := T)).
#[local] Abbreviation Sub := (@Subscription string string T (result Event Status) _).
#[local] Abbreviation handlers := (@log_handlers string string (result Event Status)).

Definition streaming_wf (s : Streaming) (live : list Sub) : Prop := rt_ok (mkRuntime (ess s) live).

(** From [s] to [s'] tasks may have been spawned, and whoever was served still is. *)
Definition serves_on (s s' : Streaming) : Prop :=
  ∃ new, tasks s' = tasks s ++ new ∧
    ∀ live, streaming_wf s live → streaming_wf s' (live ++ (task_subscription <$> new)).

Lemma serves_on_refl s : serves_on s s.
Proof. exists []. split; [by rewrite app_nil_r|]. intros live. by rewrite app_nil_r. Qed.

Lemma serves_on_trans s1 s2 s3 : serves_on s1 s2 → serves_on s2 s3 → serves_on s1 s3.
Proof.
  intros (n1 & Ht1 & Hw1) (n2 & Ht2 & Hw2). exists (n1 ++ n2). split.
  - by rewrite Ht2, Ht1, (assoc (++)).
  - intros live Hwf. rewrite fmap_app, (assoc (++)). by apply Hw2, Hw1.
Qed.

(** A step of the event sub-system that spawns [new]. *)
Lemma serves_on_step (s : Streaming) e' new :
  (∀ live, rt_step true handlers (mkRuntime (ess s) live)
             (mkRuntime e' (live ++ (task_subscription <$> new)))) →
  serves_on s (mkStreamingEss e' (tasks s ++ new)).
Proof.
  intros Hst. exists new. split; [done|]. intros live Hwf.
  by destruct (rt_step_ok true handlers _ _ Hwf (Hst live)).
Qed.

(** A step that spawns nothing. *)
Lemma serves_on_quiet (s : Streaming) e' :
  (∀ live, rt_step true handlers (mkRuntime (ess s) live) (mkRuntime e' live)) →
  serves_on s (mkStreamingEss e' (tasks s)).
Proof.
  intros Hst. pose proof (serves_on_step s e' []) as Hgo. rewrite app_nil_r in Hgo.
  apply Hgo. intros live. simpl. by rewrite app_nil_r.
Qed.

Lemma publish_serves ev_id ev (s : Streaming) :
  serves_on s (mkStreamingEss (publish ev_id ev (ess s)).2 (tasks s)).
Proof.
  apply serves_on_quiet. intros live. eapply rt_publish. by apply surjective_pairing.
Qed.

Lemma serve_subscriptions_serves i f (s : Streaming) res s' :
  serve_subscriptions i f s = Return (res, s') → serves_on s s'.
Proof.
  unfold serve_subscriptions.
  destruct (register_subscriptions _ _ _) as [[reg e]|] eqn:E; [|done]. cbn [mbind outcome_bind].
  destruct reg as [subs|err]; intros [= _ <-].
  - apply serves_on_step. intros live. rewrite <- list_fmap_compose. simpl.
    rewrite list_fmap_id. by eapply (rt_register _ _ _ _ (Ok subs)).
  - apply serves_on_quiet. intros live. rewrite <- (app_nil_r live) at 2.
    by eapply (rt_register _ _ _ _ (Err err)).
Qed.

Lemma open_serves mv id (s : Streaming) res s' :
  open mv id s = Return (res, s') → serves_on s s'.
Proof.
  unfold open. destruct (read_events id (ess s)) as [[[up rx] e]|] eqn:E; [|done].
  cbn [mbind outcome_bind]. destruct (unwrap_option _); [|done]. intros [= _ <-].
  apply serves_on_quiet. intros live. by eapply rt_read.
Qed.

(** ** What a task has to read *)
Context `{!Unread T (result Event Status)} `{!DeliveryLaws T (result Event Status)}.

Lemma publish_unread e ev (s : Streaming) live t :
  streaming_wf s live → t ∈ live →
  unread (receiver t) (channels (publish e ev (ess s)).2) =
    (if decide (event_id (sub_id t) = e) then 1 else 0) + unread (receiver t) (channels (ess s)).
Proof.
  intros Hwf Ht. destruct (wf_live _ _ _ _ Hwf t Ht) as (s0 & Hs0 & Hr). unfold publish. simpl in *.
  destruct (sender_by_event_id (ess s) !! e) as [s1|] eqn:He.
  - destruct (broadcast_send s1 ev (channels (ess s))) as [n ch] eqn:Esend. simpl.
    assert (ch = (broadcast_send s1 ev (channels (ess s))).2) as -> by by rewrite Esend.
    case_decide as Hid.
    + assert (s1 = s0) as -> by congruence. by apply send_unread.
    + apply (send_unread_other _ s0); [done|]. intros ->. apply Hid.
      by apply (wf_own_sender _ _ _ _ Hwf _ _ s1).
  - by rewrite decide_False by congruence.
Qed.

End streaming.
