(* ===== verification/Connection.v ===== *)
(** * Connections to providers ([intent_brokering/src/connection_provider.rs])

    The two traits as classes whose methods thread the outside world [W], the
    gRPC provider over tonic's transport (a parameter), and the provider that
    caches its connection in a cell shared by all its clones. *)

From S2P Require Import Prelude RustStd Common Proto.

(** [trait ConnectedProvider]. *)
Class ConnectedProvider (W C : Type) : Type :=
  fulfill_provider : C → ProviderFulfillRequest → W → result FulfillResponse Error * W.

(** [trait ConnectionProvider]; [connect] takes [&mut self]. *)
Class ConnectionProvider `{!UrlLib} (W T C : Type) : Type := {
  provider_new : Url → W → T * W;
  connect : T → W → result C Error * T * W
}.

(** tonic's transport: [ProviderServiceClient::connect] and the generated
    [fulfill] call, over the state of the network. *)
Class Transport : Type := {
  net : Type;
  channel : Type;
  client_connect : string → net → result channel Error * net;
  client_fulfill : channel → ProviderFulfillRequest → net → result FulfillResponse Error * net
}.

Section grpc.
Context `{!UrlLib, !Transport}.

Record GrpcProvider := mkGrpcProvider { grpc_url : Url }.

Definition grpc_connect (self : GrpcProvider) (n : net)
    : result channel Error * GrpcProvider * net :=
  let '(res, n) := client_connect (url_to_string (grpc_url self)) n in
  (map_err_with res "Error when connecting to provider.", self, n).

Definition grpc_fulfill (self : channel) (fulfill_request : ProviderFulfillRequest) (n : net)
    : result FulfillResponse Error * net :=
  let '(res, n) := client_fulfill self fulfill_request n in
  (map_err_with res "Error when invoking provider.", n).

#[export] Instance GrpcProvider_connection : ConnectionProvider net GrpcProvider channel := {|
  provider_new u n := (mkGrpcProvider u, n);
  connect := grpc_connect
|}.
#[export] Instance channel_connected : ConnectedProvider net channel := grpc_fulfill.
End grpc.

(** ** [ReusableProvider]

    [connected_inner] is an [Arc<Mutex<Option<_>>>]: the index of a cell, which a
    clone of the provider shares.  The mutex is held while connecting, so a
    [connect] is one step. *)
Section reusable.
Context `{!UrlLib} {W T C : Type} `{!ConnectionProvider W T C, !ConnectedProvider W C}.

Record ReusableProvider := mkReusableProvider {
  inner : T;
  connected_inner : nat
}.

Definition reusable_new (u : Url) (w : list (option C) * W)
    : ReusableProvider * (list (option C) * W) :=
  let '(cells, w) := w in
  let '(i, w) := provider_new u w in
  (mkReusableProvider i (length cells), (cells ++ [None], w)).

Definition reusable_connect (self : ReusableProvider) (w : list (option C) * W)
    : result C Error * ReusableProvider * (list (option C) * W) :=
  let '(cells, w) := w in
  match mjoin (cells !! connected_inner self) with
  | Some connected => (Ok connected, self, (cells, w))
  | None =>
      let '(res, i, w) := connect (inner self) w in
      let self := mkReusableProvider i (connected_inner self) in
      match res with
      | Ok client => (Ok client, self, (<[connected_inner self := Some client]> cells, w))
      | Err e => (Err e, self, (cells, w))
      end
  end.

#[export] Instance ReusableProvider_connection :
    ConnectionProvider (list (option C) * W) ReusableProvider C := {|
  provider_new := reusable_new;
  connect := reusable_connect
|}.
#[export] Instance reusable_connected : ConnectedProvider (list (option C) * W) C :=
  λ c req w, let '(cells, w) := w in
             let '(res, w) := fulfill_provider c req w in (res, (cells, w)).
End reusable.
Arguments ReusableProvider : clear implicits.
