(* ===== verification/StreamingTheorems.v ===== *)
(** * The theorems about streaming and connections

    Subscribing over a channel, publishing the namespaces that change, and the
    sharing of cached connections. *)

From S2P Require Import Prelude RustStd Common Proto Registry RegistryFacts Ess.
From S2P Require Import EssFacts EssSample StreamingEss Connection.

Section streaming.
Context {T : Type} `{!HashOrder} `{!Channels T (result Event Status)}.

(** What [serve_subscriptions] does for a client that is reading events. *)
Lemma serve_subscriptions_reading (i : SubscribeIntent) (f : T → ValueEnum) (s : StreamingEss) client :
  ChannelLaws T (result Event Status) → 0 < publish_buffer_size (ess_config (ess s)) →
  client_by_id (ess s) !! channel_id i = Some client →
  ∃ s' new, serve_subscriptions i f s = Return (Ok mkSubscribeFulfillment, s') ∧
    tasks s' = tasks s ++ new ∧
    task_source <$> new = fresh_ids (dom (subscriptions client)) (sources i) ∧
    Forall (λ t, task_into_value t = f ∧
                 sub_id (task_subscription t) = mkSubscriptionId (channel_id i) (task_source t) ∧
                 sub_sender (task_subscription t) = sender client) new ∧
    subscribed (ess s') (channel_id i) =
      list_to_set (sources i) ∪ dom (subscriptions client).
Proof.
  intros Hlaws Hbuf Hc. unfold serve_subscriptions, register_subscriptions. rewrite Hc.
  destruct (register_loop (ess_config (ess s)) (channel_id i) (sender client) (sources i)
    (subscriptions client) (sender_by_event_id (ess s)) [] (channels (ess s)) Hlaws Hbuf)
    as (subs & senders & news & ch & -> & [Hids Hcl _ Hdom _ _ _]).
  cbn [mbind outcome_bind app]. do 2 eexists. split; [done|]. cbn [tasks].
  split_and!; [done| | |].
  - rewrite <- list_fmap_compose. exact Hids.
  - apply Forall_fmap. eapply Forall_impl; [exact Hcl|]. intros [[c e] ? ? ?] [? ?]. simpl in *.
    by subst.
  - unfold subscribed. simpl. by rewrite lookup_insert_eq.
Qed.

Lemma open_eq mv id v (s : StreamingEss) :
  ChannelLaws T (result Event Status) → 0 < client_buffer_size (ess_config (ess s)) →
  mv id = Some v →
  ∃ rx tx s', open mv id s = Return (Ok (mkOpenResponse rx [(METADATA_KEY, v)]), s') ∧
    (∃ ch, mpsc_channel (client_buffer_size (ess_config (ess s))) (channels (ess s)) = Return (tx, rx, ch)) ∧
    tasks s' = tasks s ∧ ess_config (ess s') = ess_config (ess s) ∧
    client_by_id (ess s') = <[id := mkClient tx ∅]> (client_by_id (ess s)).
Proof.
  intros Hlaws Hbuf Hv. unfold open, read_events.
  destruct (is_return_inv (mpsc_channel (client_buffer_size (ess_config (ess s))) (channels (ess s))))
    as [[[tx rx] ch] ->]; [by apply mpsc_channel_total|].
  cbn [mbind outcome_bind]. destruct (client_by_id (ess s) !! id); cbn [mbind outcome_bind];
    rewrite Hv; cbn [mbind outcome_bind unwrap_option]; do 3 eexists; (split; [done|]);
    (split; [by eexists|done]).
Qed.


(** A [Subscribe] intent for a channel nobody opened fails with the code
    [FailedPrecondition], subscribes nothing and spawns nothing. *)
Theorem subscribe_unknown_channel (i : SubscribeIntent) (f : T → ValueEnum) (s : StreamingEss) :
  client_by_id (ess s) !! channel_id i = None →
  serve_subscriptions i f s =
    Return (Err (mkStatus FailedPrecondition "The specified client does not exist."), s).
Proof.
  intros Hc. unfold serve_subscriptions, register_subscriptions. rewrite Hc. simpl. by destruct s.
Qed.
End streaming.

Section observer.
Context `{!UrlLib, !HashOrder} `{!Channels unit (result Event Status)}.

Definition publish_all (events : list string) (s : StreamingEss (T := unit)) : StreamingEss (T := unit) :=
  foldl (λ s e, mkStreamingEss (publish e tt (ess s)).2 (tasks s)) s events.

(** The namespaces that are published: an intent of theirs appeared or disappeared. *)
Definition changed_namespaces (changes : list Change) : list string :=
  set_iter (list_to_set (C := gset string) (omap changed_namespace changes)).

Lemma streaming_on_change_eq changes (s : StreamingEss (T := unit)) :
  streaming_on_change changes s = publish_all (namespace_event <$> changed_namespaces changes) s.
Proof.
  unfold streaming_on_change, publish_all. fold (changed_namespaces changes).
  generalize (changed_namespaces changes). intros l. revert s.
  induction l as [|x l IH]; intros s; [done|]. apply IH.
Qed.

Lemma NoDup_namespace_events changes : NoDup (namespace_event <$> changed_namespaces changes).
Proof. apply NoDup_fmap_2; [|apply NoDup_set_iter]. intros a b. apply string_app_inj_l. Qed.

Lemma elem_of_changed_namespaces ext0 ext changes ns :
  changes_describe ext0 ext changes →
  ns ∈ changed_namespaces changes ↔
    ∃ kind, ¬ (is_Some (ext0 !! mkIntentConfiguration ns kind) ↔
               is_Some (ext !! mkIntentConfiguration ns kind)).
Proof.
  intros Hd. unfold changed_namespaces.
  rewrite elem_of_set_iter, elem_of_list_to_set, list_elem_of_omap. split.
  - intros (c & Hc & Hn). destruct c as [[ns' k] Svc|ic Svc|[ns' k]]; simpl in Hn; simplify_eq.
    + apply (describe_add _ _ _ Hd) in Hc as [Hn Hs]. exists k. rewrite Hn, Hs.
      intros [_ H2]. by destruct H2.
    + apply (describe_remove _ _ _ Hd) in Hc as [[Svc Hs] Hn]. exists k. rewrite Hn, Hs.
      intros [H1 _]. by destruct H1.
  - intros [k Hk]. set (ic := mkIntentConfiguration ns k) in *.
    destruct (ext0 !! ic) as [S0|] eqn:E0, (ext !! ic) as [S1|] eqn:E1.
    + destruct Hk. by split; eexists.
    + exists (Remove ic). split; [|done]. apply (describe_remove _ _ _ Hd). by rewrite E0.
    + exists (Add ic S1). split; [|done]. by apply (describe_add _ _ _ Hd).
    + by destruct Hk.
Qed.

(** When the registry goes from one set of registrations to another, the
    streaming sub-system publishes the event [namespaces/<ns>] once for exactly
    the namespaces in which some intent got its first service or lost its last
    one, and nothing else. *)
Theorem namespaces_published ext0 ext changes (s : StreamingEss (T := unit)) :
  changes_describe ext0 ext changes →
  ∃ events, streaming_on_change changes s = publish_all events s ∧ NoDup events ∧
    ∀ e, e ∈ events ↔ ∃ ns kind, e = namespace_event ns ∧
      ¬ (is_Some (ext0 !! mkIntentConfiguration ns kind) ↔
         is_Some (ext !! mkIntentConfiguration ns kind)).
Proof.
  intros Hd. exists (namespace_event <$> changed_namespaces changes).
  split_and!; [apply streaming_on_change_eq|apply NoDup_namespace_events|].
  intros e. rewrite list_elem_of_fmap. split.
  - intros (ns & -> & Hns). apply (elem_of_changed_namespaces _ _ _ _ Hd) in Hns as [k Hk].
    by exists ns, k.
  - intros (ns & k & -> & Hk). exists ns. split; [done|].
    apply (elem_of_changed_namespaces _ _ _ _ Hd). by exists k.
Qed.
End observer.

Section reuse.
Context `{!UrlLib} {W T C : Type} `{!ConnectionProvider W T C}.

(** Connecting through any of the handles [ps], one after the other. *)
Fixpoint connect_all (ps : list (ReusableProvider T)) (w : list (option C) * W)
    : list (result C Error) * (list (option C) * W) :=
  match ps with
  | [] => ([], w)
  | p :: ps =>
      let '(res, _, w) := reusable_connect p w in
      let '(results, w) := connect_all ps w in
      (res :: results, w)
  end.

(** A provider that has connected once is connected for good.  After a
    successful [connect], every later one through the provider or a clone of it
    returns the same connection and does not touch the network; a failed one
    leaves the cell empty, so that the next one tries again. *)
Theorem connection_is_reused (p : ReusableProvider T) (cells : list (option C)) (w : W)
    (clones : list (ReusableProvider T)) res p' cells' w' :
  connected_inner p < length cells →
  Forall (λ q, connected_inner q = connected_inner p) clones →
  reusable_connect p (cells, w) = (res, p', (cells', w')) →
  match res with
  | Ok c => connect_all clones (cells', w') = ((λ _, Ok c) <$> clones, (cells', w'))
  | Err _ => cells' = cells ∧ mjoin (cells !! connected_inner p) = None
  end.
Proof.
  intros Hlt Hclones Hc.
  assert (∀ c, mjoin (cells' !! connected_inner p) = Some c →
    connect_all clones (cells', w') = ((λ _, Ok c) <$> clones, (cells', w'))) as Hgo.
  { intros c Hcell. induction Hclones as [|q qs Hq _ IH]; [done|]. simpl.
    rewrite Hq, Hcell, IH. done. }
  unfold reusable_connect in Hc. destruct (mjoin (cells !! connected_inner p)) as [c|] eqn:Hcell.
  { injection Hc as <- _ <- <-. by apply Hgo. }
  destruct (connect (inner p) w) as [[[c|e] i] w1]; injection Hc as <- _ <- <-; [|done].
  apply Hgo. simpl. by rewrite list_lookup_insert_eq.
Qed.
End reuse.

(** ** Witnesses *)
Module StreamingWitnesses.
#[local] Existing Instance canonical_order.
#[local] Existing Instance string_url.
#[local] Instance chs : Channels unit (result Event Status) :=
  sample_channels unit (result Event Status).

Definition start : StreamingEss (T := unit) :=
  StreamingEss_new (empty_store unit (result Event Status)).
Definition null (_ : unit) : ValueEnum := VNull 0.
Definition mv (s : string) : option string := Some s.


Lemma subscribe_unknown_channel_witness :
  serve_subscriptions (mkSubscribeIntent "id" ["a"]) null start =
    Return (Err (mkStatus FailedPrecondition "The specified client does not exist."), start).
Proof. apply (subscribe_unknown_channel (mkSubscribeIntent "id" ["a"]) null start). reflexivity. Defined.

Definition ic : IntentConfiguration := mkIntentConfiguration "sdv.kvs" Read.
Definition svcs : gset ServiceConfiguration :=
  {[mkServiceConfiguration (mkServiceId "kv" "1") ("http://kv" : @Url string_url) Local]}.

Lemma first_service : changes_describe ∅ {[ic := svcs]} [Add ic svcs].
Proof.
  split.
  - repeat constructor. set_solver.
  - intros i S. rewrite list_elem_of_singleton, lookup_empty, lookup_singleton_Some.
    split; [by intros [= -> ->]|by intros [_ [-> ->]]].
  - intros i. rewrite list_elem_of_singleton, lookup_empty. split; [done|]. by intros [[? [=]] _].
  - intros i S. by rewrite list_elem_of_singleton.
  - intros i Hi. simpl. apply list_elem_of_singleton. destruct (decide (i = ic)); [done|].
    by rewrite lookup_empty, lookup_singleton_ne in Hi.
Qed.

Lemma namespaces_published_witness :
  ∃ events, streaming_on_change [Add ic svcs] start = publish_all events start ∧ NoDup events ∧
    ∀ e, e ∈ events ↔ ∃ ns kind, e = namespace_event ns ∧
      ¬ (is_Some ((∅ : gmap IntentConfiguration (gset ServiceConfiguration)) !!
                    mkIntentConfiguration ns kind) ↔
         is_Some (({[ic := svcs]} : gmap IntentConfiguration (gset ServiceConfiguration)) !!
                    mkIntentConfiguration ns kind)).
Proof. apply (namespaces_published ∅ {[ic := svcs]} [Add ic svcs] start). apply first_service. Defined.

(** A network that numbers its connections. *)
#[local] Instance counting : ConnectionProvider nat unit nat := {|
  provider_new _ n := (tt, n);
  connect _ n := (Ok n, tt, S n)
|}.

Lemma connection_is_reused_witness :
  let p := mkReusableProvider tt 0 in
  connect_all [p; p; p] ([Some 5], 6) = ([Ok 5; Ok 5; Ok 5], ([Some 5], 6)).
Proof.
  intros p.
  apply (connection_is_reused p [None] 5 [p; p; p] (Ok 5) p [Some 5] 6).
  - simpl. lia.
  - repeat constructor.
  - reflexivity.
Defined.
End StreamingWitnesses.
