(* ===== verification/Query.v ===== *)
(** * Queries of the [Inspect] intent ([intent_brokering/common/src/query.rs])

    A query is turned into the pattern of a regular expression, [**] into "any
    characters" and the remaining [*] into "any characters but dots".  The regex
    crate is a parameter. *)

From S2P Require Import Prelude RustStd Common.

Class RegexLib : Type := {
  regex : Type;
  regex_new : string → result regex Error;
  is_match : regex → string → bool
}.

Definition regex_pattern_from_query (query : string) : string :=
  "^" +:+ str_replace "*" "[^.]{0,}" (str_replace "**" ".{0,}" query) +:+ "$".

Definition regex_from_query `{!RegexLib} (query : string) : outcome regex :=
  unwrap (regex_new (regex_pattern_from_query query)).
