(* ===== verification/QueryFacts.v ===== *)
(** * What a query matches

    The pattern made from a query is a sequence of four kinds of tokens.  The
    documented meaning of these in the regex crate is the hypothesis
    [RegexLaws]; under it, a query matches a namespace as its wildcards say. *)

From S2P Require Import Prelude RustStd Common Query.

(** ** The fragment of regular expressions the queries use *)
Inductive token := TChar (c : ascii) | TAnyChar | TAnyString | TNoDotString.

Definition newline : ascii := "010".

(** The characters that mean themselves in a pattern. *)
Definition is_plain (c : ascii) : bool :=
  let n := nat_of_ascii c in
  bool_decide (n < 128) &&
  negb (existsb (Ascii.eqb c)
    ["\"; "."; "+"; "*"; "?"; "("; ")"; "|"; "["; "]"; "{"; "}"; "^"; "$"; "#"; "&"; "~"]%char).

Definition token_ok (t : token) : bool :=
  match t with TChar c => is_plain c | _ => true end.

Definition render (t : token) : string :=
  match t with
  | TChar c => String c ""
  | TAnyChar => "."
  | TAnyString => ".{0,}"
  | TNoDotString => "[^.]{0,}"
  end.
Definition render_all (ts : list token) : string := foldr (λ t s, render t +:+ s) "" ts.

(** A dot stands for any character but a newline. *)
Definition any_char (c : ascii) : bool := negb (Ascii.eqb c newline).
Definition no_dot (c : ascii) : bool := negb (Ascii.eqb c ".").

Fixpoint all_chars (p : ascii → bool) (s : string) : bool :=
  match s with EmptyString => true | String c s => p c && all_chars p s end.
Definition is_ascii (s : string) : bool := all_chars (λ c, bool_decide (nat_of_ascii c < 128)) s.

(** The strings a sequence of tokens matches from end to end. *)
Inductive matches : list token → string → Prop :=
  | match_nil : matches [] ""
  | match_char c ts s : matches ts s → matches (TChar c :: ts) (String c s)
  | match_any_char c ts s : any_char c = true → matches ts s → matches (TAnyChar :: ts) (String c s)
  | match_any_string s1 s2 ts :
      all_chars any_char s1 = true → matches ts s2 → matches (TAnyString :: ts) (s1 +:+ s2)
  | match_no_dot_string s1 s2 ts :
      all_chars no_dot s1 = true → matches ts s2 → matches (TNoDotString :: ts) (s1 +:+ s2).

(** What the sources rely on of the regex crate: an anchored pattern of plain
    characters, dots and the two repeated classes is valid, and matches an ASCII
    text when the text as a whole is in its language. *)
Class RegexLaws `{!RegexLib} : Prop :=
  regex_fragment ts : forallb token_ok ts = true →
    ∃ r, regex_new ("^" +:+ render_all ts +:+ "$") = Ok r ∧
         ∀ s, is_ascii s = true → is_match r s = true ↔ matches ts s.

(** The tokens of a query: a double star, a star, a dot, or a character. *)
Fixpoint query_tokens (q : string) : list token :=
  match q with
  | EmptyString => []
  | String c q' =>
      if Ascii.eqb c "*" then
        match q' with
        | String c' q'' => if Ascii.eqb c' "*" then TAnyString :: query_tokens q''
                           else TNoDotString :: query_tokens q'
        | EmptyString => [TNoDotString]
        end
      else if Ascii.eqb c "." then TAnyChar :: query_tokens q'
      else TChar c :: query_tokens q'
  end.

Definition is_query_char (c : ascii) : bool := Ascii.eqb c "*" || Ascii.eqb c "." || is_plain c.

(** ** The pattern of a query *)
Lemma str_replace_char_cons c to x s :
  str_replace (String c "") to (String x s) =
    (if ascii_dec c x then to else String x "") +:+ str_replace (String c "") to s.
Proof.
  unfold str_replace. cbn [replace_from String.prefix].
  destruct (ascii_dec c x) as [->|Hne]; [by destruct s|done].
Qed.

(** Replacing a single character distributes over concatenation. *)
Lemma str_replace_char_app c to a b :
  str_replace (String c "") to (a +:+ b) =
    str_replace (String c "") to a +:+ str_replace (String c "") to b.
Proof.
  induction a as [|x a IH]; [done|]. change (String x a +:+ b) with (String x (a +:+ b)).
  by rewrite !str_replace_char_cons, IH, string_app_assoc.
Qed.

(** The two passes over a query, one token at a time. *)
Definition star_passes (q : string) : string :=
  str_replace "*" "[^.]{0,}" (str_replace "**" ".{0,}" q).

Lemma star_passes_double q : star_passes (String "*" (String "*" q)) = ".{0,}" +:+ star_passes q.
Proof.
  unfold star_passes.
  assert (str_replace "**" ".{0,}" (String "*" (String "*" q)) =
    ".{0,}" +:+ str_replace "**" ".{0,}" q) as -> by by destruct q.
  by rewrite str_replace_char_app.
Qed.

Lemma star_passes_single c q :
  String.prefix "**" (String c q) = false →
  star_passes (String c q) =
    (if ascii_dec "*" c then "[^.]{0,}" else String c "") +:+ star_passes q.
Proof.
  intros Hp. unfold star_passes, str_replace at 2. cbn [replace_from]. rewrite Hp.
  fold (str_replace "**" ".{0,}" q). apply str_replace_char_cons.
Qed.

Lemma star_passes_tokens q : star_passes q = render_all (query_tokens q).
Proof.
  remember (String.length q) as n eqn:Hn. assert (String.length q ≤ n) as Hle by lia. clear Hn.
  revert q Hle. induction n as [|n IH]; intros [|c q] Hle; simpl in Hle; [done|lia|done|].
  cbn [query_tokens]. destruct (Ascii.eqb_spec c "*") as [->|Hstar].
  - destruct q as [|c' q]; [reflexivity|]. destruct (Ascii.eqb_spec c' "*") as [->|Hstar'].
    + rewrite star_passes_double. cbn [render_all foldr render]. f_equal. apply IH. simpl in Hle. lia.
    + rewrite star_passes_single.
      * cbn [render_all foldr render]. change (if ascii_dec "*" "*" then ?a else ?b) with a.
        f_equal. apply IH. simpl in Hle |- *. lia.
      * cbn [String.prefix]. destruct (ascii_dec "*" "*"), (ascii_dec "*" c'); congruence.
  - rewrite star_passes_single by (cbn [String.prefix]; destruct (ascii_dec "*" c); congruence).
    destruct (ascii_dec "*" c); [congruence|].
    destruct (Ascii.eqb_spec c ".") as [->|Hdot]; cbn [render_all foldr render]; f_equal; apply IH; lia.
Qed.

Lemma query_tokens_ok q : all_chars is_query_char q = true → forallb token_ok (query_tokens q) = true.
Proof.
  remember (String.length q) as n eqn:Hn. assert (String.length q ≤ n) as Hle by lia. clear Hn.
  revert q Hle. induction n as [|n IH]; intros [|c q] Hle; simpl in Hle; [done|lia|done|].
  cbn [query_tokens all_chars]. rewrite andb_true_iff. intros [Hc Hq].
  unfold is_query_char in Hc. destruct (Ascii.eqb c "*") eqn:E.
  - destruct q as [|c' q]; [done|]. simpl in Hle. destruct (Ascii.eqb c' "*");
      cbn [forallb token_ok andb].
    + apply IH; [lia|]. simpl in Hq. by apply andb_true_iff in Hq as [_ ?].
    + apply IH; [simpl; lia|done].
  - destruct (Ascii.eqb c "."); simpl in *; [apply IH; [lia|done]|].
    rewrite Hc. simpl. apply IH; [lia|done].
Qed.

(** ** Plain queries *)
Lemma all_chars_app p a b :
  all_chars p a = true → all_chars p b = true → all_chars p (a +:+ b) = true.
Proof.
  intros Ha Hb. induction a as [|c a IH]; [done|]. rewrite string_app_cons. simpl in *.
  apply andb_true_iff in Ha as [-> Ha]. by apply IH.
Qed.

Lemma all_chars_weaken p p' s :
  (∀ c, p c = true → p' c = true) → all_chars p s = true → all_chars p' s = true.
Proof.
  intros Hp. induction s as [|c s IH]; simpl; [done|]. rewrite !andb_true_iff. naive_solver.
Qed.

Lemma plain_query c : is_plain c = true → is_query_char c = true.
Proof. unfold is_query_char. intros ->. by rewrite !orb_true_r. Qed.

Lemma plain_ascii s : all_chars is_plain s = true → is_ascii s = true.
Proof.
  apply all_chars_weaken. intros c. unfold is_plain. by intros [? _]%andb_true_iff.
Qed.

Lemma query_tokens_dot q : query_tokens (String "." q) = TAnyChar :: query_tokens q.
Proof. done. Qed.

(** A plain prefix of a query matches itself. *)
Lemma plain_matches a q s :
  all_chars is_plain a = true → matches (query_tokens q) s →
  matches (query_tokens (a +:+ q)) (a +:+ s).
Proof.
  induction a as [|c a IH]; [done|]. rewrite !string_app_cons. cbn [all_chars].
  rewrite andb_true_iff. intros [Hc Ha] Hm. cbn [query_tokens].
  destruct (Ascii.eqb_spec c "*") as [->|_]; [vm_compute in Hc; done|].
  destruct (Ascii.eqb_spec c ".") as [->|_]; [vm_compute in Hc; done|].
  constructor. by apply IH.
Qed.

(** ** A regex engine for the fragment

    It recognises the patterns of the fragment and decides their language;
    witnesses run with it. *)
Fixpoint parse_tokens (s : string) : option (list token) :=
  match s with
  | EmptyString => None
  | String "$" EmptyString => Some []
  | String "." (String "{" (String "0" (String "," (String "}" s')))) =>
      cons TAnyString <$> parse_tokens s'
  | String "." s' => cons TAnyChar <$> parse_tokens s'
  | String "[" (String "^" (String "." (String "]"
      (String "{" (String "0" (String "," (String "}" s'))))))) =>
      cons TNoDotString <$> parse_tokens s'
  | String c s' => if is_plain c then cons (TChar c) <$> parse_tokens s' else None
  end.

(** Some prefix of [s] of characters in [p] is followed by a string in [k]. *)
Fixpoint after_run (p : ascii → bool) (k : string → bool) (s : string) : bool :=
  k s || match s with
         | EmptyString => false
         | String c s' => p c && after_run p k s'
         end.

Fixpoint match_tokens (ts : list token) (s : string) : bool :=
  match ts with
  | [] => match s with EmptyString => true | _ => false end
  | TChar c :: ts => match s with String c' s' => Ascii.eqb c c' && match_tokens ts s' | _ => false end
  | TAnyChar :: ts => match s with String c' s' => any_char c' && match_tokens ts s' | _ => false end
  | TAnyString :: ts => after_run any_char (match_tokens ts) s
  | TNoDotString :: ts => after_run no_dot (match_tokens ts) s
  end.

Definition fragment_regex : RegexLib := {|
  regex := list token;
  regex_new p :=
    match p with
    | String "^" p' => ok_or (parse_tokens p') (Error_new "regex parse error")
    | _ => Err (Error_new "regex parse error")
    end;
  is_match := match_tokens
|}.

Lemma after_run_true p k s :
  after_run p k s = true ↔ ∃ s1 s2, s = s1 +:+ s2 ∧ all_chars p s1 = true ∧ k s2 = true.
Proof.
  induction s as [|c s IH]; simpl; rewrite orb_true_iff.
  - split; [intros [Hk|[=]]; by exists "", ""|].
    intros (s1 & s2 & Heq & _ & Hk). left. destruct s1; [|done].
    change ("" = s2) in Heq. by subst.
  - rewrite andb_true_iff, IH. split.
    + intros [Hk|[Hc (s1 & s2 & -> & H1 & Hk)]]; [by exists "", (String c s)|].
      exists (String c s1), s2. split_and!; [done| |done]. simpl. by rewrite Hc.
    + intros ([|c' s1] & s2 & Heq & Hall & Hk).
      * left. change ("" +:+ s2) with s2 in Heq. by subst.
      * rewrite string_app_cons in Heq. injection Heq as -> ->. simpl in Hall.
        apply andb_true_iff in Hall as [Hc Hall]. right. split; [done|]. by exists s1, s2.
Qed.

Lemma match_tokens_iff ts s : match_tokens ts s = true ↔ matches ts s.
Proof.
  revert s. induction ts as [|t ts IH]; intros s; simpl.
  { destruct s; split; try done; [constructor|inversion 1]. }
  destruct t as [c| | |].
  - destruct s as [|c' s]; [by split; [|inversion 1]|].
    rewrite andb_true_iff, IH, Ascii.eqb_eq. split; [|by inversion 1].
    intros [-> ?]. by constructor.
  - destruct s as [|c' s]; [by split; [|inversion 1]|].
    rewrite andb_true_iff, IH. split; [|by inversion 1]. intros [? ?]. by constructor.
  - rewrite after_run_true. split.
    + intros (s1 & s2 & -> & Hall & Hk%IH). by constructor.
    + inversion 1 as [| | |s1 s2 ts' Hall Hm|]; subst. exists s1, s2. by rewrite IH.
  - rewrite after_run_true. split.
    + intros (s1 & s2 & -> & Hall & Hk%IH). by constructor.
    + inversion 1 as [| | | |s1 s2 ts' Hall Hm]; subst. exists s1, s2. by rewrite IH.
Qed.

Lemma parse_tokens_plain c s :
  is_plain c = true → parse_tokens (String c s) = cons (TChar c) <$> parse_tokens s.
Proof.
  destruct c as [[] [] [] [] [] [] [] []]; first [intros _; reflexivity|intros [=]].
Qed.

Definition starts_with_brace (s : string) : bool :=
  match s with String c _ => Ascii.eqb c "{" | EmptyString => false end.

Lemma parse_tokens_dot s :
  starts_with_brace s = false → parse_tokens (String "." s) = cons TAnyChar <$> parse_tokens s.
Proof.
  destruct s as [|[[] [] [] [] [] [] [] []] s]; first [intros _; reflexivity|intros [=]].
Qed.

Lemma render_all_no_brace ts :
  forallb token_ok ts = true → starts_with_brace (render_all ts +:+ "$") = false.
Proof.
  destruct ts as [|[c| | |] ts]; try reflexivity. simpl. rewrite andb_true_iff. intros [Hc _].
  change (Ascii.eqb c "{" = false). destruct (Ascii.eqb_spec c "{") as [->|]; [|done].
  vm_compute in Hc. done.
Qed.

Lemma parse_render ts : forallb token_ok ts = true → parse_tokens (render_all ts +:+ "$") = Some ts.
Proof.
  induction ts as [|t ts IH]; [reflexivity|]. cbn [forallb]. rewrite andb_true_iff. intros [Ht Hts].
  specialize (IH Hts). cbn [render_all foldr]. fold (render_all ts). rewrite string_app_assoc.
  destruct t as [c| | |]; cbn [render].
  - change (String c "" +:+ (render_all ts +:+ "$")) with (String c (render_all ts +:+ "$")).
    rewrite parse_tokens_plain by done. by rewrite IH.
  - change ("." +:+ (render_all ts +:+ "$")) with (String "." (render_all ts +:+ "$")).
    rewrite parse_tokens_dot by by apply render_all_no_brace. by rewrite IH.
  - change (cons TAnyString <$> parse_tokens (render_all ts +:+ "$") = Some (TAnyString :: ts)).
    by rewrite IH.
  - change (cons TNoDotString <$> parse_tokens (render_all ts +:+ "$") = Some (TNoDotString :: ts)).
    by rewrite IH.
Qed.

Lemma fragment_regex_laws : @RegexLaws fragment_regex.
Proof.
  intros ts Hts. exists ts. split.
  - change (ok_or (parse_tokens (render_all ts +:+ "$")) (Error_new "regex parse error") = Ok ts).
    by rewrite parse_render.
  - intros s _. apply match_tokens_iff.
Qed.

(** ** The theorems *)
Section theorems.
Context `{!RegexLib}.


(** A dot of a query is not a separator: the query [a.b] matches [a], any
    character but a newline, [b]. *)
Theorem query_dot_is_any_character (a b : string) (c : ascii) :
  RegexLaws → all_chars is_plain a = true → all_chars is_plain b = true →
  nat_of_ascii c < 128 → c ≠ newline →
  ∃ r, regex_from_query (a +:+ String "." b) = Return r ∧ is_match r (a +:+ String c b) = true.
Proof.
  intros Hlaws Ha Hb Hc Hnl.
  assert (all_chars is_query_char (a +:+ String "." b) = true) as Hq.
  { apply all_chars_app; [by apply (all_chars_weaken is_plain); [apply plain_query|]|].
    cbn. by apply (all_chars_weaken is_plain); [apply plain_query|]. }
  destruct (Hlaws _ (query_tokens_ok _ Hq)) as (r & Hr & Hm). exists r. split.
  - unfold regex_from_query, regex_pattern_from_query. fold (star_passes (a +:+ String "." b)).
    by rewrite star_passes_tokens, Hr.
  - apply Hm.
    + apply all_chars_app; [by apply plain_ascii|]. simpl. rewrite bool_decide_true by done.
      by apply plain_ascii.
    + apply plain_matches; [done|]. rewrite query_tokens_dot. constructor.
      * unfold any_char. by destruct (Ascii.eqb_spec c newline).
      * rewrite <- (string_app_nil_r b) at 1. rewrite <- (string_app_nil_r b) at 2.
        apply plain_matches; [done|]. constructor.
Qed.
End theorems.

(** ** Witnesses, and the cases of the unit test *)
Module QueryWitnesses.
#[local] Existing Instance fragment_regex.

Definition query_case (expected : bool) (query input : string) : bool :=
  match regex_from_query query with
  | Return r => Bool.eqb (is_match r input) expected
  | Panic _ => false
  end.

Example test_regex_query_conversion :
  query_case false "foo" "foobar" && query_case true "foo*" "foobar" &&
  query_case true "foo*" "foobarbaz" && query_case true "*baz" "*baz" &&
  query_case false "*bar" "foobarbaz" && query_case false "bar*" "foobarbaz" &&
  query_case true "*bar*" "foobarbaz" &&
  query_case true "vdt.cabin.*.temp*" "vdt.cabin.hvac.temperature" &&
  query_case true "vdt.**.temp*" "vdt.cabin.hvac.temperature" &&
  query_case false "temp*erature" "temp.erature" &&
  query_case true "**.doors.**.lock" "vdt.cabin.doors.door1.lock" = true.
Proof. vm_compute. reflexivity. Qed.


Lemma query_dot_is_any_character_witness :
  ∃ r, regex_from_query "sdv.kvs" = Return r ∧ is_match r "sdv-kvs" = true.
Proof.
  apply (query_dot_is_any_character "sdv" "kvs" "-").
  - apply fragment_regex_laws.
  - vm_compute. reflexivity.
  - vm_compute. reflexivity.
  - vm_compute. lia.
  - discriminate.
Defined.
End QueryWitnesses.
