(* ===== verification/Execution.v ===== *)
(** * Execution of intents ([intent_brokering/src/execution.rs])

    What a resolved intent is bound to, and how the binding is executed: by a
    remote provider, by a fallback chain, or by the broker itself. *)

From S2P Require Import Prelude RustStd Common Proto Query Registry Ess.
From S2P Require Import StreamingEss Connection.

Definition REGISTERED_INTENTS_KEY : string := "registered_intents".
Definition SCHEMA_VERSION_STREAMING : string := "intent_brokering.streaming.v1".
Definition SCHEMA_REFERENCE : string := "grpc+proto".

(** [IterGroupingExt::group]. *)
Definition group {K V} `{Countable K} (l : list (K * V)) : gmap K (list V) :=
  foldl (λ groupings kv, <[kv.1 := default [] (groupings !! kv.1) ++ [kv.2]]> groupings) ∅ l.

(** A reference to the broker's one [StreamingEss]. *)
Inductive StreamingRef := the_streaming_ess.

Section execution.
Context `{!UrlLib, !HashOrder, !RegexLib} `{!Channels unit (result Event Status)}.

Inductive RuntimeBinding (T : Type) : Type :=
  | Remote (provider : T)
  | Fallback (primary secondary : RuntimeBinding T)
  | SystemInspect (intents : list IntentConfiguration)
  | SystemDiscover (u : Url)
  | SystemSubscribe (s : StreamingRef).
#[global] Arguments Remote {T} provider.
#[global] Arguments Fallback {T} primary secondary.
#[global] Arguments SystemInspect {T} intents.
#[global] Arguments SystemDiscover {T} u.
#[global] Arguments SystemSubscribe {T} s.

Definition fulfill_response (inner : FulfillmentEnum) : result FulfillResponse Status :=
  Ok (mkFulfillResponse (Some (mkFulfillmentMessage (Some inner)))).

(** The entry of a namespace in the fulfillment of [Inspect]. *)
Definition inspect_entry (group : string * list IntentKind) : InspectEntry :=
  let '(path, intent_kinds) := group in
  mkInspectEntry path
    {[REGISTERED_INTENTS_KEY :=
        mkValueMessage (Some (VList
          ((λ kind, mkValueMessage (Some (VString (IntentKind_to_string kind)))) <$> intent_kinds)))]}.

Definition inspect_entries (r : regex) (intents : list IntentConfiguration) : list InspectEntry :=
  inspect_entry <$> map_iter (group
    (into_namespaced_intent <$> filter (λ e, is_match r (namespace e) = true) intents)).

Definition discover_service (u : Url) : DiscoverService :=
  mkDiscoverService (url_to_string u) SCHEMA_REFERENCE SCHEMA_VERSION_STREAMING ∅.

Section execute.
Context {W T C : Type} `{!ConnectionProvider W T C, !ConnectedProvider W C}.

Definition execute_remote (provider : T) (arg : IntentMessage) (w : W)
    : result FulfillResponse Status * W :=
  let '(connected, _, w) := connect provider w in
  match connected with
  | Err e =>
      (Err (mkStatus Unknown ("Failed to connect to provider: " +:+ Error_display e +:+ ".")), w)
  | Ok c =>
      let '(res, w) := fulfill_provider c (mkProviderFulfillRequest (Some arg)) w in
      (map_err (λ e, mkStatus Unknown
         ("Error when invoking provider: '" +:+ Error_display e +:+ "'.")) res, w)
  end.

Fixpoint execute (self : RuntimeBinding T) (arg : IntentMessage)
    (st : W * StreamingEss (T := unit))
    : outcome (result FulfillResponse Status * (W * StreamingEss (T := unit))) :=
  match self with
  | Remote provider =>
      let '(res, w) := execute_remote provider arg st.1 in Return (res, (w, st.2))
  | Fallback primary secondary =>
      '(res, st) ← execute primary arg st;
      match res with
      | Ok ok => Return (Ok ok, st)
      | Err _ => execute secondary arg st
      end
  | SystemInspect intents =>
      match intent_enum arg with
      | Some (IInspect inspect_intent) =>
          r ← regex_from_query (query inspect_intent);
          Return (fulfill_response (FInspect (mkInspectFulfillment (inspect_entries r intents))), st)
      | _ => Panic "An intent other than 'Inspect' was resolved to 'SystemInspect'."
      end
  | SystemDiscover u =>
      Return (fulfill_response (FDiscover (mkDiscoverFulfillment [discover_service u])), st)
  | SystemSubscribe _ =>
      match intent_enum arg with
      | Some (ISubscribe subscribe_intent) =>
          '(res, s) ← serve_subscriptions subscribe_intent (λ _, VNull 0) st.2;
          Return (and_then res (λ f, fulfill_response (FSubscribe f)), (st.1, s))
      | _ => Panic "An intent other than 'Subscribe' was resolved to 'SystemSubscribe'."
      end
  end.
End execute.
End execution.
