(* ===== verification/Broker.v ===== *)
(** * The intent broker ([intent_brokering/src/intent_broker.rs])

    The table of bindings by intent, its refreshing from the changes the registry
    reports, and the resolution of an intent to an executable binding.  [World]
    holds everything the broker's shared handles refer to: the binding table, the
    cells of the cached connections, the network and the streaming sub-system. *)

From S2P Require Import Prelude RustStd Common Proto Query Registry Ess.
From S2P Require Import StreamingEss Connection Execution.

Definition SYSTEM_REGISTRY_NAMESPACE : string := "system.registry".

Section broker.
Context `{!UrlLib, !HashOrder, !Transport} `{!Channels unit (result Event Status)}.

(** [type Provider = ReusableProvider<GrpcProvider>]. *)
Abbreviation Provider := (ReusableProvider GrpcProvider).
Abbreviation Network := (list (option channel) * net)%type.

Inductive Binding :=
  | BRemote (provider : Provider)
  | BFallback (primary secondary : Binding)
  | BSystemInspect
  | BSystemDiscover (u : Url)
  | BSystemSubscribe (s : StreamingRef).

Definition IntentBinder_new (streaming_url : Url) (streaming_ess : StreamingRef)
    : gmap IntentConfiguration Binding :=
  list_to_map
    [(mkIntentConfiguration SYSTEM_REGISTRY_NAMESPACE Inspect, BSystemInspect);
     (mkIntentConfiguration SYSTEM_REGISTRY_NAMESPACE Discover, BSystemDiscover streaming_url);
     (mkIntentConfiguration SYSTEM_REGISTRY_NAMESPACE Subscribe, BSystemSubscribe streaming_ess)].

Fixpoint binding_into_runtime_binding (broker : gmap IntentConfiguration Binding)
    (binding : Binding) : RuntimeBinding Provider :=
  match binding with
  | BSystemInspect => SystemInspect (map_keys broker)
  | BRemote provider => Remote provider
  | BFallback primary secondary =>
      Fallback (binding_into_runtime_binding broker primary)
        (binding_into_runtime_binding broker secondary)
  | BSystemDiscover u => SystemDiscover u
  | BSystemSubscribe s => SystemSubscribe s
  end.

Definition binder_resolve (broker : gmap IntentConfiguration Binding) (ic : IntentConfiguration)
    : option (RuntimeBinding Provider) :=
  binding_into_runtime_binding broker <$> broker !! ic.

(** The loop over the candidates of [refresh]: the local and the cloud service
    found so far, until both are. *)
Fixpoint select_services (candidates : list ServiceConfiguration)
    (local_service cloud_service : option ServiceConfiguration)
    : option ServiceConfiguration * option ServiceConfiguration :=
  match candidates with
  | [] => (local_service, cloud_service)
  | candidate :: rest =>
      match locality candidate, local_service, cloud_service with
      | _, Some _, Some _ => (local_service, cloud_service)
      | Local, None, _ => select_services rest (Some candidate) cloud_service
      | Cloud, _, None => select_services rest local_service (Some candidate)
      | Local, Some _, None => select_services rest local_service cloud_service
      | Cloud, None, Some _ => select_services rest local_service cloud_service
      end
  end.

(** The binding of the selected services; each provider is new. *)
Definition make_binding (local_service cloud_service : option ServiceConfiguration) (w : Network)
    : option Binding * Network :=
  match local_service, cloud_service with
  | Some local_service, Some cloud_service =>
      let '(cloud, w) := provider_new (url cloud_service) w in
      let '(loc, w) := provider_new (url local_service) w in
      (Some (BFallback (BRemote cloud) (BRemote loc)), w)
  | Some service, None =>
      let '(p, w) := provider_new (url service) w in (Some (BRemote p), w)
  | None, Some service =>
      let '(p, w) := provider_new (url service) w in (Some (BRemote p), w)
  | None, None => (None, w)
  end.

(** One iteration of the loop of [refresh]. *)
Definition refresh_step (acc : gmap IntentConfiguration Binding * Network) (c : Change)
    : gmap IntentConfiguration Binding * Network :=
  let '(bindings, w) := acc in
  let '(ic, service_configurations) :=
    match c with
    | Add ic services => (ic, Some services)
    | Modify ic services => (ic, Some services)
    | Remove ic => (ic, None)
    end in
  let '(local_service, cloud_service) :=
    match service_configurations with
    | Some services => select_services (set_iter services) None None
    | None => (None, None)
    end in
  let '(binding, w) := make_binding local_service cloud_service w in
  match binding with
  | Some b => (<[ic := b]> bindings, w)
  | None => (delete ic bindings, w)
  end.

Definition refresh (changes : list Change) (bindings : gmap IntentConfiguration Binding)
    (w : Network) : gmap IntentConfiguration Binding * Network :=
  foldl refresh_step (bindings, w) changes.

(** ** The shared state *)
Record World := mkWorld {
  bindings_by_intent : gmap IntentConfiguration Binding;
  network : Network;
  streaming : StreamingEss (T := unit)
}.

(** [IntentBroker] is an [Arc<RwLock<IntentBinder>>]: a reference to the table. *)
Inductive IntentBroker := the_broker.

Definition IntentBroker_new (streaming_url : Url) (streaming_ess : StreamingRef)
    (n : Network) (s : StreamingEss (T := unit)) : IntentBroker * World :=
  (the_broker, mkWorld (IntentBinder_new streaming_url streaming_ess) n s).

Definition resolve (self : IntentBroker) (ic : IntentConfiguration) (w : World)
    : option (RuntimeBinding Provider) :=
  binder_resolve (bindings_by_intent w) ic.

#[export] Instance IntentBroker_observer : Observer World IntentBroker := λ _ changes w,
  let '(bindings, n) := refresh changes (bindings_by_intent w) (network w) in
  Return (mkWorld bindings n (streaming w)).

#[export] Instance StreamingEss_observer : Observer World StreamingRef := λ _ changes w,
  Return (mkWorld (bindings_by_intent w) (network w) (streaming_on_change changes (streaming w))).
End broker.
