(* ===== verification/BrokerFacts.v ===== *)
(** * The broker follows the registry

    Which binding a set of services may give, independently of the iteration
    order of the set, and that the binding table stays in step with the registry
    it observes. *)

From S2P Require Import Prelude RustStd Common Proto Registry RegistryFacts.
From S2P Require Import RegistrySpec Ess StreamingEss Connection Execution.
From S2P Require Import Broker.

Section facts.
Context `{!UrlLib, !HashOrder, !Transport} `{!Channels unit (result Event Status)}.
Implicit Types (Svc : gset ServiceConfiguration) (s : ServiceConfiguration).
Implicit Types (bindings : gmap IntentConfiguration Binding).
Implicit Types (ext : gmap IntentConfiguration (gset ServiceConfiguration)).
Implicit Types (ic : IntentConfiguration).

(** ** Reference definitions *)
Definition first_with (l : ExecutionLocality) (candidates : list ServiceConfiguration)
    : option ServiceConfiguration :=
  find (λ s, bool_decide (locality s = l)) candidates.

(** A binding to the URL of the service [s], with some connection cell. *)
Definition binds_to s (b : Binding) : Prop :=
  ∃ cell, b = BRemote (mkReusableProvider (mkGrpcProvider (url s)) cell).

(** The bindings the services [Svc] may give: the cloud first with the local one as
    fallback when there are both, otherwise one of those there are. *)
Inductive binding_for Svc : Binding → Prop :=
  | binding_both l c primary secondary :
      l ∈ Svc → locality l = Local → c ∈ Svc → locality c = Cloud →
      binds_to c primary → binds_to l secondary →
      binding_for Svc (BFallback primary secondary)
  | binding_one s b :
      s ∈ Svc → (∀ s', s' ∈ Svc → locality s' = locality s) → binds_to s b →
      binding_for Svc b.

(** The table agrees with the registered services, and is [initial] elsewhere. *)
Definition synced (initial : gmap IntentConfiguration Binding) ext bindings : Prop :=
  ∀ ic, match ext !! ic with
        | Some Svc => ∃ b, bindings !! ic = Some b ∧ binding_for Svc b
        | None => bindings !! ic = initial !! ic
        end.

(** The services a change leaves an intent with. *)
Definition change_services (c : Change) : option (gset ServiceConfiguration) :=
  match c with Add _ Svc => Some Svc | Modify _ Svc => Some Svc | Remove _ => None end.

(** ** Selection *)
Lemma select_services_first candidates lo cl :
  select_services candidates lo cl =
    (match lo with Some _ => lo | None => first_with Local candidates end,
     match cl with Some _ => cl | None => first_with Cloud candidates end).
Proof.
  revert lo cl; induction candidates as [|s l IH]; intros lo cl; simpl.
  { by destruct lo, cl. }
  unfold first_with. simpl. destruct (locality s), lo, cl; simpl; rewrite ?IH; done.
Qed.

Lemma first_with_Some l Svc s :
  first_with l (set_iter Svc) = Some s → s ∈ Svc ∧ locality s = l.
Proof.
  unfold first_with. intros [Hin Hl]%find_some.
  apply list_elem_of_In, elem_of_set_iter in Hin. by rewrite bool_decide_eq_true in Hl.
Qed.

Lemma first_with_None l Svc s :
  first_with l (set_iter Svc) = None → s ∈ Svc → locality s ≠ l.
Proof.
  unfold first_with. intros Hn Hs.
  eapply find_none in Hn; [|by apply list_elem_of_In, elem_of_set_iter].
  by rewrite bool_decide_eq_false in Hn.
Qed.

Lemma make_binding_for Svc w :
  Svc ≠ ∅ →
  ∃ b w', make_binding (first_with Local (set_iter Svc)) (first_with Cloud (set_iter Svc)) w =
            (Some b, w') ∧ binding_for Svc b.
Proof.
  intros Hne. destruct w as [cells n].
  destruct (first_with Local _) as [l|] eqn:Hl; destruct (first_with Cloud _) as [c|] eqn:Hc; simpl.
  - apply first_with_Some in Hl as [Hl Hll], Hc as [Hc Hlc].
    do 2 eexists. split; [done|]. eapply (binding_both Svc l c); try done; by eexists.
  - apply first_with_Some in Hl as [Hl Hll]. do 2 eexists. split; [done|].
    apply (binding_one Svc l); [done| |by eexists]. intros s' Hs'.
    apply (first_with_None _ _ s') in Hc; [|done]. by destruct (locality s').
  - apply first_with_Some in Hc as [Hc Hlc]. do 2 eexists. split; [done|].
    apply (binding_one Svc c); [done| |by eexists]. intros s' Hs'.
    apply (first_with_None _ _ s') in Hl; [|done]. by destruct (locality s').
  - apply set_choose_L in Hne as [s Hs].
    pose proof (first_with_None _ _ _ Hl Hs). pose proof (first_with_None _ _ _ Hc Hs).
    by destruct (locality s).
Qed.

(** ** Refreshing *)
Lemma refresh_step_eq bindings w c :
  (∀ Svc, change_services c = Some Svc → Svc ≠ ∅) →
  ∃ bindings' w', refresh_step (bindings, w) c = (bindings', w') ∧
    (∀ ic, ic ≠ change_intent c → bindings' !! ic = bindings !! ic) ∧
    match change_services c with
    | Some Svc => ∃ b, bindings' !! change_intent c = Some b ∧ binding_for Svc b
    | None => bindings' !! change_intent c = None
    end.
Proof.
  intros Hne. destruct c as [ic Svc|ic Svc|ic]; simpl in *;
    rewrite ?select_services_first; cbn [fst snd].
  3: { do 2 eexists. split; [done|]. split; [|apply lookup_delete_eq].
       intros. by rewrite lookup_delete_ne. }
  all: destruct (make_binding_for Svc w (Hne Svc eq_refl)) as (b & w' & -> & Hb);
    do 2 eexists; split; [done|]; split; [intros; by rewrite lookup_insert_ne|];
    exists b; by rewrite lookup_insert_eq.
Qed.

(** A list of changes, each intent at most once, sets exactly the intents it
    mentions. *)
Lemma refresh_lookup changes bindings w :
  NoDup (change_intent <$> changes) →
  (∀ c Svc, c ∈ changes → change_services c = Some Svc → Svc ≠ ∅) →
  ∃ bindings' w', refresh changes bindings w = (bindings', w') ∧
    (∀ ic, ic ∉ change_intent <$> changes → bindings' !! ic = bindings !! ic) ∧
    (∀ c, c ∈ changes →
      match change_services c with
      | Some Svc => ∃ b, bindings' !! change_intent c = Some b ∧ binding_for Svc b
      | None => bindings' !! change_intent c = None
      end).
Proof.
  unfold refresh. revert bindings w.
  induction changes as [|c cs IH]; intros bindings w Hnd Hne.
  { exists bindings, w. split_and!; [done|done|set_solver]. }
  cbn [foldl]. rewrite fmap_cons, NoDup_cons in Hnd. destruct Hnd as [Hc Hnd].
  destruct (refresh_step_eq bindings w c) as (b1 & w1 & -> & Hoth & Hset).
  { intros Svc. apply Hne. set_solver. }
  destruct (IH b1 w1 Hnd) as (b2 & w2 & -> & Hoth2 & Hset2).
  { intros c' Svc Hc'. apply Hne. set_solver. }
  exists b2, w2. split_and!; [done| |].
  - intros ic Hic. rewrite fmap_cons, not_elem_of_cons in Hic.
    destruct Hic as [Hic1 Hic2]. rewrite Hoth2 by done. by apply Hoth.
  - intros c' [->|Hc']%elem_of_cons; [|by apply Hset2].
    by rewrite Hoth2.
Qed.

(** ** Staying in step *)
Lemma change_services_describe ext0 ext changes c :
  changes_describe ext0 ext changes → c ∈ changes →
  ext !! change_intent c = change_services c ∧
  (change_services c = None → is_Some (ext0 !! change_intent c)).
Proof.
  intros [_ Hadd Hrem Hmod _] Hc. destruct c as [ic Svc|ic Svc|ic]; simpl.
  - apply Hadd in Hc as [? ?]. done.
  - apply Hmod in Hc as [? ?]. done.
  - apply Hrem in Hc as [? ?]. done.
Qed.

Lemma refresh_synced initial ext0 ext changes bindings w :
  changes_describe ext0 ext changes →
  (∀ ic Svc, ext !! ic = Some Svc → Svc ≠ ∅) →
  (∀ ic, is_Some (ext0 !! ic) → initial !! ic = None) →
  synced initial ext0 bindings →
  synced initial ext (refresh changes bindings w).1.
Proof.
  intros Hd Hne Hinit Hsync.
  destruct (refresh_lookup changes bindings w) as (b' & w' & -> & Hoth & Hset).
  { apply Hd. }
  { intros c Svc Hc Hs. apply (Hne (change_intent c)).
    by destruct (change_services_describe _ _ _ _ Hd Hc) as [-> _]. }
  intros ic. simpl. destruct (decide (ic ∈ change_intent <$> changes)) as [Hic|Hic].
  - apply list_elem_of_fmap in Hic as (c & -> & Hc). specialize (Hset c Hc).
    destruct (change_services_describe _ _ _ _ Hd Hc) as [-> Hwas].
    destruct (change_services c); [done|]. rewrite Hset. symmetry. by apply Hinit, Hwas.
  - rewrite Hoth by done. destruct (decide (ext0 !! ic = ext !! ic)) as [<-|Hdiff].
    + apply Hsync.
    + destruct Hic. by apply (describe_complete _ _ _ Hd).
Qed.

(** ** The table next to a registry that reports to it *)
Definition server_observer : Composite IntentBroker StreamingRef :=
  mkComposite _ _ the_broker the_streaming_ess.

Lemma server_observer_total changes w :
  ∃ w', on_change server_observer changes w = Return w'.
Proof.
  unfold on_change, Composite_observer, on_change, IntentBroker_observer, StreamingEss_observer.
  destruct (refresh _ _ _) as [b n]. by eexists.
Qed.

(** Every binding of [initial] is for a system namespace. *)
Definition system_only (initial : gmap IntentConfiguration Binding) : Prop :=
  ∀ ic, is_Some (initial !! ic) → is_system_namespace (namespace ic) = true.

Lemma IntentBinder_new_system u (e : StreamingRef) : system_only (IntentBinder_new u e).
Proof.
  intros ic [b Hb]. apply elem_of_list_to_map_2 in Hb.
  repeat (apply elem_of_cons in Hb as [[= -> _]|Hb]; [reflexivity|]). set_solver.
Qed.

Lemma notify_bindings changes w w' :
  notify server_observer changes w = Return w' →
  (bindings_by_intent w', network w') = refresh changes (bindings_by_intent w) (network w).
Proof.
  destruct changes as [|c cs]; cbn [notify].
  { intros [= <-]. done. }
  unfold on_change, Composite_observer, on_change, IntentBroker_observer, StreamingEss_observer.
  destruct (refresh _ _ _) as [b n]. cbn [mbind outcome_bind]. by intros [= <-].
Qed.

Lemma step_synced initial op r w reply r' w' :
  system_only initial → registry_wf r → observer r = server_observer →
  synced initial (external_services_by_intent r) (bindings_by_intent w) →
  step op r w = Return (reply, r', w') →
  synced initial (external_services_by_intent r') (bindings_by_intent w').
Proof.
  intros Hinit Hwf Hobs Hsync Hst. pose proof (step_wf _ _ _ _ _ _ Hwf Hst) as Hwf'.
  destruct (step_changes _ _ _ _ _ _ Hwf Hst) as (_ & changes & Hd & Hn).
  rewrite Hobs in Hn. apply notify_bindings in Hn.
  apply (f_equal fst) in Hn. simpl in Hn. rewrite Hn.
  apply (refresh_synced _ (external_services_by_intent r)); [done|apply Hwf'| |done].
  intros ic Hic. apply eq_None_not_Some. intros Hs. apply Hinit in Hs.
  by rewrite (wf_system _ Hwf ic Hic) in Hs.
Qed.
End facts.
