(* ===== verification/BrokerConnections.v ===== *)
(** * The connections behind the bindings

    Every provider has a connection cell of its own, and a connection cached in a
    cell was opened to the URL of the provider that owns the cell.  So whatever a
    remote binding answers comes from a connection to its service. *)

From S2P Require Import Prelude RustStd Common Proto Query Registry.
From S2P Require Import RegistryFacts RegistrySpec Ess StreamingEss Connection.
From S2P Require Import Execution Broker BrokerFacts.

Section connections.
Context `{!UrlLib, !HashOrder, !RegexLib, !Transport} `{!Channels unit (result Event Status)}.
Implicit Types (owners : list Url) (cells : list (option channel)).
Implicit Types (bindings : gmap IntentConfiguration Binding).

(** [c] is a connection that was opened to [u]. *)
Definition connected_to (c : channel) (u : Url) : Prop :=
  ∃ n n', client_connect (url_to_string u) n = (Ok c, n').

(** [resp] is what some call on a connection to [u] answered to [arg]. *)
Definition answered_by (u : Url) (arg : IntentMessage) (resp : FulfillResponse) : Prop :=
  ∃ c n n', connected_to c u ∧
    client_fulfill c (mkProviderFulfillRequest (Some arg)) n = (Ok resp, n').

(** [owners] gives each cell the URL it caches a connection to. *)
Definition cells_ok owners cells : Prop :=
  length cells = length owners ∧
  ∀ i c, cells !! i = Some (Some c) → ∃ u, owners !! i = Some u ∧ connected_to c u.

Fixpoint binding_owned owners (b : Binding) : Prop :=
  match b with
  | BRemote p => owners !! connected_inner p = Some (grpc_url (inner p))
  | BFallback primary secondary => binding_owned owners primary ∧ binding_owned owners secondary
  | _ => True
  end.

Definition bindings_owned owners bindings : Prop :=
  ∀ ic b, bindings !! ic = Some b → binding_owned owners b.

Lemma binding_owned_app owners more b : binding_owned owners b → binding_owned (owners ++ more) b.
Proof.
  induction b; simpl; try done.
  - apply lookup_app_l_Some.
  - naive_solver.
Qed.

Lemma cells_ok_new owners cells u :
  cells_ok owners cells → cells_ok (owners ++ [u]) (cells ++ [None]).
Proof.
  intros [Hlen Hc]. split.
  - rewrite !length_app. simpl. lia.
  - intros i c [Hi|[_ Hi]]%lookup_app_Some.
    + destruct (Hc i c Hi) as (u' & Hu & Hcon). exists u'. split; [|done].
      by apply lookup_app_l_Some.
    + apply list_lookup_singleton_Some in Hi as [_ [=]].
Qed.

(** A new provider owns the new cell. *)
Lemma new_provider_owned owners cells u :
  cells_ok owners cells → (owners ++ [u]) !! length cells = Some u.
Proof. intros [-> _]. by rewrite lookup_app_r, Nat.sub_diag. Qed.

Lemma make_binding_owned owners lo cl cells (n : net) :
  cells_ok owners cells →
  let '(b, (cells', _)) := make_binding lo cl (cells, n) in
  ∃ more, cells_ok (owners ++ more) cells' ∧
    match b with Some b => binding_owned (owners ++ more) b | None => True end.
Proof.
  intros Hok. destruct lo as [l|], cl as [c|]; simpl.
  - exists [url c; url l]. change [url c; url l] with ([url c] ++ [url l]).
    rewrite (assoc (++)). pose proof (cells_ok_new _ _ (url c) Hok) as Hok1.
    split; [by apply cells_ok_new|]. split; [|by apply new_provider_owned].
    apply lookup_app_l_Some. by apply new_provider_owned.
  - exists [url l]. split; [by apply cells_ok_new|by apply new_provider_owned].
  - exists [url c]. split; [by apply cells_ok_new|by apply new_provider_owned].
  - exists []. by rewrite app_nil_r.
Qed.

Lemma refresh_step_owned owners c bindings cells (n : net) :
  cells_ok owners cells → bindings_owned owners bindings →
  let '(bindings', (cells', _)) := refresh_step (bindings, (cells, n)) c in
  ∃ more, cells_ok (owners ++ more) cells' ∧ bindings_owned (owners ++ more) bindings'.
Proof.
  intros Hok Hb. unfold refresh_step.
  assert (∀ ic lo cl, let '(bindings', (cells', _)) :=
    (let '(binding, w) := make_binding lo cl (cells, n) in
     match binding with
     | Some b => (<[ic := b]> bindings, w)
     | None => (delete ic bindings, w)
     end) in
    ∃ more, cells_ok (owners ++ more) cells' ∧ bindings_owned (owners ++ more) bindings') as Hgo.
  { intros ic lo cl. pose proof (make_binding_owned owners lo cl cells n Hok) as Hm.
    destruct (make_binding lo cl (cells, n)) as [[b|] [cells' n']];
      destruct Hm as (more & Hok' & Hb'); exists more; (split; [done|]); intros ic' b'.
    - rewrite lookup_insert. case_decide; [by intros [= <-]|].
      intros ?. by eapply binding_owned_app, Hb.
    - rewrite lookup_delete. case_decide; [done|]. intros ?. by eapply binding_owned_app, Hb. }
  destruct c as [ic Svc|ic Svc|ic]; [| |apply Hgo];
    destruct (select_services _ _ _); apply Hgo.
Qed.

Lemma refresh_owned changes owners bindings cells (n : net) :
  cells_ok owners cells → bindings_owned owners bindings →
  let '(bindings', (cells', _)) := refresh changes bindings (cells, n) in
  ∃ more, cells_ok (owners ++ more) cells' ∧ bindings_owned (owners ++ more) bindings'.
Proof.
  unfold refresh. revert owners bindings cells n.
  induction changes as [|c cs IH]; intros owners bindings cells n Hok Hb; cbn [foldl].
  { exists []. by rewrite app_nil_r. }
  pose proof (refresh_step_owned owners c bindings cells n Hok Hb) as Hstep.
  destruct (refresh_step _ c) as [b1 [c1 n1]]. destruct Hstep as (more & Hok1 & Hb1).
  specialize (IH (owners ++ more) b1 c1 n1 Hok1 Hb1).
  destruct (foldl _ _ _) as [b2 [c2 n2]]. destruct IH as (more' & Hok2 & Hb2).
  exists (more ++ more'). by rewrite (assoc (++)).
Qed.

(** ** Executing a remote binding *)
Lemma execute_remote_answer owners (p : ReusableProvider GrpcProvider) arg cells (n : net) :
  cells_ok owners cells → owners !! connected_inner p = Some (grpc_url (inner p)) →
  let '(res, (cells', _)) := execute_remote p arg (cells, n) in
  cells_ok owners cells' ∧
  match res with
  | Ok resp => answered_by (grpc_url (inner p)) arg resp
  | Err st => code st = Unknown
  end.
Proof.
  intros Hok Hown. destruct p as [[u] i]. unfold execute_remote. simpl in *.
  assert (∀ c cells' (n' : net), cells_ok owners cells' → connected_to c u →
    let '(res, (cells', _)) :=
      (let '(res, w) := reusable_connected c (mkProviderFulfillRequest (Some arg)) (cells', n') in
       (map_err (λ e, mkStatus Unknown
         ("Error when invoking provider: '" +:+ Error_display e +:+ "'.")) res, w)) in
    cells_ok owners cells' ∧
    match res with Ok resp => answered_by u arg resp | Err st => code st = Unknown end) as Hgo.
  { intros c cells' n' Hok' Hc. unfold reusable_connected, fulfill_provider, channel_connected,
      grpc_fulfill. destruct (client_fulfill c _ n') as [[resp|e] n''] eqn:Hf; simpl.
    - split; [done|]. by exists c, n', n''.
    - done. }
  destruct (cells !! i) as [[c|]|] eqn:Hi; simpl.
  - apply Hgo; [done|]. destruct Hok as [_ Hc]. destruct (Hc i c Hi) as (u' & Hu' & Hcon).
    congruence.
  - unfold grpc_connect. simpl. destruct (client_connect _ n) as [[c|e] n'] eqn:Hcon; simpl; [|done].
    apply Hgo; [|by exists n, n'].
    destruct Hok as [Hlen Hc]. split; [by rewrite length_insert|].
    intros j c' Hj. apply list_lookup_insert_Some in Hj as [(-> & [= ->] & _)|[_ Hj]].
    + exists u. split; [done|]. by exists n, n'.
    + by apply Hc.
  - apply lookup_ge_None in Hi. destruct Hok as [Hlen _].
    apply lookup_lt_Some in Hown. lia.
Qed.
End connections.
