(* ===== verification/ExecutionFacts.v ===== *)
(** * Correctness of executing a binding

    Grouping, the order in which a chain of fallbacks is tried, and what the
    bindings of registered services answer. *)

From S2P Require Import Prelude RustStd Common Proto Query Registry.
From S2P Require Import RegistryFacts RegistrySpec Ess EssFacts StreamingEss.
From S2P Require Import Connection Execution Broker BrokerFacts.
From S2P Require Import BrokerConnections.

(** ** [group] *)
Definition values_of {K V} `{EqDecision K} (k : K) (l : list (K * V)) : list V :=
  (filter (λ kv, kv.1 = k) l).*2.

Lemma lookup_group {K V} `{Countable K} (l : list (K * V)) k :
  group l !! k = if decide (k ∈ l.*1) then Some (values_of k l) else None.
Proof.
  unfold group, values_of. induction l as [|[k' v] l IH] using rev_ind.
  { simpl. by rewrite lookup_empty. }
  rewrite foldl_app, filter_app, !fmap_app. cbn [foldl fst snd].
  rewrite lookup_insert, filter_cons, filter_nil. simpl.
  destruct (decide (k' = k)) as [->|Hne].
  - rewrite IH, (decide_True (P := k ∈ l.*1 ++ [k])) by set_solver.
    destruct (decide (k ∈ l.*1)) as [Hk|Hk]; [done|]. simpl. f_equal.
    rewrite (list_filter_nil (λ kv : K * V, kv.1 = k) l); [done|].
    intros [k1 v1] Hin. simpl. intros ->. apply Hk, list_elem_of_fmap. eexists. by split; [|exact Hin].
  - rewrite IH. simpl. rewrite app_nil_r.
    destruct (decide (k ∈ l.*1)); [rewrite decide_True by set_solver|
      rewrite decide_False by set_solver]; done.
Qed.

Lemma elem_of_values_of {K V} `{EqDecision K} (k : K) (v : V) l :
  v ∈ values_of k l ↔ (k, v) ∈ l.
Proof.
  unfold values_of. rewrite list_elem_of_fmap. split.
  - intros ([k' v'] & -> & [<- ?]%list_elem_of_filter). done.
  - intros Hin. exists (k, v). split; [done|]. by apply list_elem_of_filter.
Qed.

Lemma NoDup_values_of {K V} `{EqDecision K} (k : K) (l : list (K * V)) :
  NoDup l → NoDup (values_of k l).
Proof.
  intros Hnd. unfold values_of. apply NoDup_fmap_2_strong; [|by apply NoDup_filter].
  intros [k1 v1] [k2 v2] [? _]%list_elem_of_filter [? _]%list_elem_of_filter ?. by simplify_eq/=.
Qed.

Section execution.
Context `{!UrlLib, !HashOrder, !RegexLib, !Transport} `{!Channels unit (result Event Status)}.

(** ** Inspecting

    What is said about a namespace: all its intents, each once. *)
Lemma inspect_entries_spec (r : regex) (intents : list IntentConfiguration) :
  NoDup intents →
  NoDup (path <$> inspect_entries r intents) ∧
  (∀ en, en ∈ inspect_entries r intents → ∃ ns kinds,
     en = inspect_entry (ns, kinds) ∧ is_match r ns = true ∧ kinds ≠ [] ∧ NoDup kinds ∧
     ∀ k, k ∈ kinds ↔ mkIntentConfiguration ns k ∈ intents) ∧
  (∀ ns k, is_match r ns = true → mkIntentConfiguration ns k ∈ intents →
     ns ∈ path <$> inspect_entries r intents).
Proof.
  intros Hnd. unfold inspect_entries.
  set (l := into_namespaced_intent <$> filter _ intents).
  assert (NoDup l) as Hl.
  { apply NoDup_fmap_2; [|by apply NoDup_filter]. by intros [] [] [= -> ->]. }
  assert (∀ ns k, (ns, k) ∈ l ↔ is_match r ns = true ∧ mkIntentConfiguration ns k ∈ intents) as Hin.
  { intros ns k. unfold l. rewrite list_elem_of_fmap. split.
    - intros ([ns' k'] & [= -> ->] & Hf%list_elem_of_filter). done.
    - intros Hf. exists (mkIntentConfiguration ns k). split; [done|]. by apply list_elem_of_filter. }
  assert (path <$> (inspect_entry <$> map_iter (group l)) = (map_iter (group l)).*1) as Hp.
  { rewrite <- list_fmap_compose. apply list_fmap_ext. by intros _ [ns kinds] _. }
  split_and!.
  - rewrite Hp. apply NoDup_map_iter.
  - intros en ([ns kinds] & -> & Hg)%list_elem_of_fmap. apply elem_of_map_iter in Hg.
    rewrite lookup_group in Hg. case_decide as Hns; [|done]. injection Hg as <-.
    apply list_elem_of_fmap in Hns as ([ns' k] & -> & Hk). simpl in *.
    exists ns', (values_of ns' l). pose proof (proj1 (Hin _ _) Hk) as [Hm _].
    split_and!; [done|done| |by apply NoDup_values_of|].
    + intros Hnil. apply elem_of_values_of in Hk. rewrite Hnil in Hk. set_solver.
    + intros k'. rewrite elem_of_values_of, Hin. naive_solver.
  - intros ns k Hm Hk. rewrite Hp. apply list_elem_of_fmap.
    exists (ns, values_of ns l). split; [done|]. apply elem_of_map_iter.
    rewrite lookup_group, decide_True; [done|]. apply list_elem_of_fmap.
    exists (ns, k). split; [done|]. by apply Hin.
Qed.

(** ** Fallback chains

    The remote providers of a binding without system bindings, in the order they
    are tried. *)
Fixpoint remotes {T} (b : RuntimeBinding T) : option (list T) :=
  match b with
  | Remote p => Some [p]
  | Fallback primary secondary =>
      l1 ← remotes primary; l2 ← remotes secondary; Some (l1 ++ l2)
  | _ => None
  end.

(** Try the providers one after the other until one succeeds; the last error is
    the answer when none does. *)
Fixpoint try_in_order {W T C} `{!ConnectionProvider W T C, !ConnectedProvider W C}
    (ps : list T) (arg : IntentMessage) (last : Status) (w : W)
    : result FulfillResponse Status * W :=
  match ps with
  | [] => (Err last, w)
  | p :: ps =>
      let '(res, w) := execute_remote p arg w in
      match res with
      | Ok ok => (Ok ok, w)
      | Err e => try_in_order ps arg e w
      end
  end.

Section chain.
Context {W T C : Type} `{!ConnectionProvider W T C, !ConnectedProvider W C}.

Lemma try_in_order_app (l1 l2 : list T) arg e (w : W) :
  l1 ≠ [] →
  try_in_order (l1 ++ l2) arg e w =
    let '(res, w) := try_in_order l1 arg e w in
    match res with
    | Ok ok => (Ok ok, w)
    | Err e => try_in_order l2 arg e w
    end.
Proof.
  revert e w. induction l1 as [|p l1 IH]; intros e w Hne; [done|]. simpl.
  destruct (execute_remote p arg w) as [[ok|e'] w']; [done|].
  destruct l1 as [|p' l1]; [done|]. by apply IH.
Qed.

Lemma remotes_nonempty (b : RuntimeBinding T) l : remotes b = Some l → l ≠ [].
Proof.
  revert l. induction b as [p|b1 IH1 b2 IH2| | |]; simpl; intros l; try done.
  - by intros [= <-].
  - destruct (remotes b1) as [l1|]; [|done]. destruct (remotes b2) as [l2|]; [|done].
    intros [= <-]. specialize (IH1 l1 eq_refl). by destruct l1.
Qed.

Lemma execute_chain (b : RuntimeBinding T) ps arg e w s :
  remotes b = Some ps →
  execute b arg (w, s) =
    let '(res, w') := try_in_order ps arg e w in Return (res, (w', s)).
Proof.
  revert ps e w. induction b as [p|b1 IH1 b2 IH2| | |]; simpl; intros ps e w; try done.
  - intros [= <-]. simpl. by destruct (execute_remote p arg w) as [[ok|e'] w'].
  - destruct (remotes b1) as [l1|] eqn:E1; [|done]. destruct (remotes b2) as [l2|]; [|done].
    intros [= <-]. rewrite try_in_order_app by by eapply remotes_nonempty.
    rewrite (IH1 l1 e w eq_refl). destruct (try_in_order l1 arg e w) as [[ok|e'] w']; [done|].
    cbn [mbind outcome_bind]. by apply IH2.
Qed.
End chain.

(** ** Bindings of registered services *)
Lemma execute_binds_to owners s b broker arg cells (n : net) st :
  cells_ok owners cells → binding_owned owners b → binds_to s b →
  ∃ res cells' n', execute (binding_into_runtime_binding broker b) arg ((cells, n), st) =
      Return (res, ((cells', n'), st)) ∧ cells_ok owners cells' ∧
    match res with
    | Ok resp => answered_by (url s) arg resp
    | Err status => code status = Unknown
    end.
Proof.
  intros Hok Hown [cell ->]. simpl in Hown.
  pose proof (execute_remote_answer owners (mkReusableProvider (mkGrpcProvider (url s)) cell)
    arg cells n Hok Hown) as Ha.
  cbn [execute binding_into_runtime_binding fst snd].
  destruct (execute_remote _ arg (cells, n)) as [res [cells' n']].
  exists res, cells', n'. done.
Qed.

Lemma execute_binding_for owners Svc b broker arg cells (n : net) st :
  cells_ok owners cells → binding_owned owners b → binding_for Svc b →
  ∃ res w', execute (binding_into_runtime_binding broker b) arg ((cells, n), st) =
      Return (res, (w', st)) ∧
    match res with
    | Ok resp => ∃ s, s ∈ Svc ∧ answered_by (url s) arg resp
    | Err status => code status = Unknown
    end.
Proof.
  intros Hok Hown Hb. destruct Hb as [l c b1 b2 Hl _ Hc _ Hb1 Hb2|s b1 Hs _ Hb1].
  - destruct Hown as [Ho1 Ho2]. cbn [execute binding_into_runtime_binding].
    destruct (execute_binds_to owners c b1 broker arg cells n st Hok Ho1 Hb1)
      as (res & cells1 & n1 & -> & Hok1 & Hres). cbn [mbind outcome_bind].
    destruct res as [resp|status].
    + exists (Ok resp), (cells1, n1). split; [done|]. by exists c.
    + destruct (execute_binds_to owners l b2 broker arg cells1 n1 st Hok1 Ho2 Hb2)
        as (res & cells2 & n2 & -> & _ & Hres2).
      exists res, (cells2, n2). split; [done|]. destruct res; [by exists l|done].
  - destruct (execute_binds_to owners s b1 broker arg cells n st Hok Hown Hb1)
      as (res & cells1 & n1 & -> & _ & Hres).
    exists res, (cells1, n1). split; [done|]. destruct res; [by exists s|done].
Qed.
End execution.
