(* ===== verification/Server.v ===== *)
(** * The gRPC server of the broker

    [intent_brokering/src/intent_brokering_grpc.rs], the handlers of the three
    calls, and [intent_brokering/src/main.rs], which builds the server from the
    environment and prunes its registry.  A handler reads the clock at most once;
    the time it reads is an argument. *)

From S2P Require Import Prelude RustStd Common Proto Query Registry Ess.
From S2P Require Import StreamingEss Connection Execution Broker.
Open Scope chariott_scope.

Definition INTENT_MAPPING_DISCOVER : Z := 0.
Definition INTENT_MAPPING_INSPECT : Z := 1.
Definition INTENT_MAPPING_READ : Z := 2.
Definition INTENT_MAPPING_WRITE : Z := 3.
Definition INTENT_MAPPING_INVOKE : Z := 4.
Definition INTENT_MAPPING_SUBSCRIBE : Z := 5.

Definition invalid_argument (message : string) : Status := mkStatus InvalidArgument message.

Definition map_intent_value (intent_value : Z) : result IntentKind Status :=
  if decide (intent_value = INTENT_MAPPING_DISCOVER) then Ok Discover
  else if decide (intent_value = INTENT_MAPPING_INSPECT) then Ok Inspect
  else if decide (intent_value = INTENT_MAPPING_READ) then Ok Read
  else if decide (intent_value = INTENT_MAPPING_WRITE) then Ok Write
  else if decide (intent_value = INTENT_MAPPING_INVOKE) then Ok Invoke
  else if decide (intent_value = INTENT_MAPPING_SUBSCRIBE) then Ok Subscribe
  else Err (invalid_argument "No such intent known.").

Definition map_intent_variant (i : IntentEnum) : IntentKind :=
  match i with
  | IDiscover _ => Discover
  | IInspect _ => Inspect
  | IRead _ => Read
  | IWrite _ => Write
  | IInvoke _ => Invoke
  | ISubscribe _ => Subscribe
  end.

Definition create_configruation_from_registration (i : IntentRegistration)
    : result IntentConfiguration Status :=
  result_map (λ kind, mkIntentConfiguration (ir_namespace i) kind) (map_intent_value (ir_intent i)).

Definition map_locality_value (loc : Z) : result ExecutionLocality Status :=
  if decide (loc = 0)%Z then Ok Local
  else if decide (loc = 1)%Z then Ok Cloud
  else Err (invalid_argument "No such intent known.").

Section server.
Context `{!UrlLib, !HashOrder, !RegexLib, !Transport} `{!Channels unit (result Event Status)}.

Definition resolve_service_configuration (service : IntentServiceRegistration)
    : result ServiceConfiguration Status :=
  result_map
    (λ '(loc, u), mkServiceConfiguration (mkServiceId (isr_name service) (isr_version service)) u loc)
    (and_then (map_locality_value (isr_locality service)) (λ loc,
      result_map (λ u, (loc, u))
        (ok_or (url_parse (isr_url service)) (invalid_argument "Service URL is not valid.")))).

Record IntentBrokeringServer (T : Type) := mkIntentBrokeringServer {
  broker : IntentBroker;
  registry : Registry T
}.
#[global] Arguments mkIntentBrokeringServer {T}.
#[global] Arguments broker {T}.
#[global] Arguments registry {T}.

Section handlers.
Context {T : Type} `{!Observer World T}.

Definition IntentBrokeringServer_new (r : Registry T) (b : IntentBroker)
    : IntentBrokeringServer T := mkIntentBrokeringServer b r.

(** [registry_do] runs [f] under the write lock of the registry; [f] may panic
    and may notify the observer. *)
Definition registry_do {U} (self : IntentBrokeringServer T)
    (f : Registry T → World → outcome (U * Registry T * World)) (w : World)
    : outcome (U * IntentBrokeringServer T * World) :=
  '(u, r, w) ← f (registry self) w;
  Return (u, mkIntentBrokeringServer (broker self) r, w).

Definition announce (self : IntentBrokeringServer T) (request : AnnounceRequest) (now : Z)
    : result AnnounceResponse Status * IntentBrokeringServer T :=
  match ok_or (announce_service request) (invalid_argument "service is required") with
  | Err e => (Err e, self)
  | Ok service =>
      match resolve_service_configuration service with
      | Err e => (Err e, self)
      | Ok svc_cfg =>
          let '(touched, r) := touch (registry self) svc_cfg now in
          let state := if touched : bool then NotChanged else Announced in
          (Ok (mkAnnounceResponse (RegistrationState_as_i32 state)),
           mkIntentBrokeringServer (broker self) r)
      end
  end.

Definition register (self : IntentBrokeringServer T) (request : RegisterRequest) (now : Z) (w : World)
    : outcome (result RegisterResponse Status * IntentBrokeringServer T * World) :=
  try! service := ok_or (register_service request) (invalid_argument "service is required")
    else self with w in
  try! svc_cfg := resolve_service_configuration service else self with w in
  try! intents :=
    collect_result (create_configruation_from_registration <$> register_intents request)
    else self with w in
  '(res, r, w) ← upsert (registry self) svc_cfg intents now w;
  Return (match res with
          | Ok _ => Ok mkRegisterResponse
          | Err e => Err (mkStatus Unknown (Error_message e))
          end, mkIntentBrokeringServer (broker self) r, w).

Definition fulfill (self : IntentBrokeringServer T) (request : RuntimeFulfillRequest) (w : World)
    : outcome (result FulfillResponse Status * World) :=
  try! intent := ok_or (rf_intent request) (invalid_argument "intent is required") else w in
  try! kind :=
    match intent_enum intent with
    | Some i => Ok (map_intent_variant i)
    | None => Err (invalid_argument "Intent is not known.")
    end else w in
  let config := mkIntentConfiguration (rf_namespace request) kind in
  try! binding :=
    ok_or (resolve (broker self) config w) (mkStatus NotFound "No provider found.") else w in
  '(res, (n, s)) ← execute binding intent (network w, streaming w);
  Return (result_map (λ response, mkFulfillResponse (fulfillment response)) res,
          mkWorld (bindings_by_intent w) n s).
End handlers.

(** ** main.rs *)
Abbreviation MainServer := (IntentBrokeringServer (Composite IntentBroker StreamingRef)).

(** The errors of [main] before it serves: of the environment, and of the reflection
    service. *)
Inductive SetupError (RE : Type) : Type :=
  | InvalidTtl (e : IntErrorKind)
  | NoReflection (e : RE).
#[global] Arguments InvalidTtl {RE} e.
#[global] Arguments NoReflection {RE} e.

Section main.
Context (var_os : string → option string) (utf8 : string → bool).
(** What the builder of the reflection service answers in a debug build; [None] in
    other builds, which leave it out. *)
Context {RE : Type} (reflection_service : option (result unit RE)).

Definition streaming_url_text (host : option string) : string :=
  "http://" +:+ default "localhost" host +:+ ":" +:+ "4243".

Definition registry_config : outcome (result Config IntErrorKind) :=
  ttl ← try_env var_os utf8 parse_u64 "INTENT_BROKERING_REGISTRY_TTL_SECS";
  Return (result_map (λ v,
    default Config_default
      (set_entry_ttl_bounded Config_default <$> (duration_from_secs <$> v))) (option_ext_ok ttl)).

(** What [main] builds before it starts to serve, from the state of the network
    and the channels it starts with. *)
Definition main_setup (n : net) (ch : chans)
    : outcome (result (MainServer * World) (SetupError RE)) :=
  let streaming_ess := StreamingEss_new ch in
  host ← env var_os utf8 (λ s, Ok s : result string IntErrorKind) "EXTERNAL_HOST_NAME";
  u ← unwrap (ok_or (url_parse (streaming_url_text host)) tt);
  let '(broker, w) := IntentBroker_new u the_streaming_ess ([], n) streaming_ess in
  cfg ← registry_config;
  match cfg with
  | Err e => Return (Err (InvalidTtl e))
  | Ok cfg =>
      let r := Registry_new (mkComposite _ _ broker the_streaming_ess) cfg in
      match reflection_service with
      | Some (Err e) => Return (Err (NoReflection e))
      | _ => Return (Ok (IntentBrokeringServer_new r broker, w))
      end
  end.
End main.

(** What the server is asked to do, each with the time its handler reads. *)
Inductive Call :=
  | CallAnnounce (request : AnnounceRequest) (now : Z)
  | CallRegister (request : RegisterRequest) (now : Z)
  | CallFulfill (request : RuntimeFulfillRequest)
  | CallOpen (id : string).
Inductive Answer :=
  | AnsAnnounce (res : result AnnounceResponse Status)
  | AnsRegister (res : result RegisterResponse Status)
  | AnsFulfill (res : result FulfillResponse Status)
  | AnsOpen (res : result (OpenResponse (T := unit)) Status).

Definition handle (metadata_value : string → option string) (c : Call)
    (self : MainServer) (w : World) : outcome (Answer * MainServer * World) :=
  match c with
  | CallAnnounce request now =>
      let '(res, self) := announce self request now in Return (AnsAnnounce res, self, w)
  | CallRegister request now =>
      '(res, self, w) ← register self request now w; Return (AnsRegister res, self, w)
  | CallFulfill request =>
      '(res, w) ← fulfill self request w; Return (AnsFulfill res, self, w)
  | CallOpen id =>
      '(res, s) ← open metadata_value id (streaming w);
      Return (AnsOpen res, self, mkWorld (bindings_by_intent w) (network w) s)
  end.

Fixpoint handle_all (metadata_value : string → option string) (calls : list Call)
    (self : MainServer) (w : World) : outcome (list Answer * MainServer * World) :=
  match calls with
  | [] => Return ([], self, w)
  | c :: calls =>
      '(answer, self, w) ← handle metadata_value c self w;
      '(answers, self, w) ← handle_all metadata_value calls self w;
      Return (answer :: answers, self, w)
  end.

(** How [select!] ends in the prune loop. *)
Inductive Wake := DeadlineReached | ErrorCancelled | CtrlCCancelled.

(** [registry_prune_loop]: an iteration reads the time and prunes, then sleeps
    until the deadline or a cancellation while the server handles other calls.
    The result tells whether the loop has ended, and the deadlines it slept on. *)
Fixpoint registry_prune_loop (metadata_value : string → option string)
    (iterations : list (Z * list Call * Wake)) (server : MainServer) (w : World)
    : outcome (bool * list Z * MainServer * World) :=
  match iterations with
  | [] => Return (false, [], server, w)
  | (now, calls, wake) :: iterations =>
      '(_, wakeup_deadline, server, w) ←
        registry_do server (λ reg w, prune reg now w) w;
      '(_, server, w) ← handle_all metadata_value calls server w;
      match wake with
      | DeadlineReached =>
          '(ended, deadlines, server, w) ←
            registry_prune_loop metadata_value iterations server w;
          Return (ended, wakeup_deadline :: deadlines, server, w)
      | ErrorCancelled | CtrlCCancelled => Return (true, [wakeup_deadline], server, w)
      end
  end.
End server.
