(* ===== verification/ServerFacts.v ===== *)
(** * The server between requests

    The states the running broker can reach, from what [main] builds through the
    handled calls, the pruning of the registry and the iterations of the streaming
    tasks, and the invariant all of them satisfy. *)

From S2P Require Import Prelude RustStd Common Proto Query Registry.
From S2P Require Import RegistryFacts RegistrySpec Ess EssFacts StreamingEss.
From S2P Require Import Connection Execution Broker BrokerFacts.
From S2P Require Import BrokerConnections Server.

Section facts.
Context `{!UrlLib, !HashOrder, !RegexLib, !Transport} `{!Channels unit (result Event Status)}.
Abbreviation MainServer := (IntentBrokeringServer (Composite IntentBroker StreamingRef)).
Implicit Types (self : MainServer) (w : World).

(** ** Reachable states *)
Section reachable.
Context (metadata_value : string → option string) (overflow_checks : bool).

Inductive server_step : MainServer * World → MainServer * World → Prop :=
  | step_call c answer self w self' w' :
      handle metadata_value c self w = Return (answer, self', w') →
      server_step (self, w) (self', w')
  | step_prune now out self w self' w' :
      registry_do self (λ reg w, prune reg now w) w = Return (out, self', w') →
      server_step (self, w) (self', w')
  | step_task t now selected seq log continue seq' e log' self w :
      t ∈ tasks (streaming w) →
      serve_iteration overflow_checks (task_subscription t) (into_event now t) log_handlers
        selected seq (ess (streaming w)) log = Return (continue, seq', e, log') →
      server_step (self, w)
        (self, mkWorld (bindings_by_intent w) (network w)
                 (mkStreamingEss (if continue then e else drop_subscription (task_subscription t) e)
                    (tasks (streaming w)))).

(** From what [main] builds for a broker whose streaming URL is [u]. *)
Inductive reachable (u : Url) : MainServer * World → Prop :=
  | reachable_init cfg n ch :
      reachable u
        (IntentBrokeringServer_new (Registry_new server_observer cfg) the_broker,
         (IntentBroker_new u the_streaming_ess ([], n) (StreamingEss_new ch)).2)
  | reachable_step st st' : reachable u st → server_step st st' → reachable u st'.
End reachable.

(** ** The invariant *)
Record server_ok (initial : gmap IntentConfiguration Binding) self w : Prop := {
  srv_wf : registry_wf (registry self);
  srv_observer : observer (registry self) = server_observer;
  srv_synced : synced initial (external_services_by_intent (registry self)) (bindings_by_intent w);
  srv_cells : ∃ owners, cells_ok owners (network w).1 ∧ bindings_owned owners (bindings_by_intent w);
  srv_ess : ess_config (ess (streaming w)) = EssConfig_default
}.

Lemma streaming_on_change_config changes s :
  ess_config (ess (streaming_on_change changes s)) = ess_config (ess s).
Proof.
  unfold streaming_on_change. generalize (set_iter (list_to_set (C := gset string)
    (omap changed_namespace changes))).
  intros l. revert s. induction l as [|x l IH]; intros s; [done|]. cbn [foldl].
  rewrite IH. simpl. apply publish_config.
Qed.

Lemma notify_ess changes w w' :
  notify server_observer changes w = Return w' →
  ess_config (ess (streaming w')) = ess_config (ess (streaming w)).
Proof.
  destruct changes as [|c cs]; cbn [notify].
  { by intros [= <-]. }
  unfold on_change, Composite_observer, on_change, IntentBroker_observer, StreamingEss_observer.
  destruct (refresh _ _ _) as [b n]. cbn [mbind outcome_bind]. intros [= <-].
  apply streaming_on_change_config.
Qed.

(** Every operation of the registry preserves the invariant. *)
Lemma registry_step_ok initial op self w reply r' w' :
  system_only initial → server_ok initial self w →
  step op (registry self) w = Return (reply, r', w') →
  server_ok initial (mkIntentBrokeringServer (broker self) r') w'.
Proof.
  intros Hinit [Hwf Hobs Hsync (owners & Hc & Hb) Hess] Hst.
  destruct (step_changes _ _ _ _ _ _ Hwf Hst) as (Hobs' & changes & _ & Hn).
  rewrite Hobs in Hn. pose proof (notify_bindings _ _ _ Hn) as Hr. split; simpl.
  - by eapply step_wf.
  - congruence.
  - by eapply step_synced.
  - destruct (network w) as [cells n] eqn:Ew. simpl in Hc.
    pose proof (refresh_owned changes owners (bindings_by_intent w) cells n Hc Hb) as Ho.
    rewrite <- Hr in Ho. destruct (network w') as [cells' n'].
    destruct Ho as (more & ? & ?). by exists (owners ++ more).
  - by rewrite (notify_ess _ _ _ Hn).
Qed.

(** ** Executing a binding of the table *)
Lemma register_subscriptions_config cid req
    (x : @EventSubSystem string string unit (result Event Status) _ _ _ _ _) res x' :
  register_subscriptions cid req x = Return (res, x') → ess_config x' = ess_config x.
Proof.
  unfold register_subscriptions. destruct (_ !! cid); [|by intros [= _ <-]].
  destruct (for_each _ _ _) as [[[[? ?] ?] ?]|]; [|done]. by intros [= _ <-].
Qed.

Lemma serve_subscriptions_config i f s res s' :
  serve_subscriptions (T := unit) i f s = Return (res, s') →
  ess_config (ess s') = ess_config (ess s).
Proof.
  unfold serve_subscriptions.
  destruct (register_subscriptions _ _ _) as [[[l|e] x]|] eqn:E; cbn [mbind outcome_bind]; [| |done];
    intros [= _ <-]; by apply register_subscriptions_config in E.
Qed.

Lemma execute_frame owners broker b arg cells (n : net) s res cells' (n' : net) s' :
  cells_ok owners cells → binding_owned owners b →
  execute (binding_into_runtime_binding broker b) arg ((cells, n), s) =
    Return (res, ((cells', n'), s')) →
  cells_ok owners cells' ∧ ess_config (ess s') = ess_config (ess s).
Proof.
  revert cells n s res cells' n' s'.
  induction b as [p|b1 IH1 b2 IH2| |u|[]]; intros cells n s res cells' n' s' Hok Hown;
    cbn [execute binding_into_runtime_binding].
  - cbn [fst snd]. pose proof (execute_remote_answer owners p arg cells n Hok Hown) as Ha.
    destruct (execute_remote p arg (cells, n)) as [res1 [cells1 n1]].
    intros [= _ <- _ <-]. by destruct Ha.
  - destruct Hown as [Ho1 Ho2].
    destruct (execute _ arg (cells, n, s)) as [[res1 [[cells1 n1] s1]]|] eqn:E1; [|done].
    cbn [mbind outcome_bind]. destruct (IH1 _ _ _ _ _ _ _ Hok Ho1 E1) as [Hok1 Hs1].
    destruct res1 as [ok|e]; [by intros [= _ <- _ <-]|].
    intros E2. destruct (IH2 _ _ _ _ _ _ _ Hok1 Ho2 E2). split; [done|congruence].
  - destruct (intent_enum arg) as [[]|]; try done.
    destruct (regex_from_query _); [|done]. by intros [= _ <- _ <-].
  - by intros [= _ <- _ <-].
  - destruct (intent_enum arg) as [[]|]; try done. cbn [fst snd].
    destruct (serve_subscriptions _ _ _) as [[r s1]|] eqn:E; [|done].
    intros [= _ <- _ <-]. split; [done|]. by eapply serve_subscriptions_config.
Qed.

Lemma resolve_owned owners w ic b :
  bindings_owned owners (bindings_by_intent w) → resolve the_broker ic w = Some b →
  ∃ b', b = binding_into_runtime_binding (bindings_by_intent w) b' ∧
        bindings_by_intent w !! ic = Some b' ∧ binding_owned owners b'.
Proof.
  intros Hb. unfold resolve, binder_resolve.
  destruct (_ !! ic) as [b'|] eqn:E; simpl; [|done]. intros [= <-]. exists b'.
  split_and!; [done|done|]. by eapply Hb.
Qed.

Lemma fulfill_ok initial self request w res w' :
  server_ok initial self w → fulfill self request w = Return (res, w') →
  server_ok initial self w'.
Proof.
  intros Hok. unfold fulfill. destruct (rf_intent request) as [i|]; simpl; [|by intros [= _ <-]].
  destruct (intent_enum i) as [e|]; [|by intros [= _ <-]].
  destruct (resolve _ _ w) as [b|] eqn:Hr; simpl; [|by intros [= _ <-]].
  destruct Hok as [Hwf Hobs Hsync (owners & Hc & Hb) Hess].
  destruct (broker self). destruct (resolve_owned _ _ _ _ Hb Hr) as (b' & -> & _ & Hown).
  destruct (network w) as [cells n] eqn:Ew.
  destruct (execute _ _ _) as [[r [[cells' n'] s']]|] eqn:Ee; [|done].
  intros [= _ <-]. destruct (execute_frame _ _ _ _ _ _ _ _ _ _ _ Hc Hown Ee) as [Hc' Hs'].
  split; simpl; [done|done|done|by exists owners|congruence].
Qed.

(** ** The handlers as operations of the registry *)
Lemma announce_step self request now w res self' :
  announce self request now = (res, self') →
  self' = self ∨
  ∃ s reply r, step (OpTouch s now) (registry self) w = Return (reply, r, w) ∧
               self' = mkIntentBrokeringServer (broker self) r.
Proof.
  unfold announce. destruct (ok_or _ _) as [svc|]; [|intros [= _ <-]; by left].
  destruct (resolve_service_configuration svc) as [s|]; [|intros [= _ <-]; by left].
  destruct (touch (registry self) s now) as [b r] eqn:Ht. intros [= _ <-]. right.
  exists s, (Touched b), r. split; [|done]. simpl. by rewrite Ht.
Qed.

Lemma register_step_registry self request now w res self' w' :
  register self request now w = Return (res, self', w') →
  (self' = self ∧ w' = w) ∨
  ∃ s ics reply r, step (OpUpsert s ics now) (registry self) w = Return (reply, r, w') ∧
                   self' = mkIntentBrokeringServer (broker self) r.
Proof.
  unfold register. destruct (ok_or _ _) as [svc|]; [|intros [= _ <- <-]; by left].
  destruct (resolve_service_configuration svc) as [s|]; [|intros [= _ <- <-]; by left].
  destruct (collect_result _) as [ics|]; [|intros [= _ <- <-]; by left].
  destruct (upsert _ s ics now w) as [[[r1 r] w1]|] eqn:E; [|done].
  intros [= _ <- <-]. right. do 4 eexists. split; [|done]. simpl. by rewrite E.
Qed.

Lemma open_config mv id s res s' :
  open (T := unit) mv id s = Return (res, s') → ess_config (ess s') = ess_config (ess s).
Proof.
  unfold open, read_events. destruct (mpsc_channel _ _) as [[[tx rx] ch]|]; [|done].
  cbn [mbind outcome_bind]. destruct (_ !! id); cbn [mbind outcome_bind];
    (destruct (unwrap_option _); [|done]); by intros [= _ <-].
Qed.

Lemma handle_ok mv initial c self w answer self' w' :
  system_only initial → server_ok initial self w →
  handle mv c self w = Return (answer, self', w') → server_ok initial self' w'.
Proof.
  intros Hinit Hok. destruct c as [req now|req now|req|id]; simpl.
  - destruct (announce self req now) as [res s1] eqn:E. intros [= _ <- <-].
    apply (announce_step _ _ _ w) in E as [->|(s & reply & r & Hst & ->)]; [done|].
    by eapply registry_step_ok.
  - destruct (register self req now w) as [[[res s1] w1]|] eqn:E; [|done]. intros [= _ <- <-].
    apply register_step_registry in E as [[-> ->]|(s & ics & reply & r & Hst & ->)]; [done|].
    by eapply registry_step_ok.
  - destruct (fulfill self req w) as [[res w1]|] eqn:E; [|done]. intros [= _ <- <-].
    by eapply fulfill_ok.
  - destruct (open mv id (streaming w)) as [[res s]|] eqn:E; [|done]. intros [= _ <- <-].
    apply open_config in E. destruct Hok. split; simpl; [done..|congruence].
Qed.

Lemma prune_ok initial now self w out self' w' :
  system_only initial → server_ok initial self w →
  registry_do self (λ reg w, prune reg now w) w = Return (out, self', w') →
  server_ok initial self' w'.
Proof.
  intros Hinit Hok. unfold registry_do.
  destruct (prune (registry self) now w) as [[[[sp d] r] w1]|] eqn:E; [|done].
  intros [= _ <- <-]. apply (registry_step_ok initial (OpPrune now) self w (Pruned sp d)); [done..|].
  simpl. by rewrite E.
Qed.

Lemma task_ok checks (t : Task (T := unit)) f sel seq e log c seq' e' log' :
  serve_iteration checks (task_subscription t) f log_handlers sel seq e log =
    Return (c, seq', e', log') → ess_config e' = ess_config e.
Proof.
  destruct sel; cbn [serve_iteration]; try by intros [= _ _ <- _].
  destruct (add_u64 _ _ _); [|done]. cbn [mbind outcome_bind].
  destruct (try_send _ _ _) as [[|x|x] ch]; by intros [= _ _ <- _].
Qed.

Lemma reachable_ok mv checks u self w :
  reachable mv checks u (self, w) → server_ok (IntentBinder_new u the_streaming_ess) self w.
Proof.
  pose proof (IntentBinder_new_system u the_streaming_ess) as Hinit.
  remember (self, w) as st eqn:Est. intros Hr. revert self w Est.
  induction Hr as [cfg n ch|[self0 w0] st' Hr IH Hst]; intros self w Est.
  - injection Est as <- <-. split; simpl; [apply new_wf|done| | |done].
    + intros ic. by rewrite lookup_empty.
    + exists []. split; [done|]. intros ic b Hb.
      apply elem_of_list_to_map_2 in Hb.
      repeat (apply elem_of_cons in Hb as [[= _ ->]|Hb]; [done|]). set_solver.
  - specialize (IH self0 w0 eq_refl). inversion Hst; simplify_eq.
    + by eapply handle_ok.
    + by eapply prune_ok.
    + destruct IH as [? ? ? ? Hess]. split; simpl; [done..|].
      match goal with E : serve_iteration _ _ _ _ _ _ _ _ = _ |- _ => apply task_ok in E end.
      destruct continue; simpl; congruence.
Qed.

(** The calls of a sequence are steps of the server. *)
Lemma handle_all_reachable mv checks u calls self w answers self' w' :
  reachable mv checks u (self, w) →
  handle_all mv calls self w = Return (answers, self', w') → reachable mv checks u (self', w').
Proof.
  revert self w answers. induction calls as [|c calls IH]; intros self w answers Hr.
  { by intros [= _ <- <-]. }
  cbn [handle_all]. destruct (handle mv c self w) as [[[a s1] w1]|] eqn:E; [|done].
  cbn [mbind outcome_bind]. destruct (handle_all mv calls s1 w1) as [[[l s2] w2]|] eqn:E2; [|done].
  intros [= _ <- <-]. eapply IH; [|exact E2]. eapply reachable_step; [exact Hr|]. by eapply step_call.
Qed.
End facts.
