(* ===== verification/ServerTotality.v ===== *)
(** * The server never panics

    Every handler returns in the states that satisfy the server's invariant, for
    every call that is [answerable]: the id of an opened channel is a metadata
    value, and an inspection's query makes a valid pattern. *)

From S2P Require Import Prelude RustStd Common Proto Query Registry.
From S2P Require Import RegistryFacts RegistrySpec Ess EssFacts StreamingEss.
From S2P Require Import Connection Execution Broker BrokerFacts.
From S2P Require Import BrokerConnections ExecutionFacts Server ServerFacts.

Section totality.
Context `{!UrlLib, !HashOrder, !RegexLib, !Transport} `{!Channels unit (result Event Status)}.
Context (metadata_value : string → option string).
#[local] Abbreviation MainServer := (IntentBrokeringServer (Composite IntentBroker StreamingRef)).
Implicit Types (self : MainServer) (w : World).

(** An inspection of the broker itself needs a query that is a valid pattern. *)
Definition valid_query (request : RuntimeFulfillRequest) : bool :=
  match rf_intent request with
  | Some i =>
      match intent_enum i with
      | Some (IInspect q) =>
          if decide (rf_namespace request = SYSTEM_REGISTRY_NAMESPACE) then
            match regex_new (regex_pattern_from_query (query q)) with Ok _ => true | Err _ => false end
          else true
      | _ => true
      end
  | None => true
  end.

Definition answerable (c : Call) : bool :=
  match c with
  | CallAnnounce _ _ | CallRegister _ _ => true
  | CallFulfill request => valid_query request
  | CallOpen id => bool_decide (is_Some (metadata_value id))
  end.

Lemma initial_cases u ic b :
  IntentBinder_new u the_streaming_ess !! ic = Some b →
  namespace ic = SYSTEM_REGISTRY_NAMESPACE ∧
  ((intent ic = Inspect ∧ b = BSystemInspect) ∨
   (intent ic = Discover ∧ b = BSystemDiscover u) ∨
   (intent ic = Subscribe ∧ b = BSystemSubscribe the_streaming_ess)).
Proof.
  intros Hb%elem_of_list_to_map_2.
  repeat (apply elem_of_cons in Hb as [[= -> ->]|Hb]; [by naive_solver|]). set_solver.
Qed.

(** A call that reaches the table is the execution of the binding found there. *)
Lemma fulfill_resolved self request i e b w :
  rf_intent request = Some i → intent_enum i = Some e →
  bindings_by_intent w !! mkIntentConfiguration (rf_namespace request) (map_intent_variant e) = Some b →
  fulfill self request w =
    '(res, (n, s)) ← execute (binding_into_runtime_binding (bindings_by_intent w) b) i
                       (network w, streaming w);
    Return (result_map (λ response, mkFulfillResponse (fulfillment response)) res,
            mkWorld (bindings_by_intent w) n s).
Proof.
  intros Hi He Hb. unfold fulfill. rewrite Hi. simpl. rewrite He. unfold resolve, binder_resolve.
  by rewrite Hb.
Qed.

Lemma serve_subscriptions_total sub f (s : StreamingEss (T := unit)) :
  ChannelLaws unit (result Event Status) → ess_config (ess s) = EssConfig_default →
  ∃ res s', serve_subscriptions sub f s = Return (res, s').
Proof.
  intros Hlaws Hcfg. unfold serve_subscriptions, register_subscriptions.
  destruct (client_by_id _ !! _) as [c|]; simpl; [|eauto].
  destruct (register_loop (ess_config (ess s)) (channel_id sub) (sender c)
    (sources sub) (subscriptions c) (sender_by_event_id (ess s)) []
    (channels (ess s)) Hlaws) as (su & se & nw & ch & -> & _); [|simpl; eauto].
  rewrite Hcfg. simpl. unfold DEFAULT_PUBLISH_BUFFER_SIZE. lia.
Qed.

Lemma fulfill_total u self w request :
  ChannelLaws unit (result Event Status) →
  server_ok (IntentBinder_new u the_streaming_ess) self w → valid_query request = true →
  ∃ res w', fulfill self request w = Return (res, w').
Proof.
  intros Hlaws Hok Hq. unfold valid_query in Hq.
  destruct (rf_intent request) as [i|] eqn:Hi; [|unfold fulfill; rewrite Hi; simpl; eauto].
  destruct (intent_enum i) as [e|] eqn:He; [|unfold fulfill; rewrite Hi; simpl; rewrite He; eauto].
  set (ic := mkIntentConfiguration (rf_namespace request) (map_intent_variant e)).
  destruct (bindings_by_intent w !! ic) as [b|] eqn:Hb;
    [|unfold fulfill, resolve, binder_resolve; rewrite Hi; simpl; rewrite He;
      fold ic; rewrite Hb; simpl; eauto].
  rewrite (fulfill_resolved _ _ _ _ _ _ Hi He Hb). pose proof (srv_synced _ _ _ Hok ic) as Hs.
  destruct (external_services_by_intent (registry self) !! ic) as [Svc|] eqn:Hr.
  - destruct Hs as (b' & Hb' & Hfor). destruct (srv_cells _ _ _ Hok) as (owners & Hc & Ho).
    rewrite Hb in Hb'. injection Hb' as <-. destruct (network w) as [cells n].
    destruct (execute_binding_for owners Svc b (bindings_by_intent w) i cells n (streaming w)
      Hc (Ho _ _ Hb) Hfor) as (res & [cells' n'] & -> & _). simpl. eauto.
  - rewrite Hb in Hs. symmetry in Hs. apply initial_cases in Hs as [Hns Hcase]. simpl in Hns.
    destruct Hcase as [[Hk ->]|[[Hk ->]|[Hk ->]]]; destruct e as [| | | |q|sub]; try done; simpl;
      rewrite ?He; [|by eauto|].
    + rewrite decide_True in Hq by done. unfold regex_from_query.
      destruct (regex_new _); [simpl; eauto|done].
    + destruct (serve_subscriptions_total sub (λ _, VNull 0) (streaming w) Hlaws (srv_ess _ _ _ Hok))
        as (res & s' & ->). simpl. eauto.
Qed.

Lemma register_total initial self request now w :
  server_ok initial self w → ∃ res self' w', register self request now w = Return (res, self', w').
Proof.
  intros Hok. unfold register.
  destruct (ok_or _ _) as [svc|]; [|eauto]. destruct (resolve_service_configuration svc) as [s|]; [|eauto].
  destruct (collect_result _) as [ics|]; [|eauto].
  destruct (existsb (λ ic, is_system_namespace (namespace ic)) ics) eqn:Hsys.
  - unfold upsert. rewrite Hsys. simpl. eauto.
  - destruct (upsert_eq (registry self) s ics now w (srv_wf _ _ _ Hok) Hsys) as (changes & _ & ->).
    rewrite (srv_observer _ _ _ Hok).
    destruct (notify_total _ server_observer_total changes w) as [w' ->]. simpl. eauto.
Qed.

Lemma open_total id (s : StreamingEss (T := unit)) :
  ChannelLaws unit (result Event Status) → ess_config (ess s) = EssConfig_default →
  is_Some (metadata_value id) → ∃ res s', open metadata_value id s = Return (res, s').
Proof.
  intros Hlaws Hcfg [v Hv]. unfold open, read_events. rewrite Hcfg. simpl.
  destruct (is_return_inv _ (mpsc_channel_total DEFAULT_CLIENT_BUFFER_SIZE (channels (ess s))
    (Nat.lt_0_succ _))) as [[[tx rx] ch] ->].
  simpl. destruct (_ !! id); rewrite Hv; simpl; eauto.
Qed.

Lemma handle_total u c self w :
  ChannelLaws unit (result Event Status) →
  server_ok (IntentBinder_new u the_streaming_ess) self w → answerable c = true →
  ∃ answer self' w', handle metadata_value c self w = Return (answer, self', w').
Proof.
  intros Hlaws Hok Hc. destruct c as [req now|req now|req|id]; simpl in *.
  - destruct (announce self req now). eauto.
  - destruct (register_total _ self req now w Hok) as (res & self' & w' & ->). simpl. eauto.
  - destruct (fulfill_total u self w req Hlaws Hok Hc) as (res & w' & ->). simpl. eauto.
  - apply bool_decide_eq_true in Hc.
    destruct (open_total id (streaming w) Hlaws (srv_ess _ _ _ Hok) Hc) as (res & s' & ->). simpl. eauto.
Qed.

Lemma handle_all_total u calls self w :
  ChannelLaws unit (result Event Status) →
  server_ok (IntentBinder_new u the_streaming_ess) self w →
  Forall (λ c, answerable c = true) calls →
  ∃ answers self' w', handle_all metadata_value calls self w = Return (answers, self', w') ∧
    length answers = length calls.
Proof.
  intros Hlaws Hok Hcalls. revert self w Hok.
  induction Hcalls as [|c calls Hc _ IH]; intros self w Hok; simpl; [by eauto|].
  destruct (handle_total u c self w Hlaws Hok Hc) as (a & s1 & w1 & E). rewrite E. simpl.
  eapply handle_ok in E; [|apply IntentBinder_new_system|done].
  destruct (IH s1 w1 E) as (l & s2 & w2 & -> & Hl). simpl. do 3 eexists. split; [done|]. simpl. lia.
Qed.
End totality.
