(* ===== verification/PruneLoop.v ===== *)
(** * The prune loop keeps the registry fresh

    How far behind the registry can be when the loop of [main.rs] wakes up at most
    some delay after the deadline it slept on, whatever calls the server handles in
    between. *)

From S2P Require Import Prelude RustStd Common Proto Query Registry.
From S2P Require Import RegistryFacts RegistrySpec Ess EssFacts StreamingEss.
From S2P Require Import Connection Execution Broker BrokerFacts.
From S2P Require Import BrokerConnections ExecutionFacts Server ServerFacts.
From S2P Require Import ServerTotality.

Section loop.
Context `{!UrlLib, !HashOrder, !RegexLib, !Transport} `{!Channels unit (result Event Status)}.
Context (metadata_value : string → option string).
#[local] Abbreviation MainServer := (IntentBrokeringServer (Composite IntentBroker StreamingRef)).
Implicit Types (self : MainServer) (w : World).

(** ** Reference definitions *)

(** The time the handler of a call reads, if it reads one. *)
Definition call_time (c : Call) : option Z :=
  match c with
  | CallAnnounce _ now => Some now
  | CallRegister _ now => Some now
  | CallFulfill _ | CallOpen _ => None
  end.

Definition called_between (from until : Z) (c : Call) : Prop :=
  match call_time c with Some t => (from ≤ t ≤ until)%Z | None => True end.

(** Every wake-up comes at most [delay] after the deadline that was slept on, and
    the calls of an iteration between the two wake-ups around it; [until] is when
    the last one ends. *)
Fixpoint paced (delay until : Z) (iterations : list (Z * list Call * Wake)) (deadlines : list Z)
    : Prop :=
  match iterations, deadlines with
  | (now, calls, _) :: iterations, deadline :: deadlines =>
      let next := match iterations, deadlines with
                  | (now', _, _) :: _, _ :: _ => now'
                  | _, _ => until
                  end in
      (now ≤ next ≤ deadline + delay)%Z ∧ Forall (called_between now next) calls ∧
      paced delay until iterations deadlines
  | _, _ => True
  end.

Definition seen_until self (t : Z) : Prop :=
  ∀ s ts, known_services (registry self) !! s = Some ts → (ts ≤ t)%Z.

Definition fresh_within self (delay t : Z) : Prop :=
  ∀ s ts, known_services (registry self) !! s = Some ts →
    (t ≤ ts + entry_ttl (config (registry self)) + delay)%Z.

(** ** One operation *)
Lemma step_known op (r : Registry (Composite IntentBroker StreamingRef)) w reply r' w' s ts :
  registry_wf r → step op r w = Return (reply, r', w') →
  known_services r' !! s = Some ts →
  known_services r !! s = Some ts ∨ ts = op_time op.
Proof.
  intros Hwf. destruct op as [s0 t|s0 ics t|now]; simpl.
  - unfold touch. destruct (known_services r !! s0); intros [= _ <- _]; simpl; [|by left].
    rewrite lookup_insert. case_decide; [intros [= <-]; by right|by left].
  - destruct (existsb (λ ic, is_system_namespace (namespace ic)) ics) eqn:Hsys.
    + unfold upsert. rewrite Hsys. simpl. intros [= _ <- _]. by left.
    + destruct (upsert_eq r s0 ics t w Hwf Hsys) as (changes & _ & ->).
      destruct (notify _ _ _); simpl; [|done]. intros [= _ <- _]. simpl.
      rewrite lookup_insert. case_decide; [intros [= <-]; by right|].
      intros [? _]%map_lookup_filter_Some. by left.
  - unfold prune. rewrite prune_by_eq by done. simpl.
    destruct (observe _ _ _); simpl; [|done].
    destruct (min_deadline _ _) as [d|]; simpl; [|done].
    destruct (instant_add _ _); simpl; [|done].
    destruct d; intros [= _ <- _] [? _]%map_lookup_filter_Some; by left.
Qed.

Lemma step_config op (r : Registry (Composite IntentBroker StreamingRef)) w reply r' w' :
  step op r w = Return (reply, r', w') → config r' = config r.
Proof.
  destruct op as [s0 t|s0 ics t|now]; simpl.
  - unfold touch. by destruct (known_services r !! s0); intros [= _ <- _].
  - unfold upsert, prune_by. destruct (existsb _ _); [by intros [= _ <- _]|].
    destruct (decide _); simpl.
    + destruct (for_each _ _ _) as [[? ?]|]; simpl; [|done].
      destruct (observe _ _ _); simpl; [|done]. by intros [= _ <- _].
    + destruct (for_each (retain_step _) _ _) as [[? ?]|]; simpl; [|done].
      destruct (for_each _ _ _) as [[? ?]|]; simpl; [|done].
      destruct (observe _ _ _); simpl; [|done]. by intros [= _ <- _].
  - unfold prune, prune_by. destruct (decide _); simpl.
    + destruct (observe _ _ _); simpl; [|done]. destruct (min_deadline _ _) as [d|]; simpl; [|done].
      destruct (instant_add _ _); simpl; [|done]. by destruct d; intros [= _ <- _].
    + destruct (for_each _ _ _) as [[? ?]|]; simpl; [|done].
      destruct (observe _ _ _); simpl; [|done]. destruct (min_deadline _ _) as [d|]; simpl; [|done].
      destruct (instant_add _ _); simpl; [|done]. by destruct d; intros [= _ <- _].
Qed.

(** ** One iteration *)
Lemma min_deadline_inv ttl ts o :
  min_deadline ttl ts = Return o → o = list_min ((λ t, t + ttl)%Z <$> ts).
Proof.
  revert o. induction ts as [|t ts IH]; simpl; intros o; [by intros [= <-]|].
  unfold instant_add. case_decide; simpl; [|done].
  destruct (min_deadline ttl ts) as [m|]; simpl; [|done].
  intros [= <-]. by rewrite (IH m eq_refl).
Qed.

(** The deadline is not later than the expiry of any entry that is left, nor than
    one time to live from now. *)
Lemma prune_deadline self now w sp d self' w' :
  registry_wf (registry self) → seen_until self now →
  registry_do self (λ reg w, prune reg now w) w = Return ((sp, d), self', w') →
  config (registry self') = config (registry self) ∧ seen_until self' now ∧
  (d ≤ now + entry_ttl (config (registry self)))%Z ∧
  ∀ s ts, known_services (registry self') !! s = Some ts →
    (d ≤ ts + entry_ttl (config (registry self)))%Z.
Proof.
  intros Hwf Hseen. unfold registry_do, prune. rewrite prune_by_eq by done. cbn [mbind outcome_bind].
  set (r1 := pruned _ _). destruct (observe _ _ _); cbn [mbind outcome_bind]; [|done].
  destruct (min_deadline _ _) as [o|] eqn:Hm; cbn [mbind outcome_bind]; [|done].
  apply min_deadline_inv in Hm as ->. unfold instant_add. case_decide; cbn [mbind outcome_bind]; [|done].
  assert (∀ s ts, known_services r1 !! s = Some ts → (ts ≤ now)%Z) as Hseen1.
  { intros s ts [? _]%map_lookup_filter_Some. by eapply Hseen. }
  destruct (list_min _) as [m|] eqn:Em; intros [= _ <- <- _]; simpl.
  - apply list_min_Some in Em as [Hin Hle]. split_and!; [done|done| |].
    + apply list_elem_of_fmap in Hin as (t & -> & [s Hs]%elem_of_map_values).
      specialize (Hseen1 _ _ Hs). lia.
    + intros s ts Hs. apply Hle, list_elem_of_fmap. exists ts. split; [done|].
      apply elem_of_map_values. by exists s.
  - apply list_min_None, fmap_nil_inv in Em. unfold map_values in Em.
    apply fmap_nil_inv, map_iter_nil in Em. split_and!; [done|done|lia|].
    intros s ts Hs. change (known_services r1 !! s = Some ts) in Hs.
    by rewrite Em, lookup_empty in Hs.
Qed.

(** A call changes the registry by at most one entry, dated by the call. *)
Lemma handle_known initial c self w answer self' w' :
  server_ok initial self w → handle metadata_value c self w = Return (answer, self', w') →
  config (registry self') = config (registry self) ∧
  ∀ s ts, known_services (registry self') !! s = Some ts →
    known_services (registry self) !! s = Some ts ∨ call_time c = Some ts.
Proof.
  intros Hok. pose proof (srv_wf _ _ _ Hok) as Hwf.
  assert (∀ op reply r1 w1, step op (registry self) w = Return (reply, r1, w1) →
    config r1 = config (registry self) ∧ ∀ s ts, known_services r1 !! s = Some ts →
      known_services (registry self) !! s = Some ts ∨ Some (op_time op) = Some ts) as Hgo.
  { intros op reply r1 w1 Hst. split; [by eapply step_config|].
    intros s ts Hs. destruct (step_known _ _ _ _ _ _ _ _ Hwf Hst Hs) as [?| ->]; [by left|by right]. }
  destruct c as [req now|req now|req|id]; simpl.
  - destruct (announce self req now) as [res s1] eqn:E. intros [= _ <- _].
    apply (announce_step _ _ _ w) in E as [->|(s & reply & r & Hst & ->)]; [by eauto|].
    apply (Hgo _ _ _ _ Hst).
  - destruct (register self req now w) as [[[res s1] w1]|] eqn:E; [|done]. intros [= _ <- _].
    apply register_step_registry in E as [[-> ->]|(s & ics & reply & r & Hst & ->)]; [by eauto|].
    apply (Hgo _ _ _ _ Hst).
  - destruct (fulfill self req w) as [[res w1]|] eqn:E; [|done]. intros [= _ <- _]. eauto.
  - destruct (open _ id (streaming w)) as [[res s]|] eqn:E; [|done]. intros [= _ <- _]. eauto.
Qed.

Lemma handle_all_known initial calls self w answers self' w' :
  system_only initial → server_ok initial self w →
  handle_all metadata_value calls self w = Return (answers, self', w') →
  server_ok initial self' w' ∧ config (registry self') = config (registry self) ∧
  ∀ s ts, known_services (registry self') !! s = Some ts →
    known_services (registry self) !! s = Some ts ∨ Some ts ∈ call_time <$> calls.
Proof.
  intros Hinit. revert self w answers. induction calls as [|c calls IH]; intros self w answers Hok.
  { intros [= _ <- <-]. split_and!; [done|done|]. eauto. }
  cbn [handle_all]. destruct (handle _ c self w) as [[[a s1] w1]|] eqn:E; [|done].
  cbn [mbind outcome_bind]. destruct (handle_all _ calls s1 w1) as [[[l s2] w2]|] eqn:E2; [|done].
  intros [= _ <- <-]. destruct (handle_known _ _ _ _ _ _ _ Hok E) as [Hcfg Hk].
  pose proof (handle_ok _ _ _ _ _ _ _ _ Hinit Hok E) as Hok1.
  destruct (IH _ _ _ Hok1 E2) as (Hok2 & Hcfg2 & Hk2). split_and!; [done|congruence|].
  intros s ts [Hs|Hs]%Hk2; [|set_solver]. apply Hk in Hs as [?| <-]; [by left|set_solver].
Qed.

(** An iteration that ends at [next], at most [delay] after the deadline, leaves
    no entry that is older than its time to live and [delay]. *)
Lemma iteration_fresh initial delay next now calls self w out d self1 w1 answers self2 w2 :
  system_only initial → server_ok initial self w → seen_until self now →
  registry_do self (λ reg w, prune reg now w) w = Return ((out, d), self1, w1) →
  handle_all metadata_value calls self1 w1 = Return (answers, self2, w2) →
  (now ≤ next ≤ d + delay)%Z → Forall (called_between now next) calls →
  server_ok initial self2 w2 ∧ config (registry self2) = config (registry self) ∧
  seen_until self2 next ∧ fresh_within self2 delay next.
Proof.
  intros Hinit Hok Hseen Hp Hh Hnext Hcalls.
  destruct (prune_deadline _ _ _ _ _ _ _ (srv_wf _ _ _ Hok) Hseen Hp) as (Hcfg1 & Hseen1 & Hd & Hdl).
  pose proof (prune_ok _ _ _ _ _ _ _ Hinit Hok Hp) as Hok1.
  destruct (handle_all_known _ _ _ _ _ _ _ Hinit Hok1 Hh) as (Hok2 & Hcfg2 & Hk).
  assert (∀ s ts, known_services (registry self2) !! s = Some ts →
    ts ≤ next ∧ d ≤ ts + entry_ttl (config (registry self)))%Z as Hall.
  { intros s ts [Hs|Hs]%Hk.
    - specialize (Hseen1 _ _ Hs). specialize (Hdl _ _ Hs). lia.
    - apply list_elem_of_fmap in Hs as (c & Hc & Hin). rewrite Forall_forall in Hcalls.
      specialize (Hcalls c Hin). unfold called_between in Hcalls. rewrite <- Hc in Hcalls. lia. }
  split_and!; [done|congruence| |].
  - intros s ts Hs. by apply Hall in Hs as [? _].
  - intros s ts Hs. apply Hall in Hs as [_ ?]. rewrite Hcfg2, Hcfg1. lia.
Qed.

Lemma prune_loop_fresh initial delay until iterations self w ended deadlines self' w' :
  system_only initial → server_ok initial self w → iterations ≠ [] →
  (∀ now calls wake rest, iterations = (now, calls, wake) :: rest → seen_until self now) →
  registry_prune_loop metadata_value iterations self w = Return (ended, deadlines, self', w') →
  paced delay until iterations deadlines →
  config (registry self') = config (registry self) ∧
  seen_until self' until ∧ fresh_within self' delay until.
Proof.
  intros Hinit. revert self w ended deadlines.
  induction iterations as [|[[now calls] wake] its IH]; intros self w ended ds Hok Hne Hseen; [done|].
  specialize (Hseen _ _ _ _ eq_refl). cbn [registry_prune_loop].
  destruct (registry_do _ _ w) as [[[[sp d] s1] w1]|] eqn:E1; [|done]. cbn [mbind outcome_bind].
  destruct (handle_all _ calls s1 w1) as [[[l s2] w2]|] eqn:E2; [|done]. cbn [mbind outcome_bind].
  assert (∀ next, (now ≤ next ≤ d + delay)%Z → Forall (called_between now next) calls →
    server_ok initial s2 w2 ∧ config (registry s2) = config (registry self) ∧
    seen_until s2 next ∧ fresh_within s2 delay next) as Hit
    by (intros; by eapply iteration_fresh).
  assert (∀ x, (now ≤ until ≤ d + delay)%Z ∧ Forall (called_between now until) calls ∧ x →
    config (registry s2) = config (registry self) ∧
    seen_until s2 until ∧ fresh_within s2 delay until) as Hend by naive_solver.
  destruct wake; cbn [mbind outcome_bind].
  2, 3: intros [= _ <- <- _] Hp; cbn [paced] in Hp; destruct its as [|[[? ?] ?] ?]; by eapply Hend.
  destruct (registry_prune_loop _ its s2 w2) as [[[[en ds'] s3] w3]|] eqn:E3; [|done].
  cbn [mbind outcome_bind]. intros [= _ <- <- <-] Hp. cbn [paced] in Hp.
  destruct its as [|[[now' calls'] wake'] its'].
  { injection E3 as _ <- <- _. by eapply Hend. }
  destruct ds' as [|d' ds'].
  { exfalso. clear -E3. cbn [registry_prune_loop] in E3.
    destruct (registry_do _ _ w2) as [[[[? ?] ?] ?]|]; [|done]. cbn [mbind outcome_bind] in E3.
    destruct (handle_all _ calls' _ _) as [[[? ?] ?]|]; [|done]. cbn [mbind outcome_bind] in E3.
    destruct wake'; cbn [mbind outcome_bind] in E3; [|done|done].
    by destruct (registry_prune_loop _ its' _ _) as [[[[? ?] ?] ?]|]. }
  destruct Hp as (Hnext & Hcalls & Hp). destruct (Hit now' Hnext Hcalls) as (Hok2 & Hcfg & Hs2 & _).
  rewrite <- Hcfg. eapply (IH s2 w2); [done|done| |exact E3|exact Hp]. by intros ? ? ? ? [= <- _ _ _].
Qed.

(** ** The loop returns

    The times an iteration reads leave room for a time to live, and its calls can
    be answered. *)
Definition call_fits (ttl : Z) (c : Call) : Prop :=
  answerable metadata_value c = true ∧
  match call_time c with Some t => (t + ttl ≤ INSTANT_MAX)%Z | None => True end.
Definition iteration_fits (ttl : Z) (iteration : Z * list Call * Wake) : Prop :=
  let '(now, calls, _) := iteration in
  (now + ttl ≤ INSTANT_MAX)%Z ∧ Forall (call_fits ttl) calls.

Lemma prune_total initial self now w :
  server_ok initial self w → deadlines_fit (registry self) →
  (now + entry_ttl (config (registry self)) ≤ INSTANT_MAX)%Z →
  ∃ out self' w', registry_do self (λ reg w, prune reg now w) w = Return (out, self', w') ∧
    deadlines_fit (registry self') ∧ config (registry self') = config (registry self).
Proof.
  intros Hok Hfit Hnow. unfold registry_do.
  destruct (prune_eq (registry self) now w (srv_wf _ _ _ Hok) Hfit Hnow) as (changes & _ & ->).
  rewrite (srv_observer _ _ _ Hok).
  destruct (notify_total _ server_observer_total changes w) as [w' ->]. simpl.
  destruct (spec_deadline _ _ _) as [sp d]. simpl. do 3 eexists. split; [done|].
  split; [by apply pruned_fit|done].
Qed.

Lemma prune_loop_total u iterations self w :
  ChannelLaws unit (result Event Status) →
  server_ok (IntentBinder_new u the_streaming_ess) self w → deadlines_fit (registry self) →
  Forall (iteration_fits (entry_ttl (config (registry self)))) iterations →
  ∃ ended deadlines self' w',
    registry_prune_loop metadata_value iterations self w = Return (ended, deadlines, self', w').
Proof.
  intros Hlaws. pose proof (IntentBinder_new_system u the_streaming_ess) as Hinit. revert self w.
  induction iterations as [|[[now calls] wake] its IH]; intros self w Hok Hfit Hall; [simpl; eauto|].
  apply Forall_cons in Hall as [[Hnow Hcalls] Hall]. cbn [registry_prune_loop].
  destruct (prune_total _ self now w Hok Hfit Hnow) as ([sp d] & s1 & w1 & E1 & Hfit1 & Hcfg1).
  rewrite E1. cbn [mbind outcome_bind]. pose proof (prune_ok _ _ _ _ _ _ _ Hinit Hok E1) as Hok1.
  destruct (handle_all_total metadata_value u calls s1 w1 Hlaws Hok1) as (l & s2 & w2 & E2 & _).
  { eapply Forall_impl; [exact Hcalls|]. by intros c []. }
  rewrite E2. cbn [mbind outcome_bind].
  destruct (handle_all_known _ _ _ _ _ _ _ Hinit Hok1 E2) as (Hok2 & Hcfg2 & Hk).
  destruct wake; cbn [mbind outcome_bind]; [|eauto|eauto].
  destruct (IH s2 w2 Hok2) as (en & ds & s3 & w3 & ->); [| |simpl; eauto].
  - intros s ts [Hs|Hs]%Hk; rewrite Hcfg2; [by eapply Hfit1|].
    apply list_elem_of_fmap in Hs as (c & Hc & Hin). rewrite Forall_forall in Hcalls.
    destruct (Hcalls c Hin) as [_ Ht]. rewrite <- Hc in Ht. by rewrite Hcfg1.
  - by rewrite Hcfg2, Hcfg1.
Qed.
End loop.
