(* ===== verification/ServerTheorems.v ===== *)
(** * The theorems about the broker's server

    They hold in every state the running server can reach: the binding table
    agrees with the registry, an intent is fulfilled by a live service or by the
    broker itself, no request makes the server panic, and the registration calls
    do what the abstract registry says. *)

From S2P Require Import Prelude RustStd Common Proto Query Registry.
From S2P Require Import RegistryFacts RegistrySpec Ess EssFacts StreamingEss.
From S2P Require Import Connection Execution Broker BrokerFacts.
From S2P Require Import BrokerConnections ExecutionFacts QueryFacts Server.
From S2P Require Import ServerFacts ServerTotality PruneLoop EssSample.

(** ** Errors of the argument mappings *)
Section arguments.
Context `{!UrlLib}.

Lemma resolve_service_configuration_Err svc e :
  resolve_service_configuration svc = Err e → code e = InvalidArgument.
Proof.
  unfold resolve_service_configuration, map_locality_value.
  repeat case_decide; simpl; try by intros [= <-].
  all: destruct (url_parse (isr_url svc)); by intros [= <-].
Qed.

Lemma registrations_Err l e :
  collect_result (create_configruation_from_registration <$> l) = Err e → code e = InvalidArgument.
Proof.
  induction l as [|[ns k] l IH]; simpl; [done|].
  unfold create_configruation_from_registration at 1, map_intent_value. simpl.
  repeat case_decide; simpl; try by intros [= <-].
  all: destruct (collect_result _); simpl; [done|]; intros [= <-]; by apply IH.
Qed.
End arguments.

Section theorems.
Context `{!UrlLib, !HashOrder, !RegexLib, !Transport} `{!Channels unit (result Event Status)}.
Context (metadata_value : string → option string) (overflow_checks : bool).
#[local] Abbreviation MainServer := (IntentBrokeringServer (Composite IntentBroker StreamingRef)).
#[local] Abbreviation reachable := (reachable metadata_value overflow_checks).
Implicit Types (self : MainServer) (w : World).

(** The registered services of an intent. *)
#[local] Abbreviation registered_for self ic :=
  (external_services_by_intent (registry self) !! ic).

(** The intents the broker advertises: those of registered services and its own. *)
Definition advertised (u : Url) self (ic : IntentConfiguration) : Prop :=
  is_Some (registered_for self ic) ∨ is_Some (IntentBinder_new u the_streaming_ess !! ic).

Lemma bindings_advertised u self w ic :
  server_ok (IntentBinder_new u the_streaming_ess) self w →
  is_Some (bindings_by_intent w !! ic) ↔ advertised u self ic.
Proof.
  intros Hok. pose proof (srv_synced _ _ _ Hok ic) as Hs. unfold advertised.
  destruct (registered_for self ic) as [Svc|]; simpl.
  - destruct Hs as (b & -> & _). split; [|by eexists]. intros _. left. by eexists.
  - rewrite Hs. split; [by right|]. by intros [[? [=]]|?].
Qed.

(** C2: In every reachable state the broker's table agrees with the registry, for
    every iteration order of the hash maps.  An intent with registered services is
    outside the system namespace and bound to one of them: to a cloud service with
    a local one as fallback if there are both, else to one of those there are.  Any
    other intent has exactly the binding the broker started with. *)
Theorem broker_follows_registry u self w :
  reachable u (self, w) →
  ∀ ic, match registered_for self ic with
        | Some Svc => is_system_namespace (namespace ic) = false ∧
                      ∃ b, bindings_by_intent w !! ic = Some b ∧ binding_for Svc b
        | None => bindings_by_intent w !! ic = IntentBinder_new u the_streaming_ess !! ic
        end.
Proof.
  intros Hok%reachable_ok ic. pose proof (srv_synced _ _ _ Hok ic) as Hs.
  destruct (registered_for self ic) as [Svc|] eqn:E; [|done]. split; [|done].
  apply (wf_system _ (srv_wf _ _ _ Hok)). by rewrite E.
Qed.

Lemma fulfill_registered u self w request i e Svc :
  server_ok (IntentBinder_new u the_streaming_ess) self w →
  rf_intent request = Some i → intent_enum i = Some e →
  registered_for self (mkIntentConfiguration (rf_namespace request) (map_intent_variant e)) = Some Svc →
  ∃ res w', fulfill self request w = Return (res, w') ∧
    match res with
    | Ok resp => ∃ s resp', s ∈ Svc ∧ answered_by (url s) i resp' ∧
                            fulfillment resp = fulfillment resp'
    | Err status => code status = Unknown
    end.
Proof.
  intros Hok Hi He Hr. destruct (srv_cells _ _ _ Hok) as (owners & Hc & Ho).
  pose proof (srv_synced _ _ _ Hok
    (mkIntentConfiguration (rf_namespace request) (map_intent_variant e))) as Hs.
  rewrite Hr in Hs. destruct Hs as (b & Hb & Hfor).
  rewrite (fulfill_resolved _ _ _ _ _ _ Hi He Hb). destruct (network w) as [cells n].
  destruct (execute_binding_for owners Svc b (bindings_by_intent w) i cells n (streaming w)
    Hc (Ho _ _ Hb) Hfor) as (res & [cells' n'] & -> & Hres).
  do 2 eexists. split; [done|]. destruct res as [resp|status]; [|done]. simpl.
  destruct Hres as (s & Hs & Hans). by exists s, resp.
Qed.

(** C4: In every reachable state, fulfilling an intent that services are registered
    for returns; a successful answer is the one that a connection opened to the URL
    of one of these services gave to the very intent of the request, and a failure
    has the code [Unknown]. *)
Theorem fulfill_answers_from_registered_service u self w request i e Svc :
  reachable u (self, w) →
  rf_intent request = Some i → intent_enum i = Some e →
  registered_for self (mkIntentConfiguration (rf_namespace request) (map_intent_variant e)) = Some Svc →
  ∃ res w', fulfill self request w = Return (res, w') ∧
    match res with
    | Ok resp => ∃ s resp', s ∈ Svc ∧ answered_by (url s) i resp' ∧
                            fulfillment resp = fulfillment resp'
    | Err status => code status = Unknown
    end.
Proof. intros Hok%reachable_ok. by apply fulfill_registered with (u := u). Qed.

(** In every reachable state, fulfilling an intent no service is registered for
    and that is not one of the broker's own answers "not found", and changes
    nothing. *)
Theorem fulfill_not_found u self w request i e :
  reachable u (self, w) →
  rf_intent request = Some i → intent_enum i = Some e →
  ¬ advertised u self (mkIntentConfiguration (rf_namespace request) (map_intent_variant e)) →
  fulfill self request w = Return (Err (mkStatus NotFound "No provider found."), w).
Proof.
  intros Hok%reachable_ok Hi He Hnot. rewrite <- bindings_advertised in Hnot by done.
  apply eq_None_not_Some in Hnot. unfold fulfill. rewrite Hi. simpl. rewrite He.
  unfold resolve, binder_resolve. by rewrite Hnot.
Qed.

(** C28: In every reachable state, inspecting [system.registry] with a query that is
    a valid pattern changes nothing and describes exactly the advertised intents
    whose namespace matches: one entry per namespace, listing each of its intents
    once. *)
Theorem inspect_lists_advertised u self w request i q r :
  reachable u (self, w) →
  rf_namespace request = SYSTEM_REGISTRY_NAMESPACE → rf_intent request = Some i →
  intent_enum i = Some (IInspect (mkInspectIntent q)) →
  regex_new (regex_pattern_from_query q) = Ok r →
  ∃ entries,
    fulfill self request w =
      Return (fulfill_response (FInspect (mkInspectFulfillment entries)), w) ∧
    NoDup (path <$> entries) ∧
    (∀ en, en ∈ entries → ∃ ns kinds,
       en = inspect_entry (ns, kinds) ∧ is_match r ns = true ∧ kinds ≠ [] ∧ NoDup kinds ∧
       ∀ k, k ∈ kinds ↔ advertised u self (mkIntentConfiguration ns k)) ∧
    (∀ ns k, is_match r ns = true → advertised u self (mkIntentConfiguration ns k) →
       ns ∈ path <$> entries).
Proof.
  intros Hok%reachable_ok Hns Hi He Hre.
  assert (bindings_by_intent w !! mkIntentConfiguration SYSTEM_REGISTRY_NAMESPACE Inspect =
            Some BSystemInspect) as Hb.
  { pose proof (srv_synced _ _ _ Hok
      (mkIntentConfiguration SYSTEM_REGISTRY_NAMESPACE Inspect)) as Hs.
    destruct (registered_for self _) eqn:E; [|exact Hs].
    pose proof (wf_system _ (srv_wf _ _ _ Hok) _ (mk_is_Some _ _ E)). done. }
  exists (inspect_entries r (map_keys (bindings_by_intent w))).
  destruct (inspect_entries_spec r (map_keys (bindings_by_intent w)) (NoDup_map_iter _))
    as (Hnd & Hen & Hall).
  split_and!.
  - rewrite <- Hns in Hb. rewrite (fulfill_resolved _ _ _ _ _ _ Hi He Hb). cbn [execute binding_into_runtime_binding].
    rewrite He. unfold regex_from_query. simpl. rewrite Hre. simpl. by destruct w.
  - done.
  - intros en (ns & kinds & -> & Hm & Hne & Hndk & Hk)%Hen. exists ns, kinds.
    split_and!; [done..|]. intros k. rewrite Hk, elem_of_map_keys. by apply bindings_advertised.
  - intros ns k Hm Ha. apply (Hall ns k Hm), elem_of_map_keys. by eapply bindings_advertised.
Qed.

(** C5: From every reachable state the server survives every sequence of calls: each
    is answered without a panic, whatever the calls and the answers of providers
    are, as long as no inspection of [system.registry] has a query that does not
    make a valid pattern and the ids of new channels are metadata values. *)
Theorem server_never_panics u self w calls :
  ChannelLaws unit (result Event Status) →
  reachable u (self, w) →
  Forall (λ c, answerable metadata_value c = true) calls →
  ∃ answers self' w', handle_all metadata_value calls self w = Return (answers, self', w') ∧
    length answers = length calls ∧ reachable u (self', w').
Proof.
  intros Hlaws Hreach Hcalls. pose proof (reachable_ok _ _ _ _ _ Hreach) as Hok.
  destruct (handle_all_total _ u calls self w Hlaws Hok Hcalls) as (l & self' & w' & E & Hl).
  exists l, self', w'. split_and!; [done|done|]. by eapply handle_all_reachable.
Qed.


(** C31: [announce] on every branch.  A request without a service, with an unknown
    locality or an invalid URL is an invalid argument and changes nothing.  Any
    other request answers [NotChanged] exactly when the very service is registered,
    whose time of last contact then becomes [now], and [Announced], which asks the
    service to register, when it is not; nothing else changes. *)
Theorem announce_spec self request now :
  let '(res, self') := announce self request now in
  match announce_service request with
  | None => res = Err (invalid_argument "service is required") ∧ self' = self
  | Some svc =>
      match resolve_service_configuration svc with
      | Err e => res = Err e ∧ code e = InvalidArgument ∧ self' = self
      | Ok s =>
          external_services_by_intent (registry self') = external_services_by_intent (registry self) ∧
          (∀ s', s' ≠ s →
             known_services (registry self') !! s' = known_services (registry self) !! s') ∧
          match known_services (registry self) !! s with
          | Some _ => res = Ok (mkAnnounceResponse (RegistrationState_as_i32 NotChanged)) ∧
                      known_services (registry self') !! s = Some now
          | None => res = Ok (mkAnnounceResponse (RegistrationState_as_i32 Announced)) ∧
                    self' = self
          end
      end
  end.
Proof.
  unfold announce. destruct (announce_service request) as [svc|]; simpl; [|done].
  destruct (resolve_service_configuration svc) as [s|e] eqn:Hs; simpl.
  2: { apply resolve_service_configuration_Err in Hs. done. }
  unfold touch. destruct (known_services (registry self) !! s) eqn:Hk; simpl.
  - split_and!; [done| |done|apply lookup_insert_eq]. intros. by rewrite lookup_insert_ne.
  - by destruct self.
Qed.

(** C27: A chain of fallbacks tries its remote providers in order, each at most once,
    until one succeeds; when all fail the answer is the error of the last one.  The
    streaming sub-system is not touched. *)
Theorem fallback_tries_in_order {W T C} `{!ConnectionProvider W T C, !ConnectedProvider W C}
    (b : RuntimeBinding T) ps arg (w : W) (s : StreamingEss (T := unit)) :
  remotes b = Some ps →
  ∃ res (w' : W), try_in_order ps arg (mkStatus Unknown "") w = (res, w') ∧
            execute b arg (w, s) = Return (res, (w', s)).
Proof.
  intros Hps. destruct (try_in_order ps arg (mkStatus Unknown "") w) as [res w'] eqn:E.
  exists res, w'. split; [done|]. rewrite (execute_chain b ps arg (mkStatus Unknown "") w s Hps).
  by rewrite E.
Qed.

(** C15: The prune loop runs without a panic and keeps the registry fresh.  It returns
    whatever answerable calls the server handles meanwhile, if no time it reads comes
    within a time to live of the end of the range of [Instant].  If moreover it wakes
    up at most [delay] after each deadline it sleeps on, then, when the last iteration
    ends, no entry is older than its time to live plus [delay], and none is dated in
    the future. *)
Theorem registry_stays_fresh u self w delay until now calls wake rest :
  ChannelLaws unit (result Event Status) →
  reachable u (self, w) → seen_until self now →
  Forall (iteration_fits metadata_value (entry_ttl (config (registry self))))
    ((now, calls, wake) :: rest) →
  ∃ ended deadlines self' w',
    registry_prune_loop metadata_value ((now, calls, wake) :: rest) self w =
      Return (ended, deadlines, self', w') ∧
    (paced delay until ((now, calls, wake) :: rest) deadlines →
     ∀ s ts, known_services (registry self') !! s = Some ts →
       (ts ≤ until ≤ ts + entry_ttl (config (registry self)) + delay)%Z).
Proof.
  intros Hlaws Hok%reachable_ok Hseen Hfits.
  destruct (prune_loop_total metadata_value u ((now, calls, wake) :: rest) self w Hlaws Hok)
    as (ended & ds & self' & w' & E); [|done|].
  { intros s ts Hs%Hseen. apply Forall_cons in Hfits as [[Hnow _] _]. lia. }
  exists ended, ds, self', w'. split; [done|]. intros Hp s ts Hs.
  destruct (prune_loop_fresh metadata_value (IntentBinder_new u the_streaming_ess) delay until
    ((now, calls, wake) :: rest) self w ended ds self' w'
    (IntentBinder_new_system u the_streaming_ess)) as (Hcfg & Hsn & Hf);
    [done|done|by intros ? ? ? ? [= <- _ _ _]|done|done|].
  specialize (Hsn _ _ Hs). specialize (Hf _ _ Hs). rewrite Hcfg in Hf. lia.
Qed.

End theorems.

(** ** Configuration *)
Section configuration.
Context `{!UrlLib, !HashOrder, !RegexLib, !Transport} `{!Channels unit (result Event Status)}.
Context (var_os : string → option string) (utf8 : string → bool).
Context {RE : Type} (reflection : option (result unit RE)).
#[local] Abbreviation MainServer := (IntentBrokeringServer (Composite IntentBroker StreamingRef)).

(** The server that is started has this time to live, unless its reflection service
    cannot be built. *)
Definition started_with (u : Url) (ttl : Z) (o : outcome (result (MainServer * World) (SetupError RE))) : Prop :=
  match reflection with
  | Some (Err e) => o = Return (Err (NoReflection e))
  | _ => ∃ self w, o = Return (Ok (self, w)) ∧ (∀ mv checks, reachable mv checks u (self, w)) ∧
           entry_ttl (config (registry self)) = ttl
  end.

(** C32: What [main] builds.  With a valid environment it builds a reachable server
    whose entries live for 15 seconds when the variable is not set, and otherwise
    for the given number of seconds but at least 2.  A number that cannot be parsed
    is an error, and after it, in a debug build, a reflection service that cannot be
    built; there are no others. *)
Theorem main_setup_spec n ch host u :
  env var_os utf8 (λ s, Ok s : result string IntErrorKind) "EXTERNAL_HOST_NAME" = Return host →
  url_parse (streaming_url_text host) = Some u →
  (∀ v, var_os "INTENT_BROKERING_REGISTRY_TTL_SECS" = Some v → utf8 v = true) →
  match var_os "INTENT_BROKERING_REGISTRY_TTL_SECS" with
  | Some v =>
      match parse_u64 v with
      | Err e => main_setup var_os utf8 reflection n ch = Return (Err (InvalidTtl e))
      | Ok secs => started_with u (duration_from_secs (Z.max secs 2)) (main_setup var_os utf8 reflection n ch)
      end
  | None => started_with u (duration_from_secs 15) (main_setup var_os utf8 reflection n ch)
  end.
Proof.
  intros Hhost Hu Hutf. unfold main_setup, registry_config, try_env. rewrite Hhost.
  cbn [mbind outcome_bind]. rewrite Hu. cbn [mbind outcome_bind ok_or unwrap].
  destruct (var_os "INTENT_BROKERING_REGISTRY_TTL_SECS") as [v|]; simpl.
  - unfold os_to_str. rewrite (Hutf v eq_refl). simpl. destruct (parse_u64 v) as [secs|e]; simpl; [|done].
    unfold started_with. destruct reflection as [[[]|e]|]; simpl; [|done|];
      do 2 eexists; (split_and!; [done|intros; apply reachable_init|]); simpl;
      unfold ENTRY_TTL_MIN, duration_from_secs, NANOS_PER_SEC; lia.
  - unfold started_with. destruct reflection as [[[]|e]|]; simpl; [|done|];
      do 2 eexists; (split_and!; [done|intros; apply reachable_init|done]).
Qed.
End configuration.
