(* ===== verification/ServerWitnesses.v ===== *)
(** * A running broker

    A concrete broker with its network, its channels and its regex engine: a local
    and a cloud provider register, the cloud one cannot be reached, and the intents
    are fulfilled.  The hypotheses of the server's theorems hold in its states. *)

From S2P Require Import Prelude RustStd Common Proto Query QueryFacts Registry.
From S2P Require Import RegistryFacts RegistrySpec Ess EssFacts EssSample.
From S2P Require Import StreamingEss Connection Execution Broker BrokerFacts.
From S2P Require Import BrokerConnections ExecutionFacts Server ServerFacts.
From S2P Require Import PruneLoop ServerTheorems.

Module ServerWitnesses.
#[local] Existing Instance canonical_order.
#[local] Existing Instance string_url.
#[local] Existing Instance fragment_regex.
#[local] Instance chs : Channels unit (result Event Status) :=
  sample_channels unit (result Event Status).

(** The network keeps a log of the connections; a host [down] refuses them, and any
    other host answers a request with its own URL. *)
Definition answer_of (u : string) : FulfillResponse :=
  mkFulfillResponse (Some (mkFulfillmentMessage (Some (FRead (mkReadFulfillment
    (Some (mkValueMessage (Some (VString u))))))))).
#[local] Instance transport : Transport := {|
  net := list string;
  channel := string;
  client_connect u n :=
    if String.prefix "http://down" u then (Err (Error_new "connection refused"), n)
    else (Ok u, n ++ [u]);
  client_fulfill c _ n := (Ok (answer_of c), n)
|}.
#[local] Abbreviation MainServer := (IntentBrokeringServer (Composite IntentBroker StreamingRef)).

Definition no_var (_ : string) : option string := None.
Definition valid (_ : string) : bool := true.
Definition self_url : @Url string_url := "http://localhost:4243".
Definition start : MainServer * World :=
  (IntentBrokeringServer_new (Registry_new server_observer Config_default) the_broker,
   (IntentBroker_new self_url the_streaming_ess ([], [])
      (StreamingEss_new (empty_store unit (result Event Status)))).2).

Definition secs (s : Z) : Z := duration_from_secs s.
Definition service (name u : string) (loc : Z) : IntentServiceRegistration :=
  mkIntentServiceRegistration name "1" u loc.
Definition read_intent : IntentRegistration := mkIntentRegistration "sdv.kvs" 2.

Definition register_local : Call :=
  CallRegister (mkRegisterRequest (Some (service "kv" "http://kv" 0)) [read_intent]) (secs 1).
Definition register_cloud : Call :=
  CallRegister (mkRegisterRequest (Some (service "kv-cloud" "http://down" 1)) [read_intent]) (secs 2).

Definition mv (s : string) : option string := Some s.
Definition call (c : Call) (st : MainServer * World) : MainServer * World :=
  let '(_, self, w) := value_or (AnsRegister (Ok mkRegisterResponse), st.1, st.2)
                         (handle mv c st.1 st.2) in (self, w).

Definition state1 : MainServer * World := call register_local start.
Definition state2 : MainServer * World := call register_cloud state1.

Lemma call_reachable c st :
  is_return (handle mv c st.1 st.2) = true →
  reachable mv true self_url st → reachable mv true self_url (call c st).
Proof.
  intros Hret Hst. eapply reachable_step; [exact Hst|]. destruct st as [self w]. unfold call.
  apply (value_or_return (AnsRegister (Ok mkRegisterResponse), self, w)) in Hret. simpl in *.
  destruct (value_or _ (handle mv c self w)) as [[a self'] w'] eqn:E. by eapply step_call.
Qed.

Lemma start_reachable : reachable mv true self_url start.
Proof.
  exact (reachable_init mv true self_url Config_default ([] : list string)
    (empty_store unit (result Event Status))).
Qed.
Lemma state1_reachable : reachable mv true self_url state1.
Proof. apply call_reachable; [vm_compute; reflexivity|apply start_reachable]. Qed.
Lemma state2_reachable : reachable mv true self_url state2.
Proof. apply call_reachable; [vm_compute; reflexivity|apply state1_reachable]. Qed.
Lemma state2_pair : reachable mv true self_url (state2.1, state2.2).
Proof. rewrite <- surjective_pairing. apply state2_reachable. Qed.

Definition read_request : RuntimeFulfillRequest :=
  mkRuntimeFulfillRequest "sdv.kvs" (Some (mkIntentMessage (Some (IRead (mkReadIntent "k"))))).
Definition kv_services : gset ServiceConfiguration :=
  {[mkServiceConfiguration (mkServiceId "kv" "1") ("http://kv" : Url) Local]} ∪
  {[mkServiceConfiguration (mkServiceId "kv-cloud" "1") ("http://down" : Url) Cloud]}.

(** The cloud provider is tried first and refuses; the local one answers. *)
Example read_falls_back :
  fmap fst (fulfill state2.1 read_request state2.2) =
    Return (Ok (answer_of "http://kv")).
Proof. vm_compute. reflexivity. Qed.

Lemma kv_registered :
  external_services_by_intent (registry state2.1) !! mkIntentConfiguration "sdv.kvs" Read =
    Some kv_services.
Proof. apply (bool_decide_eq_true_1 _). vm_compute. reflexivity. Qed.

Lemma broker_follows_registry_witness :
  ∃ b, bindings_by_intent state2.2 !! mkIntentConfiguration "sdv.kvs" Read = Some b ∧
       binding_for kv_services b.
Proof.
  pose proof (broker_follows_registry mv true self_url state2.1 state2.2 state2_pair
    (mkIntentConfiguration "sdv.kvs" Read)) as Hb.
  assert (external_services_by_intent (registry state2.1) !! mkIntentConfiguration "sdv.kvs" Read
    = Some kv_services) as Hs by exact kv_registered.
  rewrite Hs in Hb. exact (proj2 Hb).
Defined.

Lemma fulfill_answers_from_registered_service_witness :
  ∃ res w', fulfill state2.1 read_request state2.2 = Return (res, w') ∧
    match res with
    | Ok resp => ∃ s resp', s ∈ kv_services ∧
        answered_by (url s) (mkIntentMessage (Some (IRead (mkReadIntent "k")))) resp' ∧
        fulfillment resp = fulfillment resp'
    | Err status => code status = Unknown
    end.
Proof.
  apply (fulfill_answers_from_registered_service mv true self_url state2.1 state2.2
    read_request (mkIntentMessage (Some (IRead (mkReadIntent "k")))) (IRead (mkReadIntent "k"))
    kv_services).
  - apply state2_pair.
  - reflexivity.
  - reflexivity.
  - exact kv_registered.
Defined.

Definition write_request : RuntimeFulfillRequest :=
  mkRuntimeFulfillRequest "sdv.kvs" (Some (mkIntentMessage (Some (IWrite (mkWriteIntent "k" None))))).

Lemma fulfill_not_found_witness :
  fulfill state2.1 write_request state2.2 =
    Return (Err (mkStatus NotFound "No provider found."), state2.2).
Proof.
  apply (fulfill_not_found mv true self_url state2.1 state2.2 write_request
    (mkIntentMessage (Some (IWrite (mkWriteIntent "k" None)))) (IWrite (mkWriteIntent "k" None))).
  - apply state2_pair.
  - reflexivity.
  - reflexivity.
  - intros [Hs|Hb].
    + revert Hs. apply (bool_decide_eq_false_1 (is_Some _)). vm_compute. reflexivity.
    + revert Hb. apply (bool_decide_eq_false_1 (is_Some _)). vm_compute. reflexivity.
Defined.

Definition inspect_request (q : string) : RuntimeFulfillRequest :=
  mkRuntimeFulfillRequest "system.registry"
    (Some (mkIntentMessage (Some (IInspect (mkInspectIntent q))))).

Definition sdv_regex : @regex fragment_regex := query_tokens "sdv.*".

Lemma inspect_lists_advertised_witness :
  ∃ entries,
    fulfill state2.1 (inspect_request "sdv.*") state2.2 =
      Return (fulfill_response (FInspect (mkInspectFulfillment entries)), state2.2) ∧
    NoDup (path <$> entries).
Proof.
  destruct (inspect_lists_advertised mv true self_url state2.1 state2.2
    (inspect_request "sdv.*") (mkIntentMessage (Some (IInspect (mkInspectIntent "sdv.*")))) "sdv.*"
    sdv_regex) as (entries & Hf & Hnd & _).
  - apply state2_pair.
  - reflexivity.
  - reflexivity.
  - reflexivity.
  - vm_compute. reflexivity.
  - exists entries. split; [exact Hf|exact Hnd].
Defined.

(** A client opens a channel and subscribes, an inspection and a read follow. *)
Definition client_calls : list Call :=
  [CallOpen "c1";
   CallFulfill (mkRuntimeFulfillRequest "system.registry" (Some (mkIntentMessage
     (Some (ISubscribe (mkSubscribeIntent "c1" ["namespaces/sdv.kvs"]))))));
   CallFulfill (inspect_request "sdv.*"); CallFulfill read_request].

Lemma server_never_panics_witness :
  ∃ answers self' w', handle_all mv client_calls state2.1 state2.2 = Return (answers, self', w') ∧
    length answers = 4 ∧ reachable mv true self_url (self', w').
Proof.
  apply (server_never_panics mv true self_url state2.1 state2.2 client_calls).
  - apply sample_laws.
  - apply state2_pair.
  - unfold client_calls. repeat constructor.
Defined.


Definition down : ReusableProvider GrpcProvider :=
  mkReusableProvider (mkGrpcProvider ("http://down" : @Url string_url)) 0.
Definition up : ReusableProvider GrpcProvider :=
  mkReusableProvider (mkGrpcProvider ("http://kv" : @Url string_url)) 1.
Definition no_connections : list (option channel) * net := ([None; None], []).

Lemma fallback_tries_in_order_witness :
  ∃ res w', try_in_order [down; up] (mkIntentMessage None) (mkStatus Unknown "") no_connections
              = (res, w') ∧
            execute (Fallback (Remote down) (Remote up)) (mkIntentMessage None)
              (no_connections, streaming state2.2) = Return (res, (w', streaming state2.2)).
Proof.
  apply (fallback_tries_in_order (Fallback (Remote down) (Remote up)) [down; up]
    (mkIntentMessage None) no_connections (streaming state2.2)).
  reflexivity.
Defined.

(** At 17 s, a second after the deadline of the iteration at 3 s, the local provider
    (seen at 1 s) is pruned, the other one (seen at 2 s) is just alive, and the local
    one registers again before the loop is cancelled. *)
Definition register_again : Call :=
  CallRegister (mkRegisterRequest (Some (service "kv" "http://kv" 0)) [read_intent]) (secs 17).
Definition iterations_rest : list (Z * list Call * Wake) :=
  [(secs 17, [register_again], CtrlCCancelled)].
Definition loop : outcome (bool * list Z * MainServer * World) :=
  registry_prune_loop mv ((secs 3, [], DeadlineReached) :: iterations_rest) state2.1 state2.2.

Lemma state2_seen : map_Forall (λ _ ts, ts ≤ secs 3)%Z (known_services (registry state2.1)).
Proof. apply (bool_decide_eq_true_1 _). vm_compute. reflexivity. Qed.

Lemma loop_fits :
  Forall (iteration_fits mv (entry_ttl (config (registry state2.1))))
    ((secs 3, [], DeadlineReached) :: iterations_rest).
Proof. repeat constructor; vm_compute; discriminate. Qed.

Lemma registry_stays_fresh_witness :
  ∃ ended self' w', loop = Return (ended, [secs 16; secs 17], self', w') ∧
    ∀ s ts, known_services (registry self') !! s = Some ts →
      (ts ≤ secs 17 ≤ ts + secs 15 + secs 1)%Z.
Proof.
  destruct (registry_stays_fresh mv true self_url state2.1 state2.2 (secs 1) (secs 17) (secs 3) []
    DeadlineReached iterations_rest) as (ended & ds & self' & w' & E & Hfresh).
  - apply sample_laws.
  - apply state2_pair.
  - exact state2_seen.
  - exact loop_fits.
  - assert (ds = [secs 16; secs 17]) as ->.
    { transitivity (match loop with Return x => x.1.1.2 | Panic _ => [] end).
      - unfold loop. by rewrite E.
      - vm_compute. reflexivity. }
    exists ended, self', w'. split; [exact E|]. apply Hfresh.
    unfold iterations_rest. cbn [paced]. unfold secs, duration_from_secs, NANOS_PER_SEC.
    split_and!; [lia|lia|constructor|lia|lia| |exact I].
    constructor; [|constructor]. unfold called_between, register_again, secs, duration_from_secs,
      NANOS_PER_SEC. cbn [call_time]. lia.
Defined.

Definition quiet : @net transport := [].
Definition no_channels : @chans _ _ chs := empty_store unit (result Event Status).

Lemma main_setup_spec_witness :
  ∃ self w,
    main_setup no_var valid (Some (Ok tt) : option (result unit string)) quiet no_channels =
      Return (Ok (self, w)) ∧
    (∀ mv checks, reachable mv checks self_url (self, w)) ∧
    entry_ttl (config (registry self)) = duration_from_secs 15.
Proof.
  apply (main_setup_spec no_var valid (Some (Ok tt) : option (result unit string)) quiet no_channels None self_url).
  - reflexivity.
  - vm_compute. reflexivity.
  - discriminate.
Defined.
End ServerWitnesses.
