(* ===== verification/MainProgram.v ===== *)
(** * The main program and its shutdown

    The rest of [main] of [intent_brokering/src/main.rs] after its setup: the router
    that serves the gRPC services and the prune loop run side by side and are joined,
    tied together by the two cancellation tokens; and [shutdown.rs], from which the
    token of Ctrl+C and the graceful serving come.  Who is scheduled when, the signal,
    the transport errors and the wake-ups are chosen by the steps. *)

From stdpp Require Import relations.
From S2P Require Import Prelude RustStd Common Proto Query QueryFacts Registry.
From S2P Require Import Ess EssFacts.
From S2P Require Import EssSample RegistryFacts RegistrySpec StreamingEss.
From S2P Require Import Connection Execution Broker BrokerFacts.
From S2P Require Import BrokerConnections ExecutionFacts Server ServerFacts.
From S2P Require Import ServerTotality PruneLoop ServerWitnesses.

Section main_program.
Context `{!UrlLib, !HashOrder, !RegexLib, !Transport} `{!Channels unit (result Event Status)}.
Context (metadata_value : string → option string).
#[local] Abbreviation MainServer := (IntentBrokeringServer (Composite IntentBroker StreamingRef)).

(** ** shutdown.rs *)

(** The spawned task of [ctrl_c_cancellation]: when [ctrl_c] returns, with an error
    or not, the token is cancelled; the error is logged. *)
Definition ctrl_c_task (signal : result unit Error) : bool * list string :=
  let log := match signal with
             | Ok _ => []
             | Err e => ["Could not listen to Ctrl+C: " +:+ Error_display e]
             end in
  (true, log).

(** [serve_with_shutdown] of the router: it ends with an error of the transport, or
    gracefully after its signal. *)
Definition serve_with_cancellation (cancelled : bool) (transport : result unit Error)
    : option (result unit Error) :=
  match transport with
  | Ok _ => if cancelled then Some (Ok tt) else None
  | Err e => Some (map_err_with (Err e) "Error when serving gRPC server.")
  end.

(** ** main.rs *)
Inductive PruneTask := Pruning | Sleeping (wakeup_deadline : Z) | PruneEnded.

Record Main := mkMain {
  ctrl_c_cancelled : bool;
  error_cancelled : bool;
  router_serve : option (result unit Error);
  prune_task : PruneTask;
  main_server : MainServer;
  main_world : World
}.

(** The future [router_serve]: an error cancels the token of the prune loop. *)
Definition router_ends (res : result unit Error) (m : Main) : Main :=
  mkMain (ctrl_c_cancelled m)
    (match res with Err _ => true | Ok _ => error_cancelled m end)
    (Some res) (prune_task m) (main_server m) (main_world m).

(** A branch of [select!] is taken only when it is ready. *)
Definition may_wake (wake : Wake) (m : Main) : bool :=
  match wake with
  | DeadlineReached => true
  | ErrorCancelled => error_cancelled m
  | CtrlCCancelled => ctrl_c_cancelled m
  end.
Definition after_wake (wake : Wake) : PruneTask :=
  match wake with DeadlineReached => Pruning | ErrorCancelled | CtrlCCancelled => PruneEnded end.

Inductive main_step : Main → Main → Prop :=
  | main_ctrl_c signal err r p self w :
      main_step (mkMain false err r p self w) (mkMain (ctrl_c_task signal).1 err r p self w)
  (** The router handles a call while it serves. *)
  | main_call c answer cc err p self w self' w' :
      handle metadata_value c self w = Return (answer, self', w') →
      main_step (mkMain cc err None p self w) (mkMain cc err None p self' w')
  | main_router transport res m :
      router_serve m = None →
      serve_with_cancellation (ctrl_c_cancelled m) transport = Some res →
      main_step m (router_ends res m)
  | main_prune now out deadline cc err r self w self' w' :
      registry_do self (λ reg w, prune reg now w) w = Return ((out, deadline), self', w') →
      main_step (mkMain cc err r Pruning self w) (mkMain cc err r (Sleeping deadline) self' w')
  | main_wake wake deadline cc err r self w :
      may_wake wake (mkMain cc err r (Sleeping deadline) self w) = true →
      main_step (mkMain cc err r (Sleeping deadline) self w)
        (mkMain cc err r (after_wake wake) self w).

(** [tokio::join!] waits for both; the result of [main] is the router's. *)
Definition main_result (m : Main) : option (result unit Error) :=
  match router_serve m, prune_task m with
  | Some res, PruneEnded => Some res
  | _, _ => None
  end.

Definition main_start (self : MainServer) (w : World) : Main := mkMain false false None Pruning self w.

Inductive main_reachable (u : Url) : Main → Prop :=
  | main_reachable_start cfg n ch :
      main_reachable u (main_start
        (IntentBrokeringServer_new
          (Registry_new (mkComposite _ _ the_broker the_streaming_ess) cfg) the_broker)
        (IntentBroker_new u the_streaming_ess ([], n) (StreamingEss_new ch)).2)
  | main_reachable_step m m' : main_reachable u m → main_step m m' → main_reachable u m'.

(** ** The invariant *)
Record main_ok (u : Url) (m : Main) : Prop := {
  mo_server : server_ok (IntentBinder_new u the_streaming_ess) (main_server m) (main_world m);
  mo_error : error_cancelled m = true ↔ ∃ e, router_serve m = Some (Err e);
  mo_graceful : router_serve m = Some (Ok tt) → ctrl_c_cancelled m = true;
  mo_wrapped e : router_serve m = Some (Err e) →
    ∃ e0, e = Error_from_error "Error when serving gRPC server." e0;
  mo_prune : prune_task m = PruneEnded → ctrl_c_cancelled m = true ∨ error_cancelled m = true
}.

Lemma main_step_ok u m m' : main_ok u m → main_step m m' → main_ok u m'.
Proof.
  intros [Hs He Hg Hw Hp] Hst. pose proof (IntentBinder_new_system u the_streaming_ess) as Hinit.
  destruct Hst as [sig err r p self w|c a cc err p self w self' w' Hh|tr res m Hn Hr
    |now out d cc err r self w self' w' Hd|wake d cc err r self w Hwake]; simpl in *.
  - split; simpl; [done|done|done|done|by left].
  - split; simpl; [by eapply handle_ok|done..].
  - destruct tr as [x|e]; simpl in Hr.
    + destruct (ctrl_c_cancelled m) eqn:Hc; [|done]. injection Hr as <-.
      split; simpl; [done| |done|done|].
      * rewrite He, Hn. naive_solver.
      * intros _. by left.
    + injection Hr as <-. split; simpl; [done| |done| |by right].
      * split; [by eexists|done].
      * intros e' [= <-]. by eexists.
  - split; simpl; [by eapply prune_ok|done..].
  - split; simpl; [done..|]. destruct wake; simpl in *; [done|by right|by left].
Qed.

Lemma main_reachable_ok u m : main_reachable u m → main_ok u m.
Proof.
  induction 1 as [cfg n ch|m m' _ IH Hst]; [|by eapply main_step_ok].
  split; simpl; [|naive_solver|done|done|done].
  exact (reachable_ok metadata_value true u _ _ (reachable_init metadata_value true u cfg n ch)).
Qed.

(** ** Theorems *)

End main_program.

(** ** Witness: the port is taken while the prune loop sleeps *)
Module MainWitnesses.
Import ServerWitnesses.
#[local] Existing Instance canonical_order.
#[local] Existing Instance string_url.
#[local] Existing Instance fragment_regex.
#[local] Existing Instance chs.
#[local] Existing Instance transport.

Definition first_prune : outcome (Specificity * Z * _ * World) :=
  registry_do start.1 (λ reg w, prune reg (secs 1) w) start.2.
Definition pruned_once := value_or ((Default, 0%Z), start.1, start.2) first_prune.
Definition sleeping : Main :=
  mkMain false false None (Sleeping pruned_once.1.1.2) pruned_once.1.2 pruned_once.2.
Definition port_taken : Error := Error_new "address already in use".
Definition failed : Main :=
  router_ends (Err (Error_from_error "Error when serving gRPC server." port_taken)) sleeping.

Lemma failed_reachable : main_reachable mv self_url failed.
Proof.
  eapply main_reachable_step; [|by eapply (main_router mv (Err port_taken))].
  eapply main_reachable_step;
    [exact (main_reachable_start mv self_url Config_default [] (empty_store _ _))|].
  apply (main_prune mv (secs 1) pruned_once.1.1.1). unfold pruned_once.
  assert (is_return first_prune = true) as Hr by (vm_compute; reflexivity).
  apply (value_or_return ((Default, 0%Z), start.1, start.2)) in Hr.
  unfold first_prune in *. rewrite Hr at 1. done.
Qed.

End MainWitnesses.
