(* ===== verification/RuntimeFork.v ===== *)
(** * A runtime on a thread of its own ([common/src/tokio_runtime_fork.rs])

    The test support that keeps a tokio runtime alive on a thread which blocks on a
    cancellation token, and joins the thread when it is dropped.  Threads and tokens
    are shared by all forks; the threads run on their own. *)

From stdpp Require Import relations.
From S2P Require Import Prelude RustStd Common.

(** A thread blocks on its token until it returns, or panics. *)
Inductive ThreadState := Blocked | Returned | Failed.
Record Threads := mkThreads {
  thread_tokens : list bool;
  running_threads : list (nat * ThreadState)
}.

Section fork.
Context {RuntimeHandle : Type}.

Record Fork := mkFork {
  fork_handle : RuntimeHandle;
  fork_token : nat;
  join_handle : option nat
}.

(** [built] is what the runtime's builder answers. *)
Definition fork (built : result RuntimeHandle IoError) (w : Threads) : result Fork IoError * Threads :=
  match built with
  | Err e => (Err e, w)
  | Ok handle =>
      let cancellation_token := length (thread_tokens w) in
      (Ok (mkFork handle cancellation_token (Some (length (running_threads w)))),
       mkThreads (thread_tokens w ++ [false])
         (running_threads w ++ [(cancellation_token, Blocked)]))
  end.

(** [drop] up to the call of [join]: the thread it waits for. *)
Definition drop_fork (f : Fork) (w : Threads) : outcome (nat * Threads) :=
  let w := mkThreads (<[fork_token f := true]> (thread_tokens w)) (running_threads w) in
  i ← unwrap_option (join_handle f);
  Return (i, w).

(** [join] and its [expect]; [None] while the thread runs. *)
Definition join_fork (i : nat) (w : Threads) : option (outcome unit) :=
  match snd <$> running_threads w !! i with
  | Some Returned => Some (Return tt)
  | Some Failed => Some (Panic "Forked thread for Tokio runtime failed.")
  | Some Blocked | None => None
  end.

(** ** What else happens

    Other forks are made and dropped, and threads go on: one returns when its token
    is cancelled, and may panic at any time.  [mine] is the token of the fork in
    question, which only its own [drop] cancels. *)
Inductive thread_step (mine : nat) : Threads → Threads → Prop :=
  | step_fork built w : thread_step mine w (fork built w).2
  | step_cancel t w :
      t ≠ mine →
      thread_step mine w (mkThreads (<[t := true]> (thread_tokens w)) (running_threads w))
  | step_return i t w :
      running_threads w !! i = Some (t, Blocked) → thread_tokens w !! t = Some true →
      thread_step mine w (mkThreads (thread_tokens w) (<[i := (t, Returned)]> (running_threads w)))
  | step_panic i t w :
      running_threads w !! i = Some (t, Blocked) →
      thread_step mine w (mkThreads (thread_tokens w) (<[i := (t, Failed)]> (running_threads w))).

(** The token of a thread as [cancelled] says; a thread that returned found its token
    cancelled. *)
Definition thread_is (mine i : nat) (cancelled : bool) (w : Threads) : Prop :=
  thread_tokens w !! mine = Some cancelled ∧
  ∃ s, running_threads w !! i = Some (mine, s) ∧ (s = Returned → cancelled = true).

Lemma thread_step_keeps mine i cancelled w w' :
  thread_is mine i cancelled w → thread_step mine w w' → thread_is mine i cancelled w'.
Proof.
  intros (Ht & s & Hs & Hret) Hst. destruct Hst as [built w|t w Hne|j t w Hj Hc|j t w Hj]; unfold thread_is; simpl.
  - destruct built as [h|e]; simpl; [|by eauto]. split; [by apply lookup_app_l_Some|].
    exists s. split; [by apply lookup_app_l_Some|done].
  - rewrite list_lookup_insert_ne by done. by eauto.
  - split; [done|]. destruct (decide (j = i)) as [->|Hne].
    + rewrite Hs in Hj. injection Hj as <- ->. exists Returned.
      rewrite list_lookup_insert_eq by by eapply lookup_lt_Some. split; [done|]. intros _. congruence.
    + rewrite list_lookup_insert_ne by done. by eauto.
  - split; [done|]. destruct (decide (j = i)) as [->|Hne].
    + rewrite Hs in Hj. injection Hj as <- ->. exists Failed.
      by rewrite list_lookup_insert_eq by by eapply lookup_lt_Some.
    + rewrite list_lookup_insert_ne by done. by eauto.
Qed.

Lemma thread_steps_keep mine i cancelled w w' :
  thread_is mine i cancelled w → rtc (thread_step mine) w w' → thread_is mine i cancelled w'.
Proof. intros Hw. induction 1; [done|]. eauto using thread_step_keeps. Qed.

(** The runtime lives exactly as long as its fork.  Whatever other forks and threads
    do, the thread of a fork does not return before the fork is dropped; dropping it
    does not fail before the join, and the join always can end: either it has, or
    the thread can return, after which it ends without a panic.  It panics only if
    the thread did. *)
Theorem fork_lives_until_dropped handle w f w0 w1 :
  fork (Ok handle) w = (Ok f, w0) → rtc (thread_step (fork_token f)) w0 w1 →
  (∀ i, join_handle f = Some i → join_fork i w1 ≠ Some (Return tt)) ∧
  ∃ i w2, drop_fork f w1 = Return (i, w2) ∧
    ∀ w3, rtc (thread_step (fork_token f)) w2 w3 →
      is_Some (join_fork i w3) ∨
      ∃ w4, thread_step (fork_token f) w3 w4 ∧ join_fork i w4 = Some (Return tt).
Proof.
  intros [= <- <-] Hrun. simpl in *.
  set (mine := length (thread_tokens w)) in *. set (i := length (running_threads w)).
  assert (thread_is mine i false w1) as (Ht1 & s1 & Hs1 & Hret1).
  { eapply thread_steps_keep; [|exact Hrun]. split; simpl.
    - by rewrite lookup_app_r, Nat.sub_diag.
    - exists Blocked. by rewrite lookup_app_r, Nat.sub_diag. }
  split.
  - intros j [= <-]. unfold join_fork. rewrite Hs1. simpl. destruct s1; try done. by specialize (Hret1 eq_refl).
  - eexists i, _. split; [done|]. intros w3 Hrun3.
    assert (thread_is mine i true w3) as (Ht3 & s3 & Hs3 & _).
    { eapply thread_steps_keep; [|exact Hrun3].
      split; simpl; [apply list_lookup_insert_eq; by eapply lookup_lt_Some|by exists s1]. }
    unfold join_fork. rewrite Hs3. destruct s3; simpl; [|by left; eexists..]. right.
    eexists. split; [by eapply step_return|]. simpl.
    by rewrite list_lookup_insert_eq by by eapply lookup_lt_Some.
Qed.
End fork.
