(* ===== verification/AsyncExecution.v ===== *)
(** * Requests in flight

    [fulfill] of [intent_brokering_grpc.rs] and [execute] of [execution.rs] are
    async functions: between two awaits other requests, the prune loop and the
    streaming tasks run.  Here a request is a future that is polled.  It is
    suspended at the awaits of [execute] and of [connect] of [ReusableProvider],
    whose mutex it holds while it connects, and it may be dropped at any await, when
    what it awaits may still take effect at the peer.
    [Execution.execute] is the same code run without interruption. *)

From S2P Require Import Prelude RustStd Common Proto Query Registry Ess.
From S2P Require Import StreamingEss Connection Execution Broker Server.

Section async.
Context `{!UrlLib, !HashOrder, !RegexLib, !Transport} `{!Channels unit (result Event Status)}.
#[local] Abbreviation Provider := (ReusableProvider GrpcProvider).
#[local] Abbreviation Network := (list (option channel) * net)%type.
#[local] Abbreviation MainServer := (IntentBrokeringServer (Composite IntentBroker StreamingRef)).

(** Where the future of [execute] is suspended. *)
Inductive Future :=
  | Execute (b : RuntimeBinding Provider)
  | Locking (p : Provider)
  | Connecting (p : Provider)
  | Invoking (c : channel)
  | InFallback (primary : Future) (secondary : RuntimeBinding Provider)
  | Ready (res : result FulfillResponse Status).

(** The cell whose mutex the future holds. *)
Fixpoint held (f : Future) : option nat :=
  match f with
  | Connecting p => Some (connected_inner p)
  | InFallback f _ => held f
  | _ => None
  end.

Definition connect_failed (e : Error) : Status :=
  mkStatus Unknown ("Failed to connect to provider: " +:+ Error_display e +:+ ".").
Definition invoke_failed (e : Error) : Status :=
  mkStatus Unknown ("Error when invoking provider: '" +:+ Error_display e +:+ "'.").

(** [self.connected_inner.lock().await]: [None] while the mutex is held.  A cached
    connection is cloned and the guard dropped; otherwise the guard is kept across
    the await of [inner.connect()]. *)
Definition poll_lock (p : Provider) (cells : list (option channel)) (locks : gset nat)
    : option (Future * gset nat) :=
  if decide (connected_inner p ∈ locks) then None
  else match mjoin (cells !! connected_inner p) with
       | Some connected => Some (Invoking connected, locks)
       | None => Some (Connecting p, {[connected_inner p]} ∪ locks)
       end.

(** The end of [inner.connect().await?]: a connection is cached, an error leaves the
    cell empty, and the guard is dropped in both cases. *)
Definition poll_connect (p : Provider) (w : Network) (locks : gset nat)
    : Future * Network * gset nat :=
  let '(cells, n) := w in
  let '(res, _, n) := grpc_connect (inner p) n in
  match res with
  | Ok client => (Invoking client, (<[connected_inner p := Some client]> cells, n),
                  locks ∖ {[connected_inner p]})
  | Err e => (Ready (Err (connect_failed e)), (cells, n), locks ∖ {[connected_inner p]})
  end.

Definition poll_invoke (c : channel) (arg : IntentMessage) (w : Network) : Future * Network :=
  let '(cells, n) := w in
  let '(res, n) := grpc_fulfill c (mkProviderFulfillRequest (Some arg)) n in
  (Ready (map_err invoke_failed res), (cells, n)).

(** One poll of the future of a request for [arg]: up to the next await.  [None] when
    it is ready or waits for a mutex. *)
Fixpoint poll (arg : IntentMessage) (f : Future) (st : Network * StreamingEss (T := unit))
    (locks : gset nat)
    : option (outcome (Future * (Network * StreamingEss (T := unit)) * gset nat)) :=
  match f with
  | Execute (Remote p) => Some (Return (Locking p, st, locks))
  | Execute (Fallback primary secondary) =>
      Some (Return (InFallback (Execute primary) secondary, st, locks))
  | Execute b => Some ('(res, st) ← execute b arg st; Return (Ready res, st, locks))
  | Locking p =>
      '(f, locks) ← poll_lock p st.1.1 locks; Some (Return (f, st, locks))
  | Connecting p =>
      let '(f, w, locks) := poll_connect p st.1 locks in Some (Return (f, (w, st.2), locks))
  | Invoking c =>
      let '(f, w) := poll_invoke c arg st.1 in Some (Return (f, (w, st.2), locks))
  | InFallback (Ready (Ok ok)) _ => Some (Return (Ready (Ok ok), st, locks))
  | InFallback (Ready (Err _)) secondary => Some (Return (Execute secondary, st, locks))
  | InFallback f secondary =>
      o ← poll arg f st locks;
      Some ('(f, st, locks) ← o; Return (InFallback f secondary, st, locks))
  | Ready _ => None
  end.

(** [fulfill] up to the await of [execute]. *)
Definition begin_fulfill (self : MainServer) (request : RuntimeFulfillRequest) (w : World)
    : result (IntentMessage * RuntimeBinding Provider) Status :=
  and_then (ok_or (rf_intent request) (invalid_argument "intent is required")) (λ intent,
  and_then (match intent_enum intent with
            | Some i => Ok (map_intent_variant i)
            | None => Err (invalid_argument "Intent is not known.")
            end) (λ kind,
  let config := mkIntentConfiguration (rf_namespace request) kind in
  result_map (λ binding, (intent, binding))
    (ok_or (resolve (broker self) config w) (mkStatus NotFound "No provider found.")))).

(** The intent a request asks for, when it is specified. *)
Definition requested (request : RuntimeFulfillRequest) : option IntentConfiguration :=
  i ← rf_intent request; e ← intent_enum i;
  Some (mkIntentConfiguration (rf_namespace request) (map_intent_variant e)).

(** ** The server with its requests in flight

    A flight is a request whose [execute] is not finished.  [fl_services] is not part
    of the program: it records the services that were registered for the intent when
    it was resolved. *)
Record Flight := mkFlight {
  fl_arg : IntentMessage;
  fl_future : Future;
  fl_services : option (gset ServiceConfiguration)
}.

Record AsyncServer := mkAsyncServer {
  as_server : MainServer;
  as_world : World;
  as_locks : gset nat;
  as_flights : gmap nat Flight
}.

Definition registered_services (self : MainServer) (request : RuntimeFulfillRequest)
    : option (gset ServiceConfiguration) :=
  ic ← requested request; external_services_by_intent (registry self) !! ic.

(** What happens in the network when a future is dropped whose connection or call is
    already under way. *)
Fixpoint under_way (arg : IntentMessage) (f : Future) (n : net) : net :=
  match f with
  | Connecting p => (grpc_connect (inner p) n).2
  | Invoking c => (grpc_fulfill c (mkProviderFulfillRequest (Some arg)) n).2
  | InFallback f _ => under_way arg f n
  | _ => n
  end.
Definition may_leave (arg : IntentMessage) (f : Future) (n n' : net) : Prop :=
  n' = n ∨ n' = under_way arg f n.

(** The server without the request, whose future leaves the network as [n']. *)
Definition ended (id : nat) (fl : Flight) (n' : net) (st : AsyncServer) : AsyncServer :=
  mkAsyncServer (as_server st)
    (mkWorld (bindings_by_intent (as_world st)) ((network (as_world st)).1, n') (streaming (as_world st)))
    (match held (fl_future fl) with Some i => as_locks st ∖ {[i]} | None => as_locks st end)
    (delete id (as_flights st)).

Section steps.
Context (metadata_value : string → option string) (overflow_checks : bool).

(** What happens in one piece: the calls without an await, pruning, and an iteration
    of a streaming task. *)
Inductive quiet_step : MainServer * World → MainServer * World → Prop :=
  | quiet_call c answer self w self' w' :
      (∀ request, c ≠ CallFulfill request) →
      handle metadata_value c self w = Return (answer, self', w') →
      quiet_step (self, w) (self', w')
  | quiet_prune now out self w self' w' :
      registry_do self (λ reg w, prune reg now w) w = Return (out, self', w') →
      quiet_step (self, w) (self', w')
  | quiet_task t now selected seq log continue seq' e log' self w :
      t ∈ tasks (streaming w) →
      serve_iteration overflow_checks (task_subscription t) (into_event now t) log_handlers
        selected seq (ess (streaming w)) log = Return (continue, seq', e, log') →
      quiet_step (self, w)
        (self, mkWorld (bindings_by_intent w) (network w)
                 (mkStreamingEss (if continue then e else drop_subscription (task_subscription t) e)
                    (tasks (streaming w)))).

(** A flight is polled: it was not dropped and its poll does not panic. *)
Inductive poll_step : AsyncServer → AsyncServer → Prop :=
  | poll_flight id fl f' n' s' locks' st :
      as_flights st !! id = Some fl →
      poll (fl_arg fl) (fl_future fl) (network (as_world st), streaming (as_world st)) (as_locks st)
        = Some (Return (f', (n', s'), locks')) →
      poll_step st
        (mkAsyncServer (as_server st) (mkWorld (bindings_by_intent (as_world st)) n' s') locks'
           (<[id := mkFlight (fl_arg fl) f' (fl_services fl)]> (as_flights st))).

(** A request ends: it is answered, its client goes away or its poll panics.  A guard
    it holds is dropped.  What its future awaits may have reached the peer by then. *)
Inductive end_step : AsyncServer → AsyncServer → Prop :=
  | end_flight id fl n' st :
      as_flights st !! id = Some fl →
      may_leave (fl_arg fl) (fl_future fl) (network (as_world st)).2 n' →
      end_step st (ended id fl n' st).

Inductive async_step : AsyncServer → AsyncServer → Prop :=
  | async_quiet self w self' w' locks flights :
      quiet_step (self, w) (self', w') →
      async_step (mkAsyncServer self w locks flights) (mkAsyncServer self' w' locks flights)
  | async_begin id request arg b self w locks flights :
      flights !! id = None →
      begin_fulfill self request w = Ok (arg, b) →
      async_step (mkAsyncServer self w locks flights)
        (mkAsyncServer self w locks
           (<[id := mkFlight arg (Execute b) (registered_services self request)]> flights))
  | async_poll st st' : poll_step st st' → async_step st st'
  | async_end st st' : end_step st st' → async_step st st'.

(** From what [main] builds, with no request in flight. *)
Definition async_init (u : Url) (cfg : Config) (n : net) (ch : chans) : AsyncServer :=
  mkAsyncServer
    (IntentBrokeringServer_new
       (Registry_new (mkComposite _ _ the_broker the_streaming_ess) cfg) the_broker)
    (IntentBroker_new u the_streaming_ess ([], n) (StreamingEss_new ch)).2 ∅ ∅.

Inductive async_reachable (u : Url) : AsyncServer → Prop :=
  | async_reachable_init cfg n ch : async_reachable u (async_init u cfg n ch)
  | async_reachable_step st st' :
      async_reachable u st → async_step st st' → async_reachable u st'.
End steps.

(** ** How long a request can take: the polls a future still needs at most *)
Fixpoint binding_polls (b : RuntimeBinding Provider) : nat :=
  match b with
  | Remote _ => 4
  | Fallback primary secondary => 2 + binding_polls primary + binding_polls secondary
  | _ => 1
  end.
Fixpoint polls_left (f : Future) : nat :=
  match f with
  | Execute b => binding_polls b
  | Locking _ => 3
  | Connecting _ => 2
  | Invoking _ => 1
  | InFallback f secondary => 1 + polls_left f + binding_polls secondary
  | Ready _ => 0
  end.
Definition flights_polls (flights : gmap nat Flight) : nat :=
  map_fold (λ _ fl total, polls_left (fl_future fl) + total) 0 flights.

(** A future polled until it is ready, with nothing else running. *)
Fixpoint poll_all (fuel : nat) (arg : IntentMessage) (f : Future)
    (st : Network * StreamingEss (T := unit)) (locks : gset nat)
    : option (outcome (result FulfillResponse Status * (Network * StreamingEss (T := unit)))) :=
  match f, fuel with
  | Ready res, _ => Some (Return (res, st))
  | _, O => None
  | _, S fuel =>
      match poll arg f st locks with
      | Some (Return (f, st, locks)) => poll_all fuel arg f st locks
      | Some (Panic m) => Some (Panic m)
      | None => None
      end
  end.
End async.
