(* ===== verification/AsyncFacts.v ===== *)
(** * The invariant of the server with requests in flight

    Which services a future can reach, how polls use the mutexes of the connection
    cells, and that both survive everything that runs between two polls. *)

From S2P Require Import Prelude RustStd Common Proto Query Registry.
From S2P Require Import RegistryFacts RegistrySpec Ess EssFacts StreamingEss.
From S2P Require Import Connection Execution Broker BrokerFacts.
From S2P Require Import BrokerConnections ExecutionFacts Server ServerFacts.
From S2P Require Import ServerTotality AsyncExecution.

Section facts.
Context `{!UrlLib, !HashOrder, !RegexLib, !Transport} `{!Channels unit (result Event Status)}.
#[local] Abbreviation Provider := (ReusableProvider GrpcProvider).
#[local] Abbreviation MainServer := (IntentBrokeringServer (Composite IntentBroker StreamingRef)).
Implicit Types (owners : list Url) (cells : list (option channel)) (locks : gset nat).
Implicit Types (f : Future) (arg : IntentMessage) (U : Url → Prop).

(** ** What a future can reach *)
Definition provider_from owners U (p : Provider) : Prop :=
  owners !! connected_inner p = Some (grpc_url (inner p)) ∧ U (grpc_url (inner p)).

Fixpoint binding_from owners U (b : RuntimeBinding Provider) : Prop :=
  match b with
  | Remote p => provider_from owners U p
  | Fallback primary secondary => binding_from owners U primary ∧ binding_from owners U secondary
  | _ => False
  end.

(** A future that only talks to services at the URLs [U], and only to connections
    that were opened to them. *)
Fixpoint future_from owners U arg f : Prop :=
  match f with
  | Execute b => binding_from owners U b
  | Locking p | Connecting p => provider_from owners U p
  | Invoking c => ∃ u, U u ∧ connected_to c u
  | InFallback f b => future_from owners U arg f ∧ binding_from owners U b
  | Ready (Ok resp) => ∃ u, U u ∧ answered_by u arg resp
  | Ready (Err st) => code st = Unknown
  end.

(** The future of one of the broker's own intents awaits nothing. *)
Definition system_binding (b : RuntimeBinding Provider) : Prop :=
  match b with Remote _ | Fallback _ _ => False | _ => True end.
Definition future_system f : Prop :=
  match f with Execute b => system_binding b | Ready _ => True | _ => False end.

Lemma binding_from_app owners more U b :
  binding_from owners U b → binding_from (owners ++ more) U b.
Proof.
  induction b; simpl; [|naive_solver|done..]. intros [? ?]. split; [|done]. by apply lookup_app_l_Some.
Qed.

Lemma future_from_app owners more U arg f :
  future_from owners U arg f → future_from (owners ++ more) U arg f.
Proof.
  assert (∀ p, provider_from owners U p → provider_from (owners ++ more) U p) as Hp.
  { intros p [? ?]. split; [|done]. by apply lookup_app_l_Some. }
  induction f as [b|p|p|c|f IH b|[]]; simpl; eauto using binding_from_app.
  intros [? ?]. eauto using binding_from_app.
Qed.

Lemma mjoin_Some {A} (o : option (option A)) a : mjoin o = Some a → o = Some (Some a).
Proof. destruct o as [[]|]; simpl; congruence. Qed.

(** The cells after a step that caches connections only where there was none. *)
Definition cells_grow cells cells' : Prop :=
  ∀ i c, cells !! i = Some (Some c) → cells' !! i = Some (Some c).

(** ** What a poll does to the mutexes

    It touches none, takes the one of an empty cell, or fills the cell whose mutex
    it holds and releases it. *)
Inductive lock_effect (f f' : Future) locks locks' cells cells' : Prop :=
  | lock_none :
      held f = None → held f' = None → locks' = locks → cells' = cells →
      lock_effect f f' locks locks' cells cells'
  | lock_take i :
      held f = None → held f' = Some i → i ∉ locks → mjoin (cells !! i) = None →
      locks' = {[i]} ∪ locks → cells' = cells →
      lock_effect f f' locks locks' cells cells'
  | lock_release i :
      held f = Some i → held f' = None → locks' = locks ∖ {[i]} →
      (cells' = cells ∨ ∃ c, cells' = <[i := Some c]> cells) →
      lock_effect f f' locks locks' cells cells'.

Lemma lock_effect_fallback f f' locks locks' cells cells' b :
  lock_effect f f' locks locks' cells cells' →
  lock_effect (InFallback f b) (InFallback f' b) locks locks' cells cells'.
Proof.
  intros [|i|i]; [by eapply lock_none|by eapply (lock_take _ _ _ _ _ _ i)|
    by eapply (lock_release _ _ _ _ _ _ i)].
Qed.

(** A poll of a future with registered services returns, whatever runs besides. *)
Lemma poll_from owners U arg f cells (n : net) s locks o :
  cells_ok owners cells → future_from owners U arg f →
  poll arg f ((cells, n), s) locks = Some o →
  ∃ f' cells' n' locks', o = Return (f', ((cells', n'), s), locks') ∧
    cells_ok owners cells' ∧ future_from owners U arg f' ∧
    lock_effect f f' locks locks' cells cells' ∧ polls_left f' < polls_left f.
Proof.
  intros Hok. revert o. induction f as [b|p|p|c|f IH b|res]; intros o Hf; cbn [poll]; [..|done].
  - destruct b as [p|b1 b2| | |]; simpl in Hf; try done; intros [= <-];
      do 4 eexists; (split_and!; [done|done|done|by apply lock_none|simpl; lia]).
  - unfold poll_lock. simpl in Hf. case_decide as Hl; [done|].
    destruct (mjoin _) as [c|] eqn:Hc; intros [= <-]; do 4 eexists;
      (split_and!; [done|done| | |simpl; lia]).
    + apply mjoin_Some in Hc. destruct Hok as [_ Hc']. destruct (Hc' _ _ Hc) as (u & Hu & Hcon).
      destruct Hf as [Ho HU]. exists u. split; [congruence|done].
    + by apply lock_none.
    + done.
    + by apply (lock_take _ _ _ _ _ _ (connected_inner p)).
  - unfold poll_connect, grpc_connect. cbn [fst snd].
    destruct (client_connect _ n) as [[c|e] n'] eqn:Hcon; cbn; intros [= <-];
      do 4 eexists; (split_and!; [done| | | |simpl; lia]).
    + destruct Hok as [Hlen Hc]. split; [by rewrite length_insert|].
      intros j c' [(<- & [= <-] & _)|[_ Hj]]%list_lookup_insert_Some; [|by apply Hc].
      destruct Hf as [Ho _]. eexists. split; [exact Ho|]. by exists n, n'.
    + destruct Hf as [_ HU]. eexists. split; [exact HU|]. by exists n, n'.
    + apply (lock_release _ _ _ _ _ _ (connected_inner p)); [done..|]. eauto.
    + done.
    + done.
    + apply (lock_release _ _ _ _ _ _ (connected_inner p)); [done..|]. eauto.
  - unfold poll_invoke, grpc_fulfill. cbn [fst snd].
    destruct (client_fulfill c _ n) as [[resp|e] n'] eqn:Hr; cbn; intros [= <-];
      do 4 eexists; (split_and!; [done|done| |by apply lock_none|simpl; lia]).
    + destruct Hf as (u & HU & Hcon). exists u. split; [done|]. by exists c, n, n'.
    + done.
  - destruct Hf as [Hf Hb].
    assert (∀ o', poll arg f ((cells, n), s) locks = Some o' →
      Some ('(f, st, locks) ← o'; Return (InFallback f b, st, locks)) = Some o →
      ∃ f' cells' n' locks', o = Return (f', ((cells', n'), s), locks') ∧
        cells_ok owners cells' ∧ future_from owners U arg f' ∧
        lock_effect (InFallback f b) f' locks locks' cells cells' ∧
        polls_left f' < polls_left (InFallback f b)) as Hgo.
    { intros o' Ho' [= <-]. destruct (IH o' Hf Ho') as (f' & cells' & n' & locks' & -> & ? & ? & ? & ?).
      exists (InFallback f' b), cells', n', locks'.
      split_and!; [done|done|done|by apply lock_effect_fallback|simpl; lia]. }
    destruct f as [| | | | |[ok|e]].
    1-5: destruct (poll arg _ _ locks) as [o'|]; [by intros [= <-]; eapply Hgo|done].
    + intros [= <-]. do 4 eexists. split_and!; [done|done|exact Hf|by apply lock_none|simpl; lia].
    + intros [= <-]. do 4 eexists. split_and!; [done|done|exact Hb|by apply lock_none|simpl; lia].
Qed.

(** A poll of one of the broker's own intents finishes it. *)
Lemma poll_system arg f cells (n : net) s locks f' st' locks' :
  future_system f → poll arg f ((cells, n), s) locks = Some (Return (f', st', locks')) →
  (∃ res, f' = Ready res) ∧ locks' = locks ∧ (st'.1 = (cells, n)) ∧
  ess_config (ess st'.2) = ess_config (ess s) ∧ held f = None ∧ polls_left f' < polls_left f.
Proof.
  destruct f as [[| |intents|u|[]]| | | | |]; try done; intros _; cbn [poll execute fst snd].
  - destruct (intent_enum arg) as [[]|]; try done. destruct (regex_from_query _); [|done].
    intros [= <- <- <-]. simpl. split_and!; [by eexists|done..|lia].
  - intros [= <- <- <-]. simpl. split_and!; [by eexists|done..|lia].
  - destruct (intent_enum arg) as [[]|]; try done.
    destruct (serve_subscriptions _ _ _) as [[r s1]|] eqn:E; [|done].
    cbn [mbind outcome_bind]. intros [= <- <- <-]. simpl.
    split_and!; [by eexists|done|done|by eapply serve_subscriptions_config|done|lia].
Qed.

(** ** What runs between two polls *)
Lemma make_binding_prefix lo cl cells (n : net) :
  cells `prefix_of` (make_binding lo cl (cells, n)).2.1.
Proof.
  destruct lo, cl; simpl; [|by apply prefix_app_r..|done].
  rewrite <- (assoc (++)). by apply prefix_app_r.
Qed.

Lemma refresh_prefix changes bindings cells (n : net) :
  cells `prefix_of` (refresh changes bindings (cells, n)).2.1.
Proof.
  unfold refresh. revert bindings cells n.
  induction changes as [|c cs IH]; intros bindings cells n; cbn [foldl]; [done|].
  assert (cells `prefix_of` (refresh_step (bindings, (cells, n)) c).2.1) as Hp.
  { unfold refresh_step.
    assert (∀ ic lo cl, cells `prefix_of` (let '(binding, w) := make_binding lo cl (cells, n) in
      match binding with
      | Some b => (<[ic := b]> bindings, w)
      | None => (delete ic bindings, w)
      end).2.1) as Hgo.
    { intros ic lo cl. pose proof (make_binding_prefix lo cl cells n) as Hm.
      by destruct (make_binding lo cl (cells, n)) as [[b|] [cells' n']]. }
    destruct c; [| |apply Hgo]; destruct (select_services _ _ _); apply Hgo. }
  destruct (refresh_step _ c) as [b1 [c1 n1]]. simpl in Hp. etrans; [exact Hp|apply IH].
Qed.

(** A step of the registry adds cells and keeps those there are. *)
Lemma registry_step_owned owners op (self : MainServer) (w : World) reply r' w' :
  registry_wf (registry self) → observer (registry self) = server_observer →
  cells_ok owners (network w).1 → bindings_owned owners (bindings_by_intent w) →
  step op (registry self) w = Return (reply, r', w') →
  ∃ more, cells_ok (owners ++ more) (network w').1 ∧
    bindings_owned (owners ++ more) (bindings_by_intent w') ∧
    (network w).1 `prefix_of` (network w').1.
Proof.
  intros Hwf Hobs Hc Hb Hst.
  destruct (step_changes _ _ _ _ _ _ Hwf Hst) as (_ & changes & _ & Hn).
  rewrite Hobs in Hn. pose proof (notify_bindings _ _ _ Hn) as Hr.
  destruct (network w) as [cells n] eqn:Ew. simpl in *.
  pose proof (refresh_owned changes owners (bindings_by_intent w) cells n Hc Hb) as Ho.
  pose proof (refresh_prefix changes (bindings_by_intent w) cells n) as Hp.
  rewrite <- Hr in Ho, Hp. destruct (network w') as [cells' n'].
  destruct Ho as (more & ? & ?). by exists more.
Qed.

Lemma quiet_owned mv checks initial owners (self self' : MainServer) (w w' : World) :
  system_only initial → server_ok initial self w →
  cells_ok owners (network w).1 → bindings_owned owners (bindings_by_intent w) →
  quiet_step mv checks (self, w) (self', w') →
  server_ok initial self' w' ∧
  ∃ more, cells_ok (owners ++ more) (network w').1 ∧
    bindings_owned (owners ++ more) (bindings_by_intent w') ∧
    (network w).1 `prefix_of` (network w').1.
Proof.
  intros Hinit Hok Hc Hb Hq.
  assert (∃ more, cells_ok (owners ++ more) (network w).1 ∧
    bindings_owned (owners ++ more) (bindings_by_intent w) ∧
    (network w).1 `prefix_of` (network w).1) as Hsame by (exists []; by rewrite app_nil_r).
  inversion Hq as [c a ? ? ? ? Hnf Hh|now out ? ? ? ? Hp|t now sel seq log co seq' e log' ? ? Ht Hs];
    simplify_eq.
  - split; [by eapply handle_ok|]. destruct c as [req now|req now|req|id]; simpl in Hh.
    + destruct (announce self req now). by injection Hh as _ _ <-.
    + destruct (register self req now w) as [[[res s1] w1]|] eqn:E; [|done]. injection Hh as _ <- <-.
      apply register_step_registry in E as [[-> ->]|(s & ics & reply & r & Hst & ->)]; [done|].
      eapply registry_step_owned; [apply Hok|apply Hok|done|done|exact Hst].
    + by destruct (Hnf req).
    + destruct (open mv id (streaming w)) as [[res s]|] eqn:E; [|done]. by injection Hh as _ <- <-.
  - split; [by eapply prune_ok|]. unfold registry_do in Hp.
    destruct (prune (registry self) now w) as [[[[sp d] r] w1]|] eqn:E; [|done].
    injection Hp as _ <- <-.
    apply (registry_step_owned owners (OpPrune now) self w (Pruned sp d) r);
      [apply Hok|apply Hok|done|done|]. simpl. by rewrite E.
  - split; [|done]. destruct Hok as [? ? ? ? Hess]. split; simpl; [done..|].
    apply task_ok in Hs. destruct co; simpl; congruence.
Qed.

(** ** The invariant *)
Definition from_services (Svc : gset ServiceConfiguration) (u : Url) : Prop :=
  ∃ s, s ∈ Svc ∧ url s = u.

Definition flight_ok owners (fl : Flight) : Prop :=
  match fl_services fl with
  | Some Svc => future_from owners (from_services Svc) (fl_arg fl) (fl_future fl)
  | None => future_system (fl_future fl)
  end.

Definition holds (flights : gmap nat Flight) (id i : nat) : Prop :=
  ∃ fl, flights !! id = Some fl ∧ held (fl_future fl) = Some i.

(** The mutexes that are taken are those the flights hold, each by one flight, and
    the cell behind such a mutex is empty. *)
Record locks_ok locks (flights : gmap nat Flight) cells : Prop := {
  lk_exact i : i ∈ locks ↔ ∃ id, holds flights id i;
  lk_unique i id1 id2 : holds flights id1 i → holds flights id2 i → id1 = id2;
  lk_empty i : i ∈ locks → cells !! i = Some None
}.

Record async_ok (u : Url) (st : AsyncServer) : Prop := {
  ok_server : server_ok (IntentBinder_new u the_streaming_ess) (as_server st) (as_world st);
  ok_flights : ∃ owners, cells_ok owners (network (as_world st)).1 ∧
    bindings_owned owners (bindings_by_intent (as_world st)) ∧
    map_Forall (λ _, flight_ok owners) (as_flights st);
  ok_locks : locks_ok (as_locks st) (as_flights st) (network (as_world st)).1
}.

Lemma flight_ok_app owners more fl : flight_ok owners fl → flight_ok (owners ++ more) fl.
Proof. unfold flight_ok. destruct (fl_services fl); [apply future_from_app|done]. Qed.

(** ** Bookkeeping of the mutexes *)
Lemma locks_ok_prefix locks flights cells cells' :
  cells `prefix_of` cells' → locks_ok locks flights cells → locks_ok locks flights cells'.
Proof.
  intros Hp [He Hu Hemp]. split; [done|done|]. intros i Hi%Hemp. by eapply prefix_lookup_Some.
Qed.

Lemma holds_insert flights id fl id' i :
  holds (<[id := fl]> flights) id' i ↔
  (id' = id ∧ held (fl_future fl) = Some i) ∨ (id' ≠ id ∧ holds flights id' i).
Proof.
  unfold holds. destruct (decide (id' = id)) as [->|Hne].
  - rewrite lookup_insert_eq. naive_solver.
  - rewrite lookup_insert_ne by done. naive_solver.
Qed.

Lemma holds_delete flights id id' i :
  holds (delete id flights) id' i ↔ id' ≠ id ∧ holds flights id' i.
Proof.
  unfold holds. destruct (decide (id' = id)) as [->|Hne].
  - rewrite lookup_delete_eq. naive_solver.
  - rewrite lookup_delete_ne by done. naive_solver.
Qed.
End facts.
