(* ===== verification/AsyncInvariant.v ===== *)
(** * The invariant is kept by every step

    Beginning, polling and ending a request, and everything that runs in between,
    preserve [async_ok]; cached connections are never replaced. *)

From S2P Require Import Prelude RustStd Common Proto Query Registry.
From S2P Require Import RegistryFacts RegistrySpec Ess EssFacts StreamingEss.
From S2P Require Import Connection Execution Broker BrokerFacts.
From S2P Require Import BrokerConnections ExecutionFacts Server ServerFacts.
From S2P Require Import ServerTotality AsyncExecution AsyncFacts.

Section invariant.
Context `{!UrlLib, !HashOrder, !RegexLib, !Transport} `{!Channels unit (result Event Status)}.
#[local] Abbreviation MainServer := (IntentBrokeringServer (Composite IntentBroker StreamingRef)).
Implicit Types (owners : list Url) (cells : list (option channel)) (locks : gset nat).
Implicit Types (flights : gmap nat Flight) (fl : Flight) (st : AsyncServer).

(** ** The mutexes *)
Lemma locks_ok_begin locks flights cells id fl :
  flights !! id = None → held (fl_future fl) = None →
  locks_ok locks flights cells → locks_ok locks (<[id := fl]> flights) cells.
Proof.
  intros Hid Hh [He Hu Hemp].
  assert (∀ id' i, holds (<[id := fl]> flights) id' i ↔ holds flights id' i) as Hiff.
  { intros id' i. rewrite holds_insert, Hh. split; [naive_solver|].
    intros [fl' [Hl Hf]]. right. split; [congruence|by exists fl']. }
  split.
  - intros i. rewrite He. by setoid_rewrite Hiff.
  - intros i id1 id2. rewrite !Hiff. apply Hu.
  - done.
Qed.

Lemma locks_ok_end locks flights cells id fl :
  flights !! id = Some fl → locks_ok locks flights cells →
  locks_ok (match held (fl_future fl) with Some i => locks ∖ {[i]} | None => locks end)
    (delete id flights) cells.
Proof.
  intros Hid [He Hu Hemp]. split.
  - intros i. setoid_rewrite holds_delete. destruct (held (fl_future fl)) as [j|] eqn:Hj.
    + rewrite elem_of_difference, elem_of_singleton, He. split.
      * intros [[id' Hh] Hne]. exists id'. split; [|done]. intros ->.
        destruct Hh as (fl' & Hl & Hf). congruence.
      * intros (id' & Hne & Hh). split; [by exists id'|]. intros ->.
        apply Hne, (Hu j id' id); [done|by exists fl].
    + rewrite He. split.
      * intros [id' Hh]. exists id'. split; [|done]. intros ->.
        destruct Hh as (fl' & Hl & Hf). congruence.
      * intros (id' & _ & Hh). by exists id'.
  - intros i id1 id2. rewrite !holds_delete. intros [_ ?] [_ ?]. by eapply Hu.
  - intros i Hi. apply Hemp. destruct (held _); set_solver.
Qed.

Lemma locks_ok_poll locks locks' flights cells cells' id fl f' :
  flights !! id = Some fl →
  lock_effect (fl_future fl) f' locks locks' cells cells' →
  (∀ i, held f' = Some i → is_Some (cells !! i)) →
  locks_ok locks flights cells →
  locks_ok locks' (<[id := mkFlight (fl_arg fl) f' (fl_services fl)]> flights) cells'.
Proof.
  intros Hid Heff Hrange Hok. pose proof Hok as [He Hu Hemp].
  assert (∀ i, held (fl_future fl) = Some i → holds flights id i) as Hown by (intros; by exists fl).
  destruct Heff as [Hf Hf' -> ->|i Hf Hf' Hi Hc -> ->|i Hf Hf' -> Hc].
  - rewrite <- insert_delete_eq. apply locks_ok_begin; [by rewrite lookup_delete_eq|done|].
    pose proof (locks_ok_end _ _ _ _ _ Hid Hok) as Hend. by rewrite Hf in Hend.
  - assert (∀ id' j, holds (<[id := mkFlight (fl_arg fl) f' (fl_services fl)]> flights) id' j ↔
      (id' = id ∧ j = i) ∨ holds flights id' j) as Hiff.
    { intros id' j. rewrite holds_insert. simpl. rewrite Hf'. split; [naive_solver|].
      intros [[-> ->]|Hh]; [by left|]. right. split; [|done]. intros ->.
      destruct Hh as (fl' & Hl & Hj). congruence. }
    split.
    + intros j. setoid_rewrite Hiff. rewrite elem_of_union, elem_of_singleton, He. naive_solver.
    + intros j id1 id2. rewrite !Hiff.
      assert (∀ id', ¬ holds flights id' i) as Hno by (intros id' Hh; apply Hi, He; by exists id').
      intros [[-> ->]|Hh1] [[-> E]|Hh2]; subst; [done|by apply Hno in Hh2|by apply Hno in Hh1|
        by eapply Hu].
    + intros j [->%elem_of_singleton|Hj]%elem_of_union; [|by apply Hemp].
      destruct (Hrange i Hf') as [[c|] Hs]; rewrite Hs in Hc |- *; done.
  - rewrite <- insert_delete_eq. apply locks_ok_begin; [by rewrite lookup_delete_eq|done|].
    pose proof (locks_ok_end _ _ _ _ _ Hid Hok) as [He' Hu' Hemp']. rewrite Hf in *.
    split; [done|done|]. intros j Hj. destruct Hc as [->|[c ->]]; [by apply Hemp'|].
    rewrite list_lookup_insert_ne by set_solver. by apply Hemp'.
Qed.

Lemma held_range owners U arg f cells i :
  cells_ok owners cells → future_from owners U arg f → held f = Some i → is_Some (cells !! i).
Proof.
  intros [Hlen _] Hf Hh. apply lookup_lt_is_Some. rewrite Hlen. apply lookup_lt_is_Some.
  induction f as [b|p|p|c|f IH b|res]; simpl in *; try done.
  - injection Hh as <-. destruct Hf as [Ho _]. by eexists.
  - destruct Hf as [Hf _]. by apply IH.
Qed.

Lemma lock_effect_grow locks locks' flights cells cells' id fl f' :
  flights !! id = Some fl → locks_ok locks flights cells →
  lock_effect (fl_future fl) f' locks locks' cells cells' → cells_grow cells cells'.
Proof.
  intros Hid [He _ Hemp] [_ _ _ ->|i _ _ _ _ _ ->|i Hf _ _ [->|[c ->]]] j c' Hj; try done.
  destruct (decide (i = j)) as [<-|Hne]; [|by rewrite list_lookup_insert_ne].
  rewrite Hemp in Hj; [done|]. apply He. exists id. by exists fl.
Qed.

(** ** A resolved request *)
Lemma begin_fulfill_Ok (self : MainServer) request (w : World) arg b :
  begin_fulfill self request w = Ok (arg, b) →
  ∃ ic, requested request = Some ic ∧ resolve (broker self) ic w = Some b ∧ rf_intent request = Some arg.
Proof.
  unfold begin_fulfill, requested. destruct (rf_intent request) as [i|]; simpl; [|done].
  destruct (intent_enum i) as [e|]; simpl; [|done].
  destruct (resolve _ _ w) as [b'|] eqn:Hr; simpl; [|done]. intros [= <- <-]. eauto.
Qed.

Lemma binds_to_from owners broker Svc s b :
  binding_owned owners b → binds_to s b → s ∈ Svc →
  binding_from owners (from_services Svc) (binding_into_runtime_binding broker b).
Proof. intros Ho [cell ->] Hs. split; [done|]. by exists s. Qed.

Lemma begin_flight_ok u owners (self : MainServer) (w : World) request arg b :
  server_ok (IntentBinder_new u the_streaming_ess) self w →
  bindings_owned owners (bindings_by_intent w) →
  begin_fulfill self request w = Ok (arg, b) →
  flight_ok owners (mkFlight arg (Execute b) (registered_services self request)).
Proof.
  intros Hok Hb (ic & Hic & Hr & _)%begin_fulfill_Ok. destruct (broker self).
  destruct (resolve_owned _ _ _ _ Hb Hr) as (b' & -> & Hl & Hown).
  unfold flight_ok, registered_services. rewrite Hic. simpl.
  pose proof (srv_synced _ _ _ Hok ic) as Hs.
  destruct (external_services_by_intent (registry self) !! ic) as [Svc|]; simpl.
  - destruct Hs as (b'' & Hl' & Hfor). rewrite Hl in Hl'. injection Hl' as <-.
    destruct Hfor as [l c b1 b2 Hin _ Hc _ Hb1 Hb2|s b1 Hin _ Hb1].
    + destruct Hown. split; by eapply binds_to_from.
    + by eapply binds_to_from.
  - rewrite Hl in Hs. symmetry in Hs. apply initial_cases in Hs as [_ Hcase].
    by destruct Hcase as [[_ ->]|[[_ ->]|[_ ->]]].
Qed.

(** ** Steps *)
Lemma poll_step_ok u st st' :
  async_ok u st → poll_step st st' →
  async_ok u st' ∧ cells_grow (network (as_world st)).1 (network (as_world st')).1.
Proof.
  intros [Hsrv (owners & Hc & Hb & Hfl) Hlk] Hp.
  destruct Hp as [id fl f' n' s' locks' st Hid Hpoll].
  pose proof (Hfl id fl Hid) as Hf. unfold flight_ok in Hf.
  destruct st as [self w locks flights]. simpl in *.
  destruct (network w) as [cells n] eqn:Ew. simpl in *.
  assert (∃ cells1, n'.1 = cells1 ∧ cells_ok owners cells1 ∧
    flight_ok owners (mkFlight (fl_arg fl) f' (fl_services fl)) ∧
    lock_effect (fl_future fl) f' locks locks' cells cells1 ∧
    (∀ i, held f' = Some i → is_Some (cells !! i)) ∧
    ess_config (ess s') = ess_config (ess (streaming w))) as (cells1 & <- & Hc' & Hf' & Heff & Hr & Hess).
  { unfold flight_ok. simpl. destruct (fl_services fl) as [Svc|].
    - destruct (poll_from _ _ _ _ _ _ _ _ _ Hc Hf Hpoll)
        as (f1 & cells1 & n1 & locks1 & [= -> -> -> ->] & Hc1 & Hf1 & Heff & _).
      exists cells1. split_and!; try done. intros i Hi. by eapply held_range.
    - destruct (poll_system _ _ _ _ _ _ _ _ _ Hf Hpoll) as ([res ->] & -> & Hn & He & Hh & _).
      simpl in *. subst n'. exists cells. split_and!; [done..| |done|done]. by apply lock_none. }
  split; [|by eapply lock_effect_grow]. destruct Hsrv as [Hwf Hobs Hsy _ He]. split; simpl.
  - split; simpl; [done..|by exists owners|congruence].
  - exists owners. split_and!; [done|done|]. by apply map_Forall_insert_2.
  - by eapply locks_ok_poll.
Qed.

Lemma async_step_ok mv checks u st st' :
  async_ok u st → async_step mv checks st st' →
  async_ok u st' ∧ cells_grow (network (as_world st)).1 (network (as_world st')).1.
Proof.
  intros Hok Hst. pose proof (IntentBinder_new_system u the_streaming_ess) as Hinit.
  destruct Hst as [self w self' w' locks flights Hq|id request arg b self w locks flights Hid Hbegin
    |st st' Hp|st st' He]; [| |by eapply poll_step_ok|];
    destruct Hok as [Hsrv (owners & Hc & Hb & Hfl) Hlk]; simpl in *.
  - destruct (quiet_owned _ _ _ _ _ _ _ _ Hinit Hsrv Hc Hb Hq) as (Hsrv' & more & Hc' & Hb' & Hp).
    split; [|intros i c ?; by eapply prefix_lookup_Some]. split; simpl; [done| |by eapply locks_ok_prefix].
    exists (owners ++ more). split_and!; [done|done|]. eapply map_Forall_impl; [done|].
    intros id fl. apply flight_ok_app.
  - split; [|by intros i c]. split; simpl; [done| |by apply locks_ok_begin].
    exists owners. split_and!; [done|done|]. apply map_Forall_insert_2; [|done].
    by eapply begin_flight_ok.
  - destruct He as [id fl n' st Hid _]. split; [|by intros i c]. destruct Hsrv.
    split; simpl; [by split| |by apply locks_ok_end].
    exists owners. split_and!; [done|done|]. by apply map_Forall_delete.
Qed.

Lemma async_reachable_ok mv checks u st : async_reachable mv checks u st → async_ok u st.
Proof.
  induction 1 as [cfg n ch|st st' _ IH Hst]; [|by eapply async_step_ok].
  split; simpl.
  - apply (reachable_ok (λ _, None) true), reachable_init.
  - exists []. split_and!; [done| |done]. intros ic b Hb. apply elem_of_list_to_map_2 in Hb.
    repeat (apply elem_of_cons in Hb as [[= _ ->]|Hb]; [done|]). set_solver.
  - split; [|intros i id1 id2 (? & [=] & _)|set_solver]. intros i. split; [set_solver|].
    by intros (id & fl & [=] & _).
Qed.
End invariant.
