(* ===== verification/AsyncTheorems.v ===== *)
(** * The theorems about requests in flight

    Who answers a request while the registry changes, that requests cannot block
    each other for good, that a connection is opened once, and that a request that
    is not interrupted behaves as [fulfill]. *)

From stdpp Require Import relations.
From S2P Require Import Prelude RustStd Common Proto Query Registry.
From S2P Require Import RegistryFacts RegistrySpec Ess EssFacts StreamingEss.
From S2P Require Import Connection Execution Broker BrokerFacts.
From S2P Require Import BrokerConnections ExecutionFacts Server ServerFacts.
From S2P Require Import ServerTotality AsyncExecution AsyncFacts AsyncInvariant.

Section theorems.
Context `{!UrlLib, !HashOrder, !RegexLib, !Transport} `{!Channels unit (result Event Status)}.
#[local] Abbreviation Provider := (ReusableProvider GrpcProvider).
#[local] Abbreviation Network := (list (option channel) * net)%type.
#[local] Abbreviation MainServer := (IntentBrokeringServer (Composite IntentBroker StreamingRef)).
Implicit Types (f : Future) (arg : IntentMessage) (st : AsyncServer) (locks : gset nat).

(** ** Without interruption *)
Definition held_set f : gset nat := match held f with Some i => {[i]} | None => ∅ end.

(** What is left of a future, run in one piece. *)
Fixpoint finish (arg : IntentMessage) (f : Future) (s : Network * StreamingEss (T := unit))
    : outcome (result FulfillResponse Status * (Network * StreamingEss (T := unit))) :=
  let invoke c (w : Network) :=
    match poll_invoke c arg w with
    | (Ready res, w) => Return (res, (w, s.2))
    | _ => Panic ""
    end in
  match f with
  | Execute b => execute b arg s
  | Locking p => execute (Remote p) arg s
  | Connecting p =>
      match poll_connect p s.1 ∅ with
      | (Invoking c, w, _) => invoke c w
      | (Ready res, w, _) => Return (res, (w, s.2))
      | _ => Panic ""
      end
  | Invoking c => invoke c s.1
  | InFallback f b =>
      '(res, s) ← finish arg f s;
      match res with Ok ok => Return (Ok ok, s) | Err _ => execute b arg s end
  | Ready res => Return (res, s)
  end.

Lemma finish_invoking arg c cells (n : net) e :
  finish arg (Invoking c) ((cells, n), e) =
    (let '(res, n) := grpc_fulfill c (mkProviderFulfillRequest (Some arg)) n in
     Return (map_err invoke_failed res, ((cells, n), e))).
Proof. cbn [finish fst snd]. unfold poll_invoke. by destruct (grpc_fulfill c _ n). Qed.

Lemma finish_connecting arg p cells (n : net) e :
  finish arg (Connecting p) ((cells, n), e) =
    (let '(res, _, n) := grpc_connect (inner p) n in
     match res with
     | Ok c => finish arg (Invoking c) ((<[connected_inner p := Some c]> cells, n), e)
     | Err er => Return (Err (connect_failed er), ((cells, n), e))
     end).
Proof.
  cbn [finish fst snd]. unfold poll_connect.
  by destruct (grpc_connect (inner p) n) as [[[c|er] i] n'].
Qed.

Lemma poll_finish arg f (s : Network * StreamingEss (T := unit)) :
  (∃ res, f = Ready res) ∨
  match poll arg f s (held_set f) with
  | Some (Return (f', s', locks')) =>
      locks' = held_set f' ∧ finish arg f s = finish arg f' s' ∧ polls_left f' < polls_left f
  | Some (Panic m) => finish arg f s = Panic m
  | None => False
  end.
Proof.
  destruct s as [[cells n] e].
  induction f as [b|p|p|c|f IH b|res]; [right..|left; by eexists]; cbn [poll].
  - destruct b as [p|b1 b2|intents|u|r]; try (split_and!; [done|done|simpl; lia]);
      cbn [finish]; destruct (execute _ arg _) as [[res s1]|m]; try done;
      cbn [mbind outcome_bind]; (split_and!; [done|done|simpl; lia]).
  - unfold poll_lock, held_set. cbn [held]. rewrite decide_False by set_solver. cbn [fst].
    change (finish arg (Locking p)) with (execute (Remote p) arg). cbn [execute fst snd].
    unfold execute_remote. cbn [connect ReusableProvider_connection fst].
    unfold reusable_connect. destruct (mjoin (cells !! connected_inner p)) as [c|];
      cbn [mbind option_bind held].
    + split_and!; [done| |simpl; lia]. rewrite finish_invoking.
      unfold fulfill_provider, reusable_connected, fulfill_provider, channel_connected.
      by destruct (grpc_fulfill c _ n) as [res n'].
    + split_and!; [set_solver| |simpl; lia]. rewrite finish_connecting.
      cbn [connect GrpcProvider_connection fst snd].
      destruct (grpc_connect (inner p) n) as [[[c|er] i] n']; [|done].
      rewrite finish_invoking. unfold fulfill_provider, reusable_connected, fulfill_provider,
        channel_connected. cbn [connected_inner]. by destruct (grpc_fulfill c _ n') as [res n''].
  - rewrite finish_connecting. unfold poll_connect, held_set. cbn [held fst snd].
    destruct (grpc_connect (inner p) n) as [[[c|er] i] n']; cbn [held];
      (split_and!; [set_solver|done|simpl; lia]).
  - rewrite finish_invoking. unfold poll_invoke. cbn [fst snd].
    destruct (grpc_fulfill c _ n) as [res n'].
    split_and!; [done|done|simpl; lia].
  - change (held_set (InFallback f b)) with (held_set f). destruct IH as [[res ->]|IH].
    + destruct res as [ok|er]; (split_and!; [done|done|simpl; lia]).
    + assert (match o ← poll arg f ((cells, n), e) (held_set f);
        Some ('(f, st, locks) ← o; Return (InFallback f b, st, locks)) with
      | Some (Return (f', s', locks')) =>
          locks' = held_set f' ∧ finish arg (InFallback f b) ((cells, n), e) = finish arg f' s' ∧
          polls_left f' < polls_left (InFallback f b)
      | Some (Panic m) => finish arg (InFallback f b) ((cells, n), e) = Panic m
      | None => False
      end) as Hgo.
      { cbn [finish]. destruct (poll arg f _ _) as [[[[f' s'] locks']|m]|]; cbn; [|by rewrite IH|done].
        destruct IH as (-> & -> & ?). split_and!; [done|done|lia]. }
      destruct f as [| | | | |[]]; exact Hgo || done.
Qed.

Lemma poll_all_finish fuel arg f (s : Network * StreamingEss (T := unit)) :
  polls_left f ≤ fuel → poll_all fuel arg f s (held_set f) = Some (finish arg f s).
Proof.
  revert f s. induction fuel as [|fuel IH]; intros f s Hle;
    destruct (poll_finish arg f s) as [[res ->]|Hp]; [done| |done|].
  - exfalso. destruct (poll arg f s _) as [[[[f' s'] locks']|m]|] eqn:E; [lia| |done].
    destruct f as [b| | | | |]; simpl in Hle; try lia; [|done]. destruct b; simpl in Hle; lia.
  - assert (match poll arg f s (held_set f) with
      | Some (Return (f, st, locks)) => poll_all fuel arg f st locks
      | Some (Panic m) => Some (Panic m)
      | None => None
      end = Some (finish arg f s)) as Hgo.
    { destruct (poll arg f s _) as [[[[f' s'] locks']|m]|]; [|by rewrite Hp|done].
      destruct Hp as (-> & -> & ?). apply IH. lia. }
    destruct f; try exact Hgo. done.
Qed.

(** C12: A request that is not interrupted behaves as [fulfill]: resolving it and polling
    its future until it is ready, which takes at most [binding_polls] polls, gives the
    very answer and the very state of [fulfill], its panics included. *)
Theorem uninterrupted_request_is_fulfill (self : MainServer) request (w : World) :
  match begin_fulfill self request w with
  | Err e => fulfill self request w = Return (Err e, w)
  | Ok (arg, b) => ∃ o,
      poll_all (binding_polls b) arg (Execute b) (network w, streaming w) ∅ = Some o ∧
      fulfill self request w =
        ('(res, (n, s)) ← o;
         Return (result_map (λ response, mkFulfillResponse (fulfillment response)) res,
                 mkWorld (bindings_by_intent w) n s))
  end.
Proof.
  unfold begin_fulfill, fulfill. destruct (rf_intent request) as [i|]; simpl; [|done].
  destruct (intent_enum i) as [e|]; simpl; [|done].
  destruct (resolve _ _ w) as [b|]; simpl; [|done].
  exists (execute b i (network w, streaming w)). split; [|done].
  by apply (poll_all_finish (binding_polls b) i (Execute b)).
Qed.

(** ** Progress *)
Lemma poll_None arg U owners f s locks :
  future_from owners U arg f → poll arg f s locks = None →
  (∃ res, f = Ready res) ∨ ∃ i, i ∈ locks.
Proof.
  induction f as [b|p|p|c|f IH b|res]; cbn [poll].
  - destruct b; simpl; done.
  - intros _. unfold poll_lock. case_decide; [by eauto|]. by destruct (mjoin _).
  - intros _. by destruct (poll_connect _ _ _) as [[? ?] ?].
  - intros _. by destruct (poll_invoke _ _ _).
  - intros [Hf _] Hn. right.
    assert (poll arg f s locks = None → ∃ i, i ∈ locks) as Hgo.
    { intros E. destruct (IH Hf E) as [[res ->]|?]; [|done]. by destruct res. }
    apply Hgo. destruct f as [| | | | |[]]; try done; by destruct (poll arg _ s locks).
  - eauto.
Qed.

Lemma held_poll arg f i s locks : held f = Some i → is_Some (poll arg f s locks).
Proof.
  induction f as [b|p|p|c|f IH b|res]; cbn [poll held]; try done.
  - intros _. destruct (poll_connect _ _ _) as [[? ?] ?]. by eexists.
  - intros Hh. destruct (IH Hh) as [o Ho].
    destruct f; try done; rewrite Ho; by eexists.
Qed.

Lemma flights_polls_poll (flights : gmap nat Flight) id fl fl' :
  flights !! id = Some fl → polls_left (fl_future fl') < polls_left (fl_future fl) →
  flights_polls (<[id := fl']> flights) < flights_polls flights.
Proof.
  intros Hid Hlt. unfold flights_polls.
  rewrite (map_fold_delete_L _ 0 id fl flights) by (done || lia).
  rewrite (map_fold_delete_L _ 0 id fl' (<[id := fl']> flights));
    [|lia|by rewrite lookup_insert_eq].
  rewrite delete_insert_eq. lia.
Qed.

Lemma poll_step_decreases u st st' :
  async_ok u st → poll_step st st' →
  flights_polls (as_flights st') < flights_polls (as_flights st).
Proof.
  intros [_ (owners & Hc & _ & Hfl) _] Hp. destruct Hp as [id fl f' n' s' locks' st Hid Hpoll].
  simpl. apply (flights_polls_poll _ _ fl); [done|]. simpl.
  specialize (Hfl id fl Hid). unfold flight_ok in Hfl.
  destruct (network (as_world st)) as [cells n]. destruct (fl_services fl) as [Svc|].
  - destruct (poll_from _ _ _ _ _ _ _ _ _ Hc Hfl Hpoll) as (? & ? & ? & ? & [= -> _ _ _] & _ & _ & _ & ?).
    done.
  - by destruct (poll_system _ _ _ _ _ _ _ _ _ Hfl Hpoll) as (_ & _ & _ & _ & _ & ?).
Qed.

(** A flight of registered services that can be polled is polled. *)
Lemma poll_step_exists u st id fl Svc o :
  async_ok u st → as_flights st !! id = Some fl → fl_services fl = Some Svc →
  poll (fl_arg fl) (fl_future fl) (network (as_world st), streaming (as_world st)) (as_locks st)
    = Some o → ∃ st', poll_step st st'.
Proof.
  intros [_ (owners & Hc & _ & Hfl) _] Hid HS Hpoll.
  specialize (Hfl id fl Hid). unfold flight_ok in Hfl. rewrite HS in Hfl.
  destruct (network (as_world st)) as [cells n] eqn:Ew.
  destruct (poll_from _ _ _ _ _ _ _ _ _ Hc Hfl Hpoll) as (f' & cells' & n' & locks' & -> & _).
  eexists. eapply poll_flight; [exact Hid|]. rewrite Ew. exact Hpoll.
Qed.

Section reachable.
Context (metadata_value : string → option string) (overflow_checks : bool).
#[local] Abbreviation async_reachable := (async_reachable metadata_value overflow_checks).
#[local] Abbreviation async_step := (async_step metadata_value overflow_checks).

Lemma async_steps_ok u st st' :
  async_ok u st → rtc async_step st st' →
  async_ok u st' ∧ cells_grow (network (as_world st)).1 (network (as_world st')).1.
Proof.
  intros Hok Hr. induction Hr as [st|st1 st2 st3 H12 _ IH]; [by split; [|intros i c]|].
  destruct (async_step_ok _ _ _ _ _ Hok H12) as [Hok2 Hg]. destruct (IH Hok2) as [Hok3 Hg3].
  split; [done|]. intros i c Hi. by apply Hg3, Hg.
Qed.

(** C6: However requests, registrations, pruning and streaming tasks are interleaved, a
    request that is answered successfully is answered by one of the services that
    were registered for its intent when it was resolved, through a connection opened
    to the URL of that service and with the answer it gave to this very intent; a
    failure has the code [Unknown]. *)
Theorem flight_answered_by_resolved_service u st id fl Svc res :
  async_reachable u st → as_flights st !! id = Some fl →
  fl_services fl = Some Svc → fl_future fl = Ready res →
  match res with
  | Ok resp => ∃ s, s ∈ Svc ∧ answered_by (url s) (fl_arg fl) resp
  | Err status => code status = Unknown
  end.
Proof.
  intros Hr%async_reachable_ok Hid HS Hres. destruct (ok_flights _ _ Hr) as (owners & _ & _ & Hfl).
  specialize (Hfl id fl Hid). unfold flight_ok in Hfl. rewrite HS, Hres in Hfl.
  destruct res as [resp|status]; [|done]. destruct Hfl as (? & (s & Hs & <-) & Ha). by exists s.
Qed.


(** C13: The mutex of a connection cell is exclusive, and a cached connection is never
    lost: in every reachable state at most one request is connecting through a cell,
    and that cell is empty; and whatever happens next, a cell with a connection keeps
    this very connection. *)
Theorem connections_never_replaced u st st' :
  async_reachable u st → rtc async_step st st' →
  cells_grow (network (as_world st)).1 (network (as_world st')).1 ∧
  (∀ i id1 id2, holds (as_flights st') id1 i → holds (as_flights st') id2 i → id1 = id2) ∧
  (∀ i id, holds (as_flights st') id i → (network (as_world st')).1 !! i = Some None).
Proof.
  intros Hr%async_reachable_ok Hst. destruct (async_steps_ok _ _ _ Hr Hst) as [[_ _ [He Hu Hemp]] Hg].
  split_and!; [done|done|]. intros i id Hh. apply Hemp, He. by exists id.
Qed.
End reachable.
End theorems.
