(* ===== verification/AsyncWitnesses.v ===== *)
(** * Two requests in flight

    The broker of [ServerWitnesses] with two consumers that read the same intent at
    the same time: the first one connects to the cloud provider, which cannot be
    reached, while the second one waits for the mutex; both end at the local
    provider. *)

From stdpp Require Import relations.
From S2P Require Import Prelude RustStd Common Proto Query QueryFacts Registry.
From S2P Require Import RegistryFacts RegistrySpec Ess EssFacts EssSample.
From S2P Require Import StreamingEss Connection Execution Broker BrokerFacts.
From S2P Require Import BrokerConnections ExecutionFacts Server ServerFacts.
From S2P Require Import ServerTotality AsyncExecution AsyncFacts AsyncInvariant.
From S2P Require Import AsyncTheorems ServerWitnesses.

(** ** Running the steps *)
Section running.
Context `{!UrlLib, !HashOrder, !RegexLib, !Transport} `{!Channels unit (result Event Status)}.
Definition poll_at (id : nat) (st : AsyncServer) : option AsyncServer :=
  fl ← as_flights st !! id;
  o ← poll (fl_arg fl) (fl_future fl) (network (as_world st), streaming (as_world st)) (as_locks st);
  match o with
  | Return (f', (n', s'), locks') =>
      Some (mkAsyncServer (as_server st) (mkWorld (bindings_by_intent (as_world st)) n' s') locks'
              (<[id := mkFlight (fl_arg fl) f' (fl_services fl)]> (as_flights st)))
  | Panic _ => None
  end.
Definition poll_list (ids : list nat) (st : AsyncServer) : option AsyncServer :=
  foldl (λ o id, o ≫= poll_at id) (Some st) ids.

Lemma poll_at_step id st st' : poll_at id st = Some st' → poll_step st st'.
Proof.
  unfold poll_at. destruct (as_flights st !! id) as [fl|] eqn:Hid; [|done]. cbn [mbind option_bind].
  destruct (poll _ _ _ _) as [[[[f' [n' s']] locks']|m]|] eqn:Hp; [|done..].
  cbn [mbind option_bind]. intros [= <-]. by eapply poll_flight.
Qed.

Lemma poll_list_rtc ids st st' : poll_list ids st = Some st' → rtc poll_step st st'.
Proof.
  unfold poll_list. revert st. induction ids as [|id ids IH]; intros st; simpl; [by intros [= <-]|].
  destruct (poll_at id st) as [st1|] eqn:E.
  - intros Hr. eapply rtc_l; [by eapply poll_at_step|by apply IH].
  - intros Hr. exfalso. clear -Hr. induction ids as [|i ids IH]; [done|by apply IH].
Qed.

Definition begin_at (id : nat) (request : RuntimeFulfillRequest) (st : AsyncServer) : AsyncServer :=
  match begin_fulfill (as_server st) request (as_world st) with
  | Ok (arg, b) =>
      mkAsyncServer (as_server st) (as_world st) (as_locks st)
        (<[id := mkFlight arg (Execute b) (registered_services (as_server st) request)]>
           (as_flights st))
  | Err _ => st
  end.
Definition end_at (id : nat) (st : AsyncServer) : AsyncServer :=
  match as_flights st !! id with
  | Some fl => ended id fl (network (as_world st)).2 st
  | None => st
  end.
End running.

Module AsyncWitnesses.
Import ServerWitnesses.
#[local] Existing Instance canonical_order.
#[local] Existing Instance string_url.
#[local] Existing Instance fragment_regex.
#[local] Existing Instance chs.
#[local] Existing Instance transport.
#[local] Abbreviation MainServer := (IntentBrokeringServer (Composite IntentBroker StreamingRef)).

(** ** The states *)
Definition registered : AsyncServer := mkAsyncServer state2.1 state2.2 ∅ ∅.
Definition both : AsyncServer := begin_at 1 read_request (begin_at 0 read_request registered).
(** The first request holds the mutex of the cloud provider, the second waits for it. *)
Definition second_waiting : AsyncServer := default both (poll_list [0; 0; 0; 1; 1] both).
(** The first request was answered by the local provider. *)
Definition answered : AsyncServer := default second_waiting (poll_list [0; 0; 0; 0; 0; 0] second_waiting).

Example second_waits : poll_at 1 second_waiting = None.
Proof. vm_compute. reflexivity. Qed.

Lemma quiet_reachable c (st : MainServer * World) :
  (∀ request, c ≠ CallFulfill request) →
  is_return (handle mv c st.1 st.2) = true →
  async_reachable mv true self_url (mkAsyncServer st.1 st.2 ∅ ∅) →
  async_reachable mv true self_url (mkAsyncServer (call c st).1 (call c st).2 ∅ ∅).
Proof.
  intros Hnf Hret Hst. eapply async_reachable_step; [exact Hst|]. apply async_quiet.
  destruct st as [self w]. unfold call.
  apply (value_or_return (AnsRegister (Ok mkRegisterResponse), self, w)) in Hret. simpl in *.
  destruct (value_or _ (handle mv c self w)) as [[a self'] w'] eqn:E. by eapply quiet_call.
Qed.

Lemma registered_reachable : async_reachable mv true self_url registered.
Proof.
  apply (quiet_reachable register_cloud state1); [done|vm_compute; reflexivity|].
  apply (quiet_reachable register_local start); [done|vm_compute; reflexivity|].
  exact (async_reachable_init mv true self_url Config_default [] no_channels).
Qed.

Lemma begin_reachable id request st :
  as_flights st !! id = None → async_reachable mv true self_url st →
  async_reachable mv true self_url (begin_at id request st).
Proof.
  intros Hid Hst. unfold begin_at.
  destruct (begin_fulfill _ _ _) as [[arg b]|] eqn:E; [|done].
  eapply async_reachable_step; [exact Hst|]. destruct st. by eapply async_begin.
Qed.

Lemma polls_reachable ids st :
  is_Some (poll_list ids st) → async_reachable mv true self_url st →
  async_reachable mv true self_url (default st (poll_list ids st)).
Proof.
  intros [st' Hst'] Hst. rewrite Hst'. simpl. apply poll_list_rtc in Hst'.
  revert Hst. induction Hst' as [|st1 st2 st3 H12 _ IH]; [done|]. intros Hst. apply IH.
  eapply async_reachable_step; [exact Hst|by apply async_poll].
Qed.

Lemma waiting_reachable : async_reachable mv true self_url second_waiting.
Proof.
  apply polls_reachable.
  - apply (bool_decide_eq_true_1 (is_Some _)). vm_compute. reflexivity.
  - apply begin_reachable; [vm_compute; reflexivity|].
    apply begin_reachable; [vm_compute; reflexivity|]. apply registered_reachable.
Qed.

Lemma answered_some : is_Some (poll_list [0; 0; 0; 0; 0; 0] second_waiting).
Proof. apply (bool_decide_eq_true_1 (is_Some _)). vm_compute. reflexivity. Qed.

Lemma answered_rtc : rtc (async_step mv true) second_waiting answered.
Proof.
  unfold answered. destruct answered_some as [st' Hst']. rewrite Hst'. simpl.
  apply poll_list_rtc in Hst'. induction Hst' as [|st1 st2 st3 H12 _ IH]; [done|].
  eapply rtc_l; [by apply async_poll|done].
Qed.

Lemma answered_reachable : async_reachable mv true self_url answered.
Proof. apply polls_reachable; [apply answered_some|apply waiting_reachable]. Qed.

Definition read_message : IntentMessage := mkIntentMessage (Some (IRead (mkReadIntent "k"))).

Lemma answered_flight :
  as_flights answered !! 0 =
    Some (mkFlight read_message (Ready (Ok (answer_of "http://kv"))) (Some kv_services)).
Proof.
  assert (fl_services <$> as_flights answered !! 0 = Some (Some kv_services)) as Hs.
  { apply (bool_decide_eq_true_1 _). vm_compute. reflexivity. }
  assert (fl_arg <$> as_flights answered !! 0 = Some read_message) as Ha
    by (vm_compute; reflexivity).
  assert (fl_future <$> as_flights answered !! 0 = Some (Ready (Ok (answer_of "http://kv")))) as Hf
    by (vm_compute; reflexivity).
  destruct (as_flights answered !! 0) as [[a f sv]|]; [|discriminate].
  simpl in Hs, Ha, Hf. by simplify_eq.
Qed.

(** ** Witnesses *)
Lemma flight_answered_by_resolved_service_witness :
  ∃ s, s ∈ kv_services ∧ answered_by (url s) read_message (answer_of "http://kv").
Proof.
  exact (flight_answered_by_resolved_service mv true self_url answered 0 _ kv_services
    (Ok (answer_of "http://kv")) answered_reachable answered_flight eq_refl eq_refl).
Defined.


Lemma connections_never_replaced_witness :
  cells_grow (network (as_world second_waiting)).1 (network (as_world answered)).1 ∧
  (∀ i id1 id2, holds (as_flights answered) id1 i → holds (as_flights answered) id2 i → id1 = id2) ∧
  (∀ i id, holds (as_flights answered) id i → (network (as_world answered)).1 !! i = Some None).
Proof.
  exact (connections_never_replaced mv true self_url second_waiting answered
    waiting_reachable answered_rtc).
Defined.
End AsyncWitnesses.
