(* ===== verification/ServerStreaming.v ===== *)
(** * From a registration to its subscribers

    The server of [AsyncExecution], with its requests in flight, and the tasks that
    serve its subscriptions running as in [EssRuntime]: a change of the registry
    reaches every client that subscribed to the namespace, as exactly one event. *)

From stdpp Require Import relations.
From S2P Require Import Prelude RustStd Common Proto Query QueryFacts Registry.
From S2P Require Import RegistryFacts RegistrySpec Ess EssFacts EssSample.
From S2P Require Import EssRuntime EssRuntimeWitnesses StreamingEss Connection.
From S2P Require Import StreamingRuntime StreamingTheorems Execution Broker BrokerFacts.
From S2P Require Import BrokerConnections ExecutionFacts Server ServerFacts.
From S2P Require Import AsyncExecution AsyncFacts AsyncInvariant.
From S2P Require Import ServerWitnesses AsyncWitnesses.

Section streaming.
Context `{!UrlLib, !HashOrder, !RegexLib, !Transport}.
Context `{RuntimeView unit (result Event Status)} `{!RuntimeLaws unit (result Event Status)}.
#[local] Abbreviation MainServer := (IntentBrokeringServer (Composite IntentBroker StreamingRef)).
#[local] Abbreviation Streaming := (StreamingEss (T := unit)).
#[local] Abbreviation Sub := (@Subscription string string unit (result Event Status) _).
#[local] Abbreviation handlers := (@log_handlers string string (result Event Status)).

Lemma publish_all_serves events (s : Streaming) : serves_on s (publish_all events s).
Proof.
  revert s. induction events as [|e events IH]; intros s; [apply serves_on_refl|].
  eapply serves_on_trans; [apply publish_serves|apply IH].
Qed.

Lemma execute_serves b arg (st : _ * Streaming) res st' :
  execute (T := ReusableProvider GrpcProvider) b arg st = Return (res, st') → serves_on st.2 st'.2.
Proof.
  revert st res st'. induction b as [p|b1 IH1 b2 IH2|intents|u|r]; intros st res st'; cbn [execute].
  - destruct (execute_remote p arg st.1) as [r w]. intros [= _ <-]. apply serves_on_refl.
  - destruct (execute b1 arg st) as [[r1 st1]|] eqn:E1; [|done]. cbn [mbind outcome_bind].
    destruct r1; [intros [= _ <-]; by eapply IH1|]. intros E2.
    eapply serves_on_trans; [by eapply IH1|by eapply IH2].
  - destruct (intent_enum arg) as [[]|]; try done. destruct (regex_from_query _); [|done].
    intros [= _ <-]. apply serves_on_refl.
  - intros [= _ <-]. apply serves_on_refl.
  - destruct (intent_enum arg) as [[]|]; try done.
    destruct (serve_subscriptions _ _ _) as [[r1 s1]|] eqn:E; [|done]. intros [= _ <-].
    by eapply serve_subscriptions_serves.
Qed.

Lemma notify_streaming changes w w' :
  notify server_observer changes w = Return w' →
  streaming w' = publish_all (namespace_event <$> changed_namespaces changes) (streaming w).
Proof.
  destruct changes as [|c cs]; cbn [notify].
  { intros [= <-]. unfold changed_namespaces. by rewrite (proj2 (set_iter_nil _)). }
  rewrite <- streaming_on_change_eq.
  unfold on_change, Composite_observer, on_change, IntentBroker_observer, StreamingEss_observer.
  destruct (refresh _ _ _) as [b n]. cbn [mbind outcome_bind]. by intros [= <-].
Qed.

Lemma registry_step_serves initial op (self : MainServer) w reply r' w' :
  server_ok initial self w → step op (registry self) w = Return (reply, r', w') →
  ∃ changes, changes_describe (external_services_by_intent (registry self))
               (external_services_by_intent r') changes ∧
    streaming w' = publish_all (namespace_event <$> changed_namespaces changes) (streaming w).
Proof.
  intros Hok Hst. destruct (step_changes _ _ _ _ _ _ (srv_wf _ _ _ Hok) Hst) as (_ & changes & Hd & Hn).
  rewrite (srv_observer _ _ _ Hok) in Hn. exists changes. split; [done|]. by apply notify_streaming.
Qed.

Lemma handle_serves mv initial c (self : MainServer) w answer self' w' :
  server_ok initial self w → handle mv c self w = Return (answer, self', w') →
  serves_on (streaming w) (streaming w').
Proof.
  intros Hok. destruct c as [req now|req now|req|id]; simpl.
  - destruct (announce self req now) as [res s1]. intros [= _ _ <-]. apply serves_on_refl.
  - destruct (register self req now w) as [[[res s1] w1]|] eqn:E; [|done]. intros [= _ _ <-].
    apply register_step_registry in E as [[_ ->]|(s & ics & reply & r & Hst & _)];
      [apply serves_on_refl|].
    destruct (registry_step_serves _ _ _ _ _ _ _ Hok Hst) as (changes & _ & ->).
    apply publish_all_serves.
  - destruct (fulfill self req w) as [[res w1]|] eqn:E; [|done]. intros [= _ _ <-]. revert E.
    unfold fulfill. destruct (rf_intent req) as [i|]; simpl; [|intros [= _ <-]; apply serves_on_refl].
    destruct (intent_enum i) as [e|]; [|intros [= _ <-]; apply serves_on_refl].
    destruct (resolve _ _ w) as [b|]; simpl; [|intros [= _ <-]; apply serves_on_refl].
    destruct (execute b i _) as [[r [n s]]|] eqn:E; [|done]. intros [= _ <-].
    by apply execute_serves in E.
  - destruct (open _ id (streaming w)) as [[res s]|] eqn:E; [|done]. intros [= _ _ <-].
    by eapply open_serves.
Qed.

(** ** The server with its requests in flight and its tasks *)
Record LiveServer := mkLive { lv_async : AsyncServer; lv_live : list Sub }.
Definition lv_server (st : LiveServer) : MainServer := as_server (lv_async st).
Definition lv_world (st : LiveServer) : World := as_world (lv_async st).

(** The subscriptions of the tasks spawned from one world to the other. *)
Definition spawned (w w' : World) : list Sub :=
  task_subscription <$> drop (length (tasks (streaming w))) (tasks (streaming w')).

Definition with_ess (w : World) e : World :=
  mkWorld (bindings_by_intent w) (network w) (mkStreamingEss e (tasks (streaming w))).

Section steps.
Context (metadata_value : string → option string) (overflow_checks : bool).

(** The steps of [async_step], with the spawned tasks; a task goes on only when
    [select!] may take the branch, and ends after a [break]. *)
Inductive live_step : LiveServer → LiveServer → Prop :=
  | live_call c answer self w self' w' locks flights live :
      (∀ request, c ≠ CallFulfill request) →
      handle metadata_value c self w = Return (answer, self', w') →
      live_step (mkLive (mkAsyncServer self w locks flights) live)
        (mkLive (mkAsyncServer self' w' locks flights) (live ++ spawned w w'))
  | live_prune now out self w self' w' locks flights live :
      registry_do self (λ reg w, prune reg now w) w = Return (out, self', w') →
      live_step (mkLive (mkAsyncServer self w locks flights) live)
        (mkLive (mkAsyncServer self' w' locks flights) live)
  | live_begin id request arg b self w locks flights live :
      flights !! id = None → begin_fulfill self request w = Ok (arg, b) →
      live_step (mkLive (mkAsyncServer self w locks flights) live)
        (mkLive (mkAsyncServer self w locks
           (<[id := mkFlight arg (Execute b) (registered_services self request)]> flights)) live)
  | live_poll st st' live :
      poll_step st st' →
      live_step (mkLive st live) (mkLive st' (live ++ spawned (as_world st) (as_world st')))
  | live_end st st' live : end_step st st' → live_step (mkLive st live) (mkLive st' live)
  | live_task t now selected seq log continue seq' e log' self w locks flights l1 l2 :
      t ∈ tasks (streaming w) →
      may_select (task_subscription t) selected (channels (ess (streaming w))) →
      serve_iteration overflow_checks (task_subscription t) (into_event now t) handlers
        selected seq (ess (streaming w)) log = Return (continue, seq', e, log') →
      live_step (mkLive (mkAsyncServer self w locks flights) (l1 ++ task_subscription t :: l2))
        (mkLive (mkAsyncServer self
           (with_ess w (if continue : bool then e else drop_subscription (task_subscription t) e))
           locks flights)
           (if continue then l1 ++ task_subscription t :: l2 else l1 ++ l2))
  | live_environment ch' self w locks flights live :
      keeps (channels (ess (streaming w))) ch' →
      live_step (mkLive (mkAsyncServer self w locks flights) live)
        (mkLive (mkAsyncServer self (with_ess w (mkEss (ess_config (ess (streaming w)))
           (sender_by_event_id (ess (streaming w))) (client_by_id (ess (streaming w))) ch'))
           locks flights) live).

Inductive live_reachable (u : Url) : LiveServer → Prop :=
  | live_reachable_init cfg n ch : live_reachable u (mkLive (async_init u cfg n ch) [])
  | live_reachable_step st st' : live_reachable u st → live_step st st' → live_reachable u st'.

Definition live_ok (u : Url) (st : LiveServer) : Prop :=
  async_ok u (lv_async st) ∧ streaming_wf (streaming (lv_world st)) (lv_live st).

Lemma serves_on_spawned w w' live :
  serves_on (streaming w) (streaming w') → streaming_wf (streaming w) live →
  streaming_wf (streaming w') (live ++ spawned w w').
Proof.
  intros (new & Ht & Hw) Hwf. unfold spawned. rewrite Ht, drop_app_length. by apply Hw.
Qed.

Lemma poll_serves arg f st locks f' st' locks' :
  poll arg f st locks = Some (Return (f', st', locks')) → serves_on st.2 st'.2.
Proof.
  revert f' st' locks'. induction f as [b|p|p|c|f IH b|res]; intros f' st' locks'.
  - destruct b as [p|b1 b2|l|u|r]; cbn [poll]; try by (intros [= _ <- _]; apply serves_on_refl).
    all: match goal with |- context [execute ?b ?a ?s] => destruct (execute b a s) as [[res s1]|] eqn:E end;
      cbn [mbind outcome_bind]; [|done]; intros [= _ <- _]; by eapply execute_serves.
  - cbn [poll]. destruct (poll_lock p _ _) as [[f1 l1]|]; [|done]. intros [= _ <- _]. apply serves_on_refl.
  - cbn [poll]. destruct (poll_connect p _ _) as [[f1 w1] l1]. intros [= _ <- _]. apply serves_on_refl.
  - cbn [poll]. destruct (poll_invoke c arg _) as [f1 w1]. intros [= _ <- _]. apply serves_on_refl.
  - assert ((∃ o, poll arg f st locks = Some o ∧
        poll arg (InFallback f b) st locks =
          Some ('(f, st, locks) ← o; Return (InFallback f b, st, locks))) ∨
      poll arg (InFallback f b) st locks = None ∨
      ∃ f1, poll arg (InFallback f b) st locks = Some (Return (f1, st, locks))) as Hcase.
    { destruct f as [| | | | |[ok|e]]; cbn [poll]; try (right; right; by eexists);
        match goal with |- context [?x ≫= _] => destruct x as [o|]; [left; by exists o|by right; left] end. }
    destruct Hcase as [(o & Hf & ->)|[->|[f1 ->]]]; [|done|intros [= _ <- _]; apply serves_on_refl].
    destruct o as [[[f1 s1] l1]|]; cbn [mbind outcome_bind]; [|done]. intros [= _ <- _]. by eapply IH.
  - done.
Qed.

Lemma async_ok_with_ess u self w locks flights e :
  ess_config e = ess_config (ess (streaming w)) →
  async_ok u (mkAsyncServer self w locks flights) →
  async_ok u (mkAsyncServer self (with_ess w e) locks flights).
Proof. intros He [[? ? ? ? ?] ? ?]. split; simpl in *; [split; simpl; [done..|congruence]|done|done]. Qed.

Lemma prune_step now (self : MainServer) w out self' w' :
  registry_do self (λ reg w, prune reg now w) w = Return (out, self', w') →
  ∃ reply, step (OpPrune now) (registry self) w = Return (reply, registry self', w').
Proof.
  unfold registry_do. simpl. destruct (prune (registry self) now w) as [[[[sp d] r] w1]|]; [|done].
  intros [= _ <- <-]. by eexists.
Qed.

Lemma publish_all_tasks events (s : Streaming) : tasks (publish_all events s) = tasks s.
Proof.
  revert s. induction events as [|e l IH]; intros s; [done|]. apply (IH (mkStreamingEss _ _)).
Qed.

Lemma prune_streaming_wf initial now (self : MainServer) w out self' w' live :
  server_ok initial self w → streaming_wf (streaming w) live →
  registry_do self (λ reg w, prune reg now w) w = Return (out, self', w') →
  streaming_wf (streaming w') live.
Proof.
  intros Hok Hwf [reply Hst]%prune_step.
  destruct (registry_step_serves _ _ _ _ _ _ _ Hok Hst) as (changes & _ & ->).
  destruct (publish_all_serves (namespace_event <$> changed_namespaces changes) (streaming w))
    as (new & Ht & Hw). specialize (Hw live Hwf). rewrite publish_all_tasks in Ht.
  assert (new = []) as ->; [|by rewrite app_nil_r in Hw].
  apply (app_inv_head (tasks (streaming w))). by rewrite <- Ht, app_nil_r.
Qed.

Lemma live_step_async st st' :
  live_step st st' → lv_async st' = lv_async st ∨
  async_step metadata_value overflow_checks (lv_async st) (lv_async st') ∨
  ∃ e, ess_config e = ess_config (ess (streaming (lv_world st))) ∧
    lv_async st' = mkAsyncServer (lv_server st) (with_ess (lv_world st) e)
                     (as_locks (lv_async st)) (as_flights (lv_async st)).
Proof.
  destruct 1 as [c a self w self' w' locks flights live Hnf Hh|now out self w self' w' locks flights live Hp
    |id req arg b self w locks flights live Hid Hb|st st' live Hp|st st' live He
    |t now sel seq log continue seq' e log' self w locks flights l1 l2 Ht Hsel Hit
    |ch' self w locks flights live Hk]; simpl; right.
  - left. apply async_quiet. by eapply quiet_call.
  - left. apply async_quiet. by eapply quiet_prune.
  - left. by apply async_begin.
  - left. by apply async_poll.
  - left. by apply async_end.
  - left. apply async_quiet. by eapply quiet_task.
  - right. eexists. by split; [|done].
Qed.

Lemma live_step_ok u st st' : live_ok u st → live_step st st' → live_ok u st'.
Proof.
  intros [Hok Hwf] Hst. split.
  { destruct (live_step_async _ _ Hst) as [->|[Ha|(e & He & ->)]]; [done|by eapply async_step_ok|].
    apply async_ok_with_ess; [done|]. unfold lv_server, lv_world. by destruct (lv_async st). }
  pose proof (ok_server _ _ Hok) as Hsrv.
  destruct Hst as [c a self w self' w' locks flights live Hnf Hh|now out self w self' w' locks flights live Hp
    |id req arg b self w locks flights live Hid Hb|st st' live Hp|st st' live He
    |t now sel seq log continue seq' e log' self w locks flights l1 l2 Ht Hsel Hit
    |ch' self w locks flights live Hk]; unfold lv_world in *; simpl in *.
  - apply serves_on_spawned; [by eapply handle_serves|done].
  - by eapply prune_streaming_wf.
  - done.
  - apply serves_on_spawned; [|done]. destruct Hp as [id fl f' n' s' locks' st Hid Hpoll]. simpl.
    by apply poll_serves in Hpoll.
  - by destruct He.
  - pose proof (rt_task overflow_checks handlers _ _ _ _ _ _ _ _ _ l1 l2 _ Hsel Hit) as Hrt.
    destruct (rt_step_ok _ _ _ _ Hwf Hrt) as [Hwf' _]. by destruct continue.
  - destruct (rt_step_ok true handlers _ _ Hwf (rt_environment true handlers _ _ _ Hk)) as [? _]. done.
Qed.

Lemma live_reachable_ok u st : live_reachable u st → live_ok u st.
Proof.
  induction 1 as [cfg n ch|st st' _ IH Hst]; [|by eapply live_step_ok]. split.
  - exact (async_reachable_ok metadata_value true u _ (async_reachable_init metadata_value true u cfg n ch)).
  - exact (rt_reachable_ok true handlers _ (rt_reachable_init true handlers EssConfig_default ch)).
Qed.

(** ** What a change of the registry delivers *)
Context `{!Unread unit (result Event Status)} `{!DeliveryLaws unit (result Event Status)}.

Lemma publish_all_unread events (s : Streaming) live t :
  NoDup events → streaming_wf s live → t ∈ live →
  unread (receiver t) (channels (ess (publish_all events s))) =
    (if decide (event_id (sub_id t) ∈ events) then 1 else 0) +
    unread (receiver t) (channels (ess s)).
Proof.
  intros Hnd. revert s. induction Hnd as [|e events Hnin _ IH]; intros s Hwf Ht.
  { by rewrite decide_False by set_solver. }
  destruct (rt_step_ok true handlers _ _ Hwf (rt_publish true handlers e tt _ _ live _
    (surjective_pairing (publish e tt (ess s))))) as [Hwf' _].
  change (publish_all (e :: events) s)
    with (publish_all events (mkStreamingEss (publish e tt (ess s)).2 (tasks s))).
  rewrite (IH (mkStreamingEss (publish e tt (ess s)).2 (tasks s)) Hwf' Ht). simpl.
  rewrite (publish_unread e tt s live t Hwf Ht), Nat.add_assoc. f_equal.
  destruct (decide (event_id (sub_id t) = e)) as [->|Hne].
  - rewrite (decide_False (P := e ∈ events)) by done. by rewrite decide_True by apply list_elem_of_here.
  - rewrite Nat.add_0_r. apply decide_ext. rewrite elem_of_cons. tauto.
Qed.

(** A call of [register] or a pruning takes the server from one state to another. *)
Definition registry_changes (self : MainServer) (w : World) (self' : MainServer) (w' : World) : Prop :=
  (∃ req now answer, handle metadata_value (CallRegister req now) self w = Return (answer, self', w')) ∨
  (∃ now out, registry_do self (λ reg w, prune reg now w) w = Return (out, self', w')).

(** Some intent of the namespace got its first service or lost its last one. *)
Definition namespace_changes (ns : string) (self self' : MainServer) : Prop :=
  ∃ kind, ¬ (is_Some (external_services_by_intent (registry self) !! mkIntentConfiguration ns kind) ↔
             is_Some (external_services_by_intent (registry self') !! mkIntentConfiguration ns kind)).

Lemma registry_changes_published initial self w self' w' :
  server_ok initial self w → registry_changes self w self' w' →
  ∃ events, NoDup events ∧ streaming w' = publish_all events (streaming w) ∧
    ∀ ns, namespace_event ns ∈ events ↔ namespace_changes ns self self'.
Proof.
  intros Hok Hch.
  assert ((self' = self ∧ w' = w) ∨
    ∃ op reply, step op (registry self) w = Return (reply, registry self', w')) as [[-> ->]|(op & reply & Hst)].
  { destruct Hch as [(req & now & a & Hh)|(now & out & Hp)].
    - simpl in Hh. destruct (register self req now w) as [[[res s1] w1]|] eqn:E; [|done].
      injection Hh as _ <- <-. apply register_step_registry in E as [?|(s & ics & reply & r & Hst & ->)]; [by left|].
      right. by eexists _, reply.
    - right. apply prune_step in Hp as [reply Hst]. by exists (OpPrune now), reply. }
  - exists []. split_and!; [constructor|done|]. intros ns. split; [set_solver|]. intros [k Hk]. tauto.
  - destruct (registry_step_serves _ _ _ _ _ _ _ Hok Hst) as (changes & Hd & Hs).
    exists (namespace_event <$> changed_namespaces changes).
    split_and!; [apply NoDup_namespace_events|done|]. intros ns.
    unfold namespace_changes. rewrite <- (elem_of_changed_namespaces _ _ _ _ Hd). split.
    + intros (ns' & Heq & Hin)%list_elem_of_fmap. by apply string_app_inj_l in Heq as ->.
    + apply list_elem_of_fmap_2.
Qed.

(** C25: A change of the registry reaches every client that subscribed to the namespace.
    In any state the running server reaches, with requests in flight and tasks
    running, a client subscribed to [namespaces/<ns>] has a live task; a call of [register] or a pruning adds exactly one event to what
    this task has to read if an intent of the namespace got its first service or lost
    its last one, and none otherwise. *)
Theorem registry_change_reaches_subscribers u st self' w' cid c ns tok :
  live_reachable u st → registry_changes (lv_server st) (lv_world st) self' w' →
  client_by_id (ess (streaming (lv_world st))) !! cid = Some c →
  subscriptions c !! namespace_event ns = Some tok →
  ∃ t, t ∈ lv_live st ∧ sub_id t = mkSubscriptionId cid (namespace_event ns) ∧
    cancellation_token t = tok ∧
    let before := unread (receiver t) (channels (ess (streaming (lv_world st)))) in
    let after := unread (receiver t) (channels (ess (streaming w'))) in
    (namespace_changes ns (lv_server st) self' → after = S before) ∧
    (¬ namespace_changes ns (lv_server st) self' → after = before).
Proof.
  intros [Ha Hwf]%live_reachable_ok Hch Hc Htok.
  assert (server_ok (IntentBinder_new u the_streaming_ess) (lv_server st) (lv_world st)) as Hok by apply Ha.
  destruct (wf_subscribed _ _ _ _ Hwf _ _ _ _ Hc Htok) as (_ & t & Ht & Hid & Heq).
  destruct (registry_changes_published _ _ _ _ _ Hok Hch) as (events & Hnd & -> & Hev).
  exists t. split_and!; [done|done|done|]. rewrite (publish_all_unread _ _ _ _ Hnd Hwf Ht), Hid.
  simpl. rewrite <- Hev. case_decide; tauto.
Qed.
End steps.
End streaming.

(** ** A client that follows a namespace *)
Module StreamingServerWitnesses.
Import ServerWitnesses AsyncWitnesses.
#[local] Existing Instance canonical_order.
#[local] Existing Instance string_url.
#[local] Existing Instance fragment_regex.
#[local] Existing Instance chs.
#[local] Existing Instance transport.
#[local] Instance view : RuntimeView unit (result Event Status) := sample_view _ _.
#[local] Abbreviation Live := LiveServer.
#[local] Abbreviation MainServer := (IntentBrokeringServer (Composite IntentBroker StreamingRef)).

Definition follow : RuntimeFulfillRequest :=
  mkRuntimeFulfillRequest "system.registry" (Some (mkIntentMessage
    (Some (ISubscribe (mkSubscribeIntent "c1" [namespace_event "sdv.kvs"]))))).

(** A call without an await, and a poll of a request in flight. *)
Definition call_live (c : Call) (st : Live) : Live :=
  let '(self, w) := call c (lv_server st, lv_world st) in
  mkLive (mkAsyncServer self w (as_locks (lv_async st)) (as_flights (lv_async st)))
    (lv_live st ++ spawned (lv_world st) w).
Definition poll_live (id : nat) (st : Live) : Live :=
  match poll_at id (lv_async st) with
  | Some a => mkLive a (lv_live st ++ spawned (lv_world st) (as_world a))
  | None => st
  end.
Definition begin_live (id : nat) (request : RuntimeFulfillRequest) (st : Live) : Live :=
  mkLive (begin_at id request (lv_async st)) (lv_live st).

(** A client opens a channel and subscribes; its request is not finished yet. *)
Definition idle : Live :=
  mkLive (async_init self_url Config_default ([] : list string)
    (empty_store unit (result Event Status) : chans)) [].
Definition followed : Live := poll_live 0 (begin_live 0 follow (call_live (CallOpen "c1") idle)).
Definition changed : MainServer * World := call register_local (lv_server followed, lv_world followed).

Lemma call_eq c (self : MainServer) w :
  is_return (handle mv c self w) = true →
  ∃ a, handle mv c self w = Return (a, (call c (self, w)).1, (call c (self, w)).2).
Proof.
  intros Hret. unfold call.
  apply (value_or_return (AnsRegister (Ok mkRegisterResponse), self, w)) in Hret. simpl in *.
  destruct (value_or _ (handle mv c self w)) as [[a self'] w'] eqn:E. by exists a.
Qed.

Lemma call_live_reachable c st :
  (∀ request, c ≠ CallFulfill request) →
  is_return (handle mv c (lv_server st) (lv_world st)) = true →
  live_reachable mv true self_url st → live_reachable mv true self_url (call_live c st).
Proof.
  intros Hnf [a Ha]%call_eq Hst. eapply live_reachable_step; [exact Hst|].
  destruct st as [[self w locks flights] live]. unfold call_live, lv_server, lv_world in *. simpl in *.
  destruct (call c (self, w)) as [self' w']. by eapply live_call.
Qed.

Lemma begin_live_reachable id request st :
  as_flights (lv_async st) !! id = None →
  live_reachable mv true self_url st → live_reachable mv true self_url (begin_live id request st).
Proof.
  intros Hid Hst. destruct st as [[self w locks flights] live]. unfold begin_live, begin_at. simpl in *.
  destruct (begin_fulfill self request w) as [[arg b]|] eqn:E; [|done].
  eapply live_reachable_step; [exact Hst|]. by apply live_begin.
Qed.

Lemma poll_live_reachable id st :
  live_reachable mv true self_url st → live_reachable mv true self_url (poll_live id st).
Proof.
  intros Hst. unfold poll_live. destruct (poll_at id (lv_async st)) as [a|] eqn:E; [|done].
  eapply live_reachable_step; [exact Hst|]. destruct st as [st live]. apply live_poll. by eapply poll_at_step.
Qed.

Lemma followed_reachable : live_reachable mv true self_url followed.
Proof.
  apply poll_live_reachable, begin_live_reachable; [vm_compute; reflexivity|].
  apply call_live_reachable; [done|vm_compute; reflexivity|]. apply live_reachable_init.
Qed.

Lemma kvs_registered : registry_changes mv (lv_server followed) (lv_world followed) changed.1 changed.2.
Proof.
  destruct (call_eq register_local (lv_server followed) (lv_world followed)) as [a Ha];
    [vm_compute; reflexivity|]. left. do 3 eexists. exact Ha.
Qed.

Lemma kvs_changes : namespace_changes "sdv.kvs" (lv_server followed) changed.1.
Proof.
  exists Read. intros [_ Hback].
  assert (external_services_by_intent (registry (lv_server followed)) !!
    mkIntentConfiguration "sdv.kvs" Read = None) as Hnone by (vm_compute; reflexivity).
  rewrite Hnone in Hback. apply (is_Some_None (A := gset ServiceConfiguration)), Hback.
  apply (bool_decide_eq_true_1 (is_Some _)). vm_compute. reflexivity.
Qed.

Definition follower : @Client string unit (result Event Status) _ _ chs :=
  mkClient 0 {[namespace_event "sdv.kvs" := 0]}.

(** The client reads one event when the first provider of the namespace registers. *)
Lemma registry_change_reaches_subscribers_witness :
  ∃ t, t ∈ lv_live followed ∧ sub_id t = mkSubscriptionId "c1" "namespaces/sdv.kvs" ∧
    unread (receiver t) (channels (ess (streaming changed.2))) =
      S (unread (receiver t) (channels (ess (streaming (lv_world followed))))).
Proof.
  destruct (registry_change_reaches_subscribers mv true self_url followed changed.1 changed.2
    "c1" follower "sdv.kvs" 0) as (t & Ht & Hid & _ & Hone & _).
  - apply followed_reachable.
  - apply kvs_registered.
  - vm_compute. reflexivity.
  - vm_compute. reflexivity.
  - exists t. split; [exact Ht|]. split; [exact Hid|]. apply Hone, kvs_changes.
Defined.
End StreamingServerWitnesses.
