(* ===== verification/ServiceDiscovery.v ===== *)
(** * Service discovery ([service_discovery/core/src/service_registry_impl.rs])

    The service registry of Chariott: a hash map from service identifiers to the
    metadata registered for them, behind one lock, so that a call is one step. *)

From S2P Require Import Prelude RustStd Common.

(** The message of the [.proto] contract. *)
Record ServiceMetadata := mkServiceMetadata {
  sm_namespace : string;
  sm_name : string;
  sm_version : string;
  sm_uri : string;
  sm_communication_kind : string;
  sm_communication_reference : string
}.

Record ServiceIdentifier := mkServiceIdentifier {
  si_namespace : string;
  si_name : string;
  si_version : string
}.

#[export] Instance ServiceMetadata_eq_dec : EqDecision ServiceMetadata.
Proof. solve_decision. Defined.
#[export] Instance ServiceIdentifier_eq_dec : EqDecision ServiceIdentifier.
Proof. solve_decision. Defined.
#[export] Instance ServiceIdentifier_countable : Countable ServiceIdentifier.
Proof.
  refine (inj_countable' (λ i, (si_namespace i, si_name i, si_version i))
    (λ p, mkServiceIdentifier p.1.1 p.1.2 p.2) _).
  by intros [].
Defined.

(** The derived [Debug]. *)
Definition ServiceIdentifier_debug (i : ServiceIdentifier) : string :=
  struct_debug "ServiceIdentifier" [("namespace", str_debug (si_namespace i));
    ("name", str_debug (si_name i)); ("version", str_debug (si_version i))].

Section discovery.
Context `{!HashOrder}.
(** The [Debug] output of a message, whose type is generated. *)
Context (debug_metadata : ServiceMetadata → string).
#[local] Abbreviation registry_map := (gmap ServiceIdentifier ServiceMetadata).

Definition identifier_of (s : ServiceMetadata) : ServiceIdentifier :=
  mkServiceIdentifier (sm_namespace s) (sm_name s) (sm_version s).

Definition sd_register (service : option ServiceMetadata) (m : registry_map)
    : result unit Status * registry_map :=
  match ok_or service (mkStatus InvalidArgument "Service is required") with
  | Err e => (Err e, m)
  | Ok service_to_register =>
      let service_identifier := identifier_of service_to_register in
      match m !! service_identifier with
      | Some existing_service =>
          (Err (mkStatus AlreadyExists
             ("Register failed. A service already exists with the same service identifier: "
              +:+ debug_metadata existing_service)), m)
      | None => (Ok tt, <[service_identifier := service_to_register]> m)
      end
  end.

Definition sd_unregister (service_identifier : ServiceIdentifier) (m : registry_map)
    : result unit Status * registry_map :=
  match m !! service_identifier with
  | Some _ => (Ok tt, delete service_identifier m)
  | None =>
      (Err (mkStatus NotFound
         ("Unable to remove service from registry: " +:+ ServiceIdentifier_debug service_identifier)), m)
  end.

Definition sd_discover_by_namespace (ns : string) (m : registry_map) : list ServiceMetadata :=
  omap (λ '(service_identifier, service_metadata),
    if decide (si_namespace service_identifier = ns) then Some service_metadata else None)
    (map_iter m).

Definition sd_discover (service_identifier : ServiceIdentifier) (m : registry_map)
    : result ServiceMetadata Status :=
  match m !! service_identifier with
  | Some service => Ok service
  | None =>
      Err (mkStatus NotFound
        ("No service found for namespace: " +:+ si_namespace service_identifier
         +:+ ", name: " +:+ si_name service_identifier
         +:+ ", version: " +:+ si_version service_identifier))
  end.

Definition sd_list (m : registry_map) : list ServiceMetadata := map_values m.

(** ** Sequences of requests *)
Inductive SdRequest :=
  | SdRegister (service : option ServiceMetadata)
  | SdUnregister (i : ServiceIdentifier).

Definition sd_step (r : SdRequest) (m : registry_map) : registry_map :=
  match r with
  | SdRegister service => (sd_register service m).2
  | SdUnregister i => (sd_unregister i m).2
  end.
Definition sd_run (rs : list SdRequest) (m : registry_map) : registry_map :=
  foldl (λ m r, sd_step r m) m rs.

(** Every service is stored under its own identifier. *)
Definition sd_wf (m : registry_map) : Prop := map_Forall (λ i s, identifier_of s = i) m.

Lemma sd_step_wf r m : sd_wf m → sd_wf (sd_step r m).
Proof.
  intros Hwf. destruct r as [[s|]|i]; simpl; [| done |].
  - unfold sd_register. simpl. destruct (m !! identifier_of s); simpl; [done|].
    by apply map_Forall_insert_2.
  - unfold sd_unregister. destruct (m !! i); simpl; [|done]. by apply map_Forall_delete.
Qed.

Lemma sd_run_wf rs m : sd_wf m → sd_wf (sd_run rs m).
Proof.
  revert m. induction rs as [|r rs IH]; intros m Hwf; [done|]. apply IH. by apply sd_step_wf.
Qed.

(** A step changes the entry of [i] in two cases only. *)
Lemma lookup_sd_step r m i :
  sd_step r m !! i =
    match r with
    | SdRegister (Some s) =>
        if decide (identifier_of s = i) then Some (default s (m !! i)) else m !! i
    | SdRegister None => m !! i
    | SdUnregister j => if decide (j = i) then None else m !! i
    end.
Proof.
  destruct r as [[s|]|j]; simpl; [|done|].
  - unfold sd_register. simpl. destruct (decide (identifier_of s = i)) as [<-|Hne].
    + destruct (m !! identifier_of s) eqn:E; simpl; [done|]. apply lookup_insert_eq.
    + destruct (m !! identifier_of s) eqn:E; simpl; [done|]. by rewrite lookup_insert_ne.
  - unfold sd_unregister. destruct (decide (j = i)) as [->|Hne].
    + destruct (m !! i) eqn:E; simpl; [apply lookup_delete_eq|done].
    + destruct (m !! j) eqn:E; simpl; [by rewrite lookup_delete_ne|done].
Qed.

(** C33: A service identifier belongs to the first service registered under it until
    it is unregistered.  After any sequence of requests, [discover] answers [s]
    exactly when some request registered [s] under the identifier at a moment it
    was free, and no later request unregistered it. *)
Theorem discover_first_registration (rs : list SdRequest) (i : ServiceIdentifier) (s : ServiceMetadata) :
  sd_discover i (sd_run rs ∅) = Ok s ↔
  ∃ before after, rs = before ++ SdRegister (Some s) :: after ∧ identifier_of s = i ∧
    sd_run before ∅ !! i = None ∧ SdUnregister i ∉ after.
Proof.
  assert (sd_discover i (sd_run rs ∅) = Ok s ↔ sd_run rs ∅ !! i = Some s) as ->.
  { unfold sd_discover. destruct (_ !! i); split; congruence. }
  induction rs as [|r rs IH] using rev_ind.
  { split; [done|]. intros (b & a & Heq & _). by destruct b. }
  unfold sd_run in *. rewrite foldl_app. cbn [foldl]. rewrite lookup_sd_step.
  set (m := foldl _ ∅ rs) in *. split.
  - intros Hl.
    destruct (m !! i) as [s'|] eqn:Em.
    + assert (s' = s ∧ r ≠ SdUnregister i) as [-> Hr].
      { destruct r as [[x|]|j]; [case_decide; simpl in Hl| |case_decide]; split; congruence. }
      destruct (proj1 IH eq_refl) as (b & a & -> & Hid & Hfree & Ha).
      exists b, (a ++ [r]). rewrite <- (assoc (++)). split_and!; [done|done|done|set_solver].
    + destruct r as [[x|]|j]; [case_decide as Hx; simpl in Hl| |case_decide]; simplify_eq.
      exists rs, []. split_and!; [done|done|exact Em|set_solver].
  - intros (b & a & Heq & Hid & Hfree & Ha).
    destruct (exists_last_or_nil a) as [->|(a' & r' & ->)].
    + apply app_inj_tail in Heq as [-> ->]. fold m in Hfree. rewrite decide_True by done.
      by rewrite Hfree.
    + rewrite app_comm_cons, (assoc (++)) in Heq. apply app_inj_tail in Heq as [Hrs ->].
      rewrite (proj2 IH) by (exists b, a'; split_and!; [done|done|done|set_solver]).
      destruct r' as [[x|]|j]; [by case_decide|done|]. rewrite decide_False; [done|]. set_solver.
Qed.

(** Discovery by namespace is complete and exact: after any sequence of requests
    it answers every registered service of the namespace, each once, and [list]
    answers every registered service, each once. *)
Theorem discover_by_namespace_exact (rs : list SdRequest) (ns : string) :
  let m := sd_run rs ∅ in
  NoDup (sd_discover_by_namespace ns m) ∧ NoDup (sd_list m) ∧
  (∀ s, s ∈ sd_list m ↔ sd_discover (identifier_of s) m = Ok s) ∧
  (∀ s, s ∈ sd_discover_by_namespace ns m ↔ s ∈ sd_list m ∧ sm_namespace s = ns).
Proof.
  intros m. assert (sd_wf m) as Hwf by (apply sd_run_wf; intros i s; by rewrite lookup_empty).
  assert (∀ s, s ∈ sd_list m ↔ m !! identifier_of s = Some s) as Hlist.
  { intros s. unfold sd_list. rewrite elem_of_map_values. split; [|by eexists].
    intros [i Hi]. by rewrite (Hwf i s Hi). }
  assert (NoDup (sd_list m)) as Hnd.
  { unfold sd_list, map_values. apply NoDup_fmap_2_strong.
    - intros [i s] [j t] Hi%elem_of_map_iter Hj%elem_of_map_iter. simpl. intros ->.
      by rewrite <- (Hwf i t Hi), <- (Hwf j t Hj).
    - eapply NoDup_fmap_1, NoDup_map_iter. }
  assert (sd_discover_by_namespace ns m = filter (λ s, sm_namespace s = ns) (sd_list m)) as Heq.
  { unfold sd_discover_by_namespace, sd_list, map_values.
    assert (∀ i s, (i, s) ∈ map_iter m → si_namespace i = sm_namespace s) as Hi.
    { intros i s Hin%elem_of_map_iter. by rewrite <- (Hwf i s Hin). }
    induction (map_iter m) as [|[i s] l IH]; [done|]. simpl.
    rewrite filter_cons, (Hi i s) by set_solver.
    destruct (decide (sm_namespace s = ns)); [f_equal|]; apply IH; set_solver. }
  split_and!.
  - rewrite Heq. by apply NoDup_filter.
  - done.
  - intros s. rewrite Hlist. unfold sd_discover. destruct (m !! _); split; congruence.
  - intros s. rewrite Heq, list_elem_of_filter. tauto.
Qed.

(** Registering and unregistering on every branch: without a service the request
    is an invalid argument; a taken identifier is [AlreadyExists] and an unknown one
    [NotFound], all without effect; otherwise unregistering undoes registering. *)
Theorem register_unregister_spec (m : gmap ServiceIdentifier ServiceMetadata) (s : ServiceMetadata) :
  sd_register None m = (Err (mkStatus InvalidArgument "Service is required"), m) ∧
  match m !! identifier_of s with
  | Some existing =>
      ∃ msg, sd_register (Some s) m = (Err (mkStatus AlreadyExists msg), m) ∧
             sd_unregister (identifier_of s) m = (Ok tt, delete (identifier_of s) m)
  | None =>
      (∃ msg, sd_unregister (identifier_of s) m = (Err (mkStatus NotFound msg), m)) ∧
      ∃ m', sd_register (Some s) m = (Ok tt, m') ∧ sd_discover (identifier_of s) m' = Ok s ∧
            sd_unregister (identifier_of s) m' = (Ok tt, m)
  end.
Proof.
  split; [done|]. unfold sd_register, sd_unregister, sd_discover. simpl.
  destruct (m !! identifier_of s) eqn:E; [by eexists|]. split; [by eexists|].
  eexists. split; [done|]. rewrite lookup_insert_eq. split; [done|].
  by rewrite delete_insert_eq, delete_id.
Qed.
End discovery.
