(* ===== verification/KeyValue.v ===== *)
(** * The in-memory key-value store ([intent_brokering/keyvalue/src/key_value_store.rs])

    A hash map with an optional observer that is told about every update before
    the update is made. *)

From S2P Require Import Prelude RustStd.

(** [trait Observer<K, V>]: [on_set] takes [&mut self]; the handle [O] may refer to
    a shared state [W], and a panic of the observer leaves the store unchanged. *)
Class KvObserver (W K V O : Type) : Type :=
  on_set : K → V → O → W → outcome (O * W).

Section store.
Context {W K V O : Type} `{Countable K} `{!KvObserver W K V O}.

Record InMemoryKeyValueStore := mkInMemoryKeyValueStore {
  kv_store : gmap K V;
  kv_observer : option O
}.

Definition kv_new (obs : option O) : InMemoryKeyValueStore := mkInMemoryKeyValueStore ∅ obs.

Definition kv_get (self : InMemoryKeyValueStore) (key : K) : option V := kv_store self !! key.

Definition kv_set (self : InMemoryKeyValueStore) (key : K) (value : V) (w : W)
    : outcome (InMemoryKeyValueStore * W) :=
  match kv_observer self with
  | Some obs =>
      '(obs, w) ← on_set key value obs w;
      Return (mkInMemoryKeyValueStore (<[key := value]> (kv_store self)) (Some obs), w)
  | None => Return (mkInMemoryKeyValueStore (<[key := value]> (kv_store self)) None, w)
  end.

(** A sequence of updates. *)
Definition kv_set_all (self : InMemoryKeyValueStore) (updates : list (K * V)) (w : W)
    : outcome (InMemoryKeyValueStore * W) :=
  for_each (λ '(self, w) '(k, v), kv_set self k v w) (self, w) updates.

(** The value a sequence of updates gives a key: that of the last one of the key. *)
Fixpoint last_value (key : K) (updates : list (K * V)) (before : option V) : option V :=
  match updates with
  | [] => before
  | (k, v) :: updates => last_value key updates (if decide (k = key) then Some v else before)
  end.

(** The observer told of the updates one by one. *)
Definition observe_all (updates : list (K * V)) (obs : O) (w : W) : outcome (O * W) :=
  for_each (λ '(obs, w) '(k, v), on_set k v obs w) (obs, w) updates.

(** The store holds the last value set for each key, and its observer is told
    of every update exactly once, in order, with the key and the value; without an
    observer the updates always succeed. *)
Theorem set_all_spec (self : InMemoryKeyValueStore) (updates : list (K * V)) (w : W) :
  match kv_observer self with
  | Some obs =>
      match observe_all updates obs w with
      | Return (obs', w') =>
          ∃ self', kv_set_all self updates w = Return (self', w') ∧
            kv_observer self' = Some obs' ∧
            ∀ k, kv_get self' k = last_value k updates (kv_get self k)
      | Panic msg => kv_set_all self updates w = Panic msg
      end
  | None =>
      ∃ self', kv_set_all self updates w = Return (self', w) ∧ kv_observer self' = None ∧
        ∀ k, kv_get self' k = last_value k updates (kv_get self k)
  end.
Proof.
  revert self w. induction updates as [|[key v] updates IH]; intros self w.
  { destruct (kv_observer self) eqn:E; simpl; by eexists. }
  unfold kv_set_all, observe_all in *. cbn [for_each].
  destruct (kv_observer self) as [obs|] eqn:E.
  - assert (kv_set self key v w = '(obs, w) ← on_set key v obs w;
      Return (mkInMemoryKeyValueStore (<[key := v]> (kv_store self)) (Some obs), w)) as ->
      by (unfold kv_set; by rewrite E).
    destruct (on_set key v obs w) as [[obs1 w1]|msg]; cbn [mbind outcome_bind]; [|done].
    specialize (IH (mkInMemoryKeyValueStore (<[key := v]> (kv_store self)) (Some obs1)) w1).
    simpl in IH. destruct (for_each (λ '(obs, w) '(k, v), on_set k v obs w) (obs1, w1) updates)
      as [[obs2 w2]|msg]; [|done].
    destruct IH as (self' & Hs & Ho & Hget). exists self'. split_and!; [done|done|].
    intros k. rewrite Hget. cbn [last_value]. unfold kv_get. simpl. by rewrite lookup_insert.
  - assert (kv_set self key v w =
      Return (mkInMemoryKeyValueStore (<[key := v]> (kv_store self)) None, w)) as ->
      by (unfold kv_set; by rewrite E).
    cbn [mbind outcome_bind]. destruct (IH (mkInMemoryKeyValueStore (<[key := v]> (kv_store self)) None) w)
      as (self' & Hs & Ho & Hget). exists self'. split_and!; [done|done|].
    intros k. rewrite Hget. cbn [last_value]. unfold kv_get. simpl. by rewrite lookup_insert.
Qed.
End store.
