(* ===== verification/ExampleValue.v ===== *)
(** * Values, URLs and inspection entries of the example applications

    [examples/common/src]: [intent_brokering/value.rs], [url.rs],
    [intent_brokering/inspection.rs] and [examples/detection.rs]. *)

From S2P Require Import Prelude RustStd Common Proto Query.

(** ** value.rs *)
Record Value := mkValue { value_enum : ValueEnum }.
Inductive InvalidType := mkInvalidType.
(** The error of a conversion that consumes the value gives the value back. *)
Record InvalidValueType := mkInvalidValueType { invalid_value : Value }.

Definition Value_TRUE : Value := mkValue (VBool true).
Definition Value_FALSE : Value := mkValue (VBool false).
Definition Value_NULL : Value := mkValue (VNull 0).

Definition new_any (type_url : string) (v : list Byte.byte) : Value := mkValue (VAny (mkAny type_url v)).
Definition new_blob (media_type : string) (bytes : list Byte.byte) : Value :=
  mkValue (VBlob (mkBlob media_type bytes)).

Definition to_i32 (self : Value) : result Z InvalidType :=
  match value_enum self with VInt32 v => Ok v | _ => Err mkInvalidType end.
Definition to_i64 (self : Value) : result Z InvalidType :=
  match value_enum self with VInt64 v => Ok v | _ => Err mkInvalidType end.
Definition to_bool (self : Value) : result bool InvalidType :=
  match value_enum self with VBool v => Ok v | _ => Err mkInvalidType end.
Definition as_str (self : Value) : result string InvalidType :=
  match value_enum self with VString v => Ok v | _ => Err mkInvalidType end.
Definition into_string (self : Value) : result string InvalidValueType :=
  match value_enum self with VString v => Ok v | _ => Err (mkInvalidValueType self) end.
Definition into_any (self : Value) : result (string * list Byte.byte) InvalidValueType :=
  match value_enum self with
  | VAny any => Ok (type_url any, any_value any)
  | _ => Err (mkInvalidValueType self)
  end.
Definition into_blob (self : Value) : result (string * list Byte.byte) InvalidValueType :=
  match value_enum self with
  | VBlob blob => Ok (media_type blob, bytes blob)
  | _ => Err (mkInvalidValueType self)
  end.

(** The [From] and [TryFrom] instances. *)
Definition Value_try_from_message (v : ValueMessage) : result Value unit :=
  result_map mkValue (ok_or (value v) tt).
Definition Value_into_message (v : Value) : ValueMessage := mkValueMessage (Some (value_enum v)).
Definition Value_from_str (s : string) : Value := mkValue (VString s).
Definition Value_from_i32 (v : Z) : Value := mkValue (VInt32 v).
Definition Value_from_i64 (v : Z) : Value := mkValue (VInt64 v).
Definition Value_from_f32 (bits : Z) : Value := mkValue (VFloat32 bits).
Definition Value_from_f64 (bits : Z) : Value := mkValue (VFloat64 bits).
Definition Value_from_bool (v : bool) : Value := mkValue (VBool v).

(** ** url.rs *)
Inductive UrlSocketAddrParseError := InvalidScheme | MissingHost | InvalidAddress.
Definition UrlSocketAddrParseError_display (e : UrlSocketAddrParseError) : string :=
  match e with
  | InvalidScheme => "invalid scheme"
  | MissingHost => "missing host"
  | InvalidAddress => "invalid address"
  end.

(** An IPv4 address is four bytes, an IPv6 address eight words. *)
Inductive IpAddr := V4 (octets : list Z) | V6 (segments : list Z).
Record SocketAddr := mkSocketAddr { addr_ip : IpAddr; addr_port : Z }.
Inductive Host := Domain (name : string) | Ipv4 (octets : list Z) | Ipv6 (segments : list Z).

(** The accessors of [url::Url] used by the extension trait. *)
Class UrlParts `{!UrlLib} : Type := {
  url_scheme : Url → string;
  url_host : Url → option Host;
  url_port : Url → option Z
}.

Section url.
Context `{!UrlLib, !UrlParts}.

Definition parse_socket_address (self : Url) : result SocketAddr UrlSocketAddrParseError :=
  and_then (if decide (url_scheme self = "http") then Ok 80%Z
            else if decide (url_scheme self = "https") then Ok 443%Z
            else Err InvalidScheme) (λ port,
  and_then (ok_or (url_host self) MissingHost) (λ host,
  and_then (match host with
            | Domain _ => Err InvalidAddress
            | Ipv4 addr => Ok (mkSocketAddr (V4 addr) port)
            | Ipv6 addr => Ok (mkSocketAddr (V6 addr) port)
            end) (λ addr,
  Ok (match url_port self with
      | Some port => mkSocketAddr (addr_ip addr) port
      | None => addr
      end)))).
End url.

(** ** inspection.rs *)
Record Entry := mkEntry { entry_path : string; entry_items : gmap string Value }.
Definition Entry_new (path : string) (items : list (string * Value)) : Entry :=
  mkEntry path (foldl (λ m kv, <[kv.1 := kv.2]> m) ∅ items).
Definition Entry_get (self : Entry) (key : string) : option Value := entry_items self !! key.

Section inspection.
Context `{!RegexLib}.

Definition entry_message (e : Entry) : InspectEntry :=
  mkInspectEntry (entry_path e) (Value_into_message <$> entry_items e).

Definition inspection_fulfill (q : string) (entries : list Entry) : outcome FulfillmentEnum :=
  r ← regex_from_query q;
  Return (FInspect (mkInspectFulfillment
    (entry_message <$> filter (λ e, is_match r (entry_path e) = true) entries))).
End inspection.

(** ** detection.rs *)
Record DetectionObject := mkDetectionObject { object : string; confidence_bits : Z }.

Section detection.
(** prost's [DetectRequestMessage::decode] and [DetectResponseMessage::encode_to_vec]. *)
Context (decode_request : list Byte.byte → result (option Blob) Error).
Context (encode_response : list DetectionObject → list Byte.byte).

Definition DetectRequest_try_from (i : InvokeIntent) : outcome (result (list Byte.byte) Error) :=
  if bool_decide (length (args i) ≠ 1) || bool_decide (command i ≠ "detect") then
    Return (Err (Error_new "No command found which accepts the invocation arguments."))
  else
    arg ← match args i !! 0 with Some a => Return a | None => Panic "index out of bounds" end;
    Return (and_then (map_err (λ _, Error_new "Could not parse value.") (Value_try_from_message arg)) (λ v,
      and_then (map_err (λ _, Error_new "Argument was not of type 'Any'.") (into_any v)) (λ '(type_url, v),
      if decide (type_url = "examples.detection.v1.DetectRequest") then
        result_map bytes
          (and_then (map_err_with (decode_request v) "DetectRequest decoding failed.") (λ blob,
             ok_or blob (Error_new "No blob was present.")))
      else Err (Error_new "Argument was not of type 'examples.detection.v1.DetectRequest'.")))).

Definition DetectResponse_into_fulfillment (objects : list DetectionObject) : InvokeFulfillment :=
  mkInvokeFulfillment (Some (Value_into_message
    (new_any "examples.detection.v1.DetectResponse" (encode_response objects)))).
End detection.

(** ** Theorems *)

(** The accessors of a value are exact inverses of its constructors: each
    succeeds on the values of its own type only, with the payload they were made
    from; one that consumes the value gives it back unchanged when it fails; and a
    value survives the message it is sent in. *)
Theorem value_accessors_exact (v : Value) :
  (∀ n, to_i32 v = Ok n ↔ v = Value_from_i32 n) ∧
  (∀ n, to_i64 v = Ok n ↔ v = Value_from_i64 n) ∧
  (∀ b, to_bool v = Ok b ↔ v = Value_from_bool b) ∧
  (∀ s, as_str v = Ok s ↔ v = Value_from_str s) ∧
  (∀ s, into_string v = Ok s ↔ v = Value_from_str s) ∧
  (∀ t b, into_any v = Ok (t, b) ↔ v = new_any t b) ∧
  (∀ t b, into_blob v = Ok (t, b) ↔ v = new_blob t b) ∧
  (∀ e, into_string v = Err e ∨ into_any v = Err e ∨ into_blob v = Err e → invalid_value e = v) ∧
  (∀ m, Value_try_from_message m = Ok v ↔ m = Value_into_message v).
Proof.
  destruct v as [v]. unfold to_i32, to_i64, to_bool, as_str, into_string, into_any, into_blob,
    Value_from_i32, Value_from_i64, Value_from_bool, Value_from_str, new_any, new_blob. simpl.
  split_and!; [destruct v; split; congruence.. | | | |].
  - intros t b. destruct v as [| [] | | | | | | | | | |]; simpl; split; congruence.
  - intros t b. destruct v as [| | | | | | | | | | | []]; simpl; split; congruence.
  - intros e. destruct v; naive_solver.
  - intros [[m|]]; unfold Value_try_from_message, Value_into_message; simpl; split; congruence.
Qed.

(** [DetectRequest::try_from] never panics: the argument is indexed only when
    there is exactly one.  It succeeds exactly for the command [detect] with one
    argument, an [Any] of the request type that decodes to a message with a blob,
    and gives the bytes of that blob. *)
Theorem detect_request_accepts (decode : list Byte.byte → result (option Blob) Error) (i : InvokeIntent) :
  ∃ res, DetectRequest_try_from decode i = Return res ∧
    ∀ bs, res = Ok bs ↔
      ∃ v blob, i = mkInvokeIntent "detect"
          [Value_into_message (new_any "examples.detection.v1.DetectRequest" v)] ∧
        decode v = Ok (Some blob) ∧ bytes blob = bs.
Proof.
  destruct i as [cmd l]. unfold DetectRequest_try_from. cbn [args command].
  assert (∀ (res : result (list Byte.byte) Error) , (∀ bs, res ≠ Ok bs) →
    (∀ v blob, mkInvokeIntent cmd l = mkInvokeIntent "detect"
       [Value_into_message (new_any "examples.detection.v1.DetectRequest" v)] →
       decode v ≠ Ok (Some blob)) →
    ∃ r, Return res = Return r ∧ ∀ bs, r = Ok bs ↔
      ∃ v blob, mkInvokeIntent cmd l = mkInvokeIntent "detect"
          [Value_into_message (new_any "examples.detection.v1.DetectRequest" v)] ∧
        decode v = Ok (Some blob) ∧ bytes blob = bs) as Hno.
  { intros res Hr Hi. exists res. split; [done|]. intros bs. split; [by intros ?%Hr|].
    intros (v & blob & Heq & Hd & _). by destruct (Hi v blob). }
  destruct l as [|[[v|]] [|a' l]]; cbn [length].
  1, 3, 5: rewrite bool_decide_true by lia; cbn [orb]; by apply Hno.
  all: rewrite (bool_decide_false (1 ≠ 1)) by lia; cbn [orb].
  2: { destruct (bool_decide (cmd ≠ "detect")); simpl; by apply Hno. }
  destruct (bool_decide (cmd ≠ "detect")) eqn:Hcmd; simpl.
  { apply bool_decide_eq_true in Hcmd. apply Hno; [done|]. by intros v' blob [= ? _]. }
  apply bool_decide_eq_false, dec_stable in Hcmd. subst cmd.
  destruct v as [|[t v]| | | | | | | | | |]; simpl; try by apply Hno.
  case_decide as Ht; simpl; [subst t|].
  2: { apply Hno; [done|]. by intros v' blob [= ? _]. }
  destruct (decode v) as [[blob|]|e] eqn:Hd; simpl.
  - eexists. split; [done|]. intros bs. split.
    + intros [= <-]. by exists v, blob.
    + intros (v' & blob' & [= <-] & Hd' & <-). congruence.
  - apply Hno; [done|]. intros v' blob [= <-]. by rewrite Hd.
  - apply Hno; [done|]. intros v' blob [= <-]. by rewrite Hd.
Qed.
