(* ===== verification/ExampleApi.v ===== *)
(** * The client API of the example applications

    [examples/common/src/intent_brokering/api.rs]: the calls an application makes
    to the broker, over an abstract communication layer, and the opening of an
    event stream. *)

From S2P Require Import Prelude RustStd Common Proto ExampleValue.

(** [trait IntentBrokeringCommunication]. *)
Class Communication (W : Type) : Type :=
  comm_fulfill : string → IntentEnum → W → result FulfillResponse Error * W.

(** ** The gRPC implementation

    The generated client of the broker; [broker_connect] and [broker_fulfill] are
    tonic's. *)
Class BrokerFulfillClient (W : Type) : Type := {
  fulfill_client : Type;
  broker_connect : string → W → result fulfill_client Error * W;
  broker_fulfill : fulfill_client → RuntimeFulfillRequest → W → result FulfillResponse Error * W
}.

Section grpc.
Context {W : Type} `{!BrokerFulfillClient W}.
(** [env::var] fails when the variable is not set or is not valid Unicode. *)
Context (env_var : string → option string) (DEFAULT_INTENT_BROKER_URL : string).

Definition INTENT_BROKER_URL_KEY : string := "INTENT_BROKER_URL".

Definition grpc_brokering_connect (w : W) : result fulfill_client Error * W :=
  let intent_brokering_url := default DEFAULT_INTENT_BROKER_URL (env_var INTENT_BROKER_URL_KEY) in
  let '(client, w) := broker_connect intent_brokering_url w in
  (map_err_with client "Connecting to IntentBrokering failed.", w).

Definition grpc_brokering_fulfill (client : fulfill_client) (namespace : string) (intent : IntentEnum) (w : W)
    : result FulfillResponse Error * W :=
  let '(res, w) := broker_fulfill client
    (mkRuntimeFulfillRequest namespace (Some (mkIntentMessage (Some intent)))) w in
  (map_err_with res "Intent fulfillment failed.", w).
End grpc.

(** ** Reading a response *)
Definition as_inspect (f : FulfillmentEnum) : result InspectFulfillment unit :=
  match f with FInspect f => Ok f | _ => Err tt end.
Definition as_read (f : FulfillmentEnum) : result ReadFulfillment unit :=
  match f with FRead f => Ok f | _ => Err tt end.
Definition as_write (f : FulfillmentEnum) : result WriteFulfillment unit :=
  match f with FWrite f => Ok f | _ => Err tt end.
Definition as_invoke (f : FulfillmentEnum) : result InvokeFulfillment unit :=
  match f with FInvoke f => Ok f | _ => Err tt end.
Definition as_subscribe (f : FulfillmentEnum) : result SubscribeFulfillment unit :=
  match f with FSubscribe f => Ok f | _ => Err tt end.
Definition as_discover (f : FulfillmentEnum) : result DiscoverFulfillment unit :=
  match f with FDiscover f => Ok f | _ => Err tt end.

(** [FulfillResponseExt::fulfillment]; [F] is the expected kind. *)
Definition response_fulfillment {F} (try_from : FulfillmentEnum → result F unit)
    (r : FulfillResponse) : result F Error :=
  and_then
    (ok_or (fulfillment r ≫= fulfillment_enum) (Error_new "Did not receive fulfillment"))
    (λ f, map_err (λ _, Error_new "Unpexpected fulfillment") (try_from f)).

Record Service := mkService {
  service_url : string;
  service_schema_kind : string;
  service_schema_reference : string
}.
Definition Service_from (s : DiscoverService) : Service :=
  mkService (ds_url s) (schema_kind s) (schema_reference s).

Section api.
Context {W : Type} `{!Communication W} `{!HashOrder}.

(** The [?] after the communication, then the rest of the method. *)
Definition request {F A} (namespace : string) (intent : IntentEnum)
    (try_from : FulfillmentEnum → result F unit) (k : F → result A Error) (w : W)
    : result A Error * W :=
  let '(res, w) := comm_fulfill namespace intent w in
  (and_then res (λ r, and_then (response_fulfillment try_from r) k), w).

Definition api_invoke (namespace command : string) (args : list Value) (w : W)
    : result Value Error * W :=
  request namespace (IInvoke (mkInvokeIntent command (Value_into_message <$> args))) as_invoke
    (λ invoke, ok_or (return_value invoke ≫= (λ v, result_ok (Value_try_from_message v)))
                 (Error_new "Return value could not be parsed.")) w.

Definition api_subscribe (namespace channel_id : string) (event_ids : list string) (w : W)
    : result unit Error * W :=
  request namespace (ISubscribe (mkSubscribeIntent channel_id event_ids)) as_subscribe
    (λ _, Ok tt) w.

Definition api_discover (namespace : string) (w : W) : result (list Service) Error * W :=
  request namespace (IDiscover mkDiscoverIntent) as_discover
    (λ discover, Ok (Service_from <$> services discover)) w.

(** The items of an entry; one item without a value fails the whole entry. *)
Definition parse_entry (e : InspectEntry) : result Entry Error :=
  match collect_result ((λ '(key, v), result_map (λ v, (key, v)) (Value_try_from_message v))
                          <$> map_iter (items e)) with
  | Ok items => Ok (Entry_new (path e) items)
  | Err _ => Err (Error_new "Could not parse value.")
  end.

Definition api_inspect (namespace query : string) (w : W) : result (list Entry) Error * W :=
  request namespace (IInspect (mkInspectIntent query)) as_inspect
    (λ inspect, collect_result (parse_entry <$> entries inspect)) w.

Definition api_write (namespace key : string) (v : Value) (w : W) : result unit Error * W :=
  request namespace (IWrite (mkWriteIntent key (Some (Value_into_message v)))) as_write
    (λ _, Ok tt) w.

Definition api_read (namespace key : string) (w : W) : result (option Value) Error * W :=
  request namespace (IRead (mkReadIntent key)) as_read
    (λ read, match read_result read with
             | Some v => Ok (mkValue <$> value v)
             | None => Ok None
             end) w.

(** ** Listening to events *)
Record ApiEvent := mkApiEvent { event_source : string; event_data : Value; event_seq : Z }.

(** The client of the streaming endpoint: connecting, opening a channel (which
    answers response metadata and a stream), and reading a header as text. *)
Class StreamClient : Type := {
  stream_client : Type;
  event_stream : Type;
  stream_connect : string → W → result stream_client Error * W;
  stream_open : stream_client → W → result (list (string * string) * event_stream) Error * W;
  header_to_str : string → option string
}.

Definition CHANNEL_ID_HEADER_NAME : string := "x-chariott-channel-id".
Definition SDV_EVENT_STREAMING_SCHEMA_REFERENCE : string := "intent_brokering.streaming.v1".
Definition SDV_EVENT_STREAMING_SCHEMA_KIND : string := "grpc+proto".

Definition is_streaming_service (s : Service) : bool :=
  bool_decide (service_schema_reference s = SDV_EVENT_STREAMING_SCHEMA_REFERENCE)
  && bool_decide (service_schema_kind s = SDV_EVENT_STREAMING_SCHEMA_KIND).

(** How an item of the stream is presented to the application. *)
Definition stream_item (r : result Event Error) : result ApiEvent Error :=
  and_then (map_err_with r "Could not establish stream.") (λ event,
    result_map (λ data, mkApiEvent (ev_source event) data (ev_seq event))
      (and_then (ok_or (ev_value event) (Error_new "No value found in event payload.")) (λ v,
         map_err (λ _, Error_new "Could not parse protobuf value.") (Value_try_from_message v)))).

Definition header_value (name : string) (metadata : list (string * string)) : option string :=
  snd <$> find (λ kv, String.eqb kv.1 name) metadata.

Definition listen `{!StreamClient} (namespace : string) (subscription_sources : list string) (w : W)
    : result event_stream Error * W :=
  let '(discovered, w) := api_discover namespace w in
  match and_then discovered (λ l, ok_or (find is_streaming_service l)
          (Error_new "No compatible streaming endpoint found for '{namespace:?}'.")) with
  | Err e => (Err e, w)
  | Ok endpoint =>
      let '(client, w) := stream_connect (service_url endpoint) w in
      match map_err_with client "Connecting to streaming endpoint failed." with
      | Err e => (Err e, w)
      | Ok provider_client =>
          let '(response, w) := stream_open provider_client w in
          match map_err_with response "Opening stream failed." with
          | Err e => (Err e, w)
          | Ok (metadata, stream) =>
              match ok_or (header_value CHANNEL_ID_HEADER_NAME metadata ≫= header_to_str)
                      (Error_new "Channel ID header not found.") with
              | Err e => (Err e, w)
              | Ok channel_id =>
                  let '(subscribed, w) := api_subscribe namespace channel_id subscription_sources w in
                  (result_map (λ _, stream) subscribed, w)
              end
          end
      end
  end.
End api.

(** ** Theorems *)
Section theorems.
Context {W : Type} `{!Communication W} `{!HashOrder}.

Lemma request_Ok {F A} ns i (try_from : FulfillmentEnum → result F unit) (k : F → result A Error) w a w' :
  request ns i try_from k w = (Ok a, w') ↔
  ∃ f g, comm_fulfill ns i w = (Ok (mkFulfillResponse (Some (mkFulfillmentMessage (Some f)))), w') ∧
         try_from f = Ok g ∧ k g = Ok a.
Proof.
  unfold request, response_fulfillment.
  destruct (comm_fulfill ns i w) as [[[[[[f|]]|]]|e] w1]; simpl.
  - destruct (try_from f) as [g|] eqn:Hf; simpl.
    + split; [intros [= Hk <-]; eauto|]. intros (f' & g' & [= <- <-] & Hf' & Hk).
      rewrite Hf in Hf'. injection Hf' as <-. by rewrite Hk.
    + split; [done|]. intros (f' & g' & [= <- <-] & Hf' & _). congruence.
  - split; [done|]. by intros (f' & g' & [=] & _).
  - split; [done|]. by intros (f' & g' & [=] & _).
  - split; [done|]. by intros (f' & g' & [=] & _).
Qed.

(** An application listens successfully only if the first compatible streaming
    service it discovers accepts the connection and opens a channel with an id, and
    the namespace then accepts a subscription of the requested sources on that very
    channel; the stream it gets is the one of that channel. *)
Theorem listen_subscribes_on_its_channel `{!StreamClient (W := W)} ns srcs w stream w' :
  listen ns srcs w = (Ok stream, w') →
  ∃ found w1 endpoint client w2 metadata w3 id,
    api_discover ns w = (Ok found, w1) ∧ find is_streaming_service found = Some endpoint ∧
    service_schema_kind endpoint = SDV_EVENT_STREAMING_SCHEMA_KIND ∧
    service_schema_reference endpoint = SDV_EVENT_STREAMING_SCHEMA_REFERENCE ∧
    stream_connect (service_url endpoint) w1 = (Ok client, w2) ∧
    stream_open client w2 = (Ok (metadata, stream), w3) ∧
    header_value CHANNEL_ID_HEADER_NAME metadata ≫= header_to_str = Some id ∧
    comm_fulfill ns (ISubscribe (mkSubscribeIntent id srcs)) w3 =
      (Ok (mkFulfillResponse (Some (mkFulfillmentMessage
         (Some (FSubscribe mkSubscribeFulfillment))))), w').
Proof.
  unfold listen. destruct (api_discover ns w) as [[found|e] w1]; simpl; [|done].
  destruct (find is_streaming_service found) as [endpoint|] eqn:Hf; simpl; [|done].
  destruct (stream_connect _ w1) as [[client|e] w2] eqn:Hc; simpl; [|done].
  destruct (stream_open client w2) as [[[metadata st]|e] w3] eqn:Ho; simpl; [|done].
  destruct (header_value _ _ ≫= header_to_str) as [id|] eqn:Hh; simpl; [|done].
  destruct (api_subscribe ns id srcs w3) as [[u|e] w4] eqn:Hs; simpl; [|done].
  intros [= <- <-]. apply request_Ok in Hs as (f & g & Hcomm & Hg & _).
  destruct f as [| | | | |[]]; try done.
  pose proof (find_some _ _ Hf) as [_ Hs].
  apply andb_true_iff in Hs as [H1%bool_decide_eq_true H2%bool_decide_eq_true].
  exists found, w1, endpoint, client, w2, metadata, w3, id. split_and!; done.
Qed.

(** Reading a key sends one [Read] intent and returns a value exactly when the
    answer is a read fulfillment: with a value it is returned, an absent value or an
    empty message is [None], and every other answer is an error. *)
Theorem api_read_spec ns key w o w' :
  api_read ns key w = (Ok o, w') ↔
  ∃ m, comm_fulfill ns (IRead (mkReadIntent key)) w =
         (Ok (mkFulfillResponse (Some (mkFulfillmentMessage
            (Some (FRead (mkReadFulfillment m)))))), w') ∧
       match o with
       | Some v => m = Some (Value_into_message v)
       | None => m = None ∨ m = Some (mkValueMessage None)
       end.
Proof.
  unfold api_read. rewrite request_Ok. split.
  - intros (f & g & Hc & Hg & Hk). destruct f as [| |[m]| | |]; try done. injection Hg as <-.
    exists m. split; [done|]. simpl in Hk. destruct m as [[[v|]]|]; simpl in Hk;
      injection Hk as <-; [done|by right|by left].
  - intros (m & Hc & Hm). exists (FRead (mkReadFulfillment m)), (mkReadFulfillment m).
    split_and!; [done|done|]. simpl. destruct o as [[v]|]; [by subst|].
    by destruct Hm as [->| ->].
Qed.
End theorems.

(** ** Witnesses *)
Module ApiWitnesses.
#[local] Existing Instance canonical_order.

(** A namespace that discovers one streaming service and accepts subscriptions; the
    world is the list of the intents it received. *)
Definition endpoint : DiscoverService :=
  mkDiscoverService "http://stream" SDV_EVENT_STREAMING_SCHEMA_KIND
    SDV_EVENT_STREAMING_SCHEMA_REFERENCE ∅.
#[local] Instance comm : Communication (list IntentEnum) := λ _ i w,
  match i with
  | IDiscover _ => (Ok (mkFulfillResponse (Some (mkFulfillmentMessage
      (Some (FDiscover (mkDiscoverFulfillment [endpoint])))))), w ++ [i])
  | ISubscribe _ => (Ok (mkFulfillResponse (Some (mkFulfillmentMessage
      (Some (FSubscribe mkSubscribeFulfillment))))), w ++ [i])
  | _ => (Err (Error_new "unsupported"), w ++ [i])
  end.
#[local] Instance streams : StreamClient (W := list IntentEnum) := {|
  stream_client := string;
  event_stream := string;
  stream_connect u w := (Ok u, w);
  stream_open c w := (Ok ([(CHANNEL_ID_HEADER_NAME, "42")], c), w);
  header_to_str h := Some h
|}.
Definition stream : @event_stream _ streams := "http://stream".

Lemma listen_subscribes_on_its_channel_witness :
  ∃ w3 w', comm_fulfill "ns" (ISubscribe (mkSubscribeIntent "42" ["a"])) w3 =
    (Ok (mkFulfillResponse (Some (mkFulfillmentMessage
       (Some (FSubscribe mkSubscribeFulfillment))))), w').
Proof.
  destruct (listen_subscribes_on_its_channel "ns" ["a"] [] stream
    [IDiscover mkDiscoverIntent; ISubscribe (mkSubscribeIntent "42" ["a"])])
    as (found & w1 & e & c & w2 & metadata & w3 & id & _ & _ & _ & _ & _ & Ho & Hh & Hs).
  - reflexivity.
  - injection Ho as <- _ _. injection Hh as <-.
    exists w3, [IDiscover mkDiscoverIntent; ISubscribe (mkSubscribeIntent "42" ["a"])]. exact Hs.
Defined.
End ApiWitnesses.
