(* ===== verification/ExampleKv.v ===== *)
(** * The streaming store and the key-value application

    [examples/common/src/intent_brokering/streaming.rs], a key-value store whose
    updates are published as events, and
    [examples/applications/kv-app/src/intent_provider.rs], the provider that serves
    it. *)

From S2P Require Import Prelude RustStd Common Proto Ess EssFacts EssSample.
From S2P Require Import StreamingEss KeyValue ExampleValue ExampleApi.

(** The reference of the store and of its observer to the one streaming sub-system. *)
Inductive InternalStreamingEss := the_store_ess.

Section streaming_store.
Context {T : Type} `{!HashOrder} `{!Channels (string * T) (result Event Status)}.
(** [T: Into<ValueEnum>]. *)
Context (into_value_enum : T → ValueEnum).

#[export] Instance InternalStreamingEss_observer :
    KvObserver (StreamingEss (T := string * T)) string T InternalStreamingEss :=
  λ key v obs s, Return (obs, mkStreamingEss (publish key (key, v) (ess s)).2 (tasks s)).

Record StreamingStore := mkStreamingStore {
  ss_ess : StreamingEss (T := string * T);
  ss_store : InMemoryKeyValueStore (K := string) (V := T) (O := InternalStreamingEss)
}.

Definition StreamingStore_new (ch : chans) : StreamingStore :=
  mkStreamingStore (StreamingEss_new ch) (kv_new (Some the_store_ess)).

Definition ss_get (self : StreamingStore) (key : string) : option T := kv_get (ss_store self) key.

Definition ss_set (self : StreamingStore) (key : string) (v : T) : outcome StreamingStore :=
  '(store, e) ← kv_set (ss_store self) key v (ss_ess self);
  Return (mkStreamingStore e store).

(** [trait ProtoExt]. *)
Definition ss_subscribe (self : StreamingStore) (i : SubscribeIntent)
    : outcome (result FulfillmentEnum Status * StreamingStore) :=
  '(res, e) ← serve_subscriptions i (λ kv, into_value_enum kv.2) (ss_ess self);
  Return (result_map FSubscribe res, mkStreamingStore e (ss_store self)).

Definition ss_read (self : StreamingStore) (i : ReadIntent) : FulfillmentEnum :=
  FRead (mkReadFulfillment (Some (mkValueMessage (into_value_enum <$> ss_get self (read_key i))))).
End streaming_store.

(** ** kv-app *)
Section kv_app.
Context `{!UrlLib, !HashOrder} `{!Channels (string * ValueEnum) (result Event Status)}.
#[local] Abbreviation Store := (StreamingStore (T := ValueEnum)).

Definition kv_write (store : Store) (i : WriteIntent)
    : outcome (result WriteFulfillment Status * Store) :=
  match ok_or (write_value i ≫= value) (mkStatus Unknown "Value must be specified.") with
  | Err e => Return (Err e, store)
  | Ok v => store ← ss_set store (write_key i) v; Return (Ok mkWriteFulfillment, store)
  end.

Definition kv_fulfill (u : Url) (req : ProviderFulfillRequest) (store : Store)
    : outcome (result FulfillResponse Status * Store) :=
  match ok_or (pf_intent req ≫= intent_enum)
          (mkStatus InvalidArgument "Intent must be specified.") with
  | Err e => Return (Err e, store)
  | Ok intent =>
      '(res, store) ←
        match intent with
        | IRead i => Return (Ok (ss_read id store i), store)
        | IWrite i => '(res, store) ← kv_write store i; Return (result_map FWrite res, store)
        | ISubscribe i => ss_subscribe id store i
        | IDiscover _ =>
            Return (Ok (FDiscover (mkDiscoverFulfillment
              [mkDiscoverService (url_to_string u) "grpc+proto" "intent_brokering.streaming.v1" ∅])),
              store)
        | _ => Return (Err (mkStatus Unknown "Unsupported or unknown intent."), store)
        end;
      Return (result_map (λ f, mkFulfillResponse (Some (mkFulfillmentMessage (Some f)))) res, store)
  end.

(** The invariant of a store that was made by [StreamingStore_new]: its observer is
    the streaming sub-system. *)
Definition store_wf (store : Store) : Prop := kv_observer (ss_store store) = Some the_store_ess.

Lemma ss_set_eq (store : Store) key v :
  store_wf store →
  ss_set store key v = Return (mkStreamingStore
    (mkStreamingEss (publish key (key, v) (ess (ss_ess store))).2 (tasks (ss_ess store)))
    (mkInMemoryKeyValueStore (<[key := v]> (kv_store (ss_store store))) (Some the_store_ess))).
Proof. unfold store_wf, ss_set, kv_set. by intros ->. Qed.

(** ** Writing and reading through the API

    The provider as the communication layer of a client: what reaches the client
    of a panic or of an error status is an error. *)
Context (u : Url).
#[local] Instance kv_communication : Communication Store := λ _ i store,
  match kv_fulfill u (mkProviderFulfillRequest (Some (mkIntentMessage (Some i)))) store with
  | Return (res, store) => (map_err (λ st, Error_new (message st)) res, store)
  | Panic msg => (Err (Error_new msg), store)
  end.

Lemma api_write_eq ns key v (store : Store) :
  store_wf store →
  ∃ store', api_write ns key v store = (Ok tt, store') ∧ store_wf store' ∧
    ss_ess store' = mkStreamingEss (publish key (key, value_enum v) (ess (ss_ess store))).2
                      (tasks (ss_ess store)) ∧
    kv_store (ss_store store') = <[key := value_enum v]> (kv_store (ss_store store)).
Proof.
  intros Hwf. unfold api_write, request, comm_fulfill, kv_communication, kv_fulfill, kv_write. simpl.
  rewrite ss_set_eq by done. simpl. eexists. split_and!; done.
Qed.

Lemma api_read_eq ns key (store : Store) :
  api_read ns key store = (Ok (mkValue <$> kv_store (ss_store store) !! key), store).
Proof.
  unfold api_read, request, comm_fulfill, kv_communication, kv_fulfill, ss_read, ss_get, kv_get. simpl.
  by destruct (_ !! key).
Qed.

(** C36: Through the client API the key-value application is a map: a write succeeds,
    a following read of the key returns the very value that was written, reads of
    other keys and reads without a write return what they did before, and each
    write publishes the event of its key with the key and the value, once. *)
Theorem kv_write_then_read ns key key' (v : Value) (store : Store) :
  store_wf store →
  ∃ store', api_write ns key v store = (Ok tt, store') ∧ store_wf store' ∧
    ess (ss_ess store') = (publish key (key, value_enum v) (ess (ss_ess store))).2 ∧
    (∃ before, api_read ns key' store = (Ok before, store) ∧
       api_read ns key' store' = (Ok (if decide (key = key') then Some v else before), store')).
Proof.
  intros Hwf. destruct (api_write_eq ns key v store Hwf) as (store' & Hw & Hwf' & He & Hs).
  exists store'. split_and!; [done|done|by rewrite He|].
  exists (mkValue <$> kv_store (ss_store store) !! key'). split; [apply api_read_eq|].
  rewrite api_read_eq, Hs, lookup_insert. case_decide; [|done]. simpl. by destruct v.
Qed.

(** The application answers whatever is asked, and keeps its configuration. *)
Lemma kv_fulfill_answers (req : ProviderFulfillRequest) (store : Store) :
  ChannelLaws (string * ValueEnum) (result Event Status) →
  0 < publish_buffer_size (ess_config (ess (ss_ess store))) → store_wf store →
  ∃ res store', kv_fulfill u req store = Return (res, store') ∧ store_wf store' ∧
    ess_config (ess (ss_ess store')) = ess_config (ess (ss_ess store)).
Proof.
  intros Hlaws Hbuf Hwf. unfold kv_fulfill.
  destruct (pf_intent req ≫= intent_enum) as [[i|i|i|i|i|i]|]; simpl; try (do 2 eexists; by split_and!).
  - unfold kv_write. destruct (write_value i ≫= value) as [v|]; simpl; [|do 2 eexists; by split_and!].
    rewrite ss_set_eq by done. simpl. do 2 eexists. split_and!; [done..|]. simpl. apply publish_config.
  - unfold ss_subscribe, serve_subscriptions, register_subscriptions.
    destruct (client_by_id _ !! _) as [c|]; simpl; [|do 2 eexists; by split_and!].
    destruct (register_loop (ess_config (ess (ss_ess store))) (channel_id i) (sender c) (sources i)
      (subscriptions c) (sender_by_event_id (ess (ss_ess store))) []
      (channels (ess (ss_ess store))) Hlaws Hbuf) as (su & se & nw & ch & -> & _).
    simpl. do 2 eexists. by split_and!.
Qed.

(** C37: The key-value application answers every request with a status or a
    fulfillment of the kind asked for, without a panic: the missing intent is an
    invalid argument, [Inspect] and [Invoke] are unsupported, a write without a value
    is refused and changes nothing. *)
Theorem kv_fulfill_total (req : ProviderFulfillRequest) (store : Store) :
  ChannelLaws (string * ValueEnum) (result Event Status) →
  0 < publish_buffer_size (ess_config (ess (ss_ess store))) → store_wf store →
  ∃ res store', kv_fulfill u req store = Return (res, store') ∧ store_wf store' ∧
    match pf_intent req ≫= intent_enum, res with
    | None, Err st => code st = InvalidArgument ∧ store' = store
    | Some (IInvoke _ | IInspect _), Err st => code st = Unknown ∧ store' = store
    | Some (IWrite i), Err st => write_value i ≫= value = None ∧ code st = Unknown ∧ store' = store
    | Some (ISubscribe i), Err st =>
        client_by_id (ess (ss_ess store)) !! channel_id i = None ∧ code st = FailedPrecondition
    | Some (IRead i), Ok r =>
        store' = store ∧ ∃ f, r = mkFulfillResponse (Some (mkFulfillmentMessage (Some (FRead f))))
    | Some (IWrite _), Ok r =>
        r = mkFulfillResponse (Some (mkFulfillmentMessage (Some (FWrite mkWriteFulfillment))))
    | Some (ISubscribe _), Ok r =>
        r = mkFulfillResponse (Some (mkFulfillmentMessage (Some (FSubscribe mkSubscribeFulfillment))))
    | Some (IDiscover _), Ok r =>
        store' = store ∧ ∃ f, r = mkFulfillResponse (Some (mkFulfillmentMessage (Some (FDiscover f))))
    | _, _ => False
    end.
Proof.
  intros Hlaws Hbuf Hwf. unfold kv_fulfill. destruct (pf_intent req ≫= intent_enum) as [i|]; simpl.
  2: { do 2 eexists. by split_and!. }
  destruct i as [i|i|i|i|i|i]; simpl.
  - do 2 eexists. split_and!; [done..|]. simpl. split; [done|by eexists].
  - do 2 eexists. by split_and!.
  - do 2 eexists. split_and!; [done..|]. simpl. split; [done|by eexists].
  - unfold kv_write. destruct (write_value i ≫= value) as [v|] eqn:Hv; simpl.
    + rewrite ss_set_eq by done. simpl. do 2 eexists. by split_and!.
    + do 2 eexists. by split_and!.
  - do 2 eexists. by split_and!.
  - unfold ss_subscribe, serve_subscriptions, register_subscriptions.
    destruct (client_by_id _ !! _) as [c|] eqn:Hc; simpl.
    + destruct (register_loop (ess_config (ess (ss_ess store))) (channel_id i) (sender c) (sources i)
        (subscriptions c) (sender_by_event_id (ess (ss_ess store))) []
        (channels (ess (ss_ess store))) Hlaws Hbuf) as (su & se & nw & ch & -> & _).
      simpl. do 2 eexists. by split_and!.
    + do 2 eexists. by split_and!.
Qed.
End kv_app.

(** ** Witnesses *)
Module KvWitnesses.
#[local] Existing Instance canonical_order.
#[local] Existing Instance string_url.
#[local] Instance chs : Channels (string * ValueEnum) (result Event Status) :=
  sample_channels (string * ValueEnum) (result Event Status).
Definition kv_url : @Url string_url := "http://0.0.0.0:50064".
#[local] Instance comm : Communication (StreamingStore (T := ValueEnum)) := kv_communication kv_url.

Definition fresh : StreamingStore (T := ValueEnum) :=
  StreamingStore_new (empty_store (string * ValueEnum) (result Event Status)).

Lemma kv_write_then_read_witness :
  ∃ store', api_write "sdv.kvs" "key" Value_TRUE fresh = (Ok tt, store') ∧
            api_read "sdv.kvs" "key" store' = (Ok (Some Value_TRUE), store').
Proof.
  destruct (kv_write_then_read kv_url "sdv.kvs" "key" "key" Value_TRUE fresh)
    as (store' & Hw & _ & _ & before & _ & Hr).
  - reflexivity.
  - exists store'. split; [exact Hw|]. exact Hr.
Defined.

Lemma kv_fulfill_total_witness :
  ∃ res store',
    kv_fulfill kv_url (mkProviderFulfillRequest None) fresh = Return (res, store') ∧
    store_wf store' ∧
    match res with Err st => code st = InvalidArgument ∧ store' = fresh | Ok _ => False end.
Proof.
  apply (kv_fulfill_total kv_url (mkProviderFulfillRequest None) fresh).
  - apply sample_laws.
  - vm_compute. lia.
  - reflexivity.
Defined.
End KvWitnesses.
