(* ===== verification/ExampleRegistration.v ===== *)
(** * Registration of a provider with the broker

    [examples/common/src/intent_brokering/registration.rs] and [provider.rs], and the
    registration code of [examples/applications/simple-provider/src/main.rs], against
    an abstract client of the broker. *)

From S2P Require Import Prelude RustStd Common Proto Registry ExampleValue.
From S2P Require Import ExampleApi.

(** The generated client of the broker's service, over the state [W] of the world. *)
Class BrokerClient (W : Type) : Type := {
  reg_client : Type;
  reg_connect : string → W → result reg_client Error * W;
  reg_announce : reg_client → AnnounceRequest → W → result AnnounceResponse Error * W;
  reg_register : reg_client → RegisterRequest → W → result RegisterResponse Error * W
}.

(** [Intent as i32] and [ExecutionLocality as i32], the numbers of the contract. *)
Definition Intent_as_i32 (k : IntentKind) : Z :=
  match k with
  | Discover => 0 | Inspect => 1 | Read => 2 | Write => 3 | Invoke => 4 | Subscribe => 5
  end.
Definition ExecutionLocality_as_i32 (l : ExecutionLocality) : Z :=
  match l with Local => 0 | Cloud => 1 end.

Inductive ConfigSource (T : Type) := ConfigValue (v : T) | Environment (name : option string).
Arguments ConfigValue {T} v.
Arguments Environment {T} name.

Definition ANNOUNCE_URL_KEY : string := "ANNOUNCE_URL".

Section registration.
Context `{!UrlLib, !UrlParts}.
(** The process environment, as in [config.rs], and the URL compiled in. *)
Context (var_os : string → option string) (utf8 : string → bool) (DEFAULT_INTENT_BROKER_URL : string).
(** The error [url] reports for a text that is not a URL. *)
Context (url_parse_error : string → Error).

Record Builder := mkBuilder {
  b_name : string;
  b_version : string;
  announce_url : Url;
  provider_url : Url;
  b_namespace : string;
  b_intents : list IntentKind;
  intent_broker_url : Url;
  registration_interval : Z;
  b_locality : ExecutionLocality
}.

Definition parse_url (s : string) : result Url unit := ok_or (url_parse s) tt.

(** [std::env::var] fails when the variable is not set or not valid Unicode. *)
Definition std_env_var (key : string) : option string :=
  match var_os key with Some s => if utf8 s then Some s else None | None => None end.

Definition Builder_new (name version : string) (u : Url) (namespace : string)
    (intents : list IntentKind) (loc : ExecutionLocality) : outcome Builder :=
  broker_url ← unwrap (parse_url (default DEFAULT_INTENT_BROKER_URL (std_env_var INTENT_BROKER_URL_KEY)));
  announce ← env var_os utf8 parse_url ANNOUNCE_URL_KEY;
  Return (mkBuilder name version (default u announce) u namespace intents broker_url
            (duration_from_secs 5) loc).

Definition set_registration_interval (self : Builder) (value : ConfigSource Z) : outcome Builder :=
  let set v := mkBuilder (b_name self) (b_version self) (announce_url self) (provider_url self)
                 (b_namespace self) (b_intents self) (intent_broker_url self) v (b_locality self) in
  match value with
  | ConfigValue v => Return (set v)
  | Environment name =>
      let name := default "INTENT_BROKER_REGISTRATION_INTERVAL" name in
      secs ← env var_os utf8 parse_u64 name;
      Return (set (default (registration_interval self) (duration_from_secs <$> secs)))
  end.

Definition set_intent_broker_url (self : Builder) (value : ConfigSource Url) : outcome Builder :=
  let set v := mkBuilder (b_name self) (b_version self) (announce_url self) (provider_url self)
                 (b_namespace self) (b_intents self) v (registration_interval self) (b_locality self) in
  match value with
  | ConfigValue v => Return (set v)
  | Environment name =>
      let name := default "INTENT_BROKER_URL" name in
      u ← env var_os utf8 parse_url name;
      Return (match u with Some u => set u | None => self end)
  end.

Definition from_env (self : Builder) : outcome Builder :=
  self ← set_intent_broker_url self (Environment None);
  set_registration_interval self (Environment None).

Definition parse_provider_socket_address (self : Builder) : result SocketAddr Error :=
  map_err (λ e, Error_from_error "Error parsing provider socket address."
                  (Error_new (UrlSocketAddrParseError_display e)))
    (parse_socket_address (provider_url self)).

Definition builder_service (self : Builder) : IntentServiceRegistration :=
  mkIntentServiceRegistration (b_name self) (b_version self) (url_to_string (announce_url self))
    (ExecutionLocality_as_i32 (b_locality self)).
Definition builder_registrations (self : Builder) : list IntentRegistration :=
  (λ i, mkIntentRegistration (b_namespace self) (Intent_as_i32 i)) <$> b_intents self.

Section client.
Context {W : Type} `{!BrokerClient W}.

(** [register_once]: the result, the client as it is left, and the world. *)
Definition register_once (self : Builder) (client : option reg_client) (first_iteration : bool) (w : W)
    : result unit Error * option reg_client * W :=
  let '(connected, w) :=
    match client with
    | Some c => (Ok c, w)
    | None =>
        let '(res, w) := reg_connect (url_to_string (intent_broker_url self)) w in
        (map_err_with res ("Could not connect to IntentBrokering ("
           +:+ url_to_string (intent_broker_url self) +:+ ")"), w)
    end in
  match connected with
  | Err e => (Err e, None, w)
  | Ok c =>
      let service := Some (builder_service self) in
      let '(announced, w) := reg_announce c (mkAnnounceRequest service) w in
      match map_err_with announced "Error when announcing to IntentBrokering." with
      | Err e => (Err e, Some c, w)
      | Ok response =>
          if first_iteration
             || bool_decide (registration_state response = RegistrationState_as_i32 Announced) then
            let '(registered, w) :=
              reg_register c (mkRegisterRequest service (builder_registrations self)) w in
            match map_err_with registered "Error when registering with IntentBrokering." with
            | Err e => (Err e, Some c, w)
            | Ok _ => (Ok tt, Some c, w)
            end
          else (Ok tt, Some c, w)
      end
  end.

(** The loop of [register], for as many iterations as [pauses]: what the rest of
    the world does while the task sleeps. *)
Fixpoint builder_loop (self : Builder) (pauses : list (W → W)) (client : option reg_client)
    (first_iteration : bool) (w : W) : option reg_client * bool * W :=
  match pauses with
  | [] => (client, first_iteration, w)
  | pause :: pauses =>
      let '(res, client, w) := register_once self client first_iteration w in
      match res with
      | Ok _ => builder_loop self pauses client false (pause w)
      | Err _ => builder_loop self pauses None first_iteration (pause w)
      end
  end.

Definition builder_register (self : Builder) (pauses : list (W → W)) (w : W)
    : option reg_client * bool * W :=
  builder_loop self pauses None true w.
End client.

(** ** provider.rs: [register]

    The announced URL and the socket address, and the builder whose registration
    loop is spawned. *)
Definition provider_register (name version namespace : string) (intents : list IntentKind)
    (url_env_name u : string) (loc : ExecutionLocality)
    : outcome (result (Url * SocketAddr * Builder) Error) :=
  from_var ← env var_os utf8 (λ s, Ok s : result string unit) url_env_name;
  match map_err_with (ok_or (url_parse (default u from_var)) (url_parse_error (default u from_var)))
          "Failed to parse URL." with
  | Err e => Return (Err e)
  | Ok u =>
      registration ← Builder_new name version u namespace intents loc;
      registration ← from_env registration;
      Return (result_map (λ socket_address, (announce_url registration, socket_address, registration))
                (parse_provider_socket_address registration))
  end.
End registration.

(** ** simple-provider *)
Record RegisterParams := mkRegisterParams {
  rp_name : string;
  rp_namespace : string;
  rp_version : string;
  rp_intents : list IntentKind;
  rp_url : string;
  rp_intent_brokering_url : string;
  rp_locality : ExecutionLocality
}.

Section simple_provider.
Context {W : Type} `{!BrokerClient W}.

Definition connect_intent_brokering_client (url : string) (w : W)
    : result unit Error * option reg_client * W :=
  let '(res, w) := reg_connect url w in
  match res with
  | Ok c => (Ok tt, Some c, w)
  | Err e => (Err (Error_from_error "Could not connect to client" e), None, w)
  end.

Definition register_and_announce_once (client : option reg_client) (reg_params : RegisterParams) (w : W)
    : outcome (result unit Error * option reg_client * W) :=
  let '(connected, client, w) :=
    match client with
    | Some c => (Ok tt, Some c, w)
    | None => connect_intent_brokering_client (rp_intent_brokering_url reg_params) w
    end in
  match connected with
  | Err e => Return (Err e, client, w)
  | Ok _ =>
      let service := Some (mkIntentServiceRegistration (rp_name reg_params) (rp_version reg_params)
        (rp_url reg_params) (ExecutionLocality_as_i32 (rp_locality reg_params))) in
      c ← match client with Some c => Return c | None => Panic "No client found" end;
      let '(announced, w) := reg_announce c (mkAnnounceRequest service) w in
      match announced with
      | Err e => Return (Err (Error_from_error "Error announcing to IntentBrokering." e), client, w)
      | Ok response =>
          if decide (registration_state response = RegistrationState_as_i32 Announced) then
            let '(registered, w) := reg_register c
              (mkRegisterRequest service
                 ((λ i, mkIntentRegistration (rp_namespace reg_params) (Intent_as_i32 i))
                    <$> rp_intents reg_params)) w in
            match registered with
            | Err e => Return (Err (Error_from_error "Error registering with IntentBrokering." e), client, w)
            | Ok _ => Return (Ok tt, client, w)
            end
          else Return (Ok tt, client, w)
      end
  end.

(** The loop of [register_and_announce_provider]: errors are logged, the client is
    kept. *)
Fixpoint register_and_announce_provider (reg_params : RegisterParams) (pauses : list (W → W))
    (client : option reg_client) (w : W) : outcome (option reg_client * W) :=
  match pauses with
  | [] => Return (client, w)
  | pause :: pauses =>
      '(_, client, w) ← register_and_announce_once client reg_params w;
      register_and_announce_provider reg_params pauses client (pause w)
  end.
End simple_provider.
