(* ===== verification/RegistrationTheorems.v ===== *)
(** * Providers and the broker together

    The registration client of the example applications running against the server:
    a round of registration leaves the provider registered, with exactly its
    intents, as of that moment. *)

From S2P Require Import Prelude RustStd Common Proto Query QueryFacts Registry.
From S2P Require Import RegistryFacts RegistrySpec Ess EssSample StreamingEss.
From S2P Require Import Connection Execution Broker BrokerFacts.
From S2P Require Import BrokerConnections Server ServerFacts ExampleValue.
From S2P Require Import ExampleApi ExampleRegistration.

(** [to_string] of a URL parses back to it (documented by the [url] crate). *)
Class UrlLaws `{!UrlLib} : Prop :=
  url_parse_to_string u : url_parse (url_to_string u) = Some u.

Section together.
Context `{!UrlLib, !HashOrder, !RegexLib, !Transport} `{!Channels unit (result Event Status)}.
#[local] Abbreviation MainServer := (IntentBrokeringServer (Composite IntentBroker StreamingRef)).

(** The server as seen by a client at a given time; a status is an error. *)
Record ServerAt := mkServerAt { at_server : MainServer; at_world : World; at_time : Z }.

#[export] Instance server_client : BrokerClient ServerAt := {|
  reg_client := unit;
  reg_connect _ s := (Ok tt, s);
  reg_announce _ req s :=
    let '(res, self) := announce (at_server s) req (at_time s) in
    (map_err (λ st, Error_new (message st)) res, mkServerAt self (at_world s) (at_time s));
  reg_register _ req s :=
    match register (at_server s) req (at_time s) (at_world s) with
    | Return (res, self, w) =>
        (map_err (λ st, Error_new (message st)) res, mkServerAt self w (at_time s))
    | Panic msg => (Err (Error_new msg), s)
    end
|}.

(** The registry's view of the service and the intents of a builder. *)
Definition builder_configuration (b : Builder) : ServiceConfiguration :=
  mkServiceConfiguration (mkServiceId (b_name b) (b_version b)) (announce_url b) (b_locality b).
Definition builder_intents (b : Builder) : list IntentConfiguration :=
  (λ k, mkIntentConfiguration (b_namespace b) k) <$> b_intents b.

(** ** The numbers of the contract *)
Lemma map_intent_value_as_i32 k : map_intent_value (Intent_as_i32 k) = Ok k.
Proof. by destruct k. Qed.

Lemma map_locality_value_as_i32 l : map_locality_value (ExecutionLocality_as_i32 l) = Ok l.
Proof. by destruct l. Qed.

(** The numbers a provider sends for its intents and its locality are those the
    server reads: decoding inverts encoding, and every other number is refused. *)
Theorem contract_numbers_round_trip (n : Z) :
  (∀ k, map_intent_value n = Ok k ↔ n = Intent_as_i32 k) ∧
  (∀ l, map_locality_value n = Ok l ↔ n = ExecutionLocality_as_i32 l) ∧
  ((n < 0 ∨ 5 < n)%Z ↔ map_intent_value n = Err (invalid_argument "No such intent known.")).
Proof.
  split_and!.
  - intros k. split; [|intros ->; apply map_intent_value_as_i32].
    unfold map_intent_value. repeat case_decide; intros [= <-]; done.
  - intros l. split; [|intros ->; apply map_locality_value_as_i32].
    unfold map_locality_value. repeat case_decide; intros [= <-]; done.
  - unfold map_intent_value, INTENT_MAPPING_DISCOVER, INTENT_MAPPING_INSPECT, INTENT_MAPPING_READ,
      INTENT_MAPPING_WRITE, INTENT_MAPPING_INVOKE, INTENT_MAPPING_SUBSCRIBE.
    repeat case_decide; split; try done; lia.
Qed.

Lemma builder_service_resolves b :
  UrlLaws → resolve_service_configuration (builder_service b) = Ok (builder_configuration b).
Proof.
  intros Hurl. unfold resolve_service_configuration, builder_service. simpl.
  rewrite map_locality_value_as_i32. simpl. by rewrite Hurl.
Qed.

Lemma builder_registrations_collect b :
  collect_result (create_configruation_from_registration <$> builder_registrations b) =
    Ok (builder_intents b).
Proof.
  apply collect_result_Ok. unfold builder_registrations, builder_intents.
  rewrite <- !list_fmap_compose. apply list_fmap_ext. intros _ k _. simpl.
  unfold create_configruation_from_registration. simpl. by rewrite map_intent_value_as_i32.
Qed.

(** ** One round *)
Lemma builder_announce b s :
  UrlLaws →
  reg_announce tt (mkAnnounceRequest (Some (builder_service b))) s =
    let '(known, r) := touch (registry (at_server s)) (builder_configuration b) (at_time s) in
    (Ok (mkAnnounceResponse
       (RegistrationState_as_i32 (if known : bool then NotChanged else Announced))),
     mkServerAt (mkIntentBrokeringServer (broker (at_server s)) r) (at_world s) (at_time s)).
Proof.
  intros Hurl. simpl. unfold announce. simpl. rewrite builder_service_resolves by done.
  by destruct (touch _ _ _) as [known r].
Qed.

Lemma builder_registers b s :
  UrlLaws → registry_wf (registry (at_server s)) →
  observer (registry (at_server s)) = server_observer →
  is_system_namespace (b_namespace b) = false →
  ∃ w', reg_register tt (mkRegisterRequest (Some (builder_service b)) (builder_registrations b)) s =
    (Ok mkRegisterResponse,
     mkServerAt (mkIntentBrokeringServer (broker (at_server s))
       (upserted (registry (at_server s)) (builder_configuration b) (builder_intents b) (at_time s)))
       w' (at_time s)).
Proof.
  intros Hurl Hwf Hobs Hns. simpl. unfold register. simpl.
  rewrite builder_service_resolves, builder_registrations_collect by done.
  assert (existsb (λ ic, is_system_namespace (namespace ic)) (builder_intents b) = false) as Hsys.
  { unfold builder_intents. induction (b_intents b) as [|k l IH]; [done|].
    rewrite fmap_cons. cbn [existsb namespace]. by rewrite Hns. }
  destruct (upsert_eq _ (builder_configuration b) (builder_intents b) (at_time s) (at_world s) Hwf Hsys)
    as (changes & _ & ->).
  rewrite Hobs. destruct (notify_total _ server_observer_total changes (at_world s)) as [w' ->].
  simpl. by exists w'.
Qed.

(** A round of the provider's registration works.  Against a running server
    whose registry is in a valid state, it succeeds, whether the provider is
    connected or not, and leaves the provider registered with exactly its intents
    and seen at that moment, if it is the first round, or the server has forgotten
    the provider, or still knows it with its intents. *)
Theorem registration_round b client first s :
  UrlLaws → registry_wf (registry (at_server s)) →
  observer (registry (at_server s)) = server_observer →
  is_system_namespace (b_namespace b) = false →
  (first = false → is_Some (known_services (registry (at_server s)) !! builder_configuration b) →
     intents_of (registry (at_server s)) (builder_configuration b) = list_to_set (builder_intents b)) →
  ∃ s', register_once b client first s = (Ok tt, Some tt, s') ∧ at_time s' = at_time s ∧
    abs (registry (at_server s')) !! builder_configuration b =
      Some (list_to_set (builder_intents b), at_time s).
Proof.
  intros Hurl Hwf Hobs Hns Hknown.
  set (svc := builder_configuration b) in *.
  assert (∀ s1, registry_wf (registry (at_server s1)) →
    observer (registry (at_server s1)) = server_observer → at_time s1 = at_time s →
    ∃ s', reg_register tt (mkRegisterRequest (Some (builder_service b)) (builder_registrations b)) s1 =
      (Ok mkRegisterResponse, s') ∧ at_time s' = at_time s ∧
      abs (registry (at_server s')) !! svc = Some (list_to_set (builder_intents b), at_time s)) as Hreg.
  { intros s1 Hwf1 Hobs1 Ht. destruct (builder_registers b s1 Hurl Hwf1 Hobs1 Hns) as [w' ->].
    eexists. split_and!; [done|done|]. cbn [at_server registry].
    rewrite abs_upserted by done. unfold spec_upsert. rewrite Ht. apply lookup_insert_eq. }
  unfold register_once.
  assert ((match client with
           | Some c => (Ok c, s)
           | None => let '(res, w) := reg_connect (url_to_string (intent_broker_url b)) s in
               (map_err_with res ("Could not connect to IntentBrokering ("
                  +:+ url_to_string (intent_broker_url b) +:+ ")"), w)
           end) = (Ok tt, s)) as -> by by destruct client as [[]|].
  rewrite builder_announce by done. fold svc.
  pose proof (touch_wf (registry (at_server s)) svc (at_time s) Hwf) as Hwf1.
  unfold touch in *. destruct (known_services _ !! svc) as [t|] eqn:Hk; cbn [map_err_with map_err].
  - destruct first; cbn [orb].
    + destruct (Hreg (mkServerAt (mkIntentBrokeringServer (broker (at_server s))
        (mkRegistry (external_services_by_intent (registry (at_server s)))
           (<[svc := at_time s]> (known_services (registry (at_server s))))
           (observer (registry (at_server s))) (config (registry (at_server s)))))
        (at_world s) (at_time s))) as (s' & -> & ? & ?); [done|done|done|]. by exists s'.
    + rewrite bool_decide_false by done. eexists. split_and!; [done|done|]. cbn [at_server registry].
      rewrite lookup_abs. simpl. rewrite lookup_insert_eq. simpl. f_equal. f_equal.
      rewrite <- (Hknown eq_refl (mk_is_Some _ _ eq_refl)). by apply intents_of_ext.
  - replace (first || bool_decide _) with true.
    2: { cbn [registration_state]. rewrite bool_decide_true by done. by destruct first. }
    destruct (Hreg (mkServerAt (mkIntentBrokeringServer (broker (at_server s)) (registry (at_server s)))
      (at_world s) (at_time s))) as (s' & -> & ? & ?); [done|done|done|]. by exists s'.
Qed.
End together.

(** ** Witnesses *)
Module RegistrationWitnesses.
#[local] Existing Instance canonical_order.
#[local] Existing Instance fragment_regex.
#[local] Instance chs : Channels unit (result Event Status) :=
  sample_channels unit (result Event Status).
#[local] Instance transport : Transport := {|
  net := unit;
  channel := unit;
  client_connect _ n := (Err (Error_new "unreachable"), n);
  client_fulfill _ _ n := (Err (Error_new "unreachable"), n)
|}.

(** URLs of the scheme [http], as what follows the scheme. *)
#[local] Instance http_url : UrlLib := {|
  Url := string;
  url_parse s :=
    match s with
    | String "h" (String "t" (String "t" (String "p" (String ":" (String "/" (String "/" u)))))) => Some u
    | _ => None
    end;
  url_to_string u := "http://" +:+ u
|}.

Lemma http_url_laws : UrlLaws.
Proof. intros u. reflexivity. Qed.

Definition provider : Builder :=
  mkBuilder "sdv.kvs" "1" ("kv" : @Url http_url) ("kv" : @Url http_url) "sdv.kvs" [Read; Write]
    ("broker" : @Url http_url) (duration_from_secs 5) Local.
Definition start : ServerAt :=
  mkServerAt (IntentBrokeringServer_new (Registry_new server_observer Config_default) the_broker)
    (IntentBroker_new ("broker" : @Url http_url) the_streaming_ess ([], tt)
       (StreamingEss_new (empty_store unit (result Event Status)))).2 7.

Lemma registration_round_witness :
  ∃ s', register_once provider None false start = (Ok tt, Some tt, s') ∧ at_time s' = 7%Z ∧
    abs (registry (at_server s')) !! builder_configuration provider =
      Some (list_to_set (builder_intents provider), 7%Z).
Proof.
  apply (registration_round provider None false start).
  - apply http_url_laws.
  - apply new_wf.
  - reflexivity.
  - reflexivity.
  - intros _ Hs. exfalso. revert Hs. apply (bool_decide_eq_false_1 (is_Some _)). vm_compute. reflexivity.
Defined.
End RegistrationWitnesses.
