(* ===== verification/Hosting.v ===== *)
(** * A provider behind the broker

    A provider process that the network makes reachable at its URL.  [HostLaws] is
    what a client relies on of tonic and of the network: connecting succeeds, a call
    runs the provider's handler once on its state and brings back its answer, and
    nothing else touches that state.  Under these laws the broker hands an intent to
    the provider that is registered for it and brings back the provider's answer. *)

From S2P Require Import Prelude RustStd Common Proto Query Registry.
From S2P Require Import RegistryFacts RegistrySpec Ess EssFacts StreamingEss.
From S2P Require Import Connection Execution Broker BrokerFacts.
From S2P Require Import BrokerConnections ExecutionFacts Server ServerFacts.
From S2P Require Import ServerTotality.

(** The answer of a handler and what reaches the caller: a status is an error. *)
Definition arrives (sent : result FulfillResponse Status) (got : result FulfillResponse Error) : Prop :=
  match sent, got with
  | Ok r, Ok r' => r' = r
  | Err _, Err _ => True
  | _, _ => False
  end.

(** A provider of state [P]: its URL, its handler, and its state in the network. *)
Class ProviderHost `{!UrlLib, !Transport} (P : Type) : Type := {
  host_url : Url;
  host_handler : ProviderFulfillRequest → P → outcome (result FulfillResponse Status * P);
  hosted : net → P
}.

Class HostLaws `{!UrlLib, !HashOrder, !Transport} `{!Channels unit (result Event Status)} (P : Type)
    `{!ProviderHost P} : Prop := {
  host_accepts n : ∃ c n', client_connect (url_to_string host_url) n = (Ok c, n');
  host_unmoved v n : hosted (client_connect v n).2 = hosted n;
  host_elsewhere c v req n :
    connected_to c v → v ≠ host_url → hosted (client_fulfill c req n).2 = hosted n;
  host_runs c req n res p :
    connected_to c host_url → host_handler req (hosted n) = Return (res, p) →
    hosted (client_fulfill c req n).2 = p ∧ arrives res (client_fulfill c req n).1
}.

Section hosting.
Context `{!UrlLib, !HashOrder, !RegexLib, !Transport} `{!Channels unit (result Event Status)}.
Context {P : Type} `{!ProviderHost P, !HostLaws P}.
#[local] Abbreviation MainServer := (IntentBrokeringServer (Composite IntentBroker StreamingRef)).
#[local] Abbreviation registered_for self ic :=
  (external_services_by_intent (registry self) !! ic).
Implicit Types (self : MainServer) (w : World).

(** The provider's state in the broker's world. *)
Definition provider_state w : P := hosted (network w).2.

(** ** Calls that reach the provider *)
Lemma execute_remote_hosted owners (p : ReusableProvider GrpcProvider) arg cells (n : net) res s :
  cells_ok owners cells → owners !! connected_inner p = Some host_url →
  grpc_url (inner p) = host_url →
  host_handler (mkProviderFulfillRequest (Some arg)) (hosted n) = Return (res, s) →
  let '(res', (_, n')) := execute_remote p arg (cells, n) in
  hosted n' = s ∧ match res with Ok r => res' = Ok r | Err _ => ∃ st, res' = Err st ∧ code st = Unknown end.
Proof.
  intros Hok Hown Hu Hrun. destruct p as [[u] i]. simpl in Hown, Hu. subst u.
  unfold execute_remote. simpl.
  assert (∀ c cells' (n' : net), connected_to c host_url → hosted n' = hosted n →
    let '(res', (_, n')) :=
      (let '(res, w) := reusable_connected c (mkProviderFulfillRequest (Some arg)) (cells', n') in
       (map_err (λ e, mkStatus Unknown
         ("Error when invoking provider: '" +:+ Error_display e +:+ "'.")) res, w)) in
    hosted n' = s ∧
    match res with Ok r => res' = Ok r | Err _ => ∃ st, res' = Err st ∧ code st = Unknown end) as Hgo.
  { intros c cells' n' Hc Hn. unfold reusable_connected, fulfill_provider, channel_connected, grpc_fulfill.
    rewrite <- Hn in Hrun. destruct (host_runs _ _ _ _ _ Hc Hrun) as [Hs Ha].
    destruct (client_fulfill c _ n') as [[resp|e] n'']; simpl in *; (split; [done|]);
      destruct res; simpl in Ha; [congruence|done|done|by eexists]. }
  destruct (cells !! i) as [[c|]|] eqn:Hi; simpl.
  - apply Hgo; [|done]. destruct Hok as [_ Hc]. destruct (Hc i c Hi) as (u' & Hu' & Hcon). congruence.
  - unfold grpc_connect. simpl. destruct (host_accepts n) as (c & n' & Hcon).
    pose proof (host_unmoved (url_to_string host_url) n) as Hn. rewrite Hcon in *. simpl in *.
    apply Hgo; [by exists n, n'|done].
  - apply lookup_ge_None in Hi. destruct Hok as [Hlen _]. apply lookup_lt_Some in Hown. lia.
Qed.

(** An intent that only the provider is registered for is answered by its handler. *)
Lemma fulfill_hosted initial self w request i e svc res s :
  server_ok initial self w → rf_intent request = Some i → intent_enum i = Some e →
  url svc = host_url →
  registered_for self (mkIntentConfiguration (rf_namespace request) (map_intent_variant e)) =
    Some {[svc]} →
  host_handler (mkProviderFulfillRequest (Some i)) (provider_state w) = Return (res, s) →
  ∃ res' w', fulfill self request w = Return (res', w') ∧ provider_state w' = s ∧
    match res with
    | Ok r => res' = Ok (mkFulfillResponse (fulfillment r))
    | Err _ => ∃ st, res' = Err st ∧ code st = Unknown
    end.
Proof.
  intros Hok Hi He Hu Hreg Hrun. destruct (srv_cells _ _ _ Hok) as (owners & Hc & Ho).
  pose proof (srv_synced _ _ _ Hok
    (mkIntentConfiguration (rf_namespace request) (map_intent_variant e))) as Hs.
  rewrite Hreg in Hs. destruct Hs as (b & Hb & Hfor).
  rewrite (fulfill_resolved _ _ _ _ _ _ Hi He Hb). pose proof (Ho _ _ Hb) as Hown.
  destruct Hfor as [l c b1 b2 Hl Hll Hcl Hcc _ _|sv b Hsv _ [cell ->]].
  { apply elem_of_singleton in Hl, Hcl. congruence. }
  apply elem_of_singleton in Hsv as ->. simpl in Hown. unfold provider_state in *.
  cbn [execute binding_into_runtime_binding fst snd]. destruct (network w) as [cells n].
  pose proof (execute_remote_hosted owners (mkReusableProvider (mkGrpcProvider (url svc)) cell) i
    cells n res s Hc ltac:(simpl; congruence) Hu Hrun) as Hex.
  destruct (execute_remote _ i (cells, n)) as [res' [cells' n']]. destruct Hex as [Hn Hres].
  cbn [mbind outcome_bind]. do 2 eexists. split; [done|]. split; [done|].
  destruct res; [by subst|]. destruct Hres as (st & -> & ?). by exists st.
Qed.

(** ** Calls that do not *)
Fixpoint binding_elsewhere (b : Binding) : Prop :=
  match b with
  | BRemote p => grpc_url (inner p) ≠ host_url
  | BFallback b1 b2 => binding_elsewhere b1 ∧ binding_elsewhere b2
  | _ => True
  end.

Lemma execute_remote_elsewhere owners (p : ReusableProvider GrpcProvider) arg cells (n : net) :
  cells_ok owners cells → owners !! connected_inner p = Some (grpc_url (inner p)) →
  grpc_url (inner p) ≠ host_url →
  hosted (execute_remote p arg (cells, n)).2.2 = hosted n.
Proof.
  intros Hok Hown Hne. destruct p as [[u] i]. unfold execute_remote. simpl in *.
  assert (∀ c cells' (n' : net), connected_to c u →
    hosted (let '(res, w) := reusable_connected c (mkProviderFulfillRequest (Some arg)) (cells', n') in
       (map_err (λ e, mkStatus Unknown
         ("Error when invoking provider: '" +:+ Error_display e +:+ "'.")) res, w)).2.2 = hosted n') as Hgo.
  { intros c cells' n' Hc. unfold reusable_connected, fulfill_provider, channel_connected, grpc_fulfill.
    pose proof (host_elsewhere c u (mkProviderFulfillRequest (Some arg)) n' Hc Hne) as Hh.
    by destruct (client_fulfill c _ n'). }
  destruct (cells !! i) as [[c|]|] eqn:Hi; simpl.
  - apply Hgo. destruct Hok as [_ Hc]. destruct (Hc i c Hi) as (u' & Hu' & Hcon). congruence.
  - unfold grpc_connect. simpl. pose proof (host_unmoved (url_to_string u) n) as Hn.
    destruct (client_connect _ n) as [[c|e] n'] eqn:Hcon; simpl in *; [|done].
    etrans; [apply Hgo; by exists n, n'|done].
  - apply lookup_ge_None in Hi. destruct Hok as [Hlen _]. apply lookup_lt_Some in Hown. lia.
Qed.

Lemma execute_elsewhere owners broker b arg cells (n : net) st res cells' (n' : net) st' :
  cells_ok owners cells → binding_owned owners b → binding_elsewhere b →
  execute (binding_into_runtime_binding broker b) arg ((cells, n), st) =
    Return (res, ((cells', n'), st')) →
  hosted n' = hosted n.
Proof.
  revert cells n st res cells' n' st'.
  induction b as [p|b1 IH1 b2 IH2| |u|r]; intros cells n st res cells' n' st' Hok Hown Hel;
    cbn [execute binding_into_runtime_binding].
  - pose proof (execute_remote_elsewhere owners p arg cells n Hok Hown Hel) as Hh. cbn [fst].
    destruct (execute_remote p arg (cells, n)) as [r [c1 n1]]. by intros [= _ <- <- _].
  - destruct Hown as [Ho1 Ho2], Hel as [He1 He2].
    destruct (execute _ arg (cells, n, st)) as [[r1 [[c1 n1] s1]]|] eqn:E1; [|done].
    pose proof (IH1 _ _ _ _ _ _ _ Hok Ho1 He1 E1) as Hn1. cbn [mbind outcome_bind].
    destruct r1; [by intros [= _ <- <- _]|]. intros E2. rewrite <- Hn1.
    destruct (execute_frame _ _ _ _ _ _ _ _ _ _ _ Hok Ho1 E1) as [Hok1 _].
    by eapply IH2.
  - destruct (intent_enum arg) as [[]|]; try done. destruct (regex_from_query _); [|done].
    by intros [= _ _ <- _].
  - by intros [= _ _ <- _].
  - destruct (intent_enum arg) as [[]|]; try done. destruct (serve_subscriptions _ _ _) as [[r1 s1]|]; [|done].
    by intros [= _ _ <- _].
Qed.

Lemma refresh_net changes bindings (cells : list (option channel)) (n : net) :
  (refresh changes bindings (cells, n)).2.2 = n.
Proof.
  unfold refresh. revert bindings cells. induction changes as [|c cs IH]; intros bindings cells; [done|].
  cbn [foldl]. destruct (refresh_step (bindings, (cells, n)) c) as [b1 [c1 n1]] eqn:E.
  assert (n1 = n) as ->; [|apply IH]. revert E. unfold refresh_step.
  destruct (match c with Add ic s => _ | Modify ic s => _ | Remove ic => _ end) as [ic sc].
  destruct (match sc with Some s => _ | None => _ end) as [[l|] [cl|]]; by intros [= _ _ <-].
Qed.

(** What goes on in the broker beside the calls that reach the provider: it handles
    any other call, prunes its registry and serves its own subscriptions. *)
Definition passes_by self (c : Call) : Prop :=
  match c with
  | CallFulfill request =>
      ∀ i e Svc s, rf_intent request = Some i → intent_enum i = Some e →
        registered_for self (mkIntentConfiguration (rf_namespace request) (map_intent_variant e)) =
          Some Svc → s ∈ Svc → url s ≠ host_url
  | _ => True
  end.

Lemma registry_step_state op self w reply r' w' :
  registry_wf (registry self) → observer (registry self) = server_observer →
  step op (registry self) w = Return (reply, r', w') → provider_state w' = provider_state w.
Proof.
  intros Hwf Hobs Hst. destruct (step_changes _ _ _ _ _ _ Hwf Hst) as (_ & changes & _ & Hn).
  rewrite Hobs in Hn. apply notify_bindings in Hn. apply (f_equal (λ x, x.2.2)) in Hn. simpl in Hn.
  unfold provider_state. rewrite Hn. destruct (network w) as [cells n]. by rewrite refresh_net.
Qed.

Lemma prune_state initial now out self w self' w' :
  server_ok initial self w → registry_do self (λ reg w, prune reg now w) w = Return (out, self', w') →
  provider_state w' = provider_state w.
Proof.
  intros Hok. unfold registry_do.
  destruct (prune (registry self) now w) as [[[[sp d] r] w1]|] eqn:E; [|done]. intros [= _ _ <-].
  apply (registry_step_state (OpPrune now) self w (Pruned sp d) r); [apply Hok|apply Hok|].
  simpl. by rewrite E.
Qed.

(** A call that is not [fulfill] does not use the network. *)
Lemma handle_quiet_state mv initial c self w answer self' w' :
  server_ok initial self w → (∀ request, c ≠ CallFulfill request) →
  handle mv c self w = Return (answer, self', w') → provider_state w' = provider_state w.
Proof.
  intros Hok Hc. destruct c as [req now|req now|req|id]; simpl; [| |by destruct (Hc req)|].
  - destruct (announce self req now) as [res s1]. by intros [= _ _ <-].
  - destruct (register self req now w) as [[[res s1] w1]|] eqn:E; [|done]. intros [= _ _ <-].
    apply register_step_registry in E as [[_ ->]|(s & ics & reply & r & Hst & _)]; [done|].
    eapply registry_step_state; [apply Hok|apply Hok|exact Hst].
  - destruct (open _ id (streaming w)) as [[res s]|]; [|done]. by intros [= _ _ <-].
Qed.

Lemma handle_state mv u c self w answer self' w' :
  server_ok (IntentBinder_new u the_streaming_ess) self w → passes_by self c →
  handle mv c self w = Return (answer, self', w') → provider_state w' = provider_state w.
Proof.
  intros Hok Hc. destruct c as [req now|req now|req|id]; [by apply (handle_quiet_state mv _ _ _ _ _ _ _ Hok)..| |].
  - simpl. destruct (fulfill self req w) as [[res w1]|] eqn:E; [|done]. intros [= _ _ <-]. revert E.
    unfold fulfill. destruct (rf_intent req) as [i|] eqn:Hi; simpl; [|by intros [= _ <-]].
    destruct (intent_enum i) as [e|] eqn:He; [|by intros [= _ <-]].
    destruct (resolve _ _ w) as [b|] eqn:Hr; simpl; [|by intros [= _ <-]].
    destruct (srv_cells _ _ _ Hok) as (owners & Hce & Ho). destruct (broker self).
    destruct (resolve_owned _ _ _ _ Ho Hr) as (b' & -> & Hb & Hown).
    unfold provider_state. destruct (network w) as [cells n].
    destruct (execute _ i _) as [[r [[cells' n'] s]]|] eqn:E; [|done]. intros [= _ <-]. simpl.
    eapply execute_elsewhere; [exact Hce|exact Hown| |exact E].
    pose proof (srv_synced _ _ _ Hok
      (mkIntentConfiguration (rf_namespace req) (map_intent_variant e))) as Hs.
    destruct (registered_for self _) as [Svc|] eqn:Hreg.
    + destruct Hs as (b & Hb' & Hfor). rewrite Hb in Hb'. injection Hb' as <-.
      pose proof (λ s, Hc i e Svc s Hi He Hreg) as Hne.
      destruct Hfor as [l cl b1 b2 Hl _ Hcl _ [? ->] [? ->]|sv b1 Hsv _ [? ->]]; simpl; auto.
    + rewrite Hb in Hs. symmetry in Hs. apply elem_of_list_to_map_2 in Hs.
      repeat (apply elem_of_cons in Hs as [[= _ _ ->]|Hs]; [done|]). set_solver.
  - by apply (handle_quiet_state mv _ _ _ _ _ _ _ Hok).
Qed.
End hosting.
