(* ===== verification/Linearizability.v ===== *)
(** * Requests to a provider linearize

    Several clients use a provider through the broker at the same time: their requests
    are in flight together, wait for the connection, are abandoned or answered, while
    the broker registers, prunes and serves.  The history is what the clients see: a
    call when a request is begun, a reply when its future was ready.  The history of
    every run is a linearization of the provider's handler. *)

From stdpp Require Import relations.
From S2P Require Import Prelude RustStd Common Proto Query Registry.
From S2P Require Import RegistryFacts RegistrySpec Ess EssFacts StreamingEss.
From S2P Require Import Connection Execution Broker BrokerFacts.
From S2P Require Import BrokerConnections ExecutionFacts Server ServerFacts.
From S2P Require Import ServerTotality AsyncExecution AsyncFacts AsyncInvariant Hosting.

(** ** Histories *)
Inductive HistoryEvent :=
  | Called (id : nat) (arg : IntentMessage)
  | Replied (id : nat) (res : result FulfillResponse Status).

(** An operation of the provider: the request, its intent and what the handler sent. *)
Record Operation := mkOperation {
  op_id : nat;
  op_arg : IntentMessage;
  op_sent : result FulfillResponse Status
}.

(** The first request got its reply before the second one was called. *)
Definition replied_before (i1 i2 : nat) (h : list HistoryEvent) : Prop :=
  ∃ h1 h2 res arg, h = h1 ++ h2 ∧ Replied i1 res ∈ h1 ∧ Called i2 arg ∈ h2.
Definition before (i1 i2 : nat) (ids : list nat) : Prop :=
  ∃ l1 l2, ids = l1 ++ l2 ∧ i1 ∈ l1 ∧ i2 ∈ l2.

(** The answer of the handler as the reply of the broker. *)
Definition relayed (sent reply : result FulfillResponse Status) : Prop :=
  match sent, reply with
  | Ok r, Ok r' => r' = r
  | Err _, Err st => code st = Unknown
  | _, _ => False
  end.

(** The operations run one after the other. *)
Inductive sequential {P} (handler : ProviderFulfillRequest → P → outcome (result FulfillResponse Status * P))
    (p : P) : list Operation → P → Prop :=
  | sequential_nil : sequential handler p [] p
  | sequential_snoc ops p1 o p2 :
      sequential handler p ops p1 →
      handler (mkProviderFulfillRequest (Some (op_arg o))) p1 = Return (op_sent o, p2) →
      sequential handler p (ops ++ [o]) p2.

(** A linearization of a history that takes the provider from [p] to [p']: every
    operation was called and is run once, every reply is that of its operation, and
    the order respects the order of replies and calls. *)
Record linearization {P} (handler : ProviderFulfillRequest → P → outcome (result FulfillResponse Status * P))
    (h : list HistoryEvent) (ops : list Operation) (p p' : P) : Prop := {
  lin_sequential : sequential handler p ops p';
  lin_once : NoDup (op_id <$> ops);
  lin_called o : o ∈ ops → Called (op_id o) (op_arg o) ∈ h;
  lin_replied id res : Replied id res ∈ h → ∃ o, o ∈ ops ∧ op_id o = id ∧ relayed (op_sent o) res;
  lin_order i1 i2 : replied_before i1 i2 h → i2 ∈ op_id <$> ops → before i1 i2 (op_id <$> ops)
}.

Lemma replied_before_snoc i1 i2 h e :
  replied_before i1 i2 (h ++ [e]) →
  replied_before i1 i2 h ∨ (∃ res, Replied i1 res ∈ h) ∧ ∃ arg, e = Called i2 arg.
Proof.
  intros (h1 & h2 & res & arg & Hh & Hr & Hc). destruct h2 as [|x h2 _] using rev_ind; [set_solver|].
  rewrite app_assoc in Hh. apply app_inj_tail in Hh as [-> ->].
  apply elem_of_app in Hc as [Hc|Hc%list_elem_of_singleton].
  - left. by exists h1, h2, res, arg.
  - right. split; [exists res; set_solver|by exists arg].
Qed.

Lemma before_snoc i1 i2 ids id : before i1 i2 ids → before i1 i2 (ids ++ [id]).
Proof.
  intros (l1 & l2 & -> & ? & ?). exists l1, (l2 ++ [id]). rewrite app_assoc. set_solver.
Qed.

Section history.
Context {P : Type}.
Implicit Types (handler : ProviderFulfillRequest → P → outcome (result FulfillResponse Status * P)).
Implicit Types (h : list HistoryEvent) (ops : list Operation).

Lemma linearization_nil handler p : linearization handler [] [] p p.
Proof. split; [constructor|constructor|set_solver..]. Qed.

Lemma linearization_call handler h ops p p' id arg :
  (∀ arg', Called id arg' ∉ h) → linearization handler h ops p p' →
  linearization handler (h ++ [Called id arg]) ops p p'.
Proof.
  intros Hnew [Hs Hn Hc Hr Ho]. split; [done|done|set_solver| |].
  - intros id' res [Hin|[=]%list_elem_of_singleton]%elem_of_app. by apply Hr.
  - intros i1 i2 [Hb|[_ [a [= <- _]]]]%replied_before_snoc Hi2; [by apply Ho|].
    apply list_elem_of_fmap in Hi2 as (o & -> & Hin). by apply Hc, Hnew in Hin.
Qed.

Lemma linearization_reply handler h ops p p' o res :
  o ∈ ops → relayed (op_sent o) res → linearization handler h ops p p' →
  linearization handler (h ++ [Replied (op_id o) res]) ops p p'.
Proof.
  intros Hin Hrel [Hs Hn Hc Hr Ho]. split; [done|done|set_solver| |].
  - intros id' res' [Hin'|[= -> ->]%list_elem_of_singleton]%elem_of_app; [by apply Hr|by exists o].
  - intros i1 i2 [Hb|[_ [a [=]]]]%replied_before_snoc. by apply Ho.
Qed.

Lemma linearization_run handler h ops p p1 o p2 :
  handler (mkProviderFulfillRequest (Some (op_arg o))) p1 = Return (op_sent o, p2) →
  op_id o ∉ op_id <$> ops → Called (op_id o) (op_arg o) ∈ h →
  linearization handler h ops p p1 → linearization handler h (ops ++ [o]) p p2.
Proof.
  intros Hrun Hid Hcall [Hs Hn Hc Hr Ho]. split.
  - by econstructor.
  - rewrite fmap_app. apply NoDup_app. split_and!; [done| |apply NoDup_singleton].
    by intros x Hx ->%list_elem_of_singleton.
  - intros o' [?| ->%list_elem_of_singleton]%elem_of_app; [by apply Hc|done].
  - intros id res Hin. destruct (Hr id res Hin) as (o' & ? & ? & ?). exists o'.
    split_and!; [|done|done]. apply elem_of_app. by left.
  - intros i1 i2 Hb. rewrite fmap_app. intros [Hi2|Hi2%list_elem_of_singleton]%elem_of_app.
    + by apply before_snoc, Ho.
    + destruct Hb as (h1 & h2 & res & arg & -> & Hr1 & _).
      destruct (Hr i1 res) as (o1 & ? & <- & _); [apply elem_of_app; by left|]. simpl in Hi2. subst i2.
      exists (op_id <$> ops), [op_id o]. split_and!; [done| |by apply list_elem_of_singleton].
      apply list_elem_of_fmap. by exists o1.
Qed.
End history.

(** ** The polls of a request *)
Section polls.
Context `{!UrlLib, !HashOrder, !RegexLib, !Transport} `{!Channels unit (result Event Status)}.
Context {P : Type} `{!ProviderHost P, !HostLaws P}.
#[local] Abbreviation MainServer := (IntentBrokeringServer (Composite IntentBroker StreamingRef)).
Implicit Types (owners : list Url) (cells : list (option channel)) (locks : gset nat).

(** The future of a request with one registered service, without a fallback. *)
Definition direct (f : Future) : Prop :=
  match f with
  | Execute (Remote _) | Locking _ | Connecting _ | Invoking _ | Ready _ => True
  | _ => False
  end.

(** A poll of a request to the provider runs its handler when the request is invoked,
    and does not touch the provider before. *)
Lemma poll_here owners svc arg f cells (n : net) s locks f' cells' (n' : net) s' locks' :
  cells_ok owners cells → url svc = host_url → direct f →
  future_from owners (from_services {[svc]}) arg f →
  poll arg f ((cells, n), s) locks = Some (Return (f', ((cells', n'), s'), locks')) →
  direct f' ∧
  ((∀ res, f' ≠ Ready res) ∧ hosted n' = hosted n ∨
   ∀ res p, host_handler (mkProviderFulfillRequest (Some arg)) (hosted n) = Return (res, p) →
     hosted n' = p ∧ ∃ reply, f' = Ready reply ∧ relayed res reply).
Proof.
  intros Hok Hu. destruct f as [[p| | | |]|p|p|c| |res]; try done; intros _ Hf; cbn [poll].
  - intros [= <- _ <- _ _]. split; [done|]. by left.
  - unfold poll_lock. case_decide; [done|].
    destruct (mjoin _); intros [= <- _ <- _ _]; (split; [done|]); by left.
  - destruct Hf as [_ (sv & ->%elem_of_singleton & Hsv)]. unfold poll_connect, grpc_connect. cbn [fst snd].
    rewrite <- Hsv, Hu. destruct (host_accepts n) as (c & n1 & Hc).
    pose proof (host_unmoved (url_to_string host_url) n) as Hn. rewrite Hc in *. simpl in *.
    intros [= <- _ <- _ _]. split; [done|]. by left.
  - destruct Hf as (u & (sv & ->%elem_of_singleton & <-) & Hcon). rewrite Hu in Hcon.
    unfold poll_invoke, grpc_fulfill. cbn [fst snd].
    destruct (client_fulfill c _ n) as [res n1] eqn:Hr. intros [= <- _ <- _ _]. split; [done|]. right.
    intros sent p Hrun. destruct (host_runs _ _ _ _ _ Hcon Hrun) as [Hp Ha]. rewrite Hr in *. simpl in *.
    split; [done|]. eexists. split; [done|]. by destruct sent, res.
Qed.

(** A poll of any other request does not touch the provider. *)
Lemma poll_elsewhere owners U arg f cells (n : net) s locks f' cells' (n' : net) s' locks' :
  cells_ok owners cells → (∀ u, U u → u ≠ host_url) → future_from owners U arg f →
  poll arg f ((cells, n), s) locks = Some (Return (f', ((cells', n'), s'), locks')) →
  hosted n' = hosted n.
Proof.
  intros Hok HU. revert f'. induction f as [b|p|p|c|f IH b|res]; intros f' Hf; cbn [poll]; [..|done].
  - destruct b as [p|b1 b2| | |]; simpl in Hf; try done; by intros [= _ _ <- _ _].
  - unfold poll_lock. case_decide; [done|]. destruct (mjoin _); by intros [= _ _ <- _ _].
  - unfold poll_connect, grpc_connect. cbn [fst snd].
    pose proof (host_unmoved (url_to_string (grpc_url (inner p))) n) as Hn.
    destruct (client_connect _ n) as [[c|e] n1]; simpl in *; by intros [= _ _ <- _ _].
  - destruct Hf as (u & Hu & Hcon). unfold poll_invoke, grpc_fulfill. cbn [fst snd].
    pose proof (host_elsewhere c u (mkProviderFulfillRequest (Some arg)) n Hcon (HU u Hu)) as Hn.
    destruct (client_fulfill c _ n) as [res n1]. simpl in *. by intros [= _ _ <- _ _].
  - destruct Hf as [Hf Hb].
    assert (∀ o', poll arg f ((cells, n), s) locks = Some o' →
      Some ('(f, st, locks) ← o'; Return (InFallback f b, st, locks)) =
        Some (Return (f', ((cells', n'), s'), locks')) → hosted n' = hosted n) as Hgo.
    { intros [[[f1 [[c1 n1] s1]] l1]|m] Ho'; [|done]. intros [= _ <- <- <- <-]. by eapply IH. }
    destruct f as [| | | | |[ok|e]].
    1-5: destruct (poll arg _ _ locks) as [o'|]; [by eapply Hgo|done].
    + by intros [= _ _ <- _ _].
    + by intros [= _ _ <- _ _].
Qed.

(** The same for what a dropped future leaves under way. *)
Lemma under_way_here owners svc arg f (n : net) :
  url svc = host_url → direct f → future_from owners (from_services {[svc]}) arg f →
  hosted (under_way arg f n) = hosted n ∨
  (∀ res, f ≠ Ready res) ∧
  ∀ res p, host_handler (mkProviderFulfillRequest (Some arg)) (hosted n) = Return (res, p) →
    hosted (under_way arg f n) = p.
Proof.
  intros Hu. destruct f as [[p| | | |]|p|p|c| |res]; try done; intros _ Hf; simpl; [by left..| | |by left].
  - left. unfold grpc_connect. pose proof (host_unmoved (url_to_string (grpc_url (inner p))) n).
    by destruct (client_connect _ n).
  - right. split; [done|]. intros res p Hrun.
    destruct Hf as (v & (sv & ->%elem_of_singleton & <-) & Hcon). rewrite Hu in Hcon.
    destruct (host_runs _ _ _ _ _ Hcon Hrun) as [Hp _]. unfold grpc_fulfill. by destruct (client_fulfill c _ n).
Qed.

Lemma under_way_elsewhere owners U arg f (n : net) :
  (∀ u, U u → u ≠ host_url) → future_from owners U arg f → hosted (under_way arg f n) = hosted n.
Proof.
  intros HU. induction f as [b|p|p|c|f IH b|res]; intros Hf; simpl; try done.
  - unfold grpc_connect. pose proof (host_unmoved (url_to_string (grpc_url (inner p))) n).
    by destruct (client_connect _ n).
  - destruct Hf as (u & Hu & Hcon). unfold grpc_fulfill.
    pose proof (host_elsewhere c u (mkProviderFulfillRequest (Some arg)) n Hcon (HU u Hu)).
    by destruct (client_fulfill c _ n).
  - by apply IH, Hf.
Qed.

(** Nor does anything that runs in one piece. *)
Lemma quiet_state mv checks u (self self' : MainServer) (w w' : World) :
  server_ok (IntentBinder_new u the_streaming_ess) self w →
  quiet_step mv checks (self, w) (self', w') → provider_state w' = provider_state w.
Proof.
  intros Hok Hq.
  inversion Hq as [c a ? ? ? ? Hnf Hh|now out ? ? ? ? Hp|t now sel seq log co seq' e log' ? ? Ht Hs];
    simplify_eq; [|by eapply prune_state|done].
  by eapply handle_quiet_state.
Qed.

(** A request for which one service is registered is begun without a fallback. *)
Lemma begin_direct u (self : MainServer) (w : World) request arg b svc :
  server_ok (IntentBinder_new u the_streaming_ess) self w →
  begin_fulfill self request w = Ok (arg, b) → registered_services self request = Some {[svc]} →
  direct (Execute b).
Proof.
  intros Hok (ic & Hic & Hr & _)%begin_fulfill_Ok. unfold registered_services. rewrite Hic. simpl.
  intros Hreg. pose proof (srv_synced _ _ _ Hok ic) as Hs. rewrite Hreg in Hs.
  destruct Hs as (b' & Hb & Hfor). destruct (broker self).
  unfold resolve, binder_resolve in Hr. rewrite Hb in Hr.
  destruct Hfor as [l c b1 b2 Hl Hll Hcl Hcc _ _|sv b1 _ _ [cell ->]].
  { apply elem_of_singleton in Hl, Hcl. congruence. }
  by injection Hr as <-.
Qed.
End polls.

(** ** Runs and what the clients see of them *)
Section runs.
Context `{!UrlLib, !HashOrder, !RegexLib, !Transport} `{!Channels unit (result Event Status)}.
Context {P : Type} `{!ProviderHost P, !HostLaws P}.
#[local] Abbreviation MainServer := (IntentBrokeringServer (Composite IntentBroker StreamingRef)).
Context (metadata_value : string → option string) (overflow_checks : bool).
Context (svc : ServiceConfiguration).
Implicit Types (st : AsyncServer) (h : list HistoryEvent).

(** Nothing at the provider's URL is registered for the request; so it is with the
    broker's own intents. *)
Definition elsewhere (services : option (gset ServiceConfiguration)) : Prop :=
  ∀ Svc s, services = Some Svc → s ∈ Svc → url s ≠ host_url.

(** The reply of a request to the provider that ends; a request that is abandoned
    before has none. *)
Definition reply_of (id : nat) (fl : Flight) : list HistoryEvent :=
  match fl_services fl, fl_future fl with
  | Some Svc, Ready res => if decide (Svc = {[svc]}) then [Replied id res] else []
  | _, _ => []
  end.

(** A run from [st0] with its history: the steps of the server, with requests for
    which the provider is registered alone or not at all.  A request is named once. *)
Inductive observed (st0 : AsyncServer) : list HistoryEvent → AsyncServer → Prop :=
  | observed_start : observed st0 [] st0
  | observed_quiet h self w self' w' locks flights :
      observed st0 h (mkAsyncServer self w locks flights) →
      quiet_step metadata_value overflow_checks (self, w) (self', w') →
      observed st0 h (mkAsyncServer self' w' locks flights)
  | observed_begin h id request arg b self w locks flights :
      observed st0 h (mkAsyncServer self w locks flights) →
      flights !! id = None → (∀ arg', Called id arg' ∉ h) →
      begin_fulfill self request w = Ok (arg, b) → registered_services self request = Some {[svc]} →
      observed st0 (h ++ [Called id arg])
        (mkAsyncServer self w locks (<[id := mkFlight arg (Execute b) (Some {[svc]})]> flights))
  | observed_other h id request arg b self w locks flights :
      observed st0 h (mkAsyncServer self w locks flights) → flights !! id = None →
      begin_fulfill self request w = Ok (arg, b) → elsewhere (registered_services self request) →
      observed st0 h (mkAsyncServer self w locks
        (<[id := mkFlight arg (Execute b) (registered_services self request)]> flights))
  | observed_poll h st st' : observed st0 h st → poll_step st st' → observed st0 h st'
  | observed_end h id fl n' st :
      observed st0 h st → as_flights st !! id = Some fl →
      may_leave (fl_arg fl) (fl_future fl) (network (as_world st)).2 n' →
      observed st0 (h ++ reply_of id fl) (ended id fl n' st).

Lemma observed_steps st0 h st :
  observed st0 h st → rtc (async_step metadata_value overflow_checks) st0 st.
Proof.
  induction 1 as [|h self w self' w' locks flights _ IH Hq|h id request arg b self w locks flights _ IH Hid _ Hb Hs
    |h id request arg b self w locks flights _ IH Hid Hb _|h st st' _ IH Hp|h id fl n' st _ IH Hid Hn];
    [done|..]; (eapply rtc_r; [exact IH|]); [| |by eapply async_begin| |].
  - by apply async_quiet.
  - rewrite <- Hs. by eapply async_begin.
  - by apply async_poll.
  - apply async_end. by econstructor.
Qed.

(** A handler that answers every request, on the states it reaches. *)
Context (invariant : P → Prop).
Context (handler_answers : ∀ request p, invariant p →
  ∃ res p', host_handler request p = Return (res, p') ∧ invariant p').

(** A request in flight was called, and it is an operation once it is ready. *)
Definition flight_lin h (ops : list Operation) (id : nat) (fl : Flight) : Prop :=
  elsewhere (fl_services fl) ∨
  fl_services fl = Some {[svc]} ∧ direct (fl_future fl) ∧ Called id (fl_arg fl) ∈ h ∧
  match fl_future fl with
  | Ready res => ∃ o, o ∈ ops ∧ op_id o = id ∧ relayed (op_sent o) res
  | _ => id ∉ op_id <$> ops
  end.

Record linearized p0 h ops st : Prop := {
  lz_ops : linearization host_handler h ops p0 (provider_state (as_world st));
  lz_inv : invariant (provider_state (as_world st));
  lz_flights : map_Forall (flight_lin h ops) (as_flights st)
}.

Lemma flight_lin_history h h' ops id fl :
  flight_lin h ops id fl → flight_lin (h ++ h') ops id fl.
Proof.
  intros [?|(? & ? & ? & ?)]; [by left|]. right. split_and!; [done|done| |done].
  apply elem_of_app. by left.
Qed.

Lemma flight_lin_op h ops o id fl :
  op_id o ≠ id → flight_lin h ops id fl → flight_lin h (ops ++ [o]) id fl.
Proof.
  intros Hne [?|(? & ? & ? & Hf)]; [by left|]. right. split_and!; [done..|].
  assert (id ∉ op_id <$> ops → id ∉ op_id <$> ops ++ [o]) as Hn.
  { intros Hn. rewrite fmap_app. by intros [?| ->%list_elem_of_singleton]%elem_of_app. }
  destruct (fl_future fl); [by apply Hn..|]. destruct Hf as (o' & ? & ? & ?). exists o'.
  split_and!; [|done|done]. apply elem_of_app. by left.
Qed.

(** The handler runs for a request that is not an operation yet. *)
Lemma handler_runs p0 h ops id arg (n n' : net) :
  id ∉ op_id <$> ops → Called id arg ∈ h → invariant (hosted n) →
  (∀ res p, host_handler (mkProviderFulfillRequest (Some arg)) (hosted n) = Return (res, p) →
     hosted n' = p) →
  linearization host_handler h ops p0 (hosted n) →
  ∃ res, host_handler (mkProviderFulfillRequest (Some arg)) (hosted n) = Return (res, hosted n') ∧
    linearization host_handler h (ops ++ [mkOperation id arg res]) p0 (hosted n') ∧ invariant (hosted n').
Proof.
  intros Hid Hcall Hi Hrun Hl.
  destruct (handler_answers (mkProviderFulfillRequest (Some arg)) (hosted n) Hi) as (res & p & Hh & Hi').
  rewrite (Hrun _ _ Hh). exists res. split_and!; [done| |done].
  by eapply (linearization_run _ _ _ _ _ (mkOperation id arg res)).
Qed.

Lemma linearized_poll u p0 h ops st st' :
  url svc = host_url → async_ok u st → linearized p0 h ops st → poll_step st st' →
  ∃ ops', linearized p0 h ops' st'.
Proof.
  intros Hu [_ (owners & Hc & _ & Hok) _] [Hl Hi Hfl] Hp.
  destruct Hp as [id fl f' [cells' n'] s' locks' st Hid Hpoll].
  pose proof (Hok id fl Hid) as Hf. unfold flight_ok in Hf. unfold provider_state in *.
  destruct st as [self w locks flights]. simpl in *. destruct (network w) as [cells n]. simpl in *.
  assert (∀ ops', (∀ id' fl', id' ≠ id → flight_lin h ops id' fl' → flight_lin h ops' id' fl') →
    flight_lin h ops' id (mkFlight (fl_arg fl) f' (fl_services fl)) →
    map_Forall (flight_lin h ops') (<[id := mkFlight (fl_arg fl) f' (fl_services fl)]> flights)) as Hmap.
  { intros ops' Hold Hnew id' fl' [[<- <-]|[Hne Hl']]%lookup_insert_Some; [done|].
    apply Hold; [done|]. by apply Hfl. }
  destruct (Hfl id fl Hid) as [He|(HS & Hd & Hcall & Hop)].
  - assert (hosted n' = hosted n) as Hn.
    { destruct (fl_services fl) as [Svc|].
      - eapply poll_elsewhere; [exact Hc| |exact Hf|exact Hpoll].
        intros v (s & Hs & <-). by eapply He.
      - destruct (poll_system _ _ _ _ _ _ _ _ _ Hf Hpoll) as (_ & _ & [= -> ->] & _). done. }
    exists ops. split; unfold provider_state; simpl; [by rewrite Hn|by rewrite Hn|].
    apply Hmap; [done|by left].
  - rewrite HS in Hf, Hmap |- *. assert (id ∉ op_id <$> ops) as Hid' by (by destruct (fl_future fl)).
    destruct (poll_here _ _ _ _ _ _ _ _ _ _ _ _ _ Hc Hu Hd Hf Hpoll) as [Hd' [[Hnr Hn]|Hrun]].
    + exists ops. split; unfold provider_state; simpl; [by rewrite Hn|by rewrite Hn|].
      apply Hmap; [done|]. right. split_and!; [done..|]. simpl. by destruct f'; [..|destruct (Hnr res)].
    + destruct (handler_runs p0 h ops id (fl_arg fl) n n') as (res & Hh & Hl' & Hi'); [done..| |done|].
      { intros res p Hh. by apply (Hrun res). }
      destruct (Hrun _ _ Hh) as (_ & reply & -> & Hrel).
      exists (ops ++ [mkOperation id (fl_arg fl) res]). split; [done|done|].
      apply Hmap; [intros id' fl' Hne; by apply flight_lin_op|].
      right. split_and!; [done..|]. simpl. exists (mkOperation id (fl_arg fl) res).
      split_and!; [|done|done]. apply elem_of_app. right. by apply list_elem_of_singleton.
Qed.

(** A request that ends leaves the provider as it is, or its handler has run. *)
Lemma linearized_leave u p0 h ops st id fl n' :
  url svc = host_url → async_ok u st → linearized p0 h ops st →
  as_flights st !! id = Some fl →
  may_leave (fl_arg fl) (fl_future fl) (network (as_world st)).2 n' →
  hosted n' = provider_state (as_world st) ∨
  (∀ res, fl_future fl ≠ Ready res) ∧
  ∃ o, op_id o = id ∧ linearization host_handler h (ops ++ [o]) p0 (hosted n') ∧ invariant (hosted n').
Proof.
  intros Hu [_ (owners & _ & _ & Hok) _] [Hl Hi Hfl] Hid [->| ->]; [by left|].
  pose proof (Hok id fl Hid) as Hf. unfold flight_ok in Hf. unfold provider_state in *.
  destruct (Hfl id fl Hid) as [He|(HS & Hd & Hcall & Hop)].
  - left. destruct (fl_services fl) as [Svc|].
    + eapply under_way_elsewhere; [|exact Hf]. intros v (s & Hs & <-). by eapply He.
    + by destruct (fl_future fl).
  - rewrite HS in Hf. destruct (under_way_here _ _ _ _ (network (as_world st)).2 Hu Hd Hf) as [?|[Hnr Hrun]];
      [by left|]. right. split; [done|].
    edestruct (handler_runs p0 h ops id (fl_arg fl) (network (as_world st)).2) as (res & _ & ? & ?);
      [|done|done|exact Hrun|done|].
    + destruct (fl_future fl) as [| | | | |res]; try done. by destruct (Hnr res).
    + by exists (mkOperation id (fl_arg fl) res).
Qed.

Lemma linearization_ended p0 h ops p id fl :
  url svc = host_url → flight_lin h ops id fl → linearization host_handler h ops p0 p →
  linearization host_handler (h ++ reply_of id fl) ops p0 p.
Proof.
  intros Hu Hfl Hl. destruct Hfl as [He|(HS & _ & _ & Hop)]; unfold reply_of.
  - destruct (fl_services fl) as [Svc|] eqn:HS; [|by rewrite app_nil_r].
    destruct (fl_future fl); rewrite ?app_nil_r; try done.
    case_decide as Heq; [|by rewrite app_nil_r]. subst Svc.
    destruct (He _ svc eq_refl); [by apply elem_of_singleton|done].
  - rewrite HS. destruct (fl_future fl) as [| | | | |res]; rewrite ?app_nil_r; try done.
    rewrite decide_True by done. destruct Hop as (o & Ho & <- & Hrel). by apply linearization_reply.
Qed.

Lemma linearized_end u p0 h ops st id fl n' :
  url svc = host_url → async_ok u st → linearized p0 h ops st →
  as_flights st !! id = Some fl →
  may_leave (fl_arg fl) (fl_future fl) (network (as_world st)).2 n' →
  ∃ ops', linearized p0 (h ++ reply_of id fl) ops' (ended id fl n' st).
Proof.
  intros Hu Hok Hlz Hid Hn. pose proof Hlz as [Hl Hi Hfl].
  assert (∀ ops', (∀ id' fl', id' ≠ id → flight_lin h ops id' fl' → flight_lin h ops' id' fl') →
    map_Forall (flight_lin (h ++ reply_of id fl) ops') (delete id (as_flights st))) as Hmap.
  { intros ops' Hold id' fl' [Hne Hl']%lookup_delete_Some.
    apply flight_lin_history, Hold; [done|]. by apply Hfl. }
  destruct (linearized_leave _ _ _ _ _ _ _ _ Hu Hok Hlz Hid Hn) as [Hs|(Hnr & o & Ho & Hl' & Hi')].
  - assert (provider_state (as_world (ended id fl n' st)) = provider_state (as_world st)) as Hs' by done.
    exists ops. split; rewrite ?Hs'; [|done|by apply Hmap].
    apply linearization_ended; [done|by apply Hfl|done].
  - exists (ops ++ [o]). split; [|done|].
    + unfold reply_of. destruct (fl_services fl), (fl_future fl); rewrite ?app_nil_r; try done.
      by destruct (Hnr res).
    + apply Hmap. intros id' fl' Hne. apply flight_lin_op. by rewrite Ho.
Qed.

Lemma linearized_begin p0 h ops id arg b self w locks flights :
  (∀ arg', Called id arg' ∉ h) → direct (Execute b) →
  linearized p0 h ops (mkAsyncServer self w locks flights) →
  linearized p0 (h ++ [Called id arg]) ops
    (mkAsyncServer self w locks (<[id := mkFlight arg (Execute b) (Some {[svc]})]> flights)).
Proof.
  intros Hnew Hd [Hl Hi Hfl]. simpl in *. split; simpl; [by apply linearization_call|done|].
  apply map_Forall_insert_2.
  - right. split_and!; [done|done|set_solver|]. simpl.
    intros (o & -> & Ho)%list_elem_of_fmap. by apply (lin_called _ _ _ _ _ Hl), Hnew in Ho.
  - eapply map_Forall_impl; [exact Hfl|]. intros id' fl'. apply flight_lin_history.
Qed.

(** Every run is linearized. *)
Lemma observed_linearized u st0 h st :
  async_reachable metadata_value overflow_checks u st0 →
  map_Forall (λ _ fl, elsewhere (fl_services fl)) (as_flights st0) →
  url svc = host_url → invariant (provider_state (as_world st0)) →
  observed st0 h st → ∃ ops, linearized (provider_state (as_world st0)) h ops st.
Proof.
  intros Hr Hel Hu Hi Hobs. set (p0 := provider_state (as_world st0)).
  assert (∀ h st, observed st0 h st → async_ok u st) as Hok.
  { intros h1 st1 Ho%observed_steps. clear -Hr Ho. apply async_reachable_ok in Hr.
    induction Ho; [done|]. by eapply IHHo, async_step_ok. }
  induction Hobs as [|h self w self' w' locks flights Ho IH Hq|h id request arg b self w locks flights Ho IH Hid Hnew Hb Hs
    |h id request arg b self w locks flights Ho IH Hid Hb Hs|h st st' Ho IH Hp|h id fl n' st Ho IH Hid Hn].
  - exists []. split; [apply linearization_nil|done|]. eapply map_Forall_impl; [exact Hel|]. by left.
  - destruct IH as (ops & [Hl Hi' Hfl]). pose proof (ok_server _ _ (Hok _ _ Ho)) as Hsrv.
    pose proof (quiet_state _ _ _ _ _ _ _ Hsrv Hq) as Hn. simpl in *.
    exists ops. split; simpl; by rewrite ?Hn.
  - destruct IH as (ops & Hl). exists ops. apply linearized_begin; [done| |done].
    by eapply (begin_direct u self w); [apply (Hok _ _ Ho)|..].
  - destruct IH as (ops & [Hl Hi' Hfl]). exists ops. split; simpl; [done|done|].
    apply map_Forall_insert_2; [by left|done].
  - destruct IH as (ops & Hl). eapply linearized_poll; [done|by apply (Hok _ _ Ho)|done|done].
  - destruct IH as (ops & Hl). eapply linearized_end; [done|by apply (Hok _ _ Ho)|done..].
Qed.
(** C8: Requests that are in flight at the same time linearize.  From any reachable
    state, however the polls of requests to the provider are interleaved with one
    another, with other requests, registrations, prunes, tasks and abandoned
    requests, there is a sequence of operations that takes the provider from its
    first state to its last one and explains what the clients saw: each operation is
    a request that was called, with its intent, and runs the handler exactly once;
    each reply is the answer the handler gave to that request; and a request that was
    called after another one got its reply comes after it.  A request that is
    abandoned has no reply; it is an operation if the handler ran for it. *)
Theorem requests_linearize u st0 h st :
  async_reachable metadata_value overflow_checks u st0 →
  map_Forall (λ _ fl, elsewhere (fl_services fl)) (as_flights st0) →
  url svc = host_url → invariant (provider_state (as_world st0)) →
  observed st0 h st →
  ∃ ops, linearization host_handler h ops
    (provider_state (as_world st0)) (provider_state (as_world st)).
Proof.
  intros Hr Hel Hu Hi Hobs. destruct (observed_linearized u st0 h st) as (ops & [Hl _ _]); [done..|].
  by exists ops.
Qed.
End runs.
