(* ===== verification/AtMostOnce.v ===== *)
(** * Requests over a network that loses messages

    [HostLaws] says that the provider is always reachable.  Here connecting may fail
    and a call may be lost on its way to the provider or back ([LossyHostLaws]), and a
    request may have several registered services, so that the broker falls back from
    one to the other.  What remains is that no request is executed twice and that no
    answer is made up. *)

From stdpp Require Import relations.
From S2P Require Import Prelude RustStd Common Proto Query Registry.
From S2P Require Import RegistryFacts RegistrySpec Ess EssFacts StreamingEss.
From S2P Require Import Connection Execution Broker BrokerFacts.
From S2P Require Import BrokerConnections ExecutionFacts Server ServerFacts.
From S2P Require Import ServerTotality AsyncExecution AsyncFacts AsyncInvariant Hosting.
From S2P Require Import Linearizability.

(** An answer is that of the handler, which ran once; after an error it ran once or
    not at all. *)
Class LossyHostLaws `{!UrlLib, !HashOrder, !Transport} `{!Channels unit (result Event Status)} (P : Type)
    `{!ProviderHost P} : Prop := {
  lossy_unmoved v n : hosted (client_connect v n).2 = hosted n;
  lossy_elsewhere c v req n :
    connected_to c v → v ≠ host_url → hosted (client_fulfill c req n).2 = hosted n;
  lossy_runs c req n res p :
    connected_to c host_url → host_handler req (hosted n) = Return (res, p) →
    match client_fulfill c req n with
    | (Ok r, n') => res = Ok r ∧ hosted n' = p
    | (Err _, n') => hosted n' = p ∨ hosted n' = hosted n
    end
}.

#[export] Instance reliable_is_lossy `{HostLaws P} : LossyHostLaws P.
Proof.
  split; [apply host_unmoved|apply host_elsewhere|].
  intros c req n res p Hc Hrun. destruct (host_runs _ _ _ _ _ Hc Hrun) as [Hp Ha].
  destruct (client_fulfill c req n) as [[r|e] n']; simpl in *; [|by left].
  destruct res; simpl in Ha; [by subst|done].
Qed.

(** The operations of the provider in a history: each is a request that was called and
    runs once, an answer is that of the request's operation or comes [from] another
    provider, and the order respects the order of replies and calls. *)
Record at_most_once {P} (handler : ProviderFulfillRequest → P → outcome (result FulfillResponse Status * P))
    (from : IntentMessage → FulfillResponse → Prop)
    (h : list HistoryEvent) (ops : list Operation) (p p' : P) : Prop := {
  amo_sequential : sequential handler p ops p';
  amo_once : NoDup (op_id <$> ops);
  amo_called o : o ∈ ops → Called (op_id o) (op_arg o) ∈ h;
  amo_answered id r : Replied id (Ok r) ∈ h →
    (∃ o, o ∈ ops ∧ op_id o = id ∧ op_sent o = Ok r) ∨ ∃ arg, Called id arg ∈ h ∧ from arg r;
  amo_order i1 i2 : replied_before i1 i2 h → i1 ∈ op_id <$> ops → i2 ∈ op_id <$> ops →
    before i1 i2 (op_id <$> ops)
}.

Section history.
Context {P : Type} (handler : ProviderFulfillRequest → P → outcome (result FulfillResponse Status * P)).
Context (from : IntentMessage → FulfillResponse → Prop).
#[local] Abbreviation amo := (at_most_once handler from).

Lemma amo_nil p : amo [] [] p p.
Proof. split; [constructor|constructor|set_solver..]. Qed.

Lemma amo_call h ops p p' id arg :
  (∀ arg', Called id arg' ∉ h) → amo h ops p p' → amo (h ++ [Called id arg]) ops p p'.
Proof.
  intros Hnew [Hs Hn Hc Hr Ho]. split; [done|done|set_solver| |].
  - intros id' r [Hin|[=]%list_elem_of_singleton]%elem_of_app.
    destruct (Hr id' r Hin) as [?|(a & ? & ?)]; [by left|]. right. exists a. split; [set_solver|done].
  - intros i1 i2 [Hb|[_ [a [= <- _]]]]%replied_before_snoc Hi1 Hi2; [by apply Ho|].
    apply list_elem_of_fmap in Hi2 as (o & -> & Hin). by apply Hc, Hnew in Hin.
Qed.

Lemma amo_reply h ops p p' id res :
  (∀ r, res = Ok r → (∃ o, o ∈ ops ∧ op_id o = id ∧ op_sent o = Ok r) ∨
                     ∃ arg, Called id arg ∈ h ∧ from arg r) →
  amo h ops p p' → amo (h ++ [Replied id res]) ops p p'.
Proof.
  intros Hres [Hs Hn Hc Hr Ho]. split; [done|done|set_solver| |].
  - intros id' r Hin.
    assert ((∃ o, o ∈ ops ∧ op_id o = id' ∧ op_sent o = Ok r) ∨ ∃ arg, Called id' arg ∈ h ∧ from arg r)
      as [?|(a & ? & ?)]; [|by left|right; exists a; split; [set_solver|done]].
    apply elem_of_app in Hin as [Hin|[= -> <-]%list_elem_of_singleton]; [by apply Hr|by apply Hres].
  - intros i1 i2 [Hb|[_ [a [=]]]]%replied_before_snoc. by apply Ho.
Qed.

Lemma amo_run h ops p p1 o p2 :
  handler (mkProviderFulfillRequest (Some (op_arg o))) p1 = Return (op_sent o, p2) →
  op_id o ∉ op_id <$> ops → Called (op_id o) (op_arg o) ∈ h → (∀ res, Replied (op_id o) res ∉ h) →
  amo h ops p p1 → amo h (ops ++ [o]) p p2.
Proof.
  intros Hrun Hid Hcall Hnr [Hs Hn Hc Hr Ho]. split.
  - by econstructor.
  - rewrite fmap_app. apply NoDup_app. split_and!; [done| |apply NoDup_singleton].
    by intros x Hx ->%list_elem_of_singleton.
  - intros o' [?| ->%list_elem_of_singleton]%elem_of_app; [by apply Hc|done].
  - intros id r Hin. destruct (Hr id r Hin) as [(o' & ? & ? & ?)|?]; [|by right]. left. exists o'.
    split_and!; [|done|done]. apply elem_of_app. by left.
  - intros i1 i2 Hb. rewrite fmap_app. intros Hi1 [Hi2|Hi2]%elem_of_app.
    + apply elem_of_app in Hi1 as [Hi1| ->%list_elem_of_singleton]; [by apply before_snoc, Ho|exfalso].
      destruct Hb as (h1 & h2 & res & arg & -> & Hr1 & _). apply (Hnr res), elem_of_app. by left.
    + apply list_elem_of_singleton in Hi2 as ->.
      apply elem_of_app in Hi1 as [Hi1| ->%list_elem_of_singleton].
      * exists (op_id <$> ops), [op_id o]. split_and!; [done|done|by apply list_elem_of_singleton].
      * exfalso. destruct Hb as (h1 & h2 & res & arg & -> & Hr1 & _). apply (Hnr res), elem_of_app. by left.
Qed.
End history.

(** ** How often a request can still reach the provider *)
Section polls.
Context `{!UrlLib, !HashOrder, !RegexLib, !Transport} `{!Channels unit (result Event Status)}.
Context {P : Type} `{!ProviderHost P, !LossyHostLaws P}.
#[local] Abbreviation Provider := (ReusableProvider GrpcProvider).
#[local] Abbreviation MainServer := (IntentBrokeringServer (Composite IntentBroker StreamingRef)).
Implicit Types (owners : list Url) (cells : list (option channel)) (locks : gset nat).
Implicit Types (E : FulfillResponse → Prop) (f : Future) (k : nat).

Definition provider_calls (p : Provider) (k : nat) : Prop := grpc_url (inner p) = host_url → 1 ≤ k.
Fixpoint binding_calls (b : RuntimeBinding Provider) (k : nat) : Prop :=
  match b with
  | Remote p => provider_calls p k
  | Fallback b1 b2 => ∃ k1 k2, k1 + k2 ≤ k ∧ binding_calls b1 k1 ∧ binding_calls b2 k2
  | _ => True
  end.

(** The future calls the provider at most [k] times, and a response it is ready with
    satisfies [E]. *)
Fixpoint future_calls E f k : Prop :=
  match f with
  | Execute b => binding_calls b k
  | Locking p | Connecting p => provider_calls p k
  | Invoking c => 1 ≤ k ∨ ∃ v, v ≠ host_url ∧ connected_to c v
  | InFallback f b => ∃ k1 k2, k1 + k2 ≤ k ∧ future_calls E f k1 ∧ binding_calls b k2
  | Ready (Ok r) => E r
  | Ready (Err _) => True
  end.

Lemma binding_calls_mono b k k' : k ≤ k' → binding_calls b k → binding_calls b k'.
Proof.
  destruct b; simpl; try done.
  - intros Hk Hp Hu. specialize (Hp Hu). lia.
  - intros Hk (k1 & k2 & ? & ? & ?). exists k1, k2. split_and!; [lia|done|done].
Qed.

Lemma future_calls_mono E E' f k : (∀ r, E r → E' r) → future_calls E f k → future_calls E' f k.
Proof.
  intros HE. revert k. induction f as [b|p|p|c|f IH b|[r|e]]; intros k; simpl; auto.
  intros (k1 & k2 & ? & ? & ?). exists k1, k2. auto.
Qed.

(** The handler ran once for the request, which gave [res]. *)
Definition ran (arg : IntentMessage) (n n' : net) (res : result FulfillResponse Status) : Prop :=
  host_handler (mkProviderFulfillRequest (Some arg)) (hosted n) = Return (res, hosted n').

(** What a call over a connection does to the provider. *)
Lemma invoke_calls u arg c k (n : net) :
  (∃ res p, host_handler (mkProviderFulfillRequest (Some arg)) (hosted n) = Return (res, p)) →
  connected_to c u → 1 ≤ k ∨ (∃ v, v ≠ host_url ∧ connected_to c v) →
  let '(got, n') := client_fulfill c (mkProviderFulfillRequest (Some arg)) n in
  (hosted n' = hosted n ∧ ∀ r, got = Ok r → ∃ v, v ≠ host_url ∧ answered_by v arg r) ∨
  1 ≤ k ∧ ∃ res, ran arg n n' res ∧ ∀ r, got = Ok r → res = Ok r.
Proof.
  intros (res & p & Hrun) Hu Hk.
  destruct (client_fulfill c _ n) as [got n'] eqn:Hr.
  assert (∀ v, v ≠ host_url → connected_to c v →
    hosted n' = hosted n ∧ ∀ r, got = Ok r → ∃ v, v ≠ host_url ∧ answered_by v arg r) as Hels.
  { intros v Hv Hc. pose proof (lossy_elsewhere c v (mkProviderFulfillRequest (Some arg)) n Hc Hv) as Hn.
    rewrite Hr in Hn. split; [done|]. intros r ->. exists v. split; [done|]. by exists c, n, n'. }
  destruct (decide (u = host_url)) as [->|Hne]; [|left; by eapply Hels].
  destruct Hk as [Hk|(v & Hv & Hc)]; [|left; by eapply Hels].
  pose proof (lossy_runs _ _ _ _ _ Hu Hrun) as Hl. rewrite Hr in Hl. unfold ran.
  destruct got as [r|e].
  - destruct Hl as [-> <-]. right. split; [done|]. exists (Ok r). by split; [|intros ? [= ->]].
  - destruct Hl as [<-|Hn]; [right; split; [done|]; by exists res|by left].
Qed.

(** A poll of a request leaves the provider as it is, or runs its handler and takes one
    of the calls that are left. *)
Lemma poll_calls owners U arg E f k cells (n : net) s locks f' cells' (n' : net) s' locks' :
  (∃ res p, host_handler (mkProviderFulfillRequest (Some arg)) (hosted n) = Return (res, p)) →
  (∀ v r, v ≠ host_url → answered_by v arg r → E r) →
  cells_ok owners cells → future_from owners U arg f → future_calls E f k →
  poll arg f ((cells, n), s) locks = Some (Return (f', ((cells', n'), s'), locks')) →
  hosted n' = hosted n ∧ future_calls E f' k ∨
  ∃ k' res, k = S k' ∧ ran arg n n' res ∧
    ∀ E', (∀ r, E r → E' r) → (∀ r, res = Ok r → E' r) → future_calls E' f' k'.
Proof.
  intros Hans HE Hok. revert f' k. induction f as [b|p|p|c|f IH b|res]; intros f' k Hf Hk; cbn [poll]; [..|done].
  - destruct b as [p|b1 b2| | |]; simpl in Hf; try done; intros [= <- _ <- _ _]; left; by split.
  - unfold poll_lock. case_decide; [done|]. destruct (mjoin _) as [c|] eqn:Hc; intros [= <- _ <- _ _];
      left; (split; [done|]); [|done]. simpl in Hk |- *. apply mjoin_Some in Hc. destruct Hok as [_ Hc'].
    destruct (Hc' _ _ Hc) as (u & Hu & Hcon). destruct Hf as [Ho _]. rewrite Hu in Ho. injection Ho as ->.
    destruct (decide (grpc_url (inner p) = host_url)) as [He|Hne]; [left; by apply Hk|right; eauto].
  - unfold poll_connect, grpc_connect. cbn [fst snd].
    pose proof (lossy_unmoved (url_to_string (grpc_url (inner p))) n) as Hn.
    destruct (client_connect _ n) as [[c|e] n1] eqn:Hcon; simpl in *; intros [= <- _ <- _ _];
      left; (split; [done|]); [|done].
    destruct (decide (grpc_url (inner p) = host_url)) as [He|Hne]; [left; by apply Hk|right].
    eexists. split; [exact Hne|]. by exists n, n1.
  - destruct Hf as (u & _ & Hcon). pose proof (invoke_calls u arg c k n Hans Hcon Hk) as Hi.
    unfold poll_invoke, grpc_fulfill. cbn [fst snd].
    destruct (client_fulfill c _ n) as [got n1]. intros [= <- _ <- _ _].
    destruct Hi as [[Hn Hr]|(Hk1 & res & Hrun & Hr)].
    + left. split; [done|]. destruct got as [r|e]; simpl; [|done]. destruct (Hr r eq_refl) as (v & ? & ?). eauto.
    + right. destruct k as [|k']; [lia|]. exists k', res. split_and!; [done|done|]. intros E' _ HE'.
      destruct got as [r|e]; simpl; [|done]. by apply HE', Hr.
  - destruct Hf as [Hf Hb]. destruct Hk as (k1 & k2 & Hle & Hk1 & Hk2).
    assert (∀ o', poll arg f ((cells, n), s) locks = Some o' →
      Some ('(f, st, locks) ← o'; Return (InFallback f b, st, locks)) =
        Some (Return (f', ((cells', n'), s'), locks')) →
      hosted n' = hosted n ∧ future_calls E f' k ∨
      ∃ k' res, k = S k' ∧ ran arg n n' res ∧
        ∀ E', (∀ r, E r → E' r) → (∀ r, res = Ok r → E' r) → future_calls E' f' k') as Hgo.
    { intros [[[f1 [[c1 n1] s1]] l1]|m] Ho'; [|done]. intros [= <- -> -> -> ->].
      destruct (IH f1 k1 Hf Hk1 Ho') as [[Hn Hc]|(k1' & res & -> & Hrun & Hc)].
      - left. split; [done|]. by exists k1, k2.
      - right. destruct k as [|k']; [lia|]. exists k', res. split_and!; [done|done|]. intros E' Hold Hnew.
        exists k1', k2. split_and!; [lia|by apply Hc|done]. }
    destruct f as [| | | | |[ok|e]].
    1-5: destruct (poll arg _ _ locks) as [o'|]; [by eapply Hgo|done].
    + intros [= <- _ <- _ _]. left. by split.
    + intros [= <- _ <- _ _]. left. split; [done|]. eapply binding_calls_mono; [|exact Hk2]. lia.
Qed.

(** The same for what a dropped future leaves under way. *)
Lemma under_way_calls owners U arg E f k (n : net) :
  (∃ res p, host_handler (mkProviderFulfillRequest (Some arg)) (hosted n) = Return (res, p)) →
  future_from owners U arg f → future_calls E f k →
  hosted (under_way arg f n) = hosted n ∨ 1 ≤ k ∧ ∃ res, ran arg n (under_way arg f n) res.
Proof.
  intros Hans. revert k. induction f as [b|p|p|c|f IH b|res]; intros k Hf Hk; simpl; try by left.
  - left. unfold grpc_connect. pose proof (lossy_unmoved (url_to_string (grpc_url (inner p))) n).
    by destruct (client_connect _ n).
  - destruct Hf as (u & _ & Hcon). pose proof (invoke_calls u arg c k n Hans Hcon Hk) as Hi.
    unfold grpc_fulfill. destruct (client_fulfill c _ n) as [got n1].
    destruct Hi as [[? _]|(? & res & ? & _)]; [by left|]. right. split; [done|]. by exists res.
  - destruct Hf as [Hf _]. destruct Hk as (k1 & k2 & Hle & Hk1 & _).
    destruct (IH k1 Hf Hk1) as [?|[? ?]]; [by left|]. right. split; [lia|done].
Qed.

(** One service at most among those registered is the provider. *)
Definition sole (Svc : gset ServiceConfiguration) : Prop :=
  ∀ s s', s ∈ Svc → s' ∈ Svc → url s = host_url → url s' = host_url → s = s'.

Lemma begin_calls u (self : MainServer) (w : World) request arg b Svc E :
  server_ok (IntentBinder_new u the_streaming_ess) self w →
  begin_fulfill self request w = Ok (arg, b) → registered_services self request = Some Svc → sole Svc →
  future_calls E (Execute b) 1.
Proof.
  intros Hok (ic & Hic & Hr & _)%begin_fulfill_Ok. unfold registered_services. rewrite Hic. simpl.
  intros Hreg Hsole. pose proof (srv_synced _ _ _ Hok ic) as Hs. rewrite Hreg in Hs.
  destruct Hs as (b' & Hb & Hfor). destruct (broker self).
  unfold resolve, binder_resolve in Hr. rewrite Hb in Hr.
  destruct Hfor as [l c b1 b2 Hl Hll Hcl Hcc [? ->] [? ->]|sv b1 _ _ [cell ->]];
    injection Hr as <-; simpl; [|by unfold provider_calls].
  unfold provider_calls. simpl. destruct (decide (url c = host_url)) as [Hc|Hc].
  - exists 1, 0. split_and!; [done|done|]. intros Hu. pose proof (Hsole l c Hl Hcl Hu Hc). congruence.
  - by exists 0, 1.
Qed.
End polls.

(** ** Runs *)
Section runs.
Context `{!UrlLib, !HashOrder, !RegexLib, !Transport} `{!Channels unit (result Event Status)}.
Context {P : Type} `{!ProviderHost P, !LossyHostLaws P}.
#[local] Abbreviation MainServer := (IntentBrokeringServer (Composite IntentBroker StreamingRef)).
Context (metadata_value : string → option string) (overflow_checks : bool).
Implicit Types (st : AsyncServer) (h : list HistoryEvent).

(** Every request with registered services has its reply in the history. *)
Definition reply_to (id : nat) (fl : Flight) : list HistoryEvent :=
  match fl_services fl, fl_future fl with
  | Some _, Ready res => [Replied id res]
  | _, _ => []
  end.

(** A run from [st0] with the history of all requests with registered services, the
    provider at most once among them; requests for the broker's own intents run, too. *)
Inductive witnessed (st0 : AsyncServer) : list HistoryEvent → AsyncServer → Prop :=
  | witnessed_start : witnessed st0 [] st0
  | witnessed_quiet h self w self' w' locks flights :
      witnessed st0 h (mkAsyncServer self w locks flights) →
      quiet_step metadata_value overflow_checks (self, w) (self', w') →
      witnessed st0 h (mkAsyncServer self' w' locks flights)
  | witnessed_begin h id request arg b Svc self w locks flights :
      witnessed st0 h (mkAsyncServer self w locks flights) →
      flights !! id = None → (∀ arg', Called id arg' ∉ h) →
      begin_fulfill self request w = Ok (arg, b) →
      registered_services self request = Some Svc → sole Svc →
      witnessed st0 (h ++ [Called id arg])
        (mkAsyncServer self w locks (<[id := mkFlight arg (Execute b) (Some Svc)]> flights))
  | witnessed_system h id request arg b self w locks flights :
      witnessed st0 h (mkAsyncServer self w locks flights) → flights !! id = None →
      begin_fulfill self request w = Ok (arg, b) → registered_services self request = None →
      witnessed st0 h (mkAsyncServer self w locks (<[id := mkFlight arg (Execute b) None]> flights))
  | witnessed_poll h st st' : witnessed st0 h st → poll_step st st' → witnessed st0 h st'
  | witnessed_end h id fl n' st :
      witnessed st0 h st → as_flights st !! id = Some fl →
      may_leave (fl_arg fl) (fl_future fl) (network (as_world st)).2 n' →
      witnessed st0 (h ++ reply_to id fl) (ended id fl n' st).

Lemma witnessed_steps st0 h st :
  witnessed st0 h st → rtc (async_step metadata_value overflow_checks) st0 st.
Proof.
  induction 1 as [|h self w self' w' locks flights _ IH Hq
    |h id request arg b Svc self w locks flights _ IH Hid _ Hb Hs _
    |h id request arg b self w locks flights _ IH Hid Hb Hs|h st st' _ IH Hp|h id fl n' st _ IH Hid Hn];
    [done|..]; (eapply rtc_r; [exact IH|]).
  - by apply async_quiet.
  - rewrite <- Hs. by eapply async_begin.
  - rewrite <- Hs. by eapply async_begin.
  - by apply async_poll.
  - apply async_end. by econstructor.
Qed.

(** An answer of another provider. *)
Definition from_elsewhere (arg : IntentMessage) (r : FulfillResponse) : Prop :=
  ∃ v, v ≠ host_url ∧ answered_by v arg r.
Definition explained (ops : list Operation) (id : nat) (arg : IntentMessage) (r : FulfillResponse) : Prop :=
  (∃ o, o ∈ ops ∧ op_id o = id ∧ op_sent o = Ok r) ∨ from_elsewhere arg r.

(** A request in flight was called and not replied to; it can still reach the provider
    unless it is an operation. *)
Definition flight_once h (ops : list Operation) (id : nat) (fl : Flight) : Prop :=
  ∀ Svc, fl_services fl = Some Svc →
    Called id (fl_arg fl) ∈ h ∧ (∀ res, Replied id res ∉ h) ∧
    ∃ k, k ≤ 1 ∧ (id ∈ op_id <$> ops → k = 0) ∧
      future_calls (explained ops id (fl_arg fl)) (fl_future fl) k.

Context (invariant : P → Prop).
Context (handler_answers : ∀ request p, invariant p →
  ∃ res p', host_handler request p = Return (res, p') ∧ invariant p').

Record once_only p0 h ops st : Prop := {
  oo_ops : at_most_once host_handler from_elsewhere h ops p0 (provider_state (as_world st));
  oo_inv : invariant (provider_state (as_world st));
  oo_flights : map_Forall (flight_once h ops) (as_flights st)
}.

Lemma explained_op ops o id arg r : explained ops id arg r → explained (ops ++ [o]) id arg r.
Proof. intros [(o' & ? & ? & ?)|?]; [left; exists o'; set_solver|by right]. Qed.

Lemma explained_elsewhere ops id arg v r : v ≠ host_url → answered_by v arg r → explained ops id arg r.
Proof. right. by exists v. Qed.

Lemma flight_once_op h ops o id fl :
  op_id o ≠ id → flight_once h ops id fl → flight_once h (ops ++ [o]) id fl.
Proof.
  intros Hne Hfl Svc HS. destruct (Hfl Svc HS) as (? & ? & k & ? & Hk & Hf). split_and!; [done|done|].
  exists k. split_and!; [done| |].
  - rewrite fmap_app. intros [?| ->%list_elem_of_singleton]%elem_of_app; [by apply Hk|done].
  - eapply future_calls_mono; [|exact Hf]. intros r. apply explained_op.
Qed.

Lemma flight_once_history h h' ops id fl :
  (∀ res, Replied id res ∉ h') → flight_once h ops id fl → flight_once (h ++ h') ops id fl.
Proof.
  intros Hnr Hfl Svc HS. destruct (Hfl Svc HS) as (? & Hr & ?). split_and!; [| |done].
  - apply elem_of_app. by left.
  - intros res [?|?]%elem_of_app; [by eapply Hr|by eapply Hnr].
Qed.

(** The handler runs for a request that is not an operation yet. *)
Lemma handler_runs_once p0 h ops id arg (n n' : net) res :
  id ∉ op_id <$> ops → Called id arg ∈ h → (∀ res, Replied id res ∉ h) → invariant (hosted n) →
  ran arg n n' res → at_most_once host_handler from_elsewhere h ops p0 (hosted n) →
  at_most_once host_handler from_elsewhere h (ops ++ [mkOperation id arg res]) p0 (hosted n') ∧
  invariant (hosted n').
Proof.
  intros Hid Hcall Hnr Hi Hrun Hl. unfold ran in Hrun.
  destruct (handler_answers (mkProviderFulfillRequest (Some arg)) (hosted n) Hi) as (res' & p & Hh & Hi').
  rewrite Hrun in Hh. injection Hh as <- <-. split; [|done].
  by eapply (amo_run _ _ _ _ _ _ (mkOperation id arg res)).
Qed.

Lemma answerable arg (n : net) :
  invariant (hosted n) →
  ∃ res p, host_handler (mkProviderFulfillRequest (Some arg)) (hosted n) = Return (res, p).
Proof. intros Hi. edestruct handler_answers as (res & p & ? & _); [exact Hi|]. eauto. Qed.

Lemma once_only_poll u p0 h ops st st' :
  async_ok u st → once_only p0 h ops st → poll_step st st' → ∃ ops', once_only p0 h ops' st'.
Proof.
  intros [_ (owners & Hc & _ & Hok) _] [Hl Hi Hfl] Hp.
  destruct Hp as [id fl f' [cells' n'] s' locks' st Hid Hpoll].
  pose proof (Hok id fl Hid) as Hf. unfold flight_ok in Hf. unfold provider_state in *.
  destruct st as [self w locks flights]. simpl in *. destruct (network w) as [cells n]. simpl in *.
  pose proof (Hfl id fl Hid) as Hlfl. unfold flight_once in Hlfl.
  assert (∀ ops', (∀ id' fl', id' ≠ id → flight_once h ops id' fl' → flight_once h ops' id' fl') →
    flight_once h ops' id (mkFlight (fl_arg fl) f' (fl_services fl)) →
    map_Forall (flight_once h ops') (<[id := mkFlight (fl_arg fl) f' (fl_services fl)]> flights)) as Hmap.
  { intros ops' Hold Hnew id' fl' [[<- <-]|[Hne Hl']]%lookup_insert_Some; [done|].
    apply Hold; [done|]. by apply Hfl. }
  destruct (fl_services fl) as [Svc|].
  - destruct (Hlfl Svc eq_refl) as (Hcall & Hnr & k & Hk & Hk0 & Hf').
    destruct (poll_calls _ _ _ _ _ _ _ _ _ _ _ _ _ _ _ (answerable _ _ Hi)
      (explained_elsewhere ops id _) Hc Hf Hf' Hpoll) as [[Hn Hf2]|(k' & res & -> & Hrun & Hf2)].
    + exists ops. split; unfold provider_state; simpl; rewrite ?Hn; [done|done|].
      apply Hmap; [done|]. intros Svc' _. split_and!; [done|done|]. by exists k.
    + assert (id ∉ op_id <$> ops) as Hid' by (intros ?%Hk0; lia).
      destruct (handler_runs_once p0 h ops id (fl_arg fl) n n' res) as [Hl' Hi']; [done..|].
      exists (ops ++ [mkOperation id (fl_arg fl) res]). split; [done|done|].
      apply Hmap; [intros id' fl' Hne; by apply flight_once_op|].
      intros Svc' _. split_and!; [done|done|]. exists 0. split_and!; [lia|done|]. simpl.
      assert (k' = 0) as -> by lia. apply Hf2; [intros r; apply explained_op|].
      intros r ->. left. exists (mkOperation id (fl_arg fl) (Ok r)). split_and!; [set_solver|done|done].
  - destruct (poll_system _ _ _ _ _ _ _ _ _ Hf Hpoll) as (_ & _ & [= -> ->] & _).
    exists ops. split; [done|done|]. by apply Hmap.
Qed.

(** A request that ends leaves the provider as it is, or its handler has run. *)
Lemma once_only_leave u p0 h ops st id fl n' :
  async_ok u st → once_only p0 h ops st → as_flights st !! id = Some fl →
  may_leave (fl_arg fl) (fl_future fl) (network (as_world st)).2 n' →
  hosted n' = provider_state (as_world st) ∨
  ∃ o, op_id o = id ∧ at_most_once host_handler from_elsewhere h (ops ++ [o]) p0 (hosted n') ∧
    invariant (hosted n').
Proof.
  intros [_ (owners & _ & _ & Hok) _] [Hl Hi Hfl] Hid [->| ->]; [by left|].
  pose proof (Hok id fl Hid) as Hf. unfold flight_ok in Hf. unfold provider_state in *.
  pose proof (Hfl id fl Hid) as Hlfl. unfold flight_once in Hlfl.
  destruct (fl_services fl) as [Svc|]; [|left; by destruct (fl_future fl)].
  destruct (Hlfl Svc eq_refl) as (Hcall & Hnr & k & Hk & Hk0 & Hf').
  destruct (under_way_calls _ _ _ _ _ _ (network (as_world st)).2 (answerable _ _ Hi) Hf Hf')
    as [?|(Hk1 & res & Hrun)]; [by left|]. right. exists (mkOperation id (fl_arg fl) res).
  split; [done|]. apply (handler_runs_once p0 h ops id (fl_arg fl) (network (as_world st)).2); [|done..].
  intros ?%Hk0. lia.
Qed.

Lemma once_only_reply p0 h ops ops' p id fl :
  flight_once h ops id fl → (∀ r, explained ops id (fl_arg fl) r → explained ops' id (fl_arg fl) r) →
  at_most_once host_handler from_elsewhere h ops' p0 p →
  at_most_once host_handler from_elsewhere (h ++ reply_to id fl) ops' p0 p.
Proof.
  intros Hfl Hops Hl. unfold reply_to, flight_once in *.
  destruct (fl_services fl) as [Svc|]; [|by rewrite app_nil_r].
  destruct (Hfl Svc eq_refl) as (Hcall & _ & k & _ & _ & Hf).
  destruct (fl_future fl) as [| | | | |res]; rewrite ?app_nil_r; try done. apply amo_reply; [|done].
  intros r ->. destruct (Hops r Hf) as [?|?]; [by left|right]. by exists (fl_arg fl).
Qed.

Lemma once_only_end u p0 h ops st id fl n' :
  async_ok u st → once_only p0 h ops st → as_flights st !! id = Some fl →
  may_leave (fl_arg fl) (fl_future fl) (network (as_world st)).2 n' →
  ∃ ops', once_only p0 (h ++ reply_to id fl) ops' (ended id fl n' st).
Proof.
  intros Hok Hoo Hid Hn. pose proof Hoo as [Hl Hi Hfl].
  assert (∀ ops', (∀ id' fl', id' ≠ id → flight_once h ops id' fl' → flight_once h ops' id' fl') →
    map_Forall (flight_once (h ++ reply_to id fl) ops') (delete id (as_flights st))) as Hmap.
  { intros ops' Hold id' fl' [Hne Hl']%lookup_delete_Some. apply flight_once_history.
    - intros res. unfold reply_to. destruct (fl_services fl), (fl_future fl); set_solver.
    - apply Hold; [done|]. by apply Hfl. }
  destruct (once_only_leave _ _ _ _ _ _ _ _ Hok Hoo Hid Hn) as [Hs|(o & Ho & Hl' & Hi')].
  - assert (provider_state (as_world (ended id fl n' st)) = provider_state (as_world st)) as Hs' by done.
    exists ops. split; rewrite ?Hs'; [|done|by apply Hmap]. by eapply once_only_reply; [apply Hfl|..].
  - exists (ops ++ [o]). split; [|done|].
    + eapply once_only_reply; [by apply Hfl| |done]. intros r. apply explained_op.
    + apply Hmap. intros id' fl' Hne. apply flight_once_op. by rewrite Ho.
Qed.

Lemma once_only_begin p0 h ops id arg b Svc self w locks flights :
  (∀ arg', Called id arg' ∉ h) → (∀ E, future_calls E (Execute b) 1) →
  once_only p0 h ops (mkAsyncServer self w locks flights) →
  (∀ res, Replied id res ∉ h) →
  once_only p0 (h ++ [Called id arg]) ops
    (mkAsyncServer self w locks (<[id := mkFlight arg (Execute b) (Some Svc)]> flights)).
Proof.
  intros Hnew Hb [Hl Hi Hfl] Hnr. simpl in *. split; simpl; [by apply amo_call|done|].
  apply map_Forall_insert_2.
  - intros Svc' _. simpl. split_and!; [set_solver|set_solver|]. exists 1. split_and!; [done| |apply (Hb (λ _, True))].
    intros (o & -> & Ho)%list_elem_of_fmap. by apply (amo_called _ _ _ _ _ _ Hl), Hnew in Ho.
  - eapply map_Forall_impl; [exact Hfl|]. intros id' fl'. apply flight_once_history. set_solver.
Qed.

(** A reply is preceded by its call. *)
Lemma replied_called st0 h st :
  as_flights st0 = ∅ → witnessed st0 h st →
  (∀ id res, Replied id res ∈ h → ∃ arg, Called id arg ∈ h) ∧
  map_Forall (λ id fl, ∀ Svc, fl_services fl = Some Svc → ∃ arg, Called id arg ∈ h) (as_flights st).
Proof.
  intros Hempty. induction 1 as [|h self w self' w' locks flights _ IH Hq
    |h id request arg b Svc self w locks flights _ IH Hid _ Hb Hs _
    |h id request arg b self w locks flights _ IH Hid Hb Hs|h st st' _ IH Hp|h id fl n' st _ IH Hid Hn].
  - rewrite Hempty. split; [set_solver|apply map_Forall_empty].
  - done.
  - destruct IH as [IHr IHf]. simpl in *. split.
    + intros id' res [[a ?]%IHr|[=]%list_elem_of_singleton]%elem_of_app. exists a. set_solver.
    + apply map_Forall_insert_2; [exists arg; set_solver|].
      eapply map_Forall_impl; [exact IHf|]. intros id' fl' Hc Svc' HS. destruct (Hc Svc' HS) as [a ?].
      exists a. set_solver.
  - destruct IH as [IHr IHf]. split; [done|]. by apply map_Forall_insert_2.
  - destruct IH as [IHr IHf]. split; [done|]. destruct Hp as [id fl f' n' s' locks' st Hid Hpoll]. simpl.
    apply map_Forall_insert_2; [|done]. simpl. by apply IHf.
  - destruct IH as [IHr IHf]. simpl. pose proof (IHf id fl Hid) as Hc. simpl in Hc. unfold reply_to.
    assert (∀ h', (∀ id' res, Replied id' res ∈ h' → ∃ arg, Called id' arg ∈ h) →
      (∀ id' res, Replied id' res ∈ h ++ h' → ∃ arg, Called id' arg ∈ h ++ h') ∧
      map_Forall (λ id fl, ∀ Svc, fl_services fl = Some Svc → ∃ arg, Called id arg ∈ h ++ h')
        (delete id (as_flights st))) as Hgo.
    { intros h' Hh'. split.
      - intros id' res [[a ?]%IHr|[a ?]%Hh']%elem_of_app; exists a; set_solver.
      - apply map_Forall_delete. eapply map_Forall_impl; [exact IHf|]. intros id' fl' Hc' Svc HS.
        destruct (Hc' Svc HS) as [a ?]. exists a. set_solver. }
    apply Hgo. destruct (fl_services fl) as [Svc|]; [|set_solver].
    destruct (fl_future fl); [set_solver..|].
    intros id' res' [= -> ->]%list_elem_of_singleton. by eapply Hc.
Qed.

(** C9: No request is executed twice, and no answer is made up, even if the network loses
    messages.  Connecting to the provider may fail, a call to it may be lost before or
    after the handler ran, and requests may have other services besides the provider,
    to which the broker falls back.  However the requests overlap with one another and
    with registrations, prunes, tasks and abandoned requests, the provider is in the
    state to which its handler is taken by a sequence of operations: each is a request
    that was called, and is executed once; a successful reply is the answer that the
    handler gave to that request, or one that another provider gave to it; and of two
    executed requests the one that was called after the other got its reply comes
    second. *)
Theorem provider_runs_at_most_once u st0 h st :
  async_reachable metadata_value overflow_checks u st0 →
  as_flights st0 = ∅ → invariant (provider_state (as_world st0)) →
  witnessed st0 h st →
  ∃ ops, at_most_once host_handler from_elsewhere h ops
    (provider_state (as_world st0)) (provider_state (as_world st)).
Proof.
  intros Hr Hempty Hi Hobs. set (p0 := provider_state (as_world st0)).
  assert (∀ h st, witnessed st0 h st → async_ok u st) as Hok.
  { intros h1 st1 Ho%witnessed_steps. clear -Hr Ho. apply async_reachable_ok in Hr.
    induction Ho; [done|]. by eapply IHHo, async_step_ok. }
  enough (∃ ops, once_only p0 h ops st) as (ops & [? _ _]) by by exists ops.
  induction Hobs as [|h self w self' w' locks flights Ho IH Hq
    |h id request arg b Svc self w locks flights Ho IH Hid Hnew Hb Hs Hsole
    |h id request arg b self w locks flights Ho IH Hid Hb Hs|h st st' Ho IH Hp|h id fl n' st Ho IH Hid Hn].
  - exists []. split; [apply amo_nil|done|]. rewrite Hempty. apply map_Forall_empty.
  - destruct IH as (ops & [Hl Hi' Hfl]). pose proof (ok_server _ _ (Hok _ _ Ho)) as Hsrv.
    pose proof (quiet_state _ _ _ _ _ _ _ Hsrv Hq) as Hn. simpl in *.
    exists ops. split; simpl; by rewrite ?Hn.
  - destruct IH as (ops & Hl). exists ops. apply once_only_begin; [done| |done|].
    + intros E. by eapply (begin_calls u self w); [apply (Hok _ _ Ho)|..].
    + intros res Hin. destruct (replied_called _ _ _ Hempty Ho) as [Hc _]. destruct (Hc _ _ Hin) as [a Ha].
      by eapply Hnew.
  - destruct IH as (ops & [Hl Hi' Hfl]). exists ops. split; simpl; [done|done|]. by apply map_Forall_insert_2.
  - destruct IH as (ops & Hl). eapply once_only_poll; [by apply (Hok _ _ Ho)|done|done].
  - destruct IH as (ops & Hl). eapply once_only_end; [by apply (Hok _ _ Ho)|done..].
Qed.
End runs.
