(* ===== verification/EndToEnd.v ===== *)
(** * From a client through the broker to the key-value application

    The client API of [ExampleApi], the server of [Server] and the key-value
    application of [ExampleKv] together: a client that reads and writes through the
    broker sees a map, whatever else the broker does meanwhile. *)

From S2P Require Import Prelude RustStd Common Proto Query Registry.
From S2P Require Import RegistryFacts RegistrySpec Ess EssFacts StreamingEss.
From S2P Require Import Connection Execution Broker BrokerFacts.
From S2P Require Import BrokerConnections Server ServerFacts Hosting.
From S2P Require Import KeyValue ExampleValue ExampleApi ExampleKv.

(** ** The client's calls and the map they mean *)
Inductive ClientCall := CRead (key : string) | CWrite (key : string) (v : Value).
Inductive ClientReply :=
  | RRead (res : result (option Value) Error)
  | RWrite (res : result unit Error).

Definition map_call (c : ClientCall) (m : gmap string ValueEnum)
    : ClientReply * gmap string ValueEnum :=
  match c with
  | CRead key => (RRead (Ok (mkValue <$> m !! key)), m)
  | CWrite key v => (RWrite (Ok tt), <[key := value_enum v]> m)
  end.

Fixpoint map_calls (calls : list ClientCall) (m : gmap string ValueEnum)
    : list ClientReply * gmap string ValueEnum :=
  match calls with
  | [] => ([], m)
  | c :: calls =>
      let '(reply, m) := map_call c m in
      let '(replies, m) := map_calls calls m in (reply :: replies, m)
  end.

Definition client_call {W} `{!Communication W} (ns : string) (c : ClientCall) (w : W)
    : ClientReply * W :=
  match c with
  | CRead key => let '(res, w) := api_read ns key w in (RRead res, w)
  | CWrite key v => let '(res, w) := api_write ns key v w in (RWrite res, w)
  end.

Definition call_kind (c : ClientCall) : IntentKind :=
  match c with CRead _ => Read | CWrite _ _ => Write end.

Section end_to_end.
Context `{!UrlLib, !HashOrder, !RegexLib, !Transport} `{!Channels unit (result Event Status)}.
Context `{!Channels (string * ValueEnum) (result Event Status)}.
#[local] Abbreviation MainServer := (IntentBrokeringServer (Composite IntentBroker StreamingRef)).
#[local] Abbreviation Store := (StreamingStore (T := ValueEnum)).
#[local] Abbreviation Running := (MainServer * World)%type.

(** A [tonic::Status] as the source of an error. *)
Context (status_error : Status → Error).

(** The generated client, calling the server.  A panic of a handler reaches the
    client as an error of its call. *)
#[export] Instance server_fulfill_client : BrokerFulfillClient Running := {|
  fulfill_client := unit;
  broker_connect _ st := (Ok tt, st);
  broker_fulfill _ request st :=
    match fulfill st.1 request st.2 with
    | Return (res, w) => (map_err status_error res, (st.1, w))
    | Panic msg => (Err (Error_new msg), st)
    end
|}.
#[export] Instance GrpcIntentBrokering_communication : Communication Running :=
  grpc_brokering_fulfill (tt : fulfill_client).

(** The application in the network. *)
Context (kv_url : Url) (kv_state : net → Store).
#[export] Instance kv_host : ProviderHost Store := {|
  host_url := kv_url;
  host_handler := kv_fulfill kv_url;
  hosted := kv_state
|}.
Context `{!HostLaws Store}.

Definition store_of (st : Running) : Store := provider_state st.2.
Definition contents (st : Running) : gmap string ValueEnum := kv_store (ss_store (store_of st)).

(** The application is the one service registered for an intent. *)
Definition serves_alone (svc : ServiceConfiguration) (ns : string) (k : IntentKind) (st : Running) : Prop :=
  external_services_by_intent (registry st.1) !! mkIntentConfiguration ns k = Some {[svc]}.

Lemma comm_hosted initial svc ns i (st : Running) res s :
  server_ok initial st.1 st.2 → url svc = kv_url → serves_alone svc ns (map_intent_variant i) st →
  kv_fulfill kv_url (mkProviderFulfillRequest (Some (mkIntentMessage (Some i)))) (store_of st) =
    Return (res, s) →
  ∃ res' st', comm_fulfill ns i st = (res', st') ∧ st'.1 = st.1 ∧
    server_ok initial st'.1 st'.2 ∧ store_of st' = s ∧
    match res with
    | Ok r => res' = Ok (mkFulfillResponse (fulfillment r))
    | Err _ => ∃ e, res' = Err e
    end.
Proof.
  intros Hok Hu Hreg Hrun. destruct st as [self w]. simpl in *.
  set (req := mkRuntimeFulfillRequest ns (Some (mkIntentMessage (Some i)))).
  destruct (fulfill_hosted (P := Store) (ProviderHost0 := kv_host) initial self w req (mkIntentMessage (Some i)) i svc res s
    Hok eq_refl eq_refl Hu Hreg Hrun) as (res' & w' & Hf & Hs & Hres).
  unfold comm_fulfill, GrpcIntentBrokering_communication, grpc_brokering_fulfill. simpl.
  fold req. rewrite Hf. do 2 eexists. split; [done|]. split_and!; [done|by eapply fulfill_ok|done|].
  destruct res; [by subst|]. destruct Hres as (st & -> & _). by eexists.
Qed.

(** ** One call *)
Lemma write_hosted initial svc ns key v (st : Running) :
  server_ok initial st.1 st.2 → url svc = kv_url → serves_alone svc ns Write st →
  store_wf (store_of st) →
  ∃ st', api_write ns key v st = (Ok tt, st') ∧ st'.1 = st.1 ∧ server_ok initial st'.1 st'.2 ∧
    store_of st' = mkStreamingStore
      (mkStreamingEss (publish key (key, value_enum v) (ess (ss_ess (store_of st)))).2
         (tasks (ss_ess (store_of st))))
      (mkInMemoryKeyValueStore (<[key := value_enum v]> (contents st)) (Some the_store_ess)).
Proof.
  intros Hok Hu Hreg Hwf.
  edestruct (comm_hosted initial svc ns (IWrite (mkWriteIntent key (Some (Value_into_message v)))) st)
    as (res' & st' & Hc & Hself & Hok' & Hs & Hres); [done|done|done| |].
  { unfold kv_fulfill, kv_write. simpl. rewrite ss_set_eq by done. simpl. reflexivity. }
  simpl in Hres. exists st'. split_and!; [|done|done|done].
  unfold api_write, request. by rewrite Hc, Hres.
Qed.

Lemma client_call_spec initial svc ns c (st : Running) :
  server_ok initial st.1 st.2 → url svc = kv_url → serves_alone svc ns (call_kind c) st →
  store_wf (store_of st) →
  ∃ st', client_call ns c st = ((map_call c (contents st)).1, st') ∧ st'.1 = st.1 ∧
    server_ok initial st'.1 st'.2 ∧ store_wf (store_of st') ∧
    contents st' = (map_call c (contents st)).2.
Proof.
  intros Hok Hu Hreg Hwf. destruct c as [key|key v].
  - edestruct (comm_hosted initial svc ns (IRead (mkReadIntent key)) st)
      as (res' & st' & Hc & Hself & Hok' & Hs & Hres); [done|done|done|done|].
    simpl in Hs, Hres. exists st'. unfold contents. rewrite Hs. split_and!; [|done|done|done|done].
    unfold client_call, api_read, request. rewrite Hc, Hres. simpl. unfold ss_get, kv_get.
    by destruct (_ !! key).
  - destruct (write_hosted initial svc ns key v st Hok Hu Hreg Hwf) as (st' & Hw & ? & ? & Hs).
    exists st'. unfold client_call. rewrite Hw. split_and!; [done..| |].
    + by rewrite Hs.
    + unfold contents at 1. by rewrite Hs.
Qed.

(** ** Runs

    The client's calls, with their replies, while the broker handles calls that do
    not reach the application, prunes its registry and serves its own
    subscriptions.  The application has to be registered alone when it is called. *)
Section runs.
Context (metadata_value : string → option string) (overflow_checks : bool).
Context (svc : ServiceConfiguration) (ns : string).

Inductive broker_run : Running → list (ClientCall * ClientReply) → Running → Prop :=
  | run_done st : broker_run st [] st
  | run_client c st reply st1 history st' :
      serves_alone svc ns (call_kind c) st → client_call ns c st = (reply, st1) →
      broker_run st1 history st' → broker_run st ((c, reply) :: history) st'
  | run_call c answer self w self' w' history st' :
      passes_by self c → handle metadata_value c self w = Return (answer, self', w') →
      broker_run (self', w') history st' → broker_run (self, w) history st'
  | run_prune now out self w self' w' history st' :
      registry_do self (λ reg w, prune reg now w) w = Return (out, self', w') →
      broker_run (self', w') history st' → broker_run (self, w) history st'
  | run_serve t now selected seq log continue seq' e log' self w history st' :
      t ∈ tasks (streaming w) →
      serve_iteration overflow_checks (task_subscription t) (into_event now t) log_handlers
        selected seq (ess (streaming w)) log = Return (continue, seq', e, log') →
      broker_run (self, mkWorld (bindings_by_intent w) (network w)
        (mkStreamingEss (if continue : bool then e else drop_subscription (task_subscription t) e)
           (tasks (streaming w)))) history st' →
      broker_run (self, w) history st'.

Lemma broker_run_map u st history st' :
  server_ok (IntentBinder_new u the_streaming_ess) st.1 st.2 → url svc = kv_url →
  store_wf (store_of st) → broker_run st history st' →
  map_calls history.*1 (contents st) = (history.*2, contents st').
Proof.
  pose proof (IntentBinder_new_system u the_streaming_ess) as Hinit.
  intros Hok Hu Hwf Hrun. revert Hok Hwf.
  induction Hrun as [st|c st reply st1 history st' Hreg Hcall _ IH|c answer self w self' w' history st' Hp Hh _ IH
    |now out self w self' w' history st' Hpr _ IH|t now sel seq log ct seq' e log' self w history st' Ht Hit _ IH];
    intros Hok Hwf.
  - done.
  - destruct (client_call_spec _ svc ns c st Hok Hu Hreg Hwf) as (st2 & Hc & _ & Hok2 & Hwf2 & Hm).
    rewrite Hcall in Hc. injection Hc as -> ->. cbn [map_calls fmap list_fmap fst snd].
    specialize (IH Hok2 Hwf2). rewrite Hm in IH. simpl.
    destruct (map_call c (contents st)) as [reply m]. simpl in *. by rewrite IH.
  - pose proof (handle_state _ u _ _ _ _ _ _ Hok Hp Hh) as Hs.
    change (store_of (self', w') = store_of (self, w)) in Hs.
    unfold contents in *. rewrite Hs in IH. apply IH; [by eapply handle_ok|done].
  - pose proof (prune_state _ _ _ _ _ _ _ Hok Hpr) as Hs.
    change (store_of (self', w') = store_of (self, w)) in Hs.
    unfold contents in *. rewrite Hs in IH. apply IH; [by eapply prune_ok|done].
  - apply IH; [|done]. destruct Hok as [? ? ? ? Hess]. split; simpl; [done..|].
    apply task_ok in Hit. simpl in Hess. by destruct ct; simpl; rewrite Hit.
Qed.

(** C34: Through the broker the key-value application is a map.  From any state the
    broker reaches, while the application is registered alone for the intents it
    serves, every read and write of the client gets exactly the reply of the map
    that the application's contents are, and leaves the map's contents, however the
    calls are interleaved with other calls, registrations, prunes and tasks. *)
Theorem reads_and_writes_are_a_map u st history st' :
  reachable metadata_value overflow_checks u st → url svc = kv_url → store_wf (store_of st) →
  broker_run st history st' →
  map_calls history.*1 (contents st) = (history.*2, contents st').
Proof.
  destruct st as [self w]. intros Hok%reachable_ok Hu Hwf Hrun. by eapply broker_run_map.
Qed.
End runs.
End end_to_end.
