(* ===== verification/EndToEndStreaming.v ===== *)
(** * Listening through the broker

    A client that listens to keys of the key-value application: [listen] of
    [ExampleApi] discovers the application through the broker, opens a channel at the
    application and subscribes through the broker; each later write of a key is one
    event for the task that serves it, and shows up at the client as that write. *)

From S2P Require Import Prelude RustStd Common Proto Query Registry.
From S2P Require Import RegistryFacts RegistrySpec Ess EssFacts EssRuntime.
From S2P Require Import StreamingEss StreamingRuntime Connection.
From S2P Require Import StreamingTheorems Execution Broker BrokerFacts.
From S2P Require Import BrokerConnections Server ServerFacts Hosting.
From S2P Require Import KeyValue ExampleValue ExampleApi ExampleKv EndToEnd.

Section listening.
Context `{!UrlLib, !HashOrder, !RegexLib, !Transport} `{!Channels unit (result Event Status)}.
Context `{RuntimeView (string * ValueEnum) (result Event Status)}.
Context `{!RuntimeLaws (string * ValueEnum) (result Event Status)}.
Context `{!Unread (string * ValueEnum) (result Event Status)}.
Context `{!DeliveryLaws (string * ValueEnum) (result Event Status)}.
#[local] Abbreviation MainServer := (IntentBrokeringServer (Composite IntentBroker StreamingRef)).
#[local] Abbreviation Store := (StreamingStore (T := ValueEnum)).
#[local] Abbreviation Running := (MainServer * World)%type.
Context (status_error : Status → Error) (kv_url : Url) (kv_state : net → Store).
#[local] Instance client : BrokerFulfillClient Running := server_fulfill_client status_error.
#[local] Instance communication : Communication Running :=
  GrpcIntentBrokering_communication status_error.
#[local] Instance host : ProviderHost Store := kv_host kv_url kv_state.
Context `{!HostLaws Store}.
#[local] Abbreviation store_of := (store_of kv_url kv_state).
#[local] Abbreviation contents := (contents kv_url kv_state).

(** ** The streaming endpoint of the application

    [metadata_value] is the conversion of a string to a metadata value at the
    application, [channel_of] the queue behind a stream at the client. *)
Context `{!StreamClient (W := Running)}.
Context (metadata_value : string → option string).
Context (channel_of : event_stream → @mreceiver (string * ValueEnum) (result Event Status) _).

(** The broker's part of the state is the same. *)
Definition same_broker (st st' : Running) : Prop :=
  st'.1 = st.1 ∧ bindings_by_intent st'.2 = bindings_by_intent st.2 ∧
  (network st'.2).1 = (network st.2).1 ∧ streaming st'.2 = streaming st.2.

Definition stream_connected_to (c : stream_client) : Prop :=
  ∃ st st', stream_connect (url_to_string kv_url) st = (Ok c, st').

(** What is relied on of tonic: connecting succeeds, and opening runs the handler
    [open] of the application with a new id and brings back its answer. *)
Class StreamHostLaws : Prop := {
  stream_accepts st :
    ∃ c st', stream_connect (url_to_string kv_url) st = (Ok c, st') ∧
      same_broker st st' ∧ store_of st' = store_of st;
  stream_opens c st :
    stream_connected_to c →
    ∃ id v, client_by_id (ess (ss_ess (store_of st))) !! id = None ∧
      metadata_value id = Some v ∧ header_to_str v = Some id ∧
      ∀ resp e', open metadata_value id (ss_ess (store_of st)) = Return (Ok resp, e') →
        ∃ stream st', stream_open c st = (Ok (open_metadata resp, stream), st') ∧
          channel_of stream = open_stream resp ∧ same_broker st st' ∧
          store_of st' = mkStreamingStore e' (ss_store (store_of st))
}.
Context `{!StreamHostLaws}.

Lemma same_broker_ok initial st st' :
  same_broker st st' → server_ok initial st.1 st.2 → server_ok initial st'.1 st'.2.
Proof.
  intros (Hs & Hb & Hn & Hst) [? ? ? (owners & ? & ?) ?].
  split; rewrite ?Hs, ?Hb, ?Hn, ?Hst; try done. by exists owners.
Qed.

Lemma same_broker_alone svc ns k st st' :
  st'.1 = st.1 → serves_alone svc ns k st → serves_alone svc ns k st'.
Proof. unfold serves_alone. by intros ->. Qed.

(** ** The steps of [listen] *)
Lemma discover_hosted initial svc ns (st : Running) :
  server_ok initial st.1 st.2 → url svc = kv_url → serves_alone svc ns Discover st →
  ∃ st', api_discover ns st =
      (Ok [mkService (url_to_string kv_url) "grpc+proto" "intent_brokering.streaming.v1"], st') ∧
    st'.1 = st.1 ∧ server_ok initial st'.1 st'.2 ∧ store_of st' = store_of st.
Proof.
  intros Hok Hu Hreg.
  edestruct (comm_hosted status_error kv_url kv_state initial svc ns (IDiscover mkDiscoverIntent) st)
    as (res' & st' & Hc & Hself & Hok' & Hs & Hres); [done|done|done|done|].
  change (GrpcIntentBrokering_communication status_error) with communication in Hc.
  simpl in Hres. exists st'. split_and!; [|done|done|done].
  unfold api_discover, request. by rewrite Hc, Hres.
Qed.

Lemma subscribe_hosted initial svc ns cid srcs (st : Running) e' :
  server_ok initial st.1 st.2 → url svc = kv_url → serves_alone svc ns Subscribe st →
  serve_subscriptions (mkSubscribeIntent cid srcs) (λ kv, id kv.2) (ss_ess (store_of st)) =
    Return (Ok mkSubscribeFulfillment, e') →
  ∃ st', api_subscribe ns cid srcs st = (Ok tt, st') ∧ st'.1 = st.1 ∧
    server_ok initial st'.1 st'.2 ∧ store_of st' = mkStreamingStore e' (ss_store (store_of st)).
Proof.
  intros Hok Hu Hreg Hserve.
  edestruct (comm_hosted status_error kv_url kv_state initial svc ns
    (ISubscribe (mkSubscribeIntent cid srcs)) st)
    as (res' & st' & Hc & Hself & Hok' & Hs & Hres); [done|done|done| |].
  { unfold kv_fulfill, ss_subscribe. simpl in *.
    rewrite Hserve. simpl. reflexivity. }
  change (GrpcIntentBrokering_communication status_error) with communication in Hc.
  simpl in Hres. exists st'. split_and!; [|done|done|done].
  unfold api_subscribe, request. by rewrite Hc, Hres.
Qed.

(** [listen] for a store whose tasks [live] are running. *)
Lemma listen_hosted initial svc ns srcs (st : Running) live :
  ChannelLaws (string * ValueEnum) (result Event Status) →
  0 < client_buffer_size (ess_config (ess (ss_ess (store_of st)))) →
  0 < publish_buffer_size (ess_config (ess (ss_ess (store_of st)))) →
  server_ok initial st.1 st.2 → url svc = kv_url →
  serves_alone svc ns Discover st → serves_alone svc ns Subscribe st →
  streaming_wf (ss_ess (store_of st)) live →
  ∃ stream st' new tx ch ch', listen ns srcs st = (Ok stream, st') ∧ st'.1 = st.1 ∧
    server_ok initial st'.1 st'.2 ∧ ss_store (store_of st') = ss_store (store_of st) ∧
    tasks (ss_ess (store_of st')) = tasks (ss_ess (store_of st)) ++ new ∧
    streaming_wf (ss_ess (store_of st')) (live ++ (task_subscription <$> new)) ∧
    mpsc_channel (client_buffer_size (ess_config (ess (ss_ess (store_of st))))) ch =
      Return (tx, channel_of stream, ch') ∧
    task_source <$> new = fresh_ids ∅ srcs ∧
    Forall (λ t, task_into_value t = snd ∧ event_id (sub_id (task_subscription t)) = task_source t ∧
                 sub_sender (task_subscription t) = tx) new.
Proof.
  intros Hlaws Hcb Hpb Hok Hu Hd Hsub Hwf. unfold listen.
  destruct (discover_hosted initial svc ns st Hok Hu Hd) as (st1 & -> & Hst1 & Hok1 & Hs1). simpl.
  destruct (stream_accepts st1) as (c & st2 & Hconn & Hb2 & Hs2). rewrite Hconn. simpl.
  destruct (stream_opens c st2) as (cid & v & Hfresh & Hmv & Hhdr & Hopen); [by exists st1, st2|].
  assert (store_of st2 = store_of st) as Hs by congruence. rewrite Hs in *.
  destruct (open_eq metadata_value cid v (ss_ess (store_of st)) Hlaws Hcb Hmv)
    as (rx & tx & s1 & Ho & [ch Hch] & Htasks & Hcfg & Hcl).
  destruct (Hopen _ _ Ho) as (stream & st3 & Hso & Hrx & Hb3 & Hs3). rewrite Hso. simpl.
  rewrite Hhdr. simpl.
  destruct (serve_subscriptions_reading (mkSubscribeIntent cid srcs) (λ kv, id kv.2) s1 (mkClient tx ∅) Hlaws)
    as (s2 & new & Hserve & Hnew & Hsrc & Hall & _); [by rewrite Hcfg|by rewrite Hcl; apply lookup_insert_eq|].
  assert (st3.1 = st.1) as Hself by (destruct Hb2 as [? _], Hb3 as [? _]; congruence).
  destruct (subscribe_hosted initial svc ns cid srcs st3 s2) as (st4 & -> & Hst4 & Hok4 & Hs4).
  { by do 2 (eapply same_broker_ok; [eassumption|]). }
  { done. }
  { by eapply same_broker_alone. }
  { rewrite Hs3. exact Hserve. }
  exists stream, st4, new, tx, (channels (ess (ss_ess (store_of st)))), ch. rewrite Hs4, Hs3. simpl.
  split_and!; [done|congruence|done|done|congruence| |by rewrite Hrx| |].
  - destruct (serves_on_trans _ _ _ (open_serves _ _ _ _ _ Ho) (serve_subscriptions_serves _ _ _ _ _ Hserve))
      as (new' & Hn' & Hw'). assert (new' = new) as ->; [|by apply Hw'].
    apply (app_inv_head (tasks (ss_ess (store_of st)))). congruence.
  - simpl in Hsrc. by rewrite Hsrc, dom_empty_L.
  - eapply Forall_impl; [exact Hall|]. intros t (Hf & Hid & Htx). by rewrite Hid.
Qed.

(** C38: A client that listens to keys receives the writes.  In any state the broker
    reaches, with the application registered alone and its tasks running, [listen]
    succeeds; the application then has one running task for each distinct key, which
    delivers to the queue behind the client's stream.  A write of a key through the
    broker is exactly one event for the task of that key and none for the others,
    and the client reads it as an event with the key, the written value and the
    task's sequence number. *)
Theorem listener_receives_writes mv checks u svc ns srcs (st : Running) live :
  ChannelLaws (string * ValueEnum) (result Event Status) →
  ess_config (ess (ss_ess (store_of st))) = EssConfig_default →
  reachable mv checks u st → url svc = kv_url →
  (∀ k, k ∈ [Discover; Subscribe; Write] → serves_alone svc ns k st) →
  store_wf (store_of st) → streaming_wf (ss_ess (store_of st)) live →
  ∃ stream st1 new tx ch ch', listen ns srcs st = (Ok stream, st1) ∧ contents st1 = contents st ∧
    tasks (ss_ess (store_of st1)) = tasks (ss_ess (store_of st)) ++ new ∧
    streaming_wf (ss_ess (store_of st1)) (live ++ (task_subscription <$> new)) ∧
    task_source <$> new = fresh_ids ∅ srcs ∧
    mpsc_channel (client_buffer_size EssConfig_default) ch = Return (tx, channel_of stream, ch') ∧
    ∀ key v, ∃ st2, api_write ns key v st1 = (Ok tt, st2) ∧ ∀ t, t ∈ new →
      sub_sender (task_subscription t) = tx ∧
      (let unread_in st := unread (receiver (task_subscription t)) (channels (ess (ss_ess (store_of st)))) in
       unread_in st2 = (if decide (task_source t = key) then 1 else 0) + unread_in st1) ∧
      ∀ now seq, task_source t = key →
        stream_item (map_err status_error (into_event now t (key, value_enum v) seq)) =
          Ok (mkApiEvent key v seq).
Proof.
  intros Hlaws Hcfg Hreach Hu Halone Hswf Hwf. destruct st as [self w].
  pose proof (reachable_ok _ _ _ _ _ Hreach) as Hok.
  destruct (listen_hosted (IntentBinder_new u the_streaming_ess) svc ns srcs (self, w) live Hlaws)
    as (stream & st1 & new & tx & ch & ch' & Hl & Hself & Hok1 & Hstore & Htasks & Hwf1 & Hmp & Hsrc & Hall);
    [rewrite Hcfg; vm_compute; lia|rewrite Hcfg; vm_compute; lia|done|done|apply Halone; set_solver..|done|].
  rewrite Hcfg in Hmp. exists stream, st1, new, tx, ch, ch'.
  split_and!; [done| |done|done|done|done|].
  { unfold EndToEnd.contents. by rewrite Hstore. }
  intros key v. destruct (write_hosted status_error kv_url kv_state _ svc ns key v st1 Hok1 Hu)
    as (st2 & Hw & _ & _ & Hs2).
  { eapply same_broker_alone; [exact Hself|]. apply Halone. set_solver. }
  { unfold store_wf in *. by rewrite Hstore. }
  exists st2. split; [done|]. intros t Ht. rewrite Forall_forall in Hall.
  destruct (Hall t Ht) as (Hiv & Hid & Htx). split_and!; [done| |].
  - simpl. rewrite Hs2. simpl. rewrite <- Hid.
    apply (publish_unread key _ _ _ _ Hwf1). apply elem_of_app. right. by apply list_elem_of_fmap_2.
  - intros now seq <-. unfold stream_item, into_event. simpl. rewrite Hiv. simpl. by destruct v.
Qed.
End listening.
