(* ===== verification/EndToEndWitnesses.v ===== *)
(** * A broker, the key-value application and a client

    A network with one host, the key-value application, which registers itself with
    the broker; a client that reads, writes and listens.  The laws that [Hosting] and
    [EndToEndStreaming] rely on hold of it. *)

From stdpp Require Import stringmap.
From S2P Require Import Prelude RustStd Common Proto Query QueryFacts Registry.
From S2P Require Import RegistryFacts RegistrySpec Ess EssFacts EssSample EssRuntime.
From S2P Require Import EssRuntimeWitnesses StreamingEss StreamingRuntime Connection.
From S2P Require Import StreamingTheorems Execution Broker BrokerFacts.
From S2P Require Import BrokerConnections Server ServerFacts ServerStreaming Hosting.
From S2P Require Import KeyValue ExampleValue ExampleApi ExampleKv.
From S2P Require Import ExampleRegistration RegistrationTheorems.
From S2P Require Import EndToEnd EndToEndStreaming.

Module EndToEndWitnesses.
#[local] Existing Instance canonical_order.
#[local] Existing Instance string_url.
#[local] Existing Instance fragment_regex.
#[local] Instance chs : Channels unit (result Event Status) :=
  sample_channels unit (result Event Status).
#[local] Instance kv_chs : Channels (string * ValueEnum) (result Event Status) :=
  sample_channels (string * ValueEnum) (result Event Status).
#[local] Instance kv_view : RuntimeView (string * ValueEnum) (result Event Status) := sample_view _ _.
#[local] Abbreviation Store := (StreamingStore (T := ValueEnum)).

(** ** The network *)
Definition kv_url : @Url string_url := "http://0.0.0.0:50064".
Definition broker_url : @Url string_url := "http://localhost:4243".

#[local] Instance transport : Transport := {|
  net := Store;
  channel := unit;
  client_connect u n :=
    if decide (u = url_to_string kv_url) then (Ok tt, n) else (Err (Error_new "connection refused"), n);
  client_fulfill _ request n :=
    match kv_fulfill kv_url request n with
    | Return (res, n) => (map_err (λ st, Error_new (message st)) res, n)
    | Panic msg => (Err (Error_new msg), n)
    end
|}.
#[local] Abbreviation MainServer := (IntentBrokeringServer (Composite IntentBroker StreamingRef)).
#[local] Abbreviation Running := (MainServer * World)%type.

Definition status_error (st : Status) : Error := Error_new (message st).
Definition kv_state (n : net) : Store := n.
#[local] Instance host : ProviderHost Store := kv_host kv_url kv_state.
#[local] Instance communication : Communication Running :=
  GrpcIntentBrokering_communication status_error.

#[local] Instance host_laws : HostLaws Store.
Proof.
  split.
  - intros n. exists tt, n. reflexivity.
  - intros v n. simpl. by case_decide.
  - intros c v req n (n1 & n2 & Hc) Hne. simpl in Hc. case_decide; [|done]. by destruct Hne.
  - intros c req n res p _ Hrun. unfold host, kv_host, kv_state in Hrun. simpl in *. rewrite Hrun. split; [done|]. by destruct res.
Qed.

(** ** The streaming endpoints

    The application's at its URL, and the broker's at its own. *)
Inductive Endpoint := KvEndpoint | BrokerEndpoint.
Definition mv (s : string) : option string := Some s.
Definition new_id {V} (clients : gmap string V) : string := fresh_string "channel" clients.

#[local] Instance streams : StreamClient (W := Running) := {|
  stream_client := Endpoint;
  event_stream := Endpoint * nat;
  stream_connect u st :=
    if decide (u = url_to_string kv_url) then (Ok KvEndpoint, st)
    else if decide (u = url_to_string broker_url) then (Ok BrokerEndpoint, st)
    else (Err (Error_new "connection refused"), st);
  stream_open c '(self, w) :=
    match c with
    | KvEndpoint =>
        let store := (network w).2 in
        match open mv (new_id (client_by_id (ess (ss_ess store)))) (ss_ess store) with
        | Return (Ok response, s) =>
            (Ok (open_metadata response, (KvEndpoint, open_stream response)),
             (self, mkWorld (bindings_by_intent w)
                      ((network w).1, mkStreamingStore s (ss_store store)) (streaming w)))
        | Return (Err st, _) => (Err (status_error st), (self, w))
        | Panic msg => (Err (Error_new msg), (self, w))
        end
    | BrokerEndpoint =>
        match open mv (new_id (client_by_id (ess (streaming w)))) (streaming w) with
        | Return (Ok response, s) =>
            (Ok (open_metadata response, (BrokerEndpoint, open_stream response)),
             (self, mkWorld (bindings_by_intent w) (network w) s))
        | Return (Err st, _) => (Err (status_error st), (self, w))
        | Panic msg => (Err (Error_new msg), (self, w))
        end
    end;
  header_to_str h := Some h
|}.
Definition channel_of (stream : event_stream) : nat := stream.2.

#[local] Instance stream_host_laws : StreamHostLaws kv_url kv_state mv channel_of.
Proof.
  split.
  - intros st. exists KvEndpoint, st. by repeat split.
  - intros c [self w] (st & st' & Hc). injection Hc as <- _.
    set (cid := new_id (client_by_id (ess (ss_ess (kv_state (network w).2))))). exists cid, cid.
    split_and!; [apply fresh_string_fresh|done|done|]. intros resp e' Ho.
    change (open mv (new_id (client_by_id (ess (ss_ess (network w).2)))) (ss_ess (network w).2) =
      Return (Ok resp, e')) in Ho.
    exists (KvEndpoint, open_stream resp), (self, mkWorld (bindings_by_intent w)
      ((network w).1, mkStreamingStore e' (ss_store (network w).2)) (streaming w)).
    split_and!; [|done..]. unfold stream_open, streams. unfold kv_chs, chs in *. by rewrite Ho.
Qed.

(** ** A registered application *)
Definition svc : ServiceConfiguration := mkServiceConfiguration (mkServiceId "kv-app" "0.0.1") kv_url Local.
Definition registration : RegisterRequest :=
  mkRegisterRequest (Some (mkIntentServiceRegistration "kv-app" "0.0.1" kv_url 0))
    ((λ k, mkIntentRegistration "sdv.kvs" (Intent_as_i32 k)) <$> [Discover; Subscribe; Read; Write]).
Definition idle_streaming : StreamingEss (T := unit) :=
  @StreamingEss_new unit chs (empty_store unit (result Event Status)).
Definition empty_kv : net :=
  @StreamingStore_new ValueEnum kv_chs (empty_store (string * ValueEnum) (result Event Status)).
Definition start : Running :=
  (IntentBrokeringServer_new (Registry_new server_observer Config_default) the_broker,
   (IntentBroker_new broker_url the_streaming_ess
      ([], empty_kv) idle_streaming).2).
Definition call (c : Call) (st : Running) : Running :=
  let '(_, self, w) := value_or (AnsRegister (Ok mkRegisterResponse), st.1, st.2)
                         (handle mv c st.1 st.2) in (self, w).
Definition registered : Running := call (CallRegister registration 7) start.

Lemma kv_registered_reachable : reachable mv true broker_url registered.
Proof.
  eapply reachable_step.
  { exact (reachable_init mv true broker_url Config_default empty_kv
      (empty_store unit (result Event Status))). }
  assert (is_return (handle mv (CallRegister registration 7) start.1 start.2) = true) as Hret
    by (vm_compute; reflexivity).
  apply (value_or_return (AnsRegister (Ok mkRegisterResponse), start.1, start.2)) in Hret.
  unfold registered, call. destruct (value_or _ _) as [[a self'] w'].
  by apply (step_call _ _ (CallRegister registration 7) a).
Qed.

Lemma registered_alone k :
  k ∈ [Discover; Subscribe; Read; Write] → serves_alone svc "sdv.kvs" k registered.
Proof.
  unfold serves_alone. intros Hk. repeat (apply elem_of_cons in Hk as [->|Hk];
    [apply (bool_decide_eq_true_1 _); vm_compute; reflexivity|]).
  by apply not_elem_of_nil in Hk.
Qed.

(** ** Reading and writing *)
Definition name (s : string) : Value := mkValue (VString s).
Definition history : list (ClientCall * ClientReply) :=
  [(CRead "a", RRead (Ok None)); (CWrite "a" (name "1"), RWrite (Ok tt));
   (CRead "a", RRead (Ok (Some (name "1"))))].
(** The calls happen one after the other; the broker prunes before the last one. *)
Definition pruned (st : Running) : Running :=
  let '(_, self, w) := value_or ((Default, 0%Z), st.1, st.2)
    (registry_do st.1 (λ reg w, prune reg 8 w) st.2) in (self, w).
Definition st1 : Running := (client_call "sdv.kvs" (CRead "a") registered).2.
Definition st2 : Running := (client_call "sdv.kvs" (CWrite "a" (name "1")) st1).2.
Definition st3 : Running := pruned st2.
Definition st4 : Running := (client_call "sdv.kvs" (CRead "a") st3).2.

#[local] Abbreviation runs := (broker_run status_error kv_url kv_state mv true svc "sdv.kvs").
Lemma run_one c reply st h st' :
  serves_alone svc "sdv.kvs" (call_kind c) st → (client_call "sdv.kvs" c st).1 = reply →
  runs (client_call "sdv.kvs" c st).2 h st' → runs st ((c, reply) :: h) st'.
Proof. intros Ha <- Hr. eapply run_client; [exact Ha|apply surjective_pairing|exact Hr]. Qed.

Lemma run_pruned st h st' :
  is_return (registry_do st.1 (λ reg w, prune reg 8 w) st.2) = true →
  runs (pruned st) h st' → runs st h st'.
Proof.
  intros Hret. apply (value_or_return ((Default, 0%Z), st.1, st.2)) in Hret. unfold pruned.
  destruct st as [self w]. simpl in *. destruct (value_or _ _) as [[out self'] w'].
  intros Hr. by eapply run_prune.
Qed.

Ltac alone := unfold serves_alone; apply (bool_decide_eq_true_1 _); vm_compute; reflexivity.
Lemma a_run : runs registered history st4.
Proof.
  unfold st4, st3, st2, st1, history.
  apply run_one; [alone|vm_compute; reflexivity|].
  apply run_one; [alone|vm_compute; reflexivity|].
  apply run_pruned; [vm_compute; reflexivity|].
  apply run_one; [alone|vm_compute; reflexivity|]. apply run_done.
Qed.

Lemma reads_and_writes_are_a_map_witness :
  map_calls history.*1 (contents kv_url kv_state registered) =
    (history.*2, contents kv_url kv_state st4).
Proof.
  apply (reads_and_writes_are_a_map status_error kv_url kv_state mv true svc "sdv.kvs" broker_url
    registered history st4).
  - apply kv_registered_reachable.
  - reflexivity.
  - vm_compute. reflexivity.
  - apply a_run.
Defined.

(** ** Listening *)
Lemma registered_streaming : streaming_wf (ss_ess (store_of kv_url kv_state registered)) [].
Proof.
  unfold streaming_wf.
  assert (store_of kv_url kv_state registered = empty_kv) as ->.
  { unfold registered, call, store_of.
    assert (is_return (handle mv (CallRegister registration 7) start.1 start.2) = true) as Hret
      by (vm_compute; reflexivity).
    apply (value_or_return (AnsRegister (Ok mkRegisterResponse), start.1, start.2)) in Hret.
    destruct (value_or _ _) as [[a self'] w'].
    pose proof (reachable_init mv true broker_url Config_default empty_kv
      (empty_store unit (result Event Status))) as Hst.
    apply (handle_state (P := Store) mv broker_url _ _ _ _ _ _ (reachable_ok _ _ _ _ _ Hst)) in Hret;
      [|done]. exact Hret. }
  exact (rt_reachable_ok true log_handlers _ (rt_reachable_init true log_handlers EssConfig_default
    (empty_store (string * ValueEnum) (result Event Status)))).
Qed.

(** The client listens to two keys; the write of one of them is one event. *)
Lemma listener_receives_writes_witness :
  ∃ stream st1 st2 t, listen "sdv.kvs" ["a"; "b"; "a"] registered = (Ok stream, st1) ∧
    api_write "sdv.kvs" "b" (name "1") st1 = (Ok tt, st2) ∧ task_source t = "b" ∧
    (let unread_in st := unread (receiver (task_subscription t))
                           (channels (ess (ss_ess (store_of kv_url kv_state st)))) in
     unread_in st2 = S (unread_in st1)).
Proof.
  destruct (listener_receives_writes status_error kv_url kv_state mv channel_of mv true broker_url
    svc "sdv.kvs" ["a"; "b"; "a"] registered [])
    as (stream & s1 & new & tx & ch & ch' & Hl & _ & _ & _ & Hsrc & _ & Hw).
  - apply sample_laws.
  - vm_compute. reflexivity.
  - apply kv_registered_reachable.
  - reflexivity.
  - intros k Hk. apply registered_alone.
    repeat (apply elem_of_cons in Hk as [->|Hk]; [by repeat constructor|]). by apply not_elem_of_nil in Hk.
  - vm_compute. reflexivity.
  - apply registered_streaming.
  - destruct (Hw "b" (name "1")) as (s2 & Hwrite & Hnew).
    assert (∃ t, t ∈ new ∧ task_source t = "b") as (t & Ht & Hb).
    { destruct new as [|t1 [|t2 new]]; try (vm_compute in Hsrc; discriminate Hsrc).
      exists t2. split; [by repeat constructor|]. vm_compute in Hsrc. by injection Hsrc. }
    exists stream, s1, s2, t. destruct (Hnew t Ht) as (_ & Hun & _). split_and!; [done|done|done|].
    etrans; [exact Hun|]. by rewrite decide_True by done.
Defined.
End EndToEndWitnesses.
