(* ===== verification/EndToEndConcurrent.v ===== *)
(** * Concurrent clients of the key-value application

    The key-value application behind a broker with requests in flight: the requests
    of its clients linearize, and in that order their replies are those of a map. *)

From stdpp Require Import relations.
From S2P Require Import Prelude RustStd Common Proto Query QueryFacts Registry.
From S2P Require Import RegistryFacts RegistrySpec Ess EssFacts EssSample StreamingEss.
From S2P Require Import Connection Execution Broker BrokerFacts.
From S2P Require Import BrokerConnections Server ServerFacts AsyncExecution.
From S2P Require Import AsyncFacts AsyncInvariant AsyncTheorems AsyncWitnesses.
From S2P Require Import Hosting Linearizability KeyValue ExampleValue ExampleApi.
From S2P Require Import ExampleKv EndToEnd EndToEndWitnesses.

(** ** Reads and writes as messages *)
Definition call_of (arg : IntentMessage) : option ClientCall :=
  match intent_enum arg with
  | Some (IRead i) => Some (CRead (read_key i))
  | Some (IWrite i) => CWrite (write_key i) ∘ mkValue <$> (write_value i ≫= value)
  | _ => None
  end.

Definition answer_with (f : FulfillmentEnum) : result FulfillResponse Status :=
  Ok (mkFulfillResponse (Some (mkFulfillmentMessage (Some f)))).
Definition sent_reply (c : ClientCall) (m : gmap string ValueEnum) : result FulfillResponse Status :=
  match c with
  | CRead key => answer_with (FRead (mkReadFulfillment (Some (mkValueMessage (m !! key)))))
  | CWrite _ _ => answer_with (FWrite mkWriteFulfillment)
  end.

(** The contents after some operations: reads and writes on a map, and nothing else
    touches it. *)
Definition map_after (ops : list Operation) (m : gmap string ValueEnum) : gmap string ValueEnum :=
  foldl (λ m o, match call_of (op_arg o) with Some c => (map_call c m).2 | None => m end) m ops.

(** Every read and write is answered from the contents that the operations before it
    leave. *)
Definition answers_from_map (ops : list Operation) (m : gmap string ValueEnum) : Prop :=
  ∀ ops1 o ops2 c, ops = ops1 ++ o :: ops2 → call_of (op_arg o) = Some c →
    op_sent o = sent_reply c (map_after ops1 m).

Section kv.
Context `{!UrlLib, !HashOrder, !RegexLib, !Transport} `{!Channels unit (result Event Status)}.
Context `{!Channels (string * ValueEnum) (result Event Status)}.
Context `{!ChannelLaws (string * ValueEnum) (result Event Status)}.
#[local] Abbreviation Store := (StreamingStore (T := ValueEnum)).
Context (kv_url : Url) (kv_state : net → Store).
#[local] Instance application : ProviderHost Store := kv_host kv_url kv_state.
Context `{!HostLaws Store}.
#[local] Abbreviation kv_contents s := (kv_store (ss_store s)).
Implicit Types (store : Store).

(** What the application keeps: its store observes itself, its buffers are not empty. *)
Definition kv_invariant store : Prop :=
  store_wf store ∧ 0 < publish_buffer_size (ess_config (ess (ss_ess store))).

Lemma kv_handler_answers request store :
  kv_invariant store →
  ∃ res store', host_handler request store = Return (res, store') ∧ kv_invariant store'.
Proof.
  intros [Hwf Hbuf]. destruct (kv_fulfill_answers kv_url request store) as (res & store' & Hf & ? & Hc);
    [done..|]. exists res, store'. split; [done|]. split; [done|]. by rewrite Hc.
Qed.

(** One operation on the contents. *)
Lemma kv_operation arg store sent store' :
  store_wf store → kv_fulfill kv_url (mkProviderFulfillRequest (Some arg)) store = Return (sent, store') →
  store_wf store' ∧
  match call_of arg with
  | Some c => sent = sent_reply c (kv_contents store) ∧ kv_contents store' = (map_call c (kv_contents store)).2
  | None => kv_contents store' = kv_contents store
  end.
Proof.
  intros Hwf. unfold kv_fulfill, call_of. simpl. destruct (intent_enum arg) as [[i|i|i|i|i|i]|]; simpl;
    try by intros [= <- <-].
  - intros [= <- <-]. split_and!; [done| |done]. unfold ss_read, ss_get, kv_get. simpl.
    by destruct (_ !! _).
  - unfold kv_write. destruct (write_value i ≫= value) as [v|]; simpl; [|by intros [= <- <-]].
    rewrite ss_set_eq by done. simpl. by intros [= <- <-].
  - unfold ss_subscribe. destruct (serve_subscriptions _ _ _) as [[r e]|]; simpl; [|done].
    by intros [= <- <-].
Qed.

Lemma kv_sequential store ops store' :
  store_wf store → sequential (kv_fulfill kv_url) store ops store' →
  store_wf store' ∧ kv_contents store' = map_after ops (kv_contents store) ∧
  answers_from_map ops (kv_contents store).
Proof.
  intros Hwf Hs. induction Hs as [|ops p1 o p2 _ IH Hrun].
  - split_and!; [done|done|]. intros ops1 o ops2 c Heq. by destruct ops1.
  - destruct IH as (Hwf1 & Hc & Ha). destruct (kv_operation _ _ _ _ Hwf1 Hrun) as [Hwf2 Hop].
    split_and!; [done| |].
    + unfold map_after in *. rewrite foldl_snoc, <- Hc.
      destruct (call_of (op_arg o)); [by destruct Hop|done].
    + intros ops1 o' ops2 c Heq Hcall. destruct ops2 as [|x ops2 _] using rev_ind.
      * apply app_inj_tail in Heq as [<- <-]. rewrite Hcall in Hop. rewrite <- Hc. by destruct Hop.
      * rewrite app_comm_cons, app_assoc in Heq. apply app_inj_tail in Heq as [-> _]. by eapply Ha.
Qed.

Section runs.
Context (metadata_value : string → option string) (overflow_checks : bool).
Context (svc : ServiceConfiguration).

(** C35: Concurrent clients of the key-value application share one map.  However their
    requests overlap in the broker, there is an order of the requests that the
    application has executed, in which a request comes after those that were answered
    before it was called, such that every read and write was answered from the map
    that the reads and writes before it leave, and the application's contents are
    what all of them leave. *)
Theorem concurrent_clients_share_a_map u st0 h st :
  async_reachable metadata_value overflow_checks u st0 →
  map_Forall (λ _ fl, elsewhere (P := Store) (fl_services fl)) (as_flights st0) →
  url svc = kv_url → kv_invariant (provider_state (as_world st0)) →
  observed (P := Store) metadata_value overflow_checks svc st0 h st →
  let m := kv_contents (provider_state (as_world st0)) in
  ∃ ops, linearization (kv_fulfill kv_url) h ops
           (provider_state (as_world st0)) (provider_state (as_world st)) ∧
    answers_from_map ops m ∧ kv_contents (provider_state (as_world st)) = map_after ops m.
Proof.
  intros Hr Hel Hu Hi Hobs m.
  destruct (observed_linearized metadata_value overflow_checks svc kv_invariant kv_handler_answers u st0 h st)
    as (ops & [Hl _ _]); [done..|].
  exists ops. destruct (kv_sequential _ _ _ (proj1 Hi) (lin_sequential _ _ _ _ _ Hl)) as (_ & ? & ?).
  by split_and!.
Qed.
End runs.
End kv.

(** ** Two clients at once

    A write and a read overlap: each opens the connection of its own binding, and the
    read, which is begun second, is executed first.  A read after both reuses the
    connection and sees the write. *)
Module ConcurrentWitnesses.
Import EndToEndWitnesses.
#[local] Existing Instance canonical_order.
#[local] Existing Instance string_url.
#[local] Existing Instance fragment_regex.
#[local] Existing Instance chs.
#[local] Existing Instance kv_chs.
#[local] Existing Instance transport.
#[local] Existing Instance host.
#[local] Existing Instance host_laws.
#[local] Abbreviation Store := (StreamingStore (T := ValueEnum)).
#[local] Abbreviation sees := (observed (P := Store) mv true svc).

Definition never_called (id : nat) (h : list HistoryEvent) : bool :=
  forallb (λ e, match e with Called i _ => bool_decide (i ≠ id) | _ => true end) h.

Lemma never_called_spec id h arg : never_called id h = true → Called id arg ∉ h.
Proof.
  intros Hn Hin. apply list_elem_of_In in Hin. apply (proj1 (forallb_forall _ _) Hn) in Hin.
  by apply bool_decide_eq_true_1 in Hin.
Qed.

Lemma sees_begin st0 h st id request arg :
  sees st0 h st →
  match as_flights st !! id with Some _ => false | None => never_called id h end = true →
  fst <$> result_ok (begin_fulfill (as_server st) request (as_world st)) = Some arg →
  registered_services (as_server st) request = Some {[svc]} →
  sees st0 (h ++ [Called id arg]) (begin_at id request st).
Proof.
  intros Ho Hn Hb Hs. destruct (as_flights st !! id) eqn:Hid; [done|]. unfold begin_at.
  destruct (begin_fulfill _ _ _) as [[a b]|] eqn:E; [|done]. injection Hb as ->.
  rewrite Hs. destruct st as [self w locks flights]. eapply observed_begin; [exact Ho|done| |exact E|exact Hs].
  intros arg'. by apply never_called_spec.
Qed.

Lemma sees_polls st0 h st ids :
  sees st0 h st → is_Some (poll_list ids st) → sees st0 h (default st (poll_list ids st)).
Proof.
  intros Ho [st' Hst']. rewrite Hst'. simpl. apply poll_list_rtc in Hst'.
  induction Hst' as [|st1 st2 st3 H12 _ IH]; [done|]. apply IH. by eapply observed_poll.
Qed.

Lemma sees_end st0 h st id es :
  sees st0 h st → reply_of svc id <$> as_flights st !! id = Some es →
  sees st0 (h ++ es) (end_at id st).
Proof.
  intros Ho He. unfold end_at. destruct (as_flights st !! id) as [fl|] eqn:Hid; [|done].
  injection He as <-. apply observed_end; [done|done|by left].
Qed.

(** ** The run *)
Definition write_message : IntentMessage :=
  mkIntentMessage (Some (IWrite (mkWriteIntent "a" (Some (Value_into_message (name "1")))))).
Definition read_message : IntentMessage := mkIntentMessage (Some (IRead (mkReadIntent "a"))).
Definition to_kv (i : IntentMessage) : RuntimeFulfillRequest := mkRuntimeFulfillRequest "sdv.kvs" (Some i).
Definition nothing_read : result FulfillResponse Status :=
  answer_with (FRead (mkReadFulfillment (Some (mkValueMessage None)))).
Definition one_read : result FulfillResponse Status :=
  answer_with (FRead (mkReadFulfillment (Some (mkValueMessage (Some (VString "1")))))).
Definition written : result FulfillResponse Status := answer_with (FWrite mkWriteFulfillment).

Definition idle : AsyncServer := mkAsyncServer registered.1 registered.2 ∅ ∅.
Definition overlapping : AsyncServer :=
  begin_at 1 (to_kv read_message) (begin_at 0 (to_kv write_message) idle).
Definition executed : AsyncServer := default overlapping (poll_list [0; 0; 1; 0; 1; 1; 1; 0] overlapping).
Definition both_ended : AsyncServer := begin_at 2 (to_kv read_message) (end_at 0 (end_at 1 executed)).
Definition final : AsyncServer := end_at 2 (default both_ended (poll_list [2; 2; 2] both_ended)).
Definition history : list HistoryEvent :=
  [Called 0 write_message; Called 1 read_message; Replied 1 nothing_read; Replied 0 written;
   Called 2 read_message; Replied 2 one_read].

Lemma idle_reachable : async_reachable mv true broker_url idle.
Proof.
  eapply async_reachable_step.
  { exact (async_reachable_init mv true broker_url Config_default empty_kv
      (empty_store unit (result Event Status))). }
  apply async_quiet.
  assert (is_return (handle mv (CallRegister registration 7) start.1 start.2) = true) as Hret
    by (vm_compute; reflexivity).
  apply (value_or_return (AnsRegister (Ok mkRegisterResponse), start.1, start.2)) in Hret.
  unfold registered, call. destruct (value_or _ _) as [[a self'] w'].
  by apply (quiet_call _ _ (CallRegister registration 7) a).
Qed.

Ltac evaluate := vm_compute; reflexivity.
Ltac registered_alone := apply (bool_decide_eq_true_1 _); evaluate.
Lemma the_begin : sees idle (take 2 history) overlapping.
Proof.
  unfold overlapping.
  apply (sees_begin idle (take 1 history) (begin_at 0 (to_kv write_message) idle) 1
    (to_kv read_message) read_message); [|evaluate|evaluate|registered_alone].
  apply (sees_begin idle [] idle 0 (to_kv write_message) write_message);
    [|evaluate|evaluate|registered_alone].
  apply observed_start.
Qed.

Lemma the_middle : sees idle (take 5 history) both_ended.
Proof.
  unfold both_ended.
  apply (sees_begin idle (take 4 history) (end_at 0 (end_at 1 executed)) 2
    (to_kv read_message) read_message); [|evaluate|evaluate|registered_alone].
  apply (sees_end idle (take 3 history) (end_at 1 executed) 0 [Replied 0 written]); [|evaluate].
  apply (sees_end idle (take 2 history) executed 1 [Replied 1 nothing_read]); [|evaluate].
  unfold executed. apply sees_polls; [exact the_begin|].
  apply (bool_decide_eq_true_1 (is_Some _)). evaluate.
Qed.

Lemma the_run : sees idle history final.
Proof.
  unfold final.
  apply (sees_end idle (take 5 history) (default both_ended (poll_list [2; 2; 2] both_ended)) 2
    [Replied 2 one_read]); [|evaluate].
  apply sees_polls; [exact the_middle|]. apply (bool_decide_eq_true_1 (is_Some _)). evaluate.
Qed.

Lemma idle_invariant : kv_invariant (provider_state (P := Store) (as_world idle)).
Proof. split; [vm_compute; reflexivity|]. apply (bool_decide_eq_true_1 (_ < _)). evaluate. Qed.

Lemma requests_linearize_witness :
  ∃ ops, linearization (kv_fulfill kv_url) history ops
    (provider_state (P := Store) (as_world idle)) (provider_state (P := Store) (as_world final)).
Proof.
  apply (requests_linearize mv true svc kv_invariant (kv_handler_answers kv_url kv_state) broker_url).
  - apply idle_reachable.
  - apply map_Forall_empty.
  - reflexivity.
  - apply idle_invariant.
  - apply the_run.
Defined.

Lemma concurrent_clients_share_a_map_witness :
  ∃ ops, linearization (kv_fulfill kv_url) history ops
      (provider_state (P := Store) (as_world idle)) (provider_state (P := Store) (as_world final)) ∧
    answers_from_map ops ∅ ∧
    kv_store (ss_store (provider_state (P := Store) (as_world final))) = map_after ops ∅.
Proof.
  apply (concurrent_clients_share_a_map kv_url kv_state mv true svc broker_url idle history final).
  - apply idle_reachable.
  - apply map_Forall_empty.
  - reflexivity.
  - apply idle_invariant.
  - apply the_run.
Defined.
End ConcurrentWitnesses.
