(* ===== verification/AtMostOnceWitnesses.v ===== *)
(** * The key-value application behind a network that loses messages

    The network is told what happens to each call.  The application is registered
    together with a cloud service that cannot be reached, so that every request falls
    back to the application: the answer to a write is lost, a read is answered, and a
    second write does not arrive. *)

From stdpp Require Import relations.
From S2P Require Import Prelude RustStd Common Proto Query QueryFacts Registry.
From S2P Require Import RegistryFacts RegistrySpec Ess EssFacts EssSample StreamingEss.
From S2P Require Import Connection Execution Broker BrokerFacts.
From S2P Require Import BrokerConnections Server ServerFacts AsyncExecution.
From S2P Require Import AsyncFacts AsyncInvariant AsyncTheorems AsyncWitnesses.
From S2P Require Import Hosting Linearizability AtMostOnce KeyValue ExampleValue ExampleApi.
From S2P Require Import ExampleKv ExampleRegistration EndToEnd EndToEndWitnesses.
From S2P Require Import EndToEndConcurrent.

Module LossyWitnesses.
Import EndToEndWitnesses ConcurrentWitnesses.
#[local] Existing Instance canonical_order.
#[local] Existing Instance string_url.
#[local] Existing Instance fragment_regex.
#[local] Existing Instance chs.
#[local] Existing Instance kv_chs.
#[local] Abbreviation Store := (StreamingStore (T := ValueEnum)).

Inductive Fate := Delivered | AnswerLost | CallLost.
Definition unavailable {T} : result T Error := Err (Error_new "unavailable").

#[local] Instance lossy : Transport := {|
  net := Store * list Fate;
  channel := unit;
  client_connect u n :=
    if decide (u = url_to_string kv_url) then (Ok tt, n) else (Err (Error_new "connection refused"), n);
  client_fulfill _ request n :=
    let '(store, fates) := n in
    match default Delivered (head fates), kv_fulfill kv_url request store with
    | CallLost, _ => (unavailable, (store, tail fates))
    | AnswerLost, Return (_, store) => (unavailable, (store, tail fates))
    | Delivered, Return (res, store) =>
        (map_err (λ st, Error_new (message st)) res, (store, tail fates))
    | _, Panic msg => (Err (Error_new msg), (store, tail fates))
    end
|}.
Definition lossy_state (n : net) : Store := n.1.
#[local] Instance lossy_host : ProviderHost Store := kv_host kv_url lossy_state.

#[local] Instance lossy_laws : LossyHostLaws Store.
Proof.
  split.
  - intros v n. simpl. by case_decide.
  - intros c v req n (n1 & n2 & Hc) Hne. simpl in Hc. case_decide; [|done]. by destruct Hne.
  - intros c req [store fates] res p _ Hrun. simpl in *. unfold lossy_state in Hrun. simpl in Hrun.
    rewrite Hrun. destruct (default Delivered (head fates)); simpl; [|by left|by right].
    destruct res; [done|by left].
Qed.

(** ** The run *)
Definition cloud_registration : RegisterRequest :=
  mkRegisterRequest (Some (mkIntentServiceRegistration "kv-cloud" "0.0.1" "http://cloud:1" 1))
    ((λ k, mkIntentRegistration "sdv.kvs" (Intent_as_i32 k)) <$> [Read; Write]).
Definition first : AsyncServer :=
  async_init broker_url Config_default
    ((@StreamingStore_new ValueEnum kv_chs (empty_store (string * ValueEnum) (result Event Status)),
      [AnswerLost; Delivered; CallLost]) : net) (empty_store unit (result Event Status)).
Definition call_at (c : Call) (st : AsyncServer) : AsyncServer :=
  match handle mv c (as_server st) (as_world st) with
  | Return (_, self, w) => mkAsyncServer self w (as_locks st) (as_flights st)
  | Panic _ => st
  end.
Definition both_registered : AsyncServer :=
  call_at (CallRegister cloud_registration 8) (call_at (CallRegister registration 7) first).

Definition second_write : IntentMessage :=
  mkIntentMessage (Some (IWrite (mkWriteIntent "a" (Some (Value_into_message (name "2")))))).
Definition cloud : ServiceConfiguration :=
  mkServiceConfiguration (mkServiceId "kv-cloud" "0.0.1") "http://cloud:1" Cloud.
Definition services : gset ServiceConfiguration := {[svc; cloud]}.
#[local] Abbreviation saw := (witnessed (P := Store) mv true both_registered).

Definition write_and_read : AsyncServer :=
  begin_at 1 (to_kv read_message) (begin_at 0 (to_kv write_message) both_registered).
Definition overlapped : AsyncServer :=
  default write_and_read (poll_list (mjoin (replicate 9 [0; 1])) write_and_read).
Definition second_begun : AsyncServer := begin_at 2 (to_kv second_write) (end_at 1 (end_at 0 overlapped)).
Definition last : AsyncServer :=
  end_at 2 (default second_begun (poll_list (replicate 8 2) second_begun)).
Definition lost : result FulfillResponse Status :=
  Err (invoke_failed (Error_from_error "Error when invoking provider." (Error_new "unavailable"))).
Definition lossy_history : list HistoryEvent :=
  [Called 0 write_message; Called 1 read_message; Replied 0 lost; Replied 1 one_read;
   Called 2 second_write; Replied 2 lost].

Lemma saw_begin h st id request arg :
  saw h st → match as_flights st !! id with Some _ => false | None => never_called id h end = true →
  fst <$> result_ok (begin_fulfill (as_server st) request (as_world st)) = Some arg →
  registered_services (as_server st) request = Some services →
  saw (h ++ [Called id arg]) (begin_at id request st).
Proof.
  intros Ho Hn Hb Hs. destruct (as_flights st !! id) eqn:Hid; [done|]. unfold begin_at.
  destruct (begin_fulfill _ _ _) as [[a b]|] eqn:E; [|done]. injection Hb as ->.
  rewrite Hs. destruct st as [self w locks flights].
  eapply witnessed_begin; [exact Ho|done| |exact E|exact Hs|].
  - intros arg'. by apply never_called_spec.
  - intros s s' [->%elem_of_singleton| ->%elem_of_singleton]%elem_of_union
      [->%elem_of_singleton| ->%elem_of_singleton]%elem_of_union; done.
Qed.

Lemma saw_polls h st ids :
  saw h st → is_Some (poll_list ids st) → saw h (default st (poll_list ids st)).
Proof.
  intros Ho [st' Hst']. rewrite Hst'. simpl. apply poll_list_rtc in Hst'.
  induction Hst' as [|st1 st2 st3 H12 _ IH]; [done|]. apply IH. by eapply witnessed_poll.
Qed.

Lemma saw_end h st id es :
  saw h st → reply_to id <$> as_flights st !! id = Some es → saw (h ++ es) (end_at id st).
Proof.
  intros Ho He. unfold end_at. destruct (as_flights st !! id) as [fl|] eqn:Hid; [|done].
  injection He as <-. apply witnessed_end; [done|done|by left].
Qed.

Lemma call_at_reachable c st :
  (∀ request, c ≠ CallFulfill request) → async_reachable mv true broker_url st →
  async_reachable mv true broker_url (call_at c st).
Proof.
  intros Hc Hr. unfold call_at. destruct (handle mv c _ _) as [[[a self] w]|] eqn:E; [|done].
  eapply async_reachable_step; [exact Hr|]. destruct st as [self0 w0 locks flights].
  apply async_quiet. by eapply quiet_call.
Qed.

Lemma call_at_flights c st : as_flights (call_at c st) = as_flights st.
Proof. unfold call_at. by destruct (handle mv c _ _) as [[[a self] w]|]. Qed.

Ltac both_registered_for := apply (bool_decide_eq_true_1 _); evaluate.
Ltac polled := apply (bool_decide_eq_true_1 (is_Some _)); evaluate.
Lemma lossy_begin : saw (take 2 lossy_history) write_and_read.
Proof.
  unfold write_and_read. apply (saw_begin (take 1 lossy_history) (begin_at 0 (to_kv write_message) both_registered) 1
    (to_kv read_message) read_message); [|evaluate|evaluate|both_registered_for].
  apply (saw_begin [] both_registered 0 (to_kv write_message) write_message);
    [|evaluate|evaluate|both_registered_for].
  apply witnessed_start.
Qed.

Lemma lossy_middle : saw (take 5 lossy_history) second_begun.
Proof.
  unfold second_begun. apply (saw_begin (take 4 lossy_history) (end_at 1 (end_at 0 overlapped)) 2 (to_kv second_write)
    second_write); [|evaluate|evaluate|both_registered_for].
  apply (saw_end (take 3 lossy_history) (end_at 0 overlapped) 1 [Replied 1 one_read]); [|evaluate].
  apply (saw_end (take 2 lossy_history) overlapped 0 [Replied 0 lost]); [|evaluate].
  unfold overlapped. apply saw_polls; [exact lossy_begin|polled].
Qed.

Lemma lossy_run : saw lossy_history last.
Proof.
  unfold last. apply (saw_end (take 5 lossy_history) (default second_begun (poll_list (replicate 8 2) second_begun)) 2
    [Replied 2 lost]); [|evaluate].
  apply saw_polls; [exact lossy_middle|polled].
Qed.

(** The first write was executed although its client got an error, the second was
    not. *)
Example lossy_contents :
  kv_store (ss_store (provider_state (P := Store) (as_world last))) = {["a" := VString "1"]}.
Proof. apply (bool_decide_eq_true_1 _). evaluate. Qed.

Lemma provider_runs_at_most_once_witness :
  ∃ ops, at_most_once (kv_fulfill kv_url) (from_elsewhere (P := Store)) lossy_history ops
    (provider_state (P := Store) (as_world both_registered)) (provider_state (P := Store) (as_world last)).
Proof.
  apply (provider_runs_at_most_once mv true kv_invariant (kv_handler_answers kv_url lossy_state) broker_url).
  - unfold both_registered. do 2 (apply call_at_reachable; [done|]). apply async_reachable_init.
  - unfold both_registered. by rewrite !call_at_flights.
  - split; [vm_compute; reflexivity|]. apply (bool_decide_eq_true_1 (_ < _)). evaluate.
  - apply lossy_run.
Defined.
End LossyWitnesses.
