(* ===== verification/ProviderLiveness.v ===== *)
(** * Providers stay available

    The registration loop of a provider ([Builder::register] of
    [examples/common/src/intent_brokering/registration.rs]) running against the
    broker while the broker handles the calls of others and prunes its registry:
    from the first round on the intents of the provider are fulfilled. *)

From S2P Require Import Prelude RustStd Common Proto Query QueryFacts Registry.
From S2P Require Import RegistryFacts RegistrySpec Ess EssFacts EssSample.
From S2P Require Import StreamingEss Connection Execution Broker BrokerFacts.
From S2P Require Import BrokerConnections ExecutionFacts Server ServerFacts.
From S2P Require Import ServerTotality PruneLoop ServerTheorems ExampleValue.
From S2P Require Import ExampleApi ExampleRegistration RegistrationTheorems.

Section liveness.
Context `{!UrlLib, !HashOrder, !RegexLib, !Transport} `{!Channels unit (result Event Status)}.
Context (metadata_value : string → option string).
#[local] Abbreviation MainServer := (IntentBrokeringServer (Composite IntentBroker StreamingRef)).

(** ** The broker between two rounds *)
Inductive Happening := Called (c : Call) | PruneAt (now : Z).

Definition happen (h : Happening) (s : ServerAt) : outcome ServerAt :=
  match h with
  | Called c =>
      '(_, self, w) ← handle metadata_value c (at_server s) (at_world s);
      Return (mkServerAt self w (at_time s))
  | PruneAt now =>
      '(_, self, w) ← registry_do (at_server s) (λ reg w, prune reg now w) (at_world s);
      Return (mkServerAt self w (at_time s))
  end.

Fixpoint meanwhile (hs : list Happening) (s : ServerAt) : outcome ServerAt :=
  match hs with [] => Return s | h :: hs => s ← happen h s; meanwhile hs s end.

(** While the provider sleeps [hs] happens; it wakes at the time [next]. *)
Definition pause (p : list Happening * Z) (s : outcome ServerAt) : outcome ServerAt :=
  s ← s; s ← meanwhile p.1 s; Return (mkServerAt (at_server s) (at_world s) p.2).

(** The broker as a process that may have panicked. *)
#[export] Instance running_client : BrokerClient (outcome ServerAt) := {|
  reg_client := unit;
  reg_connect _ s := (Ok tt, s);
  reg_announce c req s :=
    match s with
    | Return s => let '(res, s) := reg_announce c req s in (res, Return s)
    | Panic m => (Err (Error_new m), Panic m)
    end;
  reg_register c req s :=
    match s with
    | Return s =>
        match register (at_server s) req (at_time s) (at_world s) with
        | Return (res, self, w) =>
            (map_err (λ st, Error_new (message st)) res, Return (mkServerAt self w (at_time s)))
        | Panic m => (Err (Error_new m), Panic m)
        end
    | Panic m => (Err (Error_new m), Panic m)
    end
|}.

(** ** What a happening does to the registry *)
Definition call_op (c : Call) : option Op :=
  match c with
  | CallAnnounce req now =>
      service ← announce_service req;
      match resolve_service_configuration service with
      | Ok s => Some (OpTouch s now)
      | Err _ => None
      end
  | CallRegister req now =>
      service ← register_service req;
      match resolve_service_configuration service,
            collect_result (create_configruation_from_registration <$> register_intents req) with
      | Ok s, Ok ics => Some (OpUpsert s ics now)
      | _, _ => None
      end
  | CallFulfill _ | CallOpen _ => None
  end.
Definition happening_op (h : Happening) : option Op :=
  match h with Called c => call_op c | PruneAt now => Some (OpPrune now) end.

Definition happening_fits (ttl : Z) (h : Happening) : Prop :=
  match h with
  | Called c => call_fits metadata_value ttl c
  | PruneAt now => (now + ttl ≤ INSTANT_MAX)%Z
  end.

(** The times between a round at [now] and the next ones: nothing that happens to
    the registry in between makes it forget the service [svc] seen at [now]. *)
Fixpoint beats (svc : ServiceConfiguration) (ttl now : Z) (periods : list (list Happening * Z))
    : Prop :=
  (now + ttl ≤ INSTANT_MAX)%Z ∧
  match periods with
  | [] => True
  | (hs, next) :: periods =>
      Forall (happening_fits ttl) hs ∧ heartbeat svc ttl now (omap happening_op hs) ∧
      beats svc ttl next periods
  end.

Lemma handle_op c self w answer self' w' :
  handle metadata_value c self w = Return (answer, self', w') →
  match call_op c with
  | Some op => ∃ reply, step op (registry self) w = Return (reply, registry self', w')
  | None => registry self' = registry self
  end.
Proof.
  destruct c as [req now|req now|req|id]; simpl.
  - unfold announce. destruct (announce_service req) as [svc|]; simpl; [|by intros [= _ <- _]].
    destruct (resolve_service_configuration svc) as [s|]; [|by intros [= _ <- _]].
    destruct (touch _ _ _) as [b r] eqn:E. intros [= _ <- <-]. simpl. rewrite E. by eexists.
  - unfold register. destruct (register_service req) as [svc|]; simpl; [|by intros [= _ <- _]].
    destruct (resolve_service_configuration svc) as [s|]; simpl; [|by intros [= _ <- _]].
    destruct (collect_result _) as [ics|]; simpl; [|by intros [= _ <- _]].
    destruct (upsert _ _ _ _ _) as [[[res r] w1]|]; simpl; [|done].
    intros [= _ <- <-]. by eexists.
  - destruct (fulfill self req w) as [[res w1]|]; simpl; [|done]. by intros [= _ <- _].
  - destruct (open _ id (streaming w)) as [[res s]|]; simpl; [|done]. by intros [= _ <- _].
Qed.

Lemma happen_op h s s' :
  happen h s = Return s' →
  match happening_op h with
  | Some op => ∃ reply, step op (registry (at_server s)) (at_world s) =
                          Return (reply, registry (at_server s'), at_world s')
  | None => registry (at_server s') = registry (at_server s)
  end.
Proof.
  destruct h as [c|now]; simpl.
  - destruct (handle _ c _ _) as [[[a self] w]|] eqn:E; simpl; [|done]. intros [= <-].
    by apply handle_op in E.
  - unfold registry_do. destruct (prune _ _ _) as [[[[sp d] r] w]|]; simpl; [|done].
    intros [= <-]. by eexists.
Qed.

(** ** The provider is registered *)
Record provided (u : Url) (cfg : Config) (svc : ServiceConfiguration)
    (ics : gset IntentConfiguration) (t : Z) (s : ServerAt) : Prop := {
  pv_ok : server_ok (IntentBinder_new u the_streaming_ess) (at_server s) (at_world s);
  pv_config : config (registry (at_server s)) = cfg;
  pv_fit : deadlines_fit (registry (at_server s));
  pv_registered : abs (registry (at_server s)) !! svc = Some (ics, t)
}.

Lemma happen_provided u cfg svc ics t h s :
  ChannelLaws unit (result Event Status) → (0 ≤ entry_ttl cfg)%Z →
  provided u cfg svc ics t s → happening_fits (entry_ttl cfg) h →
  (∀ op, happening_op h = Some op → survives svc (entry_ttl cfg) t op) →
  ∃ s', happen h s = Return s' ∧
    provided u cfg svc ics
      (match happening_op h with Some op => last_seen svc t op | None => t end) s'.
Proof.
  intros Hlaws Httl [Hok Hcfg Hfit Hreg] Hh Hsurv.
  pose proof (IntentBinder_new_system u the_streaming_ess) as Hinit.
  assert (∃ s', happen h s = Return s' ∧
    server_ok (IntentBinder_new u the_streaming_ess) (at_server s') (at_world s') ∧
    config (registry (at_server s')) = cfg ∧ deadlines_fit (registry (at_server s')))
    as (s' & Hs' & Hok' & Hcfg' & Hfit').
  { destruct h as [c|now]; simpl in *.
    - destruct Hh as [Hans Htime].
      destruct (handle_total metadata_value u c _ _ Hlaws Hok Hans) as (a & self & w & E).
      rewrite E. simpl. eexists. split; [done|]. simpl.
      destruct (handle_known _ _ _ _ _ _ _ _ Hok E) as [Hc Hk].
      split_and!; [by eapply handle_ok|congruence|]. intros x ts [Hx|Hx]%Hk.
      + rewrite Hc. by eapply Hfit.
      + rewrite Hc, Hcfg. by rewrite Hx in Htime.
    - destruct (prune_total _ _ now _ Hok Hfit) as (out & self & w & E & Hf & Hc); [by rewrite Hcfg|].
      rewrite E. simpl. eexists. split; [done|]. simpl.
      split_and!; [by eapply prune_ok|congruence|done]. }
  exists s'. split; [done|]. split; [done|done|done|].
  apply happen_op in Hs'. destruct (happening_op h) as [op|]; [|by rewrite Hs'].
  destruct Hs' as [reply Hst].
  destruct (step_abs _ _ _ _ _ _ (srv_wf _ _ _ Hok) ltac:(by rewrite Hcfg) Hst) as [_ ->].
  rewrite Hcfg. apply spec_step_survives; [done|by apply Hsurv].
Qed.

Lemma meanwhile_provided u cfg svc ics t hs s :
  ChannelLaws unit (result Event Status) → (0 ≤ entry_ttl cfg)%Z →
  provided u cfg svc ics t s → Forall (happening_fits (entry_ttl cfg)) hs →
  heartbeat svc (entry_ttl cfg) t (omap happening_op hs) →
  ∃ s' t', meanwhile hs s = Return s' ∧ provided u cfg svc ics t' s'.
Proof.
  intros Hlaws Httl Hp Hfits. revert t s Hp.
  induction Hfits as [|h hs Hh _ IH]; intros t s Hp Hbeat; [by exists s, t|].
  cbn [meanwhile].
  destruct (happen_provided u cfg svc ics t h s Hlaws Httl Hp Hh) as (s1 & -> & Hp1).
  { intros op Hop. cbn [omap list_omap] in Hbeat. rewrite Hop in Hbeat. by destruct Hbeat. }
  cbn [mbind outcome_bind]. apply (IH _ s1 Hp1).
  cbn [omap list_omap] in Hbeat. destruct (happening_op h); [by destruct Hbeat|done].
Qed.

(** ** A round *)
Definition after_call (u : Url) (s s' : ServerAt) : Prop :=
  server_ok (IntentBinder_new u the_streaming_ess) (at_server s') (at_world s') ∧
  config (registry (at_server s')) = config (registry (at_server s)) ∧
  ∀ x ts, known_services (registry (at_server s')) !! x = Some ts →
    known_services (registry (at_server s)) !! x = Some ts ∨ ts = at_time s.

Lemma call_after u c (s : ServerAt) a self w :
  server_ok (IntentBinder_new u the_streaming_ess) (at_server s) (at_world s) →
  call_time c = Some (at_time s) →
  handle metadata_value c (at_server s) (at_world s) = Return (a, self, w) →
  after_call u s (mkServerAt self w (at_time s)).
Proof.
  intros Hok Ht E. destruct (handle_known _ _ _ _ _ _ _ _ Hok E) as [Hc Hk].
  split_and!; [eapply handle_ok; [apply IntentBinder_new_system|done|exact E]|done|].
  intros x ts [?|Hx]%Hk; [by left|right]. congruence.
Qed.

Lemma after_call_trans u s1 s2 s3 :
  at_time s2 = at_time s1 → after_call u s1 s2 → after_call u s2 s3 → after_call u s1 s3.
Proof.
  intros Ht (_ & Hc1 & Hk1) (Hok & Hc2 & Hk2). split_and!; [done|congruence|].
  intros x ts [Hx| ->]%Hk2; [by apply Hk1|by right].
Qed.

(** A round against the process is a round against the server, which does not
    panic. *)
Lemma running_round u b client first (s : ServerAt) :
  server_ok (IntentBinder_new u the_streaming_ess) (at_server s) (at_world s) →
  let '(res, c, s') := register_once (W := ServerAt) b client first s in
  register_once (W := outcome ServerAt) b client first (Return s) = (res, c, Return s') ∧
  after_call u s s'.
Proof.
  intros Hok. unfold register_once. simpl.
  assert ((match client with Some c => (Ok c, s) | None => (Ok tt, s) end) = (Ok tt, s)) as ->
    by by destruct client as [[]|].
  assert ((match client with
           | Some c => (Ok c, Return s) | None => (Ok tt, Return s) end) = (Ok tt, Return s)) as ->
    by by destruct client as [[]|].
  set (areq := mkAnnounceRequest (Some (builder_service b))).
  pose proof (call_after u (CallAnnounce areq (at_time s)) s) as Ha. simpl in Ha.
  destruct (announce (at_server s) areq (at_time s)) as [a self].
  specialize (Ha _ _ _ Hok eq_refl eq_refl). destruct a as [a|st]; simpl; [|done].
  set (test := first || _). destruct test; [|done].
  set (rreq := mkRegisterRequest (Some (builder_service b)) (builder_registrations b)).
  destruct (register_total _ self rreq (at_time s) (at_world s) (proj1 Ha)) as (r & self2 & w2 & E).
  pose proof (call_after u (CallRegister rreq (at_time s)) (mkServerAt self (at_world s) (at_time s)))
    as Hr. simpl in Hr. rewrite E in *.
  specialize (Hr _ _ _ (proj1 Ha) eq_refl eq_refl).
  assert (after_call u s (mkServerAt self2 w2 (at_time s)))
    by (eapply after_call_trans; [|exact Ha|exact Hr]; done).
  by destruct r.
Qed.

Context (b : Builder).
#[local] Abbreviation svc := (builder_configuration b).
#[local] Abbreviation ics := (list_to_set (C := gset IntentConfiguration) (builder_intents b)).

Lemma round_provided u cfg client first s :
  UrlLaws → is_system_namespace (b_namespace b) = false →
  server_ok (IntentBinder_new u the_streaming_ess) (at_server s) (at_world s) →
  config (registry (at_server s)) = cfg → deadlines_fit (registry (at_server s)) →
  (at_time s + entry_ttl cfg ≤ INSTANT_MAX)%Z →
  (first = false → ∃ t, abs (registry (at_server s)) !! svc = Some (ics, t)) →
  ∃ s', register_once (W := outcome ServerAt) b client first (Return s) = (Ok tt, Some tt, Return s') ∧
    provided u cfg svc ics (at_time s) s'.
Proof.
  intros Hurl Hns Hok Hcfg Hfit Hnow Hknown.
  pose proof (running_round u b client first s Hok) as Hrun.
  destruct (registration_round b client first s) as (s' & E & _ & Habs);
    [done|by apply Hok|by apply Hok|done| |].
  { intros Hf _. destruct (Hknown Hf) as [t Ht]. rewrite lookup_abs in Ht.
    destruct (known_services _ !! _); simpl in Ht; [|done]. by injection Ht. }
  rewrite E in Hrun. destruct Hrun as (-> & Hok' & Hc & Hk). exists s'. split; [done|].
  split; [done|congruence| |done]. intros x ts [Hx| ->]%Hk; rewrite Hc; [by eapply Hfit|by rewrite Hcfg].
Qed.

Lemma loop_provided u cfg periods client first s :
  ChannelLaws unit (result Event Status) → UrlLaws → (0 ≤ entry_ttl cfg)%Z →
  is_system_namespace (b_namespace b) = false → periods ≠ [] →
  server_ok (IntentBinder_new u the_streaming_ess) (at_server s) (at_world s) →
  config (registry (at_server s)) = cfg → deadlines_fit (registry (at_server s)) →
  (first = false → ∃ t, abs (registry (at_server s)) !! svc = Some (ics, t)) →
  beats svc (entry_ttl cfg) (at_time s) periods →
  ∃ s' t, builder_loop b (pause <$> periods) client first (Return s) = (Some tt, false, Return s') ∧
    provided u cfg svc ics t s'.
Proof.
  intros Hlaws Hurl Httl Hns. revert client first s.
  induction periods as [|[hs next] periods IH]; intros client first s Hne Hok Hcfg Hfit Hknown Hbeats;
    [done|]. cbn [beats] in Hbeats. destruct Hbeats as (Hnow & Hfits & Hbeat & Hrest).
  destruct (round_provided u cfg client first s) as (s1 & E & Hp1); [done..|].
  destruct (meanwhile_provided u cfg svc ics _ hs s1 Hlaws Httl Hp1 Hfits Hbeat)
    as (s2 & t2 & Hm & [Hok2 Hcfg2 Hfit2 Hreg2]).
  assert (pause (hs, next) (Return s1) = Return (mkServerAt (at_server s2) (at_world s2) next)) as Hpause.
  { unfold pause. cbn [mbind outcome_bind fst snd]. by rewrite Hm. }
  rewrite fmap_cons. cbn [builder_loop]. rewrite E, Hpause.
  destruct periods as [|p periods].
  { eexists _, t2. split; [done|]. by split. }
  apply IH; [done|done|done|done| |done]. intros _. by exists t2.
Qed.

(** C3: A provider stays available.  While the provider runs its registration loop
    against the broker, and the broker handles the calls of others and prunes in
    between, the broker never panics and every round succeeds; and from the first
    round on, whenever a request with an intent of the provider comes, it is executed
    by a service that is registered for it, never answered with "not found".  It
    takes that no [prune] comes later than a time to live after the provider was last
    seen, that nobody else registers with the id of the provider, and that no time
    leaves the range of [Instant]. *)
Theorem provider_stays_available checks u cfg periods self w now :
  ChannelLaws unit (result Event Status) → UrlLaws → (0 ≤ entry_ttl cfg)%Z →
  is_system_namespace (b_namespace b) = false → periods ≠ [] →
  reachable metadata_value checks u (self, w) → config (registry self) = cfg →
  deadlines_fit (registry self) → beats svc (entry_ttl cfg) now periods →
  ∃ s', builder_register b (pause <$> periods) (Return (mkServerAt self w now)) =
          (Some tt, false, Return s') ∧
    ∀ request i e, rf_namespace request = b_namespace b → rf_intent request = Some i →
      intent_enum i = Some e → map_intent_variant e ∈ b_intents b →
      ∃ Svc res w',
        external_services_by_intent (registry (at_server s')) !!
          mkIntentConfiguration (b_namespace b) (map_intent_variant e) = Some Svc ∧ svc ∈ Svc ∧
        fulfill (at_server s') request (at_world s') = Return (res, w') ∧
        match res with
        | Ok resp => ∃ s resp', s ∈ Svc ∧ answered_by (url s) i resp' ∧
                                fulfillment resp = fulfillment resp'
        | Err status => code status = Unknown
        end.
Proof.
  intros Hlaws Hurl Httl Hns Hne Hok%reachable_ok Hcfg Hfit Hbeats.
  destruct (loop_provided u cfg periods None true (mkServerAt self w now)) as (s' & t & E & [Hok' _ _ Hreg]);
    [done..|]. exists s'. split; [exact E|]. intros request i e Hnsp Hi He Hk.
  set (ic := mkIntentConfiguration (b_namespace b) (map_intent_variant e)).
  assert (∃ Svc, external_services_by_intent (registry (at_server s')) !! ic = Some Svc ∧ svc ∈ Svc)
    as (Svc & HSvc & Hin).
  { rewrite lookup_abs in Hreg. destruct (known_services _ !! _); simpl in Hreg; [|done].
    injection Hreg as Hi' _. assert (ic ∈ intents_of (registry (at_server s')) svc) as Hic.
    { rewrite Hi'. apply elem_of_list_to_set, list_elem_of_fmap. by eexists. }
    apply elem_of_filter in Hic as [Hs _]. unfold services_of in Hs.
    destruct (_ !! ic) as [Svc|] eqn:Ei; [by exists Svc|]. set_solver. }
  destruct (fulfill_registered u (at_server s') (at_world s') request i e Svc) as (res & w' & Ef & Hres);
    [done|done|done|by rewrite Hnsp|]. by exists Svc, res, w'.
Qed.
End liveness.

(** ** Witness *)
Module LivenessWitnesses.
Import RegistrationWitnesses.
#[local] Existing Instance canonical_order.
#[local] Existing Instance fragment_regex.
#[local] Existing Instance chs.
#[local] Existing Instance transport.
#[local] Existing Instance http_url.

Definition mv (s : string) : option string := Some s.
Definition secs (s : Z) : Z := duration_from_secs s.
Definition other : Call :=
  CallRegister (mkRegisterRequest (Some (mkIntentServiceRegistration "other" "1" "http://o" 0))
    [mkIntentRegistration "sdv.other" 2]) (secs 4).
Definition read_request : RuntimeFulfillRequest :=
  mkRuntimeFulfillRequest "sdv.kvs" (Some (mkIntentMessage (Some (IRead (mkReadIntent "k"))))).

(** Rounds at 0, 5 and 20 seconds; the broker prunes, another provider registers
    and a consumer reads in between. *)
Definition periods : list (list Happening * Z) :=
  [([PruneAt (secs 3); Called other], secs 5); ([PruneAt (secs 19)], secs 20);
   ([Called (CallFulfill read_request); PruneAt (secs 24)], secs 25)].

Lemma empty_broker_reachable : reachable mv true ("broker" : @Url http_url) (at_server start, at_world start).
Proof.
  exact (reachable_init mv true ("broker" : @Url http_url) Config_default tt
    (empty_store unit (result Event Status))).
Qed.

Lemma periods_beat :
  beats mv (builder_configuration provider) (entry_ttl Config_default) (secs 0) periods.
Proof.
  unfold periods. cbn [beats]. split_and!; try done;
    try (repeat (apply Forall_cons; split); try apply Forall_nil; repeat split; done).
Qed.

Lemma provider_stays_available_witness :
  ∃ s', builder_register provider (pause mv <$> periods)
          (Return (mkServerAt (at_server start) (at_world start) (secs 0))) =
          (Some tt, false, Return s') ∧
    ∃ Svc res w',
      external_services_by_intent (registry (at_server s')) !!
        mkIntentConfiguration "sdv.kvs" Read = Some Svc ∧ builder_configuration provider ∈ Svc ∧
      fulfill (at_server s') read_request (at_world s') = Return (res, w').
Proof.
  destruct (provider_stays_available mv provider true ("broker" : @Url http_url) Config_default
    periods (at_server start) (at_world start) (secs 0)) as (s' & E & Hf).
  - apply sample_laws.
  - apply http_url_laws.
  - vm_compute. discriminate.
  - reflexivity.
  - discriminate.
  - apply empty_broker_reachable.
  - reflexivity.
  - intros s t Hs. discriminate Hs.
  - apply periods_beat.
  - exists s'. split; [exact E|].
    destruct (Hf read_request (mkIntentMessage (Some (IRead (mkReadIntent "k")))) (IRead (mkReadIntent "k")))
      as (Svc & res & w' & HS & Hin & Hfu & _); [reflexivity|reflexivity|reflexivity|left|].
    exists Svc, res, w'. split; [exact HS|]. split; [exact Hin|exact Hfu].
Defined.
End LivenessWitnesses.
