(* ===== verification/ExampleApps.v ===== *)
(** * The example applications

    The providers of [examples/applications]: [invoke-command], [simple-provider] and
    [lt-provider], and the scheduling of the load test in [lt-consumer]. *)

From S2P Require Import Prelude RustStd Common Proto ExampleValue.

Definition fulfilled (f : FulfillmentEnum) : FulfillResponse :=
  mkFulfillResponse (Some (mkFulfillmentMessage (Some f))).
Definition unsupported : Status := mkStatus Unknown "Unsupported or unknown intent.".
Definition intent_missing : Status := mkStatus InvalidArgument "Intent must be specified.".

(** ** invoke-command *)
Section invoke_command.
Context `{!UrlLib}.
(** serde_json's parser, and the text it prints for a value. *)
Context (serde_from_str : string → option string).

(** The printed line is part of the result. *)
Definition parse_and_print_json (json_string : string) : result (string * string) Status :=
  match serde_from_str json_string with
  | Some line => Ok ("Successfully processed json", line)
  | None => Err (mkStatus Unknown "failed to parse json.")
  end.

Definition invoke (i : InvokeIntent) : outcome (result InvokeFulfillment Status * list string) :=
  if decide (command i = "parse_and_print_json") then
    arg ← match args i !! 0 with Some a => Return a | None => Panic "index out of bounds" end;
    match value arg with
    | Some (VString s) =>
        '(res, line) ← unwrap (parse_and_print_json s);
        Return (Ok (mkInvokeFulfillment (Some (mkValueMessage (Some (VString res))))), [line])
    | _ => Return (Err (mkStatus Unknown "unexpected data type."), [])
    end
  else Return (Err (mkStatus Unknown ("No command found for " +:+ command i)), []).

Definition invoke_command_fulfill (u : Url) (req : ProviderFulfillRequest)
    : outcome (result FulfillResponse Status * list string) :=
  match ok_or (pf_intent req ≫= intent_enum) intent_missing with
  | Err e => Return (Err e, [])
  | Ok (IDiscover _) =>
      Return (Ok (fulfilled (FDiscover (mkDiscoverFulfillment
        [mkDiscoverService (url_to_string u) "grpc+proto" "invoke.controller.v1" ∅]))), [])
  | Ok (IInvoke i) =>
      '(res, printed) ← invoke i;
      Return (result_map (λ f, fulfilled (FInvoke f)) res, printed)
  | Ok _ => Return (Err unsupported, [])
  end.

(** The invoke-command provider survives a request exactly when it is not an
    invocation of [parse_and_print_json] without arguments or with a text that is
    not JSON: these two make it panic. *)
Theorem invoke_command_panics (u : Url) (req : ProviderFulfillRequest) :
  (∃ msg, invoke_command_fulfill u req = Panic msg) ↔
  ∃ i, pf_intent req ≫= intent_enum = Some (IInvoke i) ∧ command i = "parse_and_print_json" ∧
    (args i = [] ∨ ∃ s rest, args i = mkValueMessage (Some (VString s)) :: rest ∧ serde_from_str s = None).
Proof.
  unfold invoke_command_fulfill. destruct (pf_intent req ≫= intent_enum) as [[]|]; simpl.
  2: { unfold invoke. split.
    - intros [msg Hp]. exists i. split; [done|]. case_decide as Hc; [|done]. split; [done|].
      destruct (args i) as [|[[v|]] rest]; [by left| |done]. right. simpl in Hp.
      destruct v; try done. exists v, rest. split; [done|].
      unfold parse_and_print_json in Hp. by destruct (serde_from_str v).
    - intros (i' & [= <-] & Hc & Ha). rewrite decide_True by done.
      destruct Ha as [-> | (s & rest & -> & Hs)]; [by eexists|]. simpl.
      unfold parse_and_print_json. rewrite Hs. by eexists. }
  all: split; [by intros [? [=]]|by intros (i' & [=] & _)].
Qed.
End invoke_command.

(** ** simple-provider and lt-provider *)
Section providers.
Context `{!UrlLib}.

Definition simple_provider_fulfill (u : Url) (req : ProviderFulfillRequest)
    : result FulfillResponse Status :=
  match ok_or (pf_intent req ≫= intent_enum) intent_missing with
  | Err e => Err e
  | Ok (IDiscover _) =>
      Ok (fulfilled (FDiscover (mkDiscoverFulfillment
        [mkDiscoverService (url_to_string u) "grpc+proto" "example.provider.v1" ∅])))
  | Ok _ => Err unsupported
  end.

(** The latency distribution, if there is one, gives the next latency in
    milliseconds and its new state; the answer tells how long the provider slept. *)
Definition lt_provider_fulfill {D} (next : D → Z * D) (latency_distribution : option D)
    (req : ProviderFulfillRequest) : result FulfillResponse Status * option D * Z :=
  match ok_or (pf_intent req ≫= intent_enum)
          (mkStatus InvalidArgument "Intent must be specified") with
  | Err e => (Err e, latency_distribution, 0%Z)
  | Ok (IInvoke _) =>
      let '(d, slept) :=
        match latency_distribution with
        | Some d => let '(sample, d) := next d in (Some d, sample)
        | None => (None, 0%Z)
        end in
      (Ok (fulfilled (FInvoke (mkInvokeFulfillment (Some (Value_into_message Value_NULL))))), d, slept)
  | Ok _ => (Err (mkStatus NotFound ""), latency_distribution, 0%Z)
  end.
End providers.

(** ** lt-consumer: scheduling *)
Definition CHUNK_SIZE : Z := 100.
Definition SAMPLE_RATE : Z := 50.

(** [Duration::from_millis(1_000 * CHUNK_SIZE / target_rate as u64)], in
    milliseconds. *)
Definition chunk_execution_duration (target_rate : Z) : outcome Z :=
  if decide (target_rate = 0%Z) then Panic "attempt to divide by zero"
  else Return (1000 * CHUNK_SIZE / target_rate)%Z.

(** The inner loop over a chunk: the invocations that are spawned, until the
    [break]. *)
Fixpoint schedule_chunk (invoke_count : Z) (range : list Z) (spawned : list Z) : list Z :=
  match range with
  | [] => spawned
  | c :: range =>
      if decide (c = invoke_count) then spawned
      else schedule_chunk invoke_count range (spawned ++ [c])
  end.

(** The outer loop over [0..=invoke_count / CHUNK_SIZE]. *)
Definition schedule (invoke_count : Z) : list Z :=
  foldl (λ spawned chunk_index,
    let chunk_offset := (CHUNK_SIZE * chunk_index)%Z in
    schedule_chunk invoke_count (seqZ chunk_offset CHUNK_SIZE) spawned)
    [] (seqZ 0 (invoke_count / CHUNK_SIZE + 1)).

(** The invocations whose latency is measured. *)
Definition sampled (spawned : list Z) : list Z := filter (λ c, c `mod` SAMPLE_RATE = 0)%Z spawned.

Lemma schedule_chunk_no_break count l spawned :
  count ∉ l → schedule_chunk count l spawned = spawned ++ l.
Proof.
  revert spawned. induction l as [|c l IH]; intros spawned Hn; simpl.
  { by rewrite app_nil_r. }
  rewrite decide_False by set_solver. rewrite IH by set_solver. by rewrite <- (assoc (++)).
Qed.

Lemma schedule_chunk_break count l1 l2 spawned :
  count ∉ l1 → schedule_chunk count (l1 ++ count :: l2) spawned = spawned ++ l1.
Proof.
  revert spawned. induction l1 as [|c l IH]; intros spawned Hn; simpl.
  { by rewrite decide_True, app_nil_r. }
  rewrite decide_False by set_solver. rewrite IH by set_solver. by rewrite <- (assoc (++)).
Qed.

Lemma seqZ_snoc k : (0 ≤ k)%Z → seqZ 0 (Z.succ k) = seqZ 0 k ++ [k].
Proof.
  intros Hk. unfold Z.succ. rewrite seqZ_app by lia. by rewrite Z.add_0_l.
Qed.

(** The chunks before the last one. *)
Lemma schedule_full_chunks count k :
  (0 ≤ k)%Z → (CHUNK_SIZE * k ≤ count)%Z →
  foldl (λ spawned i, schedule_chunk count (seqZ (CHUNK_SIZE * i) CHUNK_SIZE) spawned) [] (seqZ 0 k) =
    seqZ 0 (CHUNK_SIZE * k).
Proof.
  intros Hk. pattern k. apply natlike_ind; [done| |done]. clear k Hk.
  intros k Hk IH Hle. unfold CHUNK_SIZE in *.
  rewrite seqZ_snoc by lia. rewrite foldl_app, IH by lia. cbn [foldl].
  rewrite schedule_chunk_no_break by (rewrite elem_of_seqZ; lia).
  replace (100 * Z.succ k)%Z with (100 * k + 100)%Z by lia.
  by rewrite (seqZ_app 0) by lia.
Qed.

Lemma schedule_eq count : (0 ≤ count)%Z → schedule count = seqZ 0 count.
Proof.
  intros Hc. unfold schedule. set (k := (count / CHUNK_SIZE)%Z).
  assert (0 ≤ k ∧ CHUNK_SIZE * k ≤ count < CHUNK_SIZE * k + CHUNK_SIZE)%Z as (Hk & Hle & Hlt).
  { unfold k, CHUNK_SIZE. pose proof (Z.mul_div_le count 100).
    pose proof (Z.mul_succ_div_gt count 100). pose proof (Z.div_pos count 100). lia. }
  assert (0 ≤ CHUNK_SIZE * k)%Z by (unfold CHUNK_SIZE; lia).
  change (k + 1)%Z with (Z.succ k). rewrite seqZ_snoc by done. rewrite foldl_app.
  rewrite schedule_full_chunks by done. cbn [foldl].
  assert (seqZ (CHUNK_SIZE * k) CHUNK_SIZE = seqZ (CHUNK_SIZE * k) (count - CHUNK_SIZE * k) ++
    count :: seqZ (Z.succ count) (Z.pred (CHUNK_SIZE - (count - CHUNK_SIZE * k)))) as ->.
  { transitivity (seqZ (CHUNK_SIZE * k)
      ((count - CHUNK_SIZE * k) + (CHUNK_SIZE - (count - CHUNK_SIZE * k)))); [f_equal; lia|].
    rewrite seqZ_app by lia. f_equal.
    replace (CHUNK_SIZE * k + (count - CHUNK_SIZE * k))%Z with count by lia.
    by rewrite seqZ_cons by lia. }
  rewrite schedule_chunk_break by (rewrite elem_of_seqZ; lia).
  change (seqZ (CHUNK_SIZE * k)) with (seqZ (0 + CHUNK_SIZE * k)).
  rewrite <- (seqZ_app 0 (CHUNK_SIZE * k) (count - CHUNK_SIZE * k)) by lia.
  by rewrite Zplus_minus.
Qed.

(** The load test spawns each of its invocations exactly once, in order, whatever
    their number: those of the last, incomplete chunk included and none beyond.  So
    the wait for as many fulfillments ends once every spawned task has run, and at
    least one latency is measured, so that the quantiles exist. *)
Theorem schedule_complete (invoke_count : Z) :
  (0 < invoke_count)%Z →
  schedule invoke_count = seqZ 0 invoke_count ∧
  Z.of_nat (length (schedule invoke_count)) = invoke_count ∧
  0%Z ∈ sampled (schedule invoke_count).
Proof.
  intros Hc. rewrite schedule_eq by lia. split_and!; [done|rewrite length_seqZ; lia|].
  unfold sampled. apply list_elem_of_filter. split; [done|]. apply elem_of_seqZ. lia.
Qed.

(** ** Witnesses *)
Module AppWitnesses.
Lemma schedule_complete_witness :
  schedule 250 = seqZ 0 250 ∧ Z.of_nat (length (schedule 250)) = 250%Z ∧ 0%Z ∈ sampled (schedule 250).
Proof. apply (schedule_complete 250). lia. Defined.

Example last_chunk_of_200 : last (schedule 200) = Some 199%Z.
Proof. vm_compute. reflexivity. Qed.
End AppWitnesses.
