(* ===== verification/Applications.v ===== *)
(** * The main programs of the example applications

    [wain] of [kv-app], [invoke-command], [lt-provider] and [simple-provider], each of
    which registers with the broker and serves its provider, and what the [main]
    macro of [examples/common/src/intent_brokering/provider.rs] makes of its result.
    How long a server serves and how it ends is the parameter [serve]. *)

From S2P Require Import Prelude RustStd Common Proto Registry Ess EssSample Execution.
From S2P Require Import Connection StreamingEss Broker Server ExampleValue.
From S2P Require Import ExampleApi ExampleKv ExampleRegistration ExampleApps.

(** ** [SocketAddr::from_str] of the standard library, for an IPv4 address *)
Fixpoint split_on (sep : ascii) (s : string) : list string :=
  match s with
  | EmptyString => [""]
  | String c s =>
      if decide (c = sep) then "" :: split_on sep s
      else match split_on sep s with
           | [] => [String c ""]
           | part :: parts => String c part :: parts
           end
  end.

Fixpoint is_digits (s : string) : bool :=
  match s with
  | EmptyString => true
  | String c s => bool_decide (48 ≤ nat_of_ascii c ≤ 57) && is_digits s
  end.

(** At most three digits and no leading zero. *)
Definition parse_octet (s : string) : option Z :=
  if is_digits s && bool_decide (1 ≤ String.length s ≤ 3)
     && (negb (String.prefix "0" s) || bool_decide (s = "0"))
  then match parse_u64 s with Ok n => if decide (n ≤ 255)%Z then Some n else None | Err _ => None end
  else None.
Definition parse_port (s : string) : option Z :=
  if is_digits s
  then match parse_u64 s with Ok n => if decide (n ≤ 65535)%Z then Some n else None | Err _ => None end
  else None.

Definition SocketAddr_from_str (s : string) : result SocketAddr Error :=
  match split_on ":" s with
  | [host; port] =>
      match mapM parse_octet (split_on "." host), parse_port port with
      | Some [a; b; c; d], Some port => Ok (mkSocketAddr (V4 [a; b; c; d]) port)
      | _, _ => Err (Error_new "invalid socket address syntax")
      end
  | _ => Err (Error_new "invalid socket address syntax")
  end.

Example parse_any_address :
  SocketAddr_from_str "0.0.0.0:50064" = Ok (mkSocketAddr (V4 [0; 0; 0; 0]%Z) 50064).
Proof. vm_compute. reflexivity. Qed.
Example parse_leading_zero : SocketAddr_from_str "0.0.00.0:50064" =
  Err (Error_new "invalid socket address syntax").
Proof. vm_compute. reflexivity. Qed.

(** ** provider.rs: the [main] macro *)
(** The lines [trace_error] logs, with the action of each. *)
Fixpoint trace_error (action : string) (e : Error) : list (string * string * string) :=
  (action, Error_display e, Error_debug e) ::
    match e with
    | mkError _ (Some source) => trace_error "--- Inner Error" source
    | _ => []
    end.
Definition trace_result {T} (action : string) (r : result T Error) : list (string * string * string) :=
  match r with Ok _ => [] | Err e => trace_error action e end.

(** The exit code of the process and what is logged. *)
Definition intent_provider_main (wain : result unit Error) : Z * list (string * string * string) :=
  (match wain with Ok _ => 0 | Err _ => 1 end%Z, trace_result "Error when executing main" wain).

Section applications.
Context `{!UrlLib, !UrlParts}.
Context (var_os : string → option string) (utf8 : string → bool) (DEFAULT_INTENT_BROKER_URL : string).
Context (url_parse_error : string → Error).
(** The server of the application, from its address to its end. *)
Context (serve : SocketAddr → result unit Error).
#[local] Abbreviation register_provider :=
  (provider_register var_os utf8 DEFAULT_INTENT_BROKER_URL url_parse_error).

(** [serve_with_ctrl_c_shutdown]. *)
Definition serve_with_ctrl_c_shutdown (addr : SocketAddr) : result unit Error :=
  map_err_with (serve addr) "Error when serving gRPC server.".

(** What an application does: its result, and the registration it spawned with the
    provider it served, if it came that far. *)
Definition Ran (P : Type) : Type := result unit Error * option (Builder * P).

(** ** kv-app *)
Section kv_app.
Context `{!Channels (string * ValueEnum) (result Event Status)} (ch : chans).

Record KvProvider := mkKvProvider { kv_url : Url; kv_streaming_store : StreamingStore (T := ValueEnum) }.

Definition kv_app_wain : outcome (Ran KvProvider) :=
  registered ← register_provider "sdv.key-value-store" "0.0.1" "sdv.kvs"
    [Read; Write; Subscribe; Discover] "KVS_URL" "http://0.0.0.0:50064" Local;
  match registered with
  | Err e => Return (Err e, None)
  | Ok (url, socket_address, registration) =>
      Return (serve_with_ctrl_c_shutdown socket_address,
              Some (registration, mkKvProvider url (StreamingStore_new ch)))
  end.
End kv_app.

(** ** invoke-command; its provider is the announced URL *)
Definition invoke_command_wain : outcome (Ran Url) :=
  registered ← register_provider "sdv.invoke.controller" "0.0.1" "sdv.invoke.controller"
    [Discover; Invoke] "MASSAGE_URL" "http://0.0.0.0:50064" Local;
  match registered with
  | Err e => Return (Err e, None)
  | Ok (url, socket_address, registration) =>
      Return (serve_with_ctrl_c_shutdown socket_address, Some (registration, url))
  end.

(** ** lt-provider *)
Definition LATENCY_MEAN_ENV : string := "LATENCY_MEAN".
Definition LATENCY_STD_DEV_ENV : string := "LATENCY_STD_DEV".

Section lt_provider.
(** 32-bit floats, their parser, and the samples of a normal distribution, which
    cannot be made from every pair of parameters. *)
Context {f32 D : Type} (parse_f32 : string → result f32 unit) (Normal_new : f32 → f32 → option D).

(** [IntentProvider::normal] unwraps the distribution. *)
Definition lt_normal (mean std_dev : f32) : outcome (option D) :=
  distribution ← unwrap_option (Normal_new mean std_dev); Return (Some distribution).

Definition lt_provider_wain : outcome (Ran (option D)) :=
  registered ← register_provider "lt.provider" "0.0.1" "lt.provider"
    [Invoke] "LT_PROVIDER_URL" "http://0.0.0.0:50051" Local;
  match registered with
  | Err e => Return (Err e, None)
  | Ok (url, socket_address, registration) =>
      mean ← env var_os utf8 parse_f32 LATENCY_MEAN_ENV;
      std_dev ← env var_os utf8 parse_f32 LATENCY_STD_DEV_ENV;
      provider ← match mean, std_dev with
                 | Some mean, Some std_dev => lt_normal mean std_dev
                 | _, _ => Return None
                 end;
      Return (map_err_with (serve socket_address) "Error when serving gRPC server.",
              Some (registration, provider))
  end.
End lt_provider.

(** ** simple-provider: its own registration loop, every 5 seconds *)
Definition simple_provider_wain : result unit Error * option (RegisterParams * Z * Url) :=
  let intent_brokering_url := "http://0.0.0.0:4243" in
  let base_provider_address := "0.0.0.0:50064" in
  let provider_url_str := "http://" +:+ base_provider_address in
  match map_err (Error_from_error "error getting SocketAddr")
          (SocketAddr_from_str base_provider_address) with
  | Err e => (Err e, None)
  | Ok socket_address =>
      match map_err (Error_from_error "error getting Url")
              (ok_or (url_parse provider_url_str) (url_parse_error provider_url_str)) with
      | Err e => (Err e, None)
      | Ok provider_url =>
          let register_params :=
            mkRegisterParams "sdv.simple.provider" "sdv.simple.provider" "0.0.1" [Discover]
              provider_url_str intent_brokering_url Local in
          (serve_with_ctrl_c_shutdown socket_address, Some (register_params, 5%Z, provider_url))
      end
  end.

(** ** What the applications register is what they serve *)
Lemma provider_register_builder name version namespace intents env_name u loc url addr reg :
  register_provider name version namespace intents env_name u loc = Return (Ok (url, addr, reg)) →
  b_intents reg = intents ∧ b_namespace reg = namespace ∧ announce_url reg = url.
Proof.
  unfold provider_register. destruct (env _ _ _ env_name) as [v|]; [|done]. simpl.
  destruct (url_parse _) as [pu|]; [|done]. simpl. unfold Builder_new.
  destruct (unwrap _) as [bu|]; [|done]. simpl. destruct (env _ _ _ ANNOUNCE_URL_KEY) as [au|]; [|done].
  simpl. unfold from_env, set_intent_broker_url.
  destruct (env _ _ _ (default _ None)) as [iu|]; [|done]. simpl.
  unfold set_registration_interval.
  destruct (env _ _ parse_u64 _) as [secs|]; [|by destruct iu]. simpl.
  destruct iu; simpl; destruct (parse_provider_socket_address _); simpl;
    intros [= <- <- <-]; done.
Qed.

(** The kinds of intents a list of four or fewer leaves out. *)
Ltac by_kind :=
  match goal with
  | |- _ ↔ _ ∉ _ => split; [intros Hans; first [set_solver | exfalso; revert Hans]
                           |intros Hk; first [done | exfalso; apply Hk; set_solver]]
  end.

Lemma kv_unsupported `{!Channels (string * ValueEnum) (result Event Status)} u req i store :
  pf_intent req ≫= intent_enum = Some i →
  kv_fulfill u req store = Return (Err unsupported, store) ↔
    map_intent_variant i ∉ [Read; Write; Subscribe; Discover].
Proof.
  intros Hreq. unfold kv_fulfill. rewrite Hreq. destruct i as [i|i|i|i|i|i]; simpl; by_kind; try done.
  - unfold kv_write. destruct (write_value i ≫= value) as [v|]; simpl; [|done].
    by destruct (ss_set store _ v).
  - unfold ss_subscribe, serve_subscriptions.
    destruct (register_subscriptions _ _ _) as [[[subs|e] x]|]; simpl; [done| |done].
    by intros [=].
Qed.

Lemma invoke_command_unsupported serde u req i :
  pf_intent req ≫= intent_enum = Some i →
  invoke_command_fulfill serde u req = Return (Err unsupported, []) ↔
    map_intent_variant i ∉ [Discover; Invoke].
Proof.
  intros Hreq. unfold invoke_command_fulfill. rewrite Hreq.
  destruct i as [i|i|i|i|i|i]; simpl; by_kind; try done.
  unfold invoke. case_decide; [|done]. destruct (args i !! 0) as [a|]; simpl; [|done].
  destruct (value a) as [[]|]; try done. by destruct (unwrap _) as [[r l]|].
Qed.

(** Each of the four example applications registers exactly the intents that its
    provider fulfills: when it got as far as serving, a request is answered as
    unsupported if and only if its intent is not among those of the registration. *)
Theorem applications_register_what_they_serve
    `{!Channels (string * ValueEnum) (result Event Status)} ch (serde : string → option string)
    {f32 D} (parse_f32 : string → result f32 unit) (Normal_new : f32 → f32 → option D) next :
  (∀ res reg p, kv_app_wain ch = Return (res, Some (reg, p)) →
     ∀ req i store, pf_intent req ≫= intent_enum = Some i →
     kv_fulfill (kv_url p) req store = Return (Err unsupported, store) ↔
       map_intent_variant i ∉ b_intents reg) ∧
  (∀ res reg u, invoke_command_wain = Return (res, Some (reg, u)) →
     ∀ req i, pf_intent req ≫= intent_enum = Some i →
     invoke_command_fulfill serde u req = Return (Err unsupported, []) ↔
       map_intent_variant i ∉ b_intents reg) ∧
  (∀ res reg d, lt_provider_wain parse_f32 Normal_new = Return (res, Some (reg, d)) →
     ∀ req i, pf_intent req ≫= intent_enum = Some i →
     lt_provider_fulfill next d req = (Err (mkStatus NotFound ""), d, 0%Z) ↔
       map_intent_variant i ∉ b_intents reg) ∧
  (∀ res params secs u, simple_provider_wain = (res, Some (params, secs, u)) →
     ∀ req i, pf_intent req ≫= intent_enum = Some i →
     simple_provider_fulfill u req = Err unsupported ↔ map_intent_variant i ∉ rp_intents params).
Proof.
  split_and!.
  - intros res reg p. unfold kv_app_wain.
    destruct (provider_register _ _ _ _ _ _ _ _ _ _ _) as [[[[url addr] reg0]|e]|] eqn:E; simpl; [|done|done].
    apply provider_register_builder in E as (Hi & _ & _). intros [= _ <- <-] req i store Hreq.
    rewrite Hi. by apply kv_unsupported.
  - intros res reg u. unfold invoke_command_wain.
    destruct (provider_register _ _ _ _ _ _ _ _ _ _ _) as [[[[url addr] reg0]|e]|] eqn:E; simpl; [|done|done].
    apply provider_register_builder in E as (Hi & _ & _). intros [= _ <- <-] req i Hreq.
    rewrite Hi. by apply invoke_command_unsupported.
  - intros res reg d. unfold lt_provider_wain.
    destruct (provider_register _ _ _ _ _ _ _ _ _ _ _) as [[[[url addr] reg0]|e]|] eqn:E; simpl; [|done|done].
    apply provider_register_builder in E as (Hi & _ & _).
    destruct (env _ _ _ LATENCY_MEAN_ENV) as [mean|]; simpl; [|done].
    destruct (env _ _ _ LATENCY_STD_DEV_ENV) as [dev|]; simpl; [|done].
    destruct (match mean with Some _ => _ | None => _ end) as [d0|]; simpl; [|done].
    intros [= _ <- <-] req i Hreq. rewrite Hi. unfold lt_provider_fulfill. rewrite Hreq.
    destruct i; simpl; by_kind; try done. destruct d0 as [d0|]; [by destruct (next d0)|done].
  - intros res params secs u. unfold simple_provider_wain.
    destruct (map_err _ _) as [addr|]; simpl; [|done].
    destruct (url_parse _) as [pu|]; simpl; [|done]. intros [= _ <- _ <-] req i Hreq. simpl.
    unfold simple_provider_fulfill. rewrite Hreq. destruct i; simpl; by_kind; done.
Qed.
End applications.

(** ** Witness: the applications with an empty environment *)
Module ApplicationWitnesses.
#[local] Existing Instance string_url.
#[local] Instance any_address : UrlParts := {|
  url_scheme _ := "http";
  url_host _ := Some (Ipv4 [0; 0; 0; 0]%Z);
  url_port _ := Some 50064%Z
|}.
#[local] Instance chs : Channels (string * ValueEnum) (result Event Status) :=
  sample_channels (string * ValueEnum) (result Event Status).

Definition no_var (_ : string) : option string := None.
Definition valid (_ : string) : bool := true.
Definition no_url (s : string) : Error := Error_new s.
Definition until_ctrl_c (_ : SocketAddr) : result unit Error := Ok tt.
Definition no_float (_ : string) : result Z unit := Err tt.
Definition no_normal (_ _ : Z) : option Z := None.
Definition broker_url : string := "http://localhost:4243".

Definition read_intent : IntentEnum := IRead (mkReadIntent "k").
Definition request (i : IntentEnum) : ProviderFulfillRequest :=
  mkProviderFulfillRequest (Some (mkIntentMessage (Some i))).

Definition no_channels : @chans _ _ chs := empty_store _ _.
Definition kv_ran := kv_app_wain no_var valid broker_url no_url until_ctrl_c no_channels.
Definition simple_ran := simple_provider_wain no_url until_ctrl_c.

(** Both applications served until Ctrl+C; the first one fulfills a read, the second
    one does not. *)
Lemma applications_register_what_they_serve_witness :
  (∃ reg p, kv_ran = Return (Ok tt, Some (reg, p)) ∧
     ∀ store, kv_fulfill (kv_url p) (request read_intent) store ≠ Return (Err unsupported, store)) ∧
  (∃ params u, simple_ran = (Ok tt, Some (params, 5%Z, u)) ∧
     simple_provider_fulfill u (request read_intent) = Err unsupported).
Proof.
  destruct (applications_register_what_they_serve no_var valid broker_url no_url until_ctrl_c
    no_channels (λ _, None) no_float no_normal (λ d : Z, (d, d))) as (Hkv & _ & _ & Hs).
  split.
  - eexists _, _. split; [reflexivity|]. intros store Hf.
    refine (proj1 (Hkv _ _ _ eq_refl (request read_intent) read_intent store eq_refl) Hf _).
    simpl. left.
  - eexists _, _. split; [reflexivity|].
    apply (Hs _ _ _ _ eq_refl (request read_intent) read_intent eq_refl).
    intros Hin. apply list_elem_of_singleton in Hin. discriminate Hin.
Defined.
End ApplicationWitnesses.
