(* ===== verification/DiscoverySamples.v ===== *)
(** * The service discovery programs

    [service_discovery/core/src/main.rs] and the simple-discovery sample: a provider
    that registers its hello-world service and serves it, and a consumer that
    discovers the service and calls it. *)

From S2P Require Import Prelude RustStd Common ServiceDiscovery ExampleValue Applications.

Section samples.
Context `{!UrlLib, !HashOrder}.
Context (debug_metadata : ServiceMetadata → string).
Context (url_parse_error : string → Error).

(** What runs: the registry, if it was started, and the hello-world services by the
    URI they are served at. *)
Record Samples := mkSamples {
  sw_registry : option (gmap ServiceIdentifier ServiceMetadata);
  sw_serving : gset string
}.

(** [Box<dyn std::error::Error>]: what the programs fail with. *)
Inductive SampleError :=
  | SErr (e : Error)
  | SStatus (s : Status)
  | SText (s : string).

(** Connecting fails when nothing is there. *)
Definition unreachable (u : string) : SampleError := SErr (Error_new ("cannot connect to " +:+ u)).

(** ** The registry: an empty map *)
Definition SERVICE_REGISTRY_ADDR : string := "0.0.0.0:50000".
Definition registry_main (w : Samples) : result unit SampleError * Samples :=
  match SocketAddr_from_str SERVICE_REGISTRY_ADDR with
  | Err e => (Err (SErr e), w)
  | Ok _ => (Ok tt, mkSamples (Some ∅) (sw_serving w))
  end.

(** ** The provider *)
Definition SERVICE_REGISTRY_URL : string := "http://0.0.0.0:50000".
Definition HELLO_WORLD_ENDPOINT : string := "0.0.0.0:50064".
Definition COMMUNICATION_KIND : string := "grpc+proto".
Definition COMMUNICATION_REFERENCE : string := "hello_world_service.v1.proto".

Definition say_hello (name : string) : result string Status := Ok ("Hello, " +:+ name).

Definition provider_metadata : ServiceMetadata :=
  mkServiceMetadata "sdv.samples" "hello-world" "1.0.0.0" ("http://" +:+ HELLO_WORLD_ENDPOINT)
    COMMUNICATION_KIND COMMUNICATION_REFERENCE.

Definition provider_main (w : Samples) : result unit SampleError * Samples :=
  let provider_url_str := "http://" +:+ HELLO_WORLD_ENDPOINT in
  match SocketAddr_from_str HELLO_WORLD_ENDPOINT, url_parse provider_url_str with
  | Err e, _ => (Err (SErr e), w)
  | Ok _, None => (Err (SErr (url_parse_error provider_url_str)), w)
  | Ok _, Some _ =>
      match sw_registry w with
      | None => (Err (unreachable SERVICE_REGISTRY_URL), w)
      | Some m =>
          let '(registered, m) := sd_register debug_metadata (Some provider_metadata) m in
          match registered with
          | Err status => (Err (SStatus status), mkSamples (Some m) (sw_serving w))
          | Ok _ => (Ok tt, mkSamples (Some m) ({[provider_url_str]} ∪ sw_serving w))
          end
      end
  end.

(** ** The consumer: its result and what it logs *)
Definition EXPECTED_COMMUNICATION_KIND : string := "grpc+proto".
Definition EXPECTED_COMMUNICATION_REFERENCE : string := "hello_world_service.v1.proto".
Definition discover_request : ServiceIdentifier :=
  mkServiceIdentifier "sdv.samples" "hello-world" "1.0.0.0".

(** The [match] on the service of the response. *)
Definition consumer_contact (service_option : option ServiceMetadata) (w : Samples)
    : result unit SampleError * list string :=
  match service_option with
  | Some service =>
      let log := ["Discovered service " +:+ debug_metadata service] in
      if negb (bool_decide (sm_communication_kind service = EXPECTED_COMMUNICATION_KIND))
         || negb (bool_decide (sm_communication_reference service = EXPECTED_COMMUNICATION_REFERENCE))
      then (Err (SText "Simple Discover Consumer does not recognize communication_kind or communication_reference of provider; cannot communicate"), log)
      else if decide (sm_uri service ∈ sw_serving w) then
        match say_hello "World" with
        | Err status => (Err (SStatus status), log)
        | Ok message => (Ok tt, log ++ [message])
        end
      else (Err (unreachable (sm_uri service)), log)
  | None => (Ok tt, ["No service found."])
  end.

Definition consumer_main (w : Samples) : result unit SampleError * list string :=
  match sw_registry w with
  | None => (Err (unreachable SERVICE_REGISTRY_URL), [])
  | Some m =>
      match sd_discover discover_request m with
      | Err status => (Err (SStatus status), [])
      | Ok service => consumer_contact (Some service) w
      end
  end.

(** The requests others make of the registry. *)
Definition others (rs : list SdRequest) (w : Samples) : Samples :=
  mkSamples (sd_run debug_metadata rs <$> sw_registry w) (sw_serving w).

Lemma run_keeps rs (m : gmap ServiceIdentifier ServiceMetadata) i s :
  m !! i = Some s → SdUnregister i ∉ rs → sd_run debug_metadata rs m !! i = Some s.
Proof.
  unfold sd_run. revert m. induction rs as [|r rs IH]; intros m Hs Hn; [done|]. cbn [foldl].
  apply IH; [|set_solver]. rewrite lookup_sd_step.
  destruct r as [[x|]|j]; [|done|]; [case_decide; by rewrite ?Hs|].
  rewrite decide_False; [done|]. set_solver.
Qed.

(** The sample works end to end.  Once the registry runs and nobody registered the
    identifier of the hello-world service, the provider starts; and whatever others
    ask the registry then, unless they unregister the service, the consumer finds the
    provider, recognizes it and is greeted.  A provider started before the registry,
    or started a second time, fails and serves nothing. *)
Theorem consumer_is_greeted (w : Samples) m before after :
  is_Some (url_parse ("http://" +:+ HELLO_WORLD_ENDPOINT)) →
  sw_registry w = Some m →
  sd_run debug_metadata before m !! discover_request = None →
  SdUnregister discover_request ∉ after →
  let started := provider_main (others before w) in
  started.1 = Ok tt ∧
  consumer_main (others after started.2) =
    (Ok tt, ["Discovered service " +:+ debug_metadata provider_metadata; "Hello, World"]) ∧
  (∃ status, provider_main (others after started.2) = (Err (SStatus status), others after started.2) ∧
             code status = AlreadyExists) ∧
  provider_main (mkSamples None (sw_serving w)) =
    (Err (unreachable SERVICE_REGISTRY_URL), mkSamples None (sw_serving w)).
Proof.
  intros [u Hu] Hm Hfree Hun. unfold provider_main, others. rewrite Hu, Hm.
  assert (SocketAddr_from_str HELLO_WORLD_ENDPOINT = Ok (mkSocketAddr (V4 [0; 0; 0; 0]%Z) 50064)) as Ha
    by reflexivity.
  rewrite Ha. cbn [sw_registry sw_serving fmap option_fmap option_map].
  set (m1 := sd_run _ before m) in *.
  assert (sd_register debug_metadata (Some provider_metadata) m1 =
    (Ok tt, <[discover_request := provider_metadata]> m1)) as Hreg.
  { unfold sd_register. cbn [ok_or]. change (identifier_of provider_metadata) with discover_request.
    by rewrite Hfree. }
  rewrite Hreg. cbn [fst snd sw_registry sw_serving fmap option_fmap option_map].
  set (m2 := sd_run _ after _).
  assert (m2 !! discover_request = Some provider_metadata) as Hm2.
  { apply run_keeps; [apply lookup_insert_eq|done]. }
  split_and!; [done| | |done].
  - unfold consumer_main, consumer_contact, sd_discover. cbn [sw_registry sw_serving]. rewrite Hm2.
    rewrite !bool_decide_true by done. cbn [negb orb]. rewrite decide_True; [done|]. set_solver.
  - unfold sd_register. cbn [ok_or]. change (identifier_of provider_metadata) with discover_request.
    rewrite Hm2. by eexists.
Qed.
End samples.

(** ** Witness *)
Module SampleWitnesses.
#[local] Existing Instance string_url.
Definition shown (s : ServiceMetadata) : string := sm_name s.
Definition other_service : ServiceMetadata :=
  mkServiceMetadata "sdv.samples" "other" "1" "http://0.0.0.0:1" "" "".
Definition running : Samples := (registry_main (mkSamples None ∅)).2.

Lemma consumer_is_greeted_witness :
  let started := provider_main shown Error_new (others shown [] running) in
  started.1 = Ok tt ∧
  consumer_main shown (others shown [SdRegister (Some other_service)] started.2) =
    (Ok tt, ["Discovered service hello-world"; "Hello, World"]).
Proof.
  intros started.
  destruct (consumer_is_greeted shown Error_new running ∅ [] [SdRegister (Some other_service)])
    as (Hs & Hc & _).
  - by eexists.
  - reflexivity.
  - reflexivity.
  - intros Hin. apply list_elem_of_singleton in Hin. discriminate Hin.
  - split; [exact Hs|exact Hc].
Defined.
End SampleWitnesses.
