(* ===== verification/LoadTest.v ===== *)
(** * The load test consumer ([examples/applications/lt-consumer/src/main.rs])

    From the environment to the files it writes: the invocations of [ExampleApps] are
    spawned as tasks that complete in any order, a loop waits for them, and the
    metrics are computed from the samples.  Floating point numbers are a type [F]
    with the operations the source uses; [metrics_util::Summary] is the list of its
    samples with a parameter [quantile]; the times are inputs. *)

From S2P Require Import Prelude RustStd Common Proto ExampleValue ExampleApi ExampleApps.

Definition LT_PROVIDER_NAMESPACE : string := "lt.provider".
Definition TARGET_INVOKE_COUNT_ENV : string := "TARGET_INVOKE_COUNT".
Definition TARGET_RATE_ENV : string := "TARGET_RATE".
Definition COLLECT_DOCKER_STATS_ENV : string := "COLLECT_DOCKER_STATS".
Definition RESULT_FILE : string := "lt-output/app.out".
Definition RESULT_FILE_DOCKER : string := "lt-output/docker.out".

(** [u32::from_str] and [bool::from_str]. *)
Definition parse_u32 (s : string) : result Z IntErrorKind :=
  match parse_u64 s with
  | Ok n => if decide (n < 2 ^ 32)%Z then Ok n else Err PosOverflow
  | Err e => Err e
  end.
Definition parse_bool (s : string) : result bool unit :=
  if decide (s = "true") then Ok true else if decide (s = "false") then Ok false else Err tt.

(** [a - b] on [u64]. *)
Definition sub_u64 (overflow_checks : bool) (a b : Z) : outcome Z :=
  if decide (b ≤ a)%Z then Return (a - b)%Z
  else if overflow_checks then Panic "attempt to subtract with overflow"
  else Return ((a - b) mod 2 ^ 64)%Z.

Section load_test.
Context {F : Type}.
(** Rounding, printing and [invoke_count as f64 / seconds]. *)
Context (round : F → F) (show : F → string) (rate : Z → F → F).
(** The quantiles used are the median and the 95th percentile. *)
Context (quantile : nat → list F → option F).

(** [Duration::mul(i as u32)] from [now], in milliseconds. *)
Definition start_times (now duration invoke_count : Z) : list Z :=
  (λ i, now + duration * (i mod 2 ^ 32))%Z <$> seqZ 0 (invoke_count / CHUNK_SIZE + 1).

Record Metric := mkMetric {
  metric_name : string;
  metric_unit : string;
  metric_value : F;
  metric_range : option string
}.

(** ** The invocations *)
Section tasks.
Context {W : Type} `{!Communication W}.

Record Load := mkLoad {
  load_world : W;
  latency_metric : list F;
  invoke_fulfillments : Z;
  warnings : list Error
}.

(** The task of the invocation [c], with the latency it measures. *)
Definition invocation (st : Load) (task : Z * F) : Load :=
  let '(c, latency) := task in
  let sampled := bool_decide (c `mod` SAMPLE_RATE = 0)%Z in
  let '(sent_value, w) := api_invoke LT_PROVIDER_NAMESPACE "foo" [Value_NULL] (load_world st) in
  mkLoad w
    (if sampled : bool then latency_metric st ++ [latency] else latency_metric st)
    ((invoke_fulfillments st + 1) mod 2 ^ 64)%Z
    (match sent_value with Ok _ => warnings st | Err e => warnings st ++ [e] end).

(** The condition of the loop that waits. *)
Definition waiting (invoke_count : Z) (st : Load) : bool :=
  bool_decide (invoke_fulfillments st < invoke_count)%Z.

(** ** Docker statistics *)
Record Stats := mkStats {
  system_cpu_usage : option Z;
  precpu_system_cpu_usage : option Z;
  total_usage : Z;
  precpu_total_usage : Z;
  online_cpus : option Z;
  memory_usage : option Z
}.

(** The two summaries, whether the mutex of the first one is poisoned, and how the
    task ended, if it did. *)
Record Docker := mkDocker {
  cpu_usage_metric : list F;
  memory_usage_metric : list F;
  cpu_poisoned : bool
}.

Section docker.
(** The processor usage from the number of processors and the two differences, and
    bytes to kilobytes. *)
Context (cpu_percent : Z → Z → Z → F) (kilobytes : Z → F) (overflow_checks : bool).

(** One item of the statistics: the number of processors is taken from the first one
    that has it; without it [unwrap] panics while the mutex is locked. *)
Definition docker_item (number_cpus : option Z) (stats : Stats) (d : Docker)
    : outcome (option Z * Docker) * Docker :=
  let memory d :=
    match memory_usage stats with
    | Some m => mkDocker (cpu_usage_metric d) (memory_usage_metric d ++ [kilobytes m]) (cpu_poisoned d)
    | None => d
    end in
  match system_cpu_usage stats, precpu_system_cpu_usage stats with
  | Some system, Some presystem =>
      match sub_u64 overflow_checks system presystem,
            sub_u64 overflow_checks (total_usage stats) (precpu_total_usage stats) with
      | Return system_cpu_delta, Return cpu_delta =>
          let number_cpus := match number_cpus with None => online_cpus stats | Some n => Some n end in
          match number_cpus with
          | Some n =>
              let d := memory (mkDocker
                (cpu_usage_metric d ++ [cpu_percent n cpu_delta system_cpu_delta])
                (memory_usage_metric d) (cpu_poisoned d)) in
              (Return (number_cpus, d), d)
          | None =>
              (Panic "called `Option::unwrap()` on a `None` value",
               mkDocker (cpu_usage_metric d) (memory_usage_metric d) true)
          end
      | Panic m, _ | _, Panic m => (Panic m, d)
      end
  | _, _ => let d := memory d in (Return (number_cpus, d), d)
  end.

(** The loop over the stream: an error ends it and is logged, a panic kills the task. *)
Fixpoint docker_loop (number_cpus : option Z) (stream : list (result Stats Error)) (d : Docker)
    : Docker * list Error :=
  match stream with
  | [] => (d, [])
  | Err e :: _ => (d, [Error_from_error "Could not retrieve stats" e])
  | Ok stats :: stream =>
      match docker_item number_cpus stats d with
      | (Return (number_cpus, d), _) => docker_loop number_cpus stream d
      | (Panic _, d) => (d, [])
      end
  end.

(** [evaluate_docker_stats]: the summaries after what has come of the stream. *)
Definition evaluate_docker_stats (docker version : result unit Error)
    (stream : list (result Stats Error)) : Docker * list Error :=
  let d := mkDocker [] [] false in
  match map_err_with docker "could not connect with defaults to docker" with
  | Err e => (d, [e])
  | Ok _ =>
      match map_err_with version "Could not retrieve docker version" with
      | Err e => (d, [e])
      | Ok _ => docker_loop None stream d
      end
  end.
End docker.

(** ** The report *)
Definition summary_metric (name unit : string) (samples : list F) : outcome Metric :=
  median ← unwrap_option (quantile 50 samples);
  p95 ← unwrap_option (quantile 95 samples);
  Return (mkMetric name unit (round median) (Some ("p95=" +:+ show (round p95)))).

(** The files written, with their contents, and how the rest of [wain] ends. *)
Definition report (invoke_count : Z) (seconds : F) (latencies : list F) (docker : option Docker)
    : list (string * list Metric) * outcome unit :=
  match summary_metric "Latency" "Millisecond" latencies with
  | Panic m => ([], Panic m)
  | Return latency =>
      let files := [(RESULT_FILE,
        [mkMetric "Invoke Throughput" "1/Second" (round (rate invoke_count seconds)) None; latency])] in
      match docker with
      | None => (files, Return tt)
      | Some d =>
          if cpu_poisoned d then (files, Panic "called `Result::unwrap()` on an `Err` value")
          else
            match (cpu ← summary_metric "CPU Usage" "Percent" (cpu_usage_metric d);
                   memory ← summary_metric "Memory Usage" "Bytes" (memory_usage_metric d);
                   Return [cpu; memory]) with
            | Return metrics => (files ++ [(RESULT_FILE_DOCKER, metrics)], Return tt)
            | Panic m => (files, Panic m)
            end
      end
  end.

(** ** [wain] *)
Context (var_os : string → option string) (utf8 : string → bool).

(** How far [wain] came: it may still be waiting for invocations. *)
Inductive LoadResult :=
  | LoadFailed (e : Error)
  | LoadWaiting (st : Load)
  | LoadEnded (st : Load) (files : list (string * list Metric)) (how : outcome unit).

(** [completed] are the tasks that have run when the loop looks, [docker] the
    statistics collected at the end. *)
Definition lt_consumer_wain (connection : result unit Error) (completed : list (Z * F))
    (seconds : F) (docker : Docker) (w : W) : outcome LoadResult :=
  invoke_count ← (n ← env var_os utf8 parse_u64 TARGET_INVOKE_COUNT_ENV; unwrap_option n);
  target_rate ← (n ← env var_os utf8 parse_u32 TARGET_RATE_ENV; unwrap_option n);
  collect ← env var_os utf8 parse_bool COLLECT_DOCKER_STATS_ENV;
  _ ← chunk_execution_duration target_rate;
  match connection with
  | Err e => Return (LoadFailed e)
  | Ok _ =>
      if decide (0 < invoke_count)%Z then
        let st := foldl invocation (mkLoad w [] 0 []) completed in
        if waiting invoke_count st then Return (LoadWaiting st)
        else
          let '(files, how) := report invoke_count seconds (latency_metric st)
            (if default false collect then Some docker else None) in
          Return (LoadEnded st files how)
      else Panic "Must schedule at least one invocation."
  end.

(** ** Facts *)
Lemma invocations_count completed st :
  (0 ≤ invoke_fulfillments st)%Z →
  (invoke_fulfillments st + Z.of_nat (length completed) < 2 ^ 64)%Z →
  invoke_fulfillments (foldl invocation st completed) =
    (invoke_fulfillments st + Z.of_nat (length completed))%Z.
Proof.
  revert st. induction completed as [|[c l] completed IH]; intros st Hpos Hmax; cbn [foldl length];
    [simpl; lia|]. cbn [length] in Hmax.
  assert (invoke_fulfillments (invocation st (c, l)) = (invoke_fulfillments st + 1)%Z) as Hone.
  { unfold invocation. destruct (api_invoke _ _ _ _). simpl. apply Z.mod_small. lia. }
  rewrite IH; rewrite Hone; lia.
Qed.

Lemma invocations_sampled completed st :
  latency_metric (foldl invocation st completed) =
    latency_metric st ++ (filter (λ t, t.1 `mod` SAMPLE_RATE = 0)%Z completed).*2.
Proof.
  revert st. induction completed as [|[c l] completed IH]; intros st; cbn [foldl].
  { by rewrite app_nil_r. }
  rewrite IH. unfold invocation at 1. destruct (api_invoke _ _ _ _). simpl.
  rewrite filter_cons. simpl. case_bool_decide; case_decide; try done.
  by rewrite <- (assoc (++)).
Qed.

Lemma summary_metric_total name unit samples :
  (∀ q l, quantile q l = None ↔ l = []) →
  match samples with
  | [] => ∃ m, summary_metric name unit samples = Panic m
  | _ => ∃ x, summary_metric name unit samples = Return x ∧ metric_name x = name
  end.
Proof.
  intros Hq. unfold summary_metric. destruct samples as [|x l].
  - rewrite (proj2 (Hq 50 []) eq_refl). by eexists.
  - destruct (quantile 50 (x :: l)) as [a|] eqn:Ea; [|by apply Hq in Ea].
    destruct (quantile 95 (x :: l)) as [b|] eqn:Eb; [|by apply Hq in Eb]. simpl. by eexists.
Qed.

(** With latencies, the metrics of the application are written; the docker metrics
    need samples and a mutex that is not poisoned. *)
Lemma report_ends invoke_count seconds latencies docker :
  (∀ q l, quantile q l = None ↔ l = []) → latencies ≠ [] →
  ∃ files how, report invoke_count seconds latencies docker = (files, how) ∧
    RESULT_FILE ∈ files.*1 ∧
    (how = Return tt ↔
       ∀ d, docker = Some d → cpu_poisoned d = false ∧
         cpu_usage_metric d ≠ [] ∧ memory_usage_metric d ≠ []).
Proof.
  intros Hq Hne. unfold report.
  pose proof (summary_metric_total "Latency" "Millisecond" latencies Hq) as Hl.
  destruct latencies as [|x l]; [done|]. destruct Hl as (latency & -> & _).
  assert (∀ m : string, (Panic m : outcome unit) = Return tt ↔ False) as Hpanic by (split; done).
  destruct docker as [d|]; [|do 2 eexists; split_and!; [done|set_solver|done]].
  destruct (cpu_poisoned d) eqn:Hp; [do 2 eexists; split_and!; [done|set_solver|]|].
  { rewrite Hpanic. split; [done|]. intros Hd. destruct (Hd d eq_refl) as [? _]. congruence. }
  pose proof (summary_metric_total "CPU Usage" "Percent" (cpu_usage_metric d) Hq) as Hcpu.
  pose proof (summary_metric_total "Memory Usage" "Bytes" (memory_usage_metric d) Hq) as Hmem.
  destruct (cpu_usage_metric d) as [|c cs] eqn:Ec.
  { destruct Hcpu as [m ->]. simpl. do 2 eexists. split_and!; [done|set_solver|].
    rewrite Hpanic. split; [done|]. intros Hd. by destruct (Hd d eq_refl) as (_ & ? & _). }
  destruct Hcpu as (mc & -> & _). simpl.
  destruct (memory_usage_metric d) as [|m ms] eqn:Em.
  { destruct Hmem as [msg ->]. simpl. do 2 eexists. split_and!; [done|set_solver|].
    rewrite Hpanic. split; [done|]. intros Hd. by destruct (Hd d eq_refl) as (_ & _ & ?). }
  destruct Hmem as (mm & -> & _). simpl. do 2 eexists. split_and!; [done|set_solver|].
  split; [|done]. intros _ d' [= <-]. by rewrite Hp, Ec, Em.
Qed.

(** The load test waits for its invocations and reports.  With a positive count, a
    rate that is not zero and a connection: while fewer tasks have completed than were
    scheduled it is still waiting; once all of them have, in any order and whatever
    their results, it ends and has written the metrics of the application.  Without
    Docker statistics it then succeeds; with them it succeeds if and only if a sample
    of the processor and one of the memory was collected and no panic poisoned their
    mutex, and panics otherwise. *)
Theorem load_test_reports invoke_count target_rate collect connected completed seconds docker (w : W) :
  (∀ q l, quantile q l = None ↔ l = []) →
  env var_os utf8 parse_u64 TARGET_INVOKE_COUNT_ENV = Return (Some invoke_count) →
  env var_os utf8 parse_u32 TARGET_RATE_ENV = Return (Some target_rate) →
  env var_os utf8 parse_bool COLLECT_DOCKER_STATS_ENV = Return collect →
  (0 < invoke_count < 2 ^ 64)%Z → target_rate ≠ 0%Z → connected = Ok tt →
  completed.*1 ⊆+ schedule invoke_count →
  if decide (Z.of_nat (length completed) < invoke_count)%Z then
    ∃ st, lt_consumer_wain connected completed seconds docker w = Return (LoadWaiting st)
  else
    ∃ st files how,
      lt_consumer_wain connected completed seconds docker w = Return (LoadEnded st files how) ∧
      RESULT_FILE ∈ files.*1 ∧
      (how = Return tt ↔
         (collect = Some true → cpu_poisoned docker = false ∧
            cpu_usage_metric docker ≠ [] ∧ memory_usage_metric docker ≠ [])).
Proof.
  intros Hq Hc Hr Hd Hcount Hrate -> Hsub. unfold lt_consumer_wain.
  rewrite Hc. cbn [mbind outcome_bind unwrap_option]. rewrite Hr. cbn [mbind outcome_bind unwrap_option].
  rewrite Hd. cbn [mbind outcome_bind]. unfold chunk_execution_duration.
  rewrite (decide_False (P := target_rate = 0%Z)) by done. cbn [mbind outcome_bind].
  rewrite (decide_True (P := (0 < invoke_count)%Z)) by lia.
  pose proof (submseteq_length _ _ Hsub) as Hlen. rewrite length_fmap, schedule_eq, length_seqZ in Hlen by lia.
  set (st := foldl invocation _ completed).
  assert (invoke_fulfillments st = Z.of_nat (length completed)) as Hn.
  { unfold st. rewrite invocations_count; simpl; lia. }
  unfold waiting. rewrite Hn. case_decide as Hlt.
  { rewrite bool_decide_true by done. by eexists. }
  rewrite bool_decide_false by done.
  assert (latency_metric st ≠ []) as Hlat.
  { unfold st. rewrite invocations_sampled. cbn [latency_metric app].
    assert (0%Z ∈ completed.*1) as ([c x] & Hx & Hin)%list_elem_of_fmap.
    { rewrite (submseteq_length_Permutation _ _ Hsub).
      - rewrite schedule_eq by lia. apply elem_of_seqZ. lia.
      - rewrite length_fmap, schedule_eq, length_seqZ by lia. lia. }
    simpl in Hx. subst c. intros Hnil%fmap_nil_inv.
    apply (filter_nil_not_elem_of _ _ (0%Z, x)) in Hnil; [by destruct Hnil|done]. }
  destruct (report_ends invoke_count seconds (latency_metric st)
    (if default false collect then Some docker else None) Hq Hlat) as (files & how & E & Hf & Hhow).
  rewrite E. do 3 eexists. split_and!; [done|done|]. rewrite Hhow.
  destruct collect as [[]|]; simpl; naive_solver.
Qed.
End tasks.
End load_test.

(** ** Witness: statistics are asked for, but Docker cannot be reached *)
Module LoadWitnesses.
#[local] Instance no_answer : Communication unit := λ _ _ w, (Err (Error_new "down"), w).

Definition var (name : string) : option string :=
  if decide (name = TARGET_INVOKE_COUNT_ENV) then Some "2"
  else if decide (name = TARGET_RATE_ENV) then Some "100"
  else if decide (name = COLLECT_DOCKER_STATS_ENV) then Some "true" else None.
Definition valid (_ : string) : bool := true.
Definition first_sample (_ : nat) (l : list Z) : option Z := head l.
Definition no_docker : Docker (F := Z) :=
  (evaluate_docker_stats (λ _ _ _, 0%Z) (λ m, m) true (Err (Error_new "no socket")) (Ok tt) []).1.
(** The second invocation completes first. *)
Definition completed : list (Z * Z) := [(1, 12); (0, 7)]%Z.
Definition ran : outcome (LoadResult (F := Z) (W := unit)) :=
  lt_consumer_wain (λ x, x) (λ _, "7") (λ n _, n) first_sample var valid (Ok tt) completed 1%Z no_docker tt.

Lemma load_test_reports_witness :
  ∃ st files how, ran = Return (LoadEnded st files how) ∧ RESULT_FILE ∈ files.*1 ∧ how ≠ Return tt.
Proof.
  pose proof (load_test_reports (λ x, x) (λ _, "7") (λ n _, n) first_sample var valid 2 100 (Some true)
    (Ok tt) completed 1%Z no_docker tt) as Hr.
  assert (∀ q l, first_sample q l = None ↔ l = []) as Hq by (intros q []; done).
  specialize (Hr Hq eq_refl eq_refl eq_refl ltac:(lia) ltac:(lia) eq_refl).
  rewrite decide_False in Hr by (vm_compute; discriminate).
  destruct Hr as (st & files & how & E & Hf & Hhow).
  { apply Permutation_submseteq. change (schedule 2) with [0; 1]%Z. apply perm_swap. }
  exists st, files, how. split; [exact E|]. split; [exact Hf|]. intros Hok.
  destruct (proj1 Hhow Hok eq_refl) as (_ & Hcpu & _). by apply Hcpu.
Defined.
End LoadWitnesses.
