(* ===== verification/TestSupport.v ===== *)
(** * The test support of the source

    The assertions of Rust's test harness as computations that panic, the
    builders of [registry.rs] that every test module uses, and the mock observer
    that records what a registry reports.  [RegistryTests], [BrokerTests] and
    [EssTests] replay the unit tests of the source on the model with them. *)

From S2P Require Import Prelude RustStd Common Registry.

(** ** Assertions *)
Definition assert (b : bool) : outcome unit :=
  if b then Return tt else Panic "assertion failed".
Definition assert_eq {A} `{EqDecision A} (expected actual : A) : outcome unit :=
  assert (bool_decide (expected = actual)).
Definition unwrap_err {T E} (r : result T E) : outcome E :=
  match r with
  | Err e => Return e
  | Ok _ => Panic "called `Result::unwrap_err()` on an `Ok` value"
  end.
Definition is_err {T E} (r : result T E) : bool :=
  match r with Err _ => true | Ok _ => false end.

(** [#[should_panic = message]]. *)
Definition should_panic {A} (message : string) (o : outcome A) : outcome unit :=
  match o with
  | Panic m => assert_eq message m
  | Return _ => Panic "test did not panic as expected"
  end.

(** A suite passes when every one of its tests returns. *)
Definition run_suite (suite : list (outcome unit)) : outcome unit :=
  for_each (λ _ test, test) tt suite.

Lemma run_suite_passes suite : run_suite suite = Return tt ↔ Forall (eq (Return tt)) suite.
Proof.
  unfold run_suite. induction suite as [|t suite IH]; simpl; [by rewrite Forall_nil|].
  rewrite Forall_cons, <- IH. destruct t as [[]|m]; simpl; naive_solver.
Qed.

Section support.
Context `{!UrlLib, !HashOrder}.

(** ** [ServiceConfigurationBuilder] *)
Definition parse_url (s : string) : outcome Url := unwrap_option (url_parse s).

Definition service_with_nonce (nonce : string) : outcome ServiceConfiguration :=
  u ← parse_url ("http://service-" +:+ nonce);
  Return (mkServiceConfiguration (mkServiceId ("mock-service-" +:+ nonce) "0.1.0") u Cloud).
Definition service_new : outcome ServiceConfiguration := service_with_nonce "0".
Definition service_dispense (nonces : list string) : outcome (list ServiceConfiguration) :=
  map_outcome service_with_nonce nonces.
Definition service_version (s : ServiceConfiguration) (version : string) : ServiceConfiguration :=
  mkServiceConfiguration (mkServiceId (sid_name (sc_id s)) version) (url s) (locality s).
Definition service_name (s : ServiceConfiguration) (name : string) : ServiceConfiguration :=
  mkServiceConfiguration (mkServiceId name (sid_version (sc_id s))) (url s) (locality s).
Definition service_url (s : ServiceConfiguration) (text : string) : outcome ServiceConfiguration :=
  u ← parse_url text; Return (mkServiceConfiguration (sc_id s) u (locality s)).
Definition service_locality (s : ServiceConfiguration) (l : ExecutionLocality)
    : ServiceConfiguration := mkServiceConfiguration (sc_id s) (url s) l.

(** ** [IntentConfigurationBuilder] *)
Definition intent_with_nonce (nonce : string) : IntentConfiguration :=
  mkIntentConfiguration ("namespace-" +:+ nonce) Discover.
Definition intent_new : IntentConfiguration := intent_with_nonce "0".
Definition intent_dispense (nonces : list string) : list IntentConfiguration :=
  intent_with_nonce <$> nonces.
Definition intent_namespace (i : IntentConfiguration) (ns : string) : IntentConfiguration :=
  mkIntentConfiguration ns (intent i).

(** ** [MockBroker] *)
Inductive ChangeSnapshot :=
  | SnapAdd (ic : IntentConfiguration) (services : list ServiceConfiguration)
  | SnapModify (ic : IntentConfiguration) (services : list ServiceConfiguration)
  | SnapRemove (ic : IntentConfiguration).

(** The mock broker is a handle to its vector of refresh calls. *)
Inductive MockBroker := mock_broker.
Definition refresh_calls : Type := list (list ChangeSnapshot).

Definition change_snapshot (c : Change) : ChangeSnapshot :=
  match c with
  | Add ic services => SnapAdd ic (set_iter services)
  | Modify ic services => SnapModify ic (set_iter services)
  | Remove ic => SnapRemove ic
  end.

#[export] Instance MockBroker_observer : Observer refresh_calls MockBroker :=
  λ _ changes calls, Return (calls ++ [change_snapshot <$> changes]).

Definition snapshot_intent (c : ChangeSnapshot) : IntentConfiguration :=
  match c with SnapAdd ic _ => ic | SnapModify ic _ => ic | SnapRemove ic => ic end.

Definition filter_map_change {A} (calls : refresh_calls) (expected_intent : IntentConfiguration)
    (filter_map : ChangeSnapshot → option A) : option A :=
  head (omap (λ c, if decide (snapshot_intent c = expected_intent) then filter_map c else None)
          (mjoin calls)).

(** The assertions with a closure hand over the services the closure inspects. *)
Definition assert_modified (calls : refresh_calls) (ic : IntentConfiguration)
    : outcome (list ServiceConfiguration) :=
  match filter_map_change calls ic
          (λ c, match c with SnapModify _ s => Some s | _ => None end) with
  | Some s => Return s
  | None => Panic "Expected one modification."
  end.
Definition assert_added (calls : refresh_calls) (ic : IntentConfiguration)
    : outcome (list ServiceConfiguration) :=
  match filter_map_change calls ic
          (λ c, match c with SnapAdd _ s => Some s | _ => None end) with
  | Some s => Return s
  | None => Panic "Expected one addition."
  end.
Definition assert_removed (calls : refresh_calls) (ic : IntentConfiguration) : outcome unit :=
  match filter_map_change calls ic
          (λ c, match c with SnapRemove _ => Some tt | _ => None end) with
  | Some _ => Return tt
  | None => Panic "Expected one removal."
  end.
Definition assert_number_of_changes (calls : refresh_calls) (expected : list nat) : outcome unit :=
  _ ← assert_eq (length expected) (length calls);
  for_each (λ _ '(n, changes), assert_eq n (length (changes : list ChangeSnapshot))) tt
    (zip expected calls).
End support.
