(* ===== verification/RegistryTests.v ===== *)
(** * The unit tests of [intent_brokering/src/registry.rs], replayed

    Each test of the source is a computation that panics when an assertion
    fails.  [now] is what [Instant::now] answers during a test, and the tests are
    written for any URL library and any iteration order; the suite is evaluated
    at the end for two orders. *)

From stdpp Require Import pretty.
From S2P Require Import Prelude RustStd Common Registry TestSupport.

Section tests.
Context `{!UrlLib, !HashOrder} (now : Z).
Abbreviation registry := (Registry MockBroker).

Definition create_registry : registry := Registry_new mock_broker Config_default.

(** [registry.upsert(..).unwrap()]. *)
Definition upsert_unwrap (r : registry) (s : ServiceConfiguration)
    (intents : list IntentConfiguration) (time : Z) (calls : refresh_calls)
    : outcome (registry * refresh_calls) :=
  '(res, r, calls) ← upsert r s intents time calls;
  _ ← unwrap res;
  Return (r, calls).

(** [Setup] and [Setup::build]; the recorded calls are cleared. *)
Definition setup_intents : list IntentConfiguration := [intent_new].
Definition setup_build : outcome registry :=
  s ← service_new;
  '(r, _) ← upsert_unwrap create_registry s setup_intents now [];
  Return r.

Definition default_config : outcome unit :=
  assert_eq (duration_from_secs 15) (entry_ttl Config_default).

Definition config_set_entry_ttl_sets_new_value : outcome unit :=
  let config := Config_default in
  let new_ttl := (entry_ttl config + duration_from_secs 60)%Z in
  assert_eq new_ttl (entry_ttl (set_entry_ttl_bounded config new_ttl)).

Definition config_set_entry_ttl_sets_min_allowed_if_new_value_is_too_small : outcome unit :=
  let new_ttl := (ENTRY_TTL_MIN - 1)%Z in
  assert_eq ENTRY_TTL_MIN (entry_ttl (set_entry_ttl_bounded Config_default new_ttl)).

Definition when_upserting_contains_service : outcome unit :=
  service ← service_new;
  '(r, _) ← upsert_unwrap create_registry service [intent_new] now [];
  assert (has_service r service).

Definition when_upserting_empty_caches_service : outcome unit :=
  service ← service_new;
  '(r, calls) ← upsert_unwrap create_registry service [] now [];
  _ ← assert (has_service r service);
  assert_eq 0 (length calls).

Definition when_upserting_refreshes_broker_with_updated_service_configurations : outcome unit :=
  registry ← setup_build;
  setup_service ← service_new;
  service ← service_with_nonce "2";
  '(_, calls) ← upsert_unwrap registry service setup_intents now [];
  _ ← assert_number_of_changes calls [1];
  actual_services ← assert_modified calls intent_new;
  _ ← assert (bool_decide (setup_service ∈ actual_services));
  assert (bool_decide (service ∈ actual_services)).

Definition when_upserting_with_different_url_prunes_old_instance_and_refreshes_broker
    : outcome unit :=
  registry ← setup_build;
  service ← service_new;
  updated_service ← service_url service "http://updated_url";
  '(r, calls) ← upsert_unwrap registry updated_service setup_intents now [];
  _ ← assert (has_service r updated_service);
  _ ← assert (negb (has_service r service));
  _ ← assert_number_of_changes calls [1];
  services ← assert_modified calls intent_new;
  assert_eq [updated_service] services.

Definition when_upserting_with_different_versions_should_be_treated_as_different_services
    : outcome unit :=
  registry ← setup_build;
  service ← service_new;
  let updated_service := service_version service "10.30.40" in
  '(r, calls) ← upsert_unwrap registry updated_service setup_intents now [];
  _ ← assert (has_service r service);
  _ ← assert (has_service r updated_service);
  actual_services ← assert_modified calls intent_new;
  _ ← assert (bool_decide (service ∈ actual_services));
  assert (bool_decide (updated_service ∈ actual_services)).

Definition when_service_reregisters_refreshes_all_affected_registrations_in_broker
    : outcome unit :=
  service_a ← service_with_nonce "A";
  service_b ← service_with_nonce "B";
  service_a_reregistration ← service_url service_a "http://service-a-new";
  let intent_1 := intent_with_nonce "1" in
  let intent_2 := intent_with_nonce "2" in
  '(r, calls) ← upsert_unwrap create_registry service_a [intent_1] now [];
  '(r, _) ← upsert_unwrap r service_b [intent_1] now calls;
  '(r, calls) ← upsert_unwrap r service_a_reregistration [intent_2] now [];
  _ ← assert_number_of_changes calls [2];
  modified ← assert_modified calls intent_1;
  _ ← assert_eq [service_b] modified;
  added ← assert_added calls intent_2;
  _ ← assert_eq [service_a_reregistration] added;
  _ ← assert (has_service r service_a_reregistration);
  assert (negb (has_service r service_a)).

Definition when_upserting_same_service_with_new_intents_prunes_old_intent : outcome unit :=
  registry ← setup_build;
  service ← service_new;
  let reregistration_intent := mkIntentConfiguration "some_other_namespace" Read in
  '(_, calls) ← upsert_unwrap registry service [reregistration_intent] now [];
  assert_removed calls intent_new.

Definition when_upserting_same_intent_twice_is_idempotent : outcome unit :=
  let intent := intent_new in
  service ← service_new;
  '(r, calls) ← upsert_unwrap create_registry service [intent; intent] now [];
  _ ← assert (has_service r service);
  services ← assert_added calls intent;
  _ ← assert_eq 1 (length services);
  assert_eq [service] services.

Definition upserting_system_binding (ns : string) : outcome unit :=
  service ← service_new;
  '(res, _, _) ← upsert create_registry service [intent_namespace intent_new ns] now [];
  assert (is_err res).
Definition when_upserting_system_binding_returns_error : outcome unit :=
  run_suite (upserting_system_binding <$>
    ["system"; "system.registry"; "system.foo"; "system."; "System"; "SYSTEM"; "SYSTEM.Registry"]).

(** The registrations of [prune_schedule], at the given seconds since the epoch. *)
Definition register_at (seconds : list Z) : outcome (registry * refresh_calls) :=
  services ← service_dispense (pretty <$> seq 1 (length seconds));
  let intents := intent_dispense (pretty <$> seq 1 (length seconds)) in
  for_each (λ '(r, calls) '(service, intent, s),
      t ← instant_add now (duration_from_secs s);
      upsert_unwrap r service [intent] t calls)
    (create_registry, []) (zip (zip services intents) seconds).

Definition prune_schedule (expected_specificity : Specificity)
    (expected_seconds_since_prune prune_seconds : Z) (seconds : list Z) : outcome unit :=
  '(r, calls) ← register_at seconds;
  prune_time ← instant_add now (duration_from_secs prune_seconds);
  '(specificity, t, _, _) ← prune r prune_time calls;
  _ ← assert_eq expected_specificity specificity;
  assert_eq expected_seconds_since_prune (duration_since t prune_time / NANOS_PER_SEC)%Z.

Definition prune_removes_expired_services (first_registration_since_epoch
    second_since_first_registration prune_since_second_registration : Z)
    (expect_first_registered expect_second_registered : bool) : outcome unit :=
  services ← service_dispense ["a"; "b"];
  first_service ← unwrap_option (services !! 0);
  second_service ← unwrap_option (services !! 1);
  let first_intent := intent_with_nonce "a" in
  let second_intent := intent_with_nonce "b" in
  time ← instant_add now (duration_from_secs first_registration_since_epoch);
  '(r, calls) ← upsert_unwrap create_registry first_service [first_intent] time [];
  time ← instant_add time (duration_from_secs second_since_first_registration);
  '(r, _) ← upsert_unwrap r second_service [second_intent] time calls;
  time ← instant_add time (duration_from_secs prune_since_second_registration);
  '(_, _, r, calls) ← prune r time [];
  _ ← assert_eq expect_first_registered (has_service r first_service);
  _ ← assert_eq expect_second_registered (has_service r second_service);
  _ ← assert_number_of_changes calls
        (match expect_first_registered, expect_second_registered with
         | true, true => []
         | true, false => [1]
         | false, true => [1]
         | false, false => [2]
         end);
  _ ← (if negb expect_first_registered then assert_removed calls first_intent else Return tt);
  if negb expect_second_registered then assert_removed calls second_intent else Return tt.

Definition touch_returns_false_if_service_is_unregistered : outcome unit :=
  service ← service_new;
  assert (negb (touch create_registry service now).1).

Definition touch_updates_timestamp : outcome unit :=
  service ← service_new;
  '(r, calls) ← upsert_unwrap create_registry service [intent_new] now [];
  now ← instant_add now (duration_from_secs 10);
  '(_, _, r, calls) ← prune r now calls;
  let '(found1, r) := touch r service now in
  now ← instant_add now (duration_from_secs 15);
  '(_, _, r, calls) ← prune r now calls;
  let '(found2, r) := touch r service now in
  _ ← assert found1;
  assert found2.

Definition test_create_new_service_configuration : outcome unit :=
  u ← parse_url "http://foo";
  let service := mkServiceConfiguration (mkServiceId "name" "version") u Local in
  _ ← assert_eq (sid_name (sc_id service)) "name";
  _ ← assert_eq (sid_version (sc_id service)) "version";
  _ ← assert_eq (url service) u;
  assert_eq (locality service) Local.

Definition test_create_new_intent_configuration : outcome unit :=
  let ic := mkIntentConfiguration "namespace" Discover in
  _ ← assert_eq (namespace ic) "namespace";
  assert_eq (intent ic) Discover.

Definition service_id_returns_name_and_version : outcome unit :=
  let service := mkServiceId "name" "1.0.0" in
  _ ← assert_eq "name" (sid_name service);
  assert_eq "1.0.0" (sid_version service).

Definition intent_kind_display_succeeds : outcome unit :=
  run_suite ((λ '(expected, kind), assert_eq expected (IntentKind_to_string kind)) <$>
    [("discover", Discover); ("inspect", Inspect); ("read", Read); ("write", Write);
     ("invoke", Invoke); ("subscribe", Subscribe)]).

(** The two flags of [composite_observes_both_inner_observers]; each
    [TestObserver] is a reference to its own flag. *)
Inductive TestObserver := left_flag | right_flag.
#[local] Instance TestObserver_observer : Observer (bool * bool) TestObserver :=
  λ o _ '(l, r), Return (match o with left_flag => (true, r) | right_flag => (l, true) end).
Definition composite_observes_both_inner_observers : outcome unit :=
  let subject := mkComposite _ _ left_flag right_flag in
  '(l, r) ← on_change subject [] (false, false);
  _ ← assert l;
  assert r.

Definition registry_suite : list (outcome unit) :=
  [default_config;
   config_set_entry_ttl_sets_new_value;
   config_set_entry_ttl_sets_min_allowed_if_new_value_is_too_small;
   when_upserting_contains_service;
   when_upserting_empty_caches_service;
   when_upserting_refreshes_broker_with_updated_service_configurations;
   when_upserting_with_different_url_prunes_old_instance_and_refreshes_broker;
   when_upserting_with_different_versions_should_be_treated_as_different_services;
   when_service_reregisters_refreshes_all_affected_registrations_in_broker;
   when_upserting_same_service_with_new_intents_prunes_old_intent;
   when_upserting_same_intent_twice_is_idempotent;
   when_upserting_system_binding_returns_error;
   prune_schedule Default 15 0 [];
   prune_schedule Default 15 5 [];
   prune_schedule Default 15 15 [];
   prune_schedule Specific 17 0 [6; 2; 4]%Z;
   prune_schedule Specific 7 10 [6; 2; 4]%Z;
   prune_removes_expired_services 0 0 15 true true;
   prune_removes_expired_services 0 0 16 false false;
   prune_removes_expired_services 0 20 5 false true;
   prune_removes_expired_services 0 20 10 false true;
   prune_removes_expired_services 0 20 15 false true;
   prune_removes_expired_services 0 20 16 false false;
   touch_returns_false_if_service_is_unregistered;
   touch_updates_timestamp;
   test_create_new_service_configuration;
   test_create_new_intent_configuration;
   service_id_returns_name_and_version;
   intent_kind_display_succeeds;
   composite_observes_both_inner_observers].
End tests.

(** Every unit test of [registry.rs] passes, whichever way hash maps are
    iterated and early or late in the range of [Instant]. *)
Example registry_suite_passes :
  Forall (λ '(order, now), run_suite (@registry_suite string_url order now) = Return tt)
    [(canonical_order, 0%Z); (reversed_order, 0%Z);
     (canonical_order, duration_from_secs 1000000); (reversed_order, 123456789%Z)].
Proof. repeat (apply Forall_cons; split; [vm_compute; reflexivity|]); constructor. Qed.
