(* ===== verification/BrokerTests.v ===== *)
(** * The unit tests of the broker and of its server, replayed

    The tests of [intent_broker.rs], [intent_brokering_grpc.rs] and
    [connection_provider.rs], and those of [execution.rs], except the ones through
    the binding that is compiled for tests only.  They are written for any URL
    library, iteration order, transport and channels; the suite is evaluated at
    the end in a concrete setting. *)

From S2P Require Import Prelude RustStd Common Proto Query QueryFacts Registry.
From S2P Require Import Ess EssSample StreamingEss Connection Execution Broker.
From S2P Require Import Server TestSupport.

Definition str_contains (needle s : string) : bool :=
  bool_decide (is_Some (String.index 0 needle s)).

(** ** connection_provider.rs

    [MockProvider] counts nothing itself: a connection is the index of a counter
    [fulfill_count] that [connect] allocates and [fulfill] increments. *)
Module MockConnection.
Inductive MockProvider := mock_provider.
Inductive MockConnectedProvider := fulfill_count (i : nat).

#[export] Instance MockProvider_connection `{!UrlLib} :
    ConnectionProvider (list nat) MockProvider MockConnectedProvider := {|
  provider_new _ w := (mock_provider, w);
  connect p w := (Ok (fulfill_count (length w)), p, w ++ [0])
|}.
#[export] Instance MockConnectedProvider_connected :
    ConnectedProvider (list nat) MockConnectedProvider :=
  λ '(fulfill_count i) _ w, (Err (Error_new "Not implemented"), alter S i w).

Section test.
Context `{!UrlLib}.

Definition fulfill_any (provider : MockConnectedProvider)
    (w : list (option MockConnectedProvider) * list nat)
    : outcome (list (option MockConnectedProvider) * list nat) :=
  let '(res, w) := fulfill_provider provider (mkProviderFulfillRequest None) w in
  _ ← unwrap_err res;
  Return w.

Definition reusable_provider_when_already_connected_reuses_provider : outcome unit :=
  u ← parse_url "https://contoso.com";
  let '(subject, w) := reusable_new (T := MockProvider) u ([], []) in
  let '(first, subject, w) := reusable_connect subject w in
  first ← unwrap first;
  let '(second, subject, w) := reusable_connect subject w in
  second ← unwrap second;
  let '(third, subject, w) := reusable_connect subject w in
  third ← unwrap third;
  w ← fulfill_any first w;
  w ← fulfill_any second w;
  w ← fulfill_any third w;
  let '(fulfill_count i) := first in
  assert_eq (Some 3) (w.2 !! i).
End test.
End MockConnection.

Section tests.
Context `{!UrlLib, !HashOrder, !RegexLib, !Transport} `{!Channels unit (result Event Status)}.
(** The network and the channels a test starts with, and the time it reads. *)
Context (n : net) (ch : chans) (now : Z).
Abbreviation Provider := (ReusableProvider GrpcProvider).

Definition test_broker : outcome (IntentBroker * World) :=
  u ← parse_url "https://localhost:4243";
  Return (IntentBroker_new u the_streaming_ess ([], n) (StreamingEss_new ch)).

(** ** intent_broker.rs *)
Definition broker_on_change (broker : IntentBroker) (changes : list Change) (w : World)
    : outcome World := on_change broker changes w.

Record Setup := mkSetup { st_intent : IntentConfiguration; st_service : ServiceConfiguration }.
Definition Setup_new : outcome Setup :=
  service ← service_new; Return (mkSetup intent_new service).
Definition Setup_build (s : Setup) : outcome (IntentBroker * World) :=
  '(broker, w) ← test_broker;
  w ← broker_on_change broker [Add (st_intent s) {[st_service s]}] w;
  Return (broker, w).
Definition Setup_execution_locality (s : Setup) (l : ExecutionLocality) : Setup :=
  mkSetup (st_intent s) (service_locality (st_service s) l).
Definition Setup_service_name (s : Setup) (name : string) : Setup :=
  mkSetup (st_intent s) (service_name (st_service s) name).
Definition Setup_combine (setups : list Setup) : outcome (IntentBroker * World) :=
  '(broker, w) ← test_broker;
  let services_by_intent := group ((λ s, (st_intent s, st_service s)) <$> setups) in
  w ← for_each (λ w '(intent, services), broker_on_change broker [Add intent (list_to_set services)] w)
        w (map_iter services_by_intent);
  Return (broker, w).

(** The assertions on a binding hand over the URLs their closures inspect. *)
Definition assert_grpc_binding (actual : RuntimeBinding Provider) : outcome Url :=
  match actual with
  | Remote p => Return (grpc_url (inner p))
  | _ => Panic "explicit panic"
  end.
Definition assert_remote_fallback_binding (actual : RuntimeBinding Provider)
    : outcome (Url * Url) :=
  match actual with
  | Fallback (Remote primary) (Remote secondary) =>
      Return (grpc_url (inner primary), grpc_url (inner secondary))
  | _ => Panic "explicit panic"
  end.
Definition assert_unresolved (broker : IntentBroker) (ic : IntentConfiguration) (w : World)
    : outcome unit :=
  match resolve broker ic w with None => Return tt | Some _ => Panic "assertion failed" end.

Definition when_empty_does_not_resolve : outcome unit :=
  '(subject, w) ← test_broker;
  assert_unresolved subject intent_new w.

Definition when_broker_contains_different_intent_does_not_resolve : outcome unit :=
  setup ← Setup_new;
  '(subject, w) ← Setup_build setup;
  assert_unresolved subject (intent_with_nonce "2") w.

Definition when_modifying_with_empty_services_does_no_longer_resolve_intent : outcome unit :=
  setup ← Setup_new;
  '(subject, w) ← Setup_build setup;
  w ← broker_on_change subject [Modify (st_intent setup) ∅] w;
  assert_unresolved subject (st_intent setup) w.

Definition when_removing_does_no_longer_resolve_intent : outcome unit :=
  setup ← Setup_new;
  '(subject, w) ← Setup_build setup;
  w ← broker_on_change subject [Remove (st_intent setup)] w;
  assert_unresolved subject (st_intent setup) w.

Definition when_resolve_if_services_are_cloud_and_local_returns_fallback : outcome unit :=
  setup ← Setup_new;
  let build l name := Setup_service_name (Setup_execution_locality setup l) name in
  let loc := build Local "A" in
  let cloud := build Cloud "B" in
  '(subject, w) ← Setup_combine [loc; cloud];
  binding ← unwrap_option (resolve subject (st_intent loc) w);
  '(primary, secondary) ← assert_remote_fallback_binding binding;
  _ ← assert_eq (url (st_service cloud)) primary;
  assert_eq (url (st_service loc)) secondary.

Definition when_resolve_binding_if_multi_cloud_and_multi_local_returns_cloud_and_local_fallback
    : outcome unit :=
  let intent := intent_new in
  setups ← map_outcome (λ '(l, name),
      service ← service_new;
      service ← service_url (service_name service name) ("http://" +:+ name);
      Return (mkSetup intent (service_locality service l)))
    [(Local, "local1"); (Local, "local2"); (Cloud, "cloud1"); (Cloud, "cloud2")];
  '(subject, w) ← Setup_combine setups;
  result ← unwrap_option (resolve subject intent w);
  '(primary, secondary) ← assert_remote_fallback_binding result;
  _ ← assert (str_contains "cloud" (url_to_string primary));
  assert (str_contains "local" (url_to_string secondary)).

Definition single_locality (localities : list ExecutionLocality) : outcome unit :=
  let intent := intent_new in
  setups ← map_outcome (λ l,
      s ← Setup_new;
      Return (mkSetup intent (st_service (Setup_execution_locality s l)))) localities;
  '(subject, w) ← Setup_combine setups;
  result ← unwrap_option (resolve subject intent w);
  _ ← assert_grpc_binding result;
  Return tt.
Definition when_resolve_with_single_locality_is_remote : outcome unit :=
  run_suite (single_locality <$> [[Cloud]; [Cloud; Cloud]; [Local]; [Local; Local]]).

Definition resolve_system_registry_succeeds : outcome unit :=
  let intent := mkIntentConfiguration "system.registry" Inspect in
  setup ← Setup_new;
  '(subject, w) ← Setup_build setup;
  result ← unwrap_option (resolve subject intent w);
  match result with
  | SystemInspect context =>
      _ ← assert (bool_decide (intent ∈ context));
      assert (bool_decide (st_intent setup ∈ context))
  | _ => Panic "explicit panic"
  end.

Definition resolve_succeeds_for_system_discover : outcome unit :=
  setup ← Setup_new;
  '(subject, w) ← Setup_build setup;
  result ← unwrap_option (resolve subject (mkIntentConfiguration "system.registry" Discover) w);
  expected ← parse_url "https://localhost:4243";
  match result with
  | SystemDiscover u => assert_eq expected u
  | _ => Panic "explicit panic"
  end.

Definition resolve_succeeds_for_system_subscribe : outcome unit :=
  setup ← Setup_new;
  '(subject, w) ← Setup_build setup;
  result ← unwrap_option (resolve subject (mkIntentConfiguration "system.registry" Subscribe) w);
  match result with
  | SystemSubscribe _ => Return tt
  | _ => Panic "explicit panic"
  end.

Definition when_refreshing_does_not_depend_on_previous_state : outcome unit :=
  setup ← Setup_new;
  service_b ← service_url (st_service setup) "http://service_b";
  '(subject, w) ← Setup_build setup;
  w ← broker_on_change subject [Modify (st_intent setup) {[service_b]}] w;
  result ← unwrap_option (resolve subject (st_intent setup) w);
  u ← assert_grpc_binding result;
  expected ← parse_url "http://service_b";
  assert_eq expected u.

(** ** execution.rs *)
Abbreviation execute_binding := (execute (T := GrpcProvider) (W := net) (C := channel)).
Definition streaming_start : net * StreamingEss (T := unit) := (n, StreamingEss_new ch).
Definition empty_intent : IntentMessage := mkIntentMessage None.

Definition system_inspect_binding_fails_with_non_supported_intent : outcome unit :=
  should_panic "An intent other than 'Inspect' was resolved to 'SystemInspect'."
    (execute_binding (SystemInspect []) empty_intent streaming_start).

Definition execute_system_inspect (q : string) (intents : list IntentConfiguration)
    : outcome (list InspectEntry) :=
  '(response, _) ← execute_binding (SystemInspect intents)
      (mkIntentMessage (Some (IInspect (mkInspectIntent q)))) streaming_start;
  response ← unwrap response;
  f ← unwrap_option (fulfillment response);
  match fulfillment_enum f with
  | Some (FInspect i) => Return (entries i)
  | _ => Panic "Wrong fulfillment"
  end.

(** [assert_group] and [assert_group_is_none] of the test. *)
Definition assert_group (inspection_items : list InspectEntry) (group_name : string)
    (expected_intents : list string) : outcome unit :=
  entry ← unwrap_option (head (filter (λ e, path e = group_name) inspection_items));
  item ← unwrap_option (items entry !! REGISTERED_INTENTS_KEY);
  v ← unwrap_option (value item);
  l ← match v with VList l => Return l | _ => Panic "Not correct fulfillment" end;
  actual_intents ← map_outcome (λ m,
      v ← unwrap_option (value m);
      match v with VString s => Return s | _ => Panic "Not correct fulfillment" end) l;
  for_each (λ _ expected, assert (existsb (eq_ignore_ascii_case expected) actual_intents))
    tt expected_intents.
Definition assert_group_is_none (inspection_items : list InspectEntry) (group_name : string)
    : outcome unit :=
  assert (negb (existsb (λ e, eq_ignore_ascii_case (path e) group_name) inspection_items)).

Definition system_inspect_test (q : string) (expected_namespaces : list string) : outcome unit :=
  inspection_items ← execute_system_inspect q
    [mkIntentConfiguration "foo" Inspect; mkIntentConfiguration "foo" Discover;
     mkIntentConfiguration "bar" Discover; mkIntentConfiguration "baz" Invoke];
  for_each (λ _ '(ns, expected_intents),
      if decide (ns ∈ expected_namespaces)
      then assert_group inspection_items ns expected_intents
      else assert_group_is_none inspection_items ns) tt
    [("foo", ["Inspect"; "Discover"]); ("bar", ["Discover"]); ("baz", ["Invoke"])].
Definition system_inspect_binding_succeeds : outcome unit :=
  run_suite
    [system_inspect_test "*" ["foo"; "bar"; "baz"];
     system_inspect_test "**" ["foo"; "bar"; "baz"];
     system_inspect_test "bar" ["bar"];
     system_inspect_test "ba*" ["bar"; "baz"]].

Definition system_discover_binding_succeeds : outcome unit :=
  u ← parse_url "http://localhost:4243";
  '(result, _) ← execute_binding (SystemDiscover u) empty_intent streaming_start;
  response ← unwrap result;
  match fulfillment response with
  | Some (mkFulfillmentMessage (Some (FDiscover (mkDiscoverFulfillment [service])))) =>
      _ ← assert_eq (url_to_string u) (ds_url service);
      _ ← assert_eq "grpc+proto" (schema_kind service);
      _ ← assert_eq "intent_brokering.streaming.v1" (schema_reference service);
      assert_eq 0 (size (metadata service))
  | _ => Panic "assertion failed"
  end.

Definition system_subscribe_binding_fails_with_non_supported_intent : outcome unit :=
  should_panic "An intent other than 'Subscribe' was resolved to 'SystemSubscribe'."
    (execute_binding (SystemSubscribe the_streaming_ess) empty_intent streaming_start).

(** ** intent_brokering_grpc.rs *)
Abbreviation Server := (IntentBrokeringServer IntentBroker).
Definition setup_server : outcome (Server * World) :=
  '(broker, w) ← test_broker;
  Return (IntentBrokeringServer_new (Registry_new broker Config_default) broker, w).

Definition test_service : IntentServiceRegistration :=
  mkIntentServiceRegistration "test" "1.0" "http://test.com" 0.
Definition discover_registration (ns : string) : IntentRegistration :=
  mkIntentRegistration ns 0.
Definition create_announce_request : AnnounceRequest := mkAnnounceRequest (Some test_service).
Definition create_register_request : RegisterRequest :=
  mkRegisterRequest (Some test_service) (discover_registration <$> ["foo"; "bar"]).
Definition create_register_request_with_different_namespace : RegisterRequest :=
  mkRegisterRequest (Some test_service) (discover_registration <$> ["foo"; "bar"; "baz"]).

Definition register_unwrap (server : Server) (request : RegisterRequest) (w : World)
    : outcome (Server * World) :=
  '(response, server, w) ← register server request now w;
  _ ← unwrap response;
  Return (server, w).

Definition test_service_announcement : outcome unit :=
  '(server, _) ← setup_server;
  let '(response, _) := announce server create_announce_request now in
  response ← unwrap response;
  assert_eq (registration_state response) (RegistrationState_as_i32 Announced).

Definition test_register_service_with_intents : outcome unit :=
  '(server, w) ← setup_server;
  '(server, w) ← register_unwrap server create_register_request w;
  let '(response, _) := announce server create_announce_request now in
  response ← unwrap response;
  assert_eq (registration_state response) (RegistrationState_as_i32 NotChanged).

Definition test_register_service_twice_doesnt_throw_error : outcome unit :=
  '(server, w) ← setup_server;
  '(server, w) ← register_unwrap server create_register_request w;
  _ ← register_unwrap server create_register_request w;
  Return tt.

Definition test_register_service_twice_with_different_intents : outcome unit :=
  '(server, w) ← setup_server;
  '(server, w) ← register_unwrap server create_register_request w;
  _ ← assert_eq (count_external_intents (registry server)) 2;
  '(server, _) ← register_unwrap server create_register_request_with_different_namespace w;
  assert_eq (count_external_intents (registry server)) 3.

Definition when_registering_unknown_intent_should_return_invalid_argument_error : outcome unit :=
  '(subject, w) ← setup_server;
  let request := mkRegisterRequest (register_service create_register_request)
                   [mkIntentRegistration "test" (-1)] in
  '(result, _, _) ← register subject request now w;
  e ← unwrap_err result;
  assert_eq InvalidArgument (code e).

Definition intent_match_failure_are_caught : outcome unit :=
  assert (is_err (map_intent_value (-1))).

Definition test_intent_mappings : outcome unit :=
  run_suite ((λ '(intent_value, kind),
      k ← unwrap (map_intent_value intent_value); assert_eq k kind) <$>
    [(INTENT_MAPPING_DISCOVER, Discover); (INTENT_MAPPING_INSPECT, Inspect);
     (INTENT_MAPPING_READ, Read); (INTENT_MAPPING_WRITE, Write);
     (INTENT_MAPPING_INVOKE, Invoke); (INTENT_MAPPING_SUBSCRIBE, Subscribe)]).

Definition test_map_locality_value : outcome unit :=
  loc ← unwrap (map_locality_value 0);
  _ ← assert_eq loc Local;
  cloud ← unwrap (map_locality_value 1);
  _ ← assert_eq cloud Cloud;
  e ← unwrap_err (map_locality_value (-1));
  assert_eq (code e) InvalidArgument.

Definition fulfill_returns_error_if_intent_not_set : outcome unit :=
  '(subject, w) ← setup_server;
  '(result, _) ← fulfill subject (mkRuntimeFulfillRequest "system" None) w;
  e ← unwrap_err result;
  assert_eq InvalidArgument (code e).

Definition test_map_intent_variant : outcome unit :=
  run_suite ((λ '(intent, expected), assert_eq expected (map_intent_variant intent)) <$>
    [(IDiscover mkDiscoverIntent, Discover);
     (IInspect (mkInspectIntent ""), Inspect);
     (IRead (mkReadIntent ""), Read);
     (IWrite (mkWriteIntent "" None), Write);
     (IInvoke (mkInvokeIntent "" []), Invoke);
     (ISubscribe (mkSubscribeIntent "" []), Subscribe)]).

Definition broker_suite : list (outcome unit) :=
  [MockConnection.reusable_provider_when_already_connected_reuses_provider;
   when_empty_does_not_resolve;
   when_broker_contains_different_intent_does_not_resolve;
   when_modifying_with_empty_services_does_no_longer_resolve_intent;
   when_removing_does_no_longer_resolve_intent;
   when_resolve_if_services_are_cloud_and_local_returns_fallback;
   when_resolve_binding_if_multi_cloud_and_multi_local_returns_cloud_and_local_fallback;
   when_resolve_with_single_locality_is_remote;
   resolve_system_registry_succeeds;
   resolve_succeeds_for_system_discover;
   resolve_succeeds_for_system_subscribe;
   when_refreshing_does_not_depend_on_previous_state;
   system_inspect_binding_fails_with_non_supported_intent;
   system_inspect_binding_succeeds;
   system_discover_binding_succeeds;
   system_subscribe_binding_fails_with_non_supported_intent;
   test_service_announcement;
   test_register_service_with_intents;
   test_register_service_twice_doesnt_throw_error;
   test_register_service_twice_with_different_intents;
   when_registering_unknown_intent_should_return_invalid_argument_error;
   intent_match_failure_are_caught;
   test_intent_mappings;
   test_map_locality_value;
   fulfill_returns_error_if_intent_not_set;
   test_map_intent_variant].
End tests.

(** ** The suite in a concrete setting: no host can be reached *)
Definition unreachable_network : Transport := {|
  net := unit;
  channel := unit;
  client_connect _ w := (Err (Error_new "connection refused"), w);
  client_fulfill _ _ w := (Err (Error_new "connection refused"), w)
|}.

(** Every replayed test passes, whichever way hash maps are iterated. *)
Example broker_suite_passes :
  Forall (λ order,
      run_suite (@broker_suite string_url order fragment_regex unreachable_network
        (sample_channels unit (result Event Status)) tt
        (empty_store unit (result Event Status)) 0) = Return tt)
    [canonical_order; reversed_order].
Proof. repeat (apply Forall_cons; split; [vm_compute; reflexivity|]); constructor. Qed.
