(* ===== verification/EssTests.v ===== *)
(** * The unit tests of the event and streaming sub-systems, replayed

    The tests of [ess/src/ess.rs] and [common/src/streaming_ess.rs], and those of
    [registry.rs] and [execution.rs] that follow an event to the client's stream.
    They run on the channels of [EssSample], with a scheduler that serves each
    spawned task until nothing is left for it to receive, which is what the tests
    wait for with their sleeps and timeouts. *)

From S2P Require Import Prelude RustStd Common Proto Query QueryFacts Registry Ess.
From S2P Require Import EssSample.
From S2P Require Import StreamingEss Connection Execution Broker BrokerTests.
From S2P Require Import TestSupport.

(** ** The scheduler *)

(** What a test can see of its channels: what [recv] yields, whether a token is
    cancelled, and what waits in the queue of a client. *)
Class Scheduling (E CE : Type) `{!Channels E CE} : Type := {
  poll_recv : breceiver → chans → option (@Selected E * chans);
  poll_cancelled : token → chans → bool;
  queue_of : mreceiver → chans → list CE
}.

Definition sample_queue {E CE} (rx : nat) (s : store E CE) : list CE :=
  match mchans _ _ s !! rx with Some m => m_queue _ m | None => [] end.
#[export] Instance sample_scheduling E CE : Scheduling E CE (Channels0 := sample_channels E CE) := {|
  poll_recv := sample_recv E CE;
  poll_cancelled t (s : store E CE) := bool_decide (cancelled _ _ s !! t = Some true);
  queue_of := sample_queue
|}.

Section scheduler.
Context {ClientId EventId E CE : Type} `{Countable ClientId, Countable EventId}.
Context `{!Channels E CE} `{!Scheduling E CE}.
Abbreviation Ess := (@EventSubSystem ClientId EventId E CE _ _ _ _ _).

(** What [select!] yields for a subscription in a store, [None] while it waits. *)
Definition select_now (sub : @Subscription ClientId EventId E CE _) (s : chans)
    : option (@Selected E * chans) :=
  if poll_cancelled (cancellation_token sub) s then Some (Cancelled, s)
  else poll_recv (receiver sub) s.

(** The inputs of the serving loop until it waits; the channel store moves on as
    each is received.  [fuel] bounds the number of events that are published. *)
Fixpoint ready_inputs (fuel : nat) (sub : @Subscription ClientId EventId E CE _) (s : chans)
    : list (@Selected E * (Ess → Ess)) :=
  match fuel with
  | O => []
  | S fuel =>
      match select_now sub s with
      | Some (Cancelled, _) => [(Cancelled, id)]
      | Some (selected, s') =>
          (selected, λ e,
            match select_now sub (channels e) with
            | Some (_, ch) => mkEss (ess_config e) (sender_by_event_id e) (client_by_id e) ch
            | None => e
            end) :: ready_inputs fuel sub s'
      | None => []
      end
  end.

(** What is waiting in the stream of a client. *)
Definition stream_of (e : Ess) (rx : mreceiver) : list CE := queue_of rx (channels e).
End scheduler.

(** ** ess.rs *)
Module EssUnitTests.
Inductive EventId := Foo.
#[local] Instance EventId_eq_dec : EqDecision EventId.
Proof. solve_decision. Defined.
#[local] Instance EventId_countable : Countable EventId.
Proof. refine (inj_countable' (λ _, tt) (λ _, Foo) _). by intros []. Defined.

(** [struct Event(EventId, SeqNum, &str)]. *)
Abbreviation TestEvent := (EventId * Z * string)%type.
#[local] Abbreviation test_store := (store TestEvent TestEvent).

(** The module [mpsc] of the tests, which replaces tokio's in the test build: a
    queue without a bound, whose receiving end is not used. *)
Definition mock_channel (_buffer : nat) (s : test_store) : outcome (nat * nat * test_store) :=
  Return (length (mchans _ _ s), length (mchans _ _ s),
    mkStore _ _ (bchans _ _ s) (mchans _ _ s ++ [mkMchan _ 0 [] true]) (next_rx _ _ s) (cancelled _ _ s)).
Definition mock_try_send (tx : nat) (e : TestEvent) (s : test_store) : TrySend TestEvent * test_store :=
  (Sent, sample_update_m _ _ tx (λ m, mkMchan _ (m_cap _ m) (m_queue _ m ++ [e]) (m_open _ m)) s).
Definition dequeue_event (tx : nat) (s : test_store) : result TestEvent unit * test_store :=
  match sample_queue tx s with
  | [] => (Err tt, s)
  | e :: rest => (Ok e, sample_update_m _ _ tx (λ m, mkMchan _ (m_cap _ m) rest (m_open _ m)) s)
  end.

#[local] Instance chs : Channels TestEvent TestEvent := {|
  chans := test_store;
  bsender := nat;
  breceiver := nat * nat;
  msender := nat;
  mreceiver := nat;
  token := nat;
  broadcast_channel := sample_broadcast_channel _ _;
  broadcast_subscribe := sample_subscribe _ _;
  broadcast_send := sample_send _ _;
  receiver_count := sample_receiver_count _ _;
  drop_receiver := sample_drop_receiver _ _;
  drop_bsender _ s := s;
  mpsc_channel := mock_channel;
  try_send := mock_try_send;
  drop_msender _ s := s;
  clone_msender _ s := s;
  token_new := token_new (Channels := sample_channels _ _);
  token_cancel := token_cancel (Channels := sample_channels _ _)
|}.
#[local] Instance scheduling : Scheduling TestEvent TestEvent := {|
  poll_recv := sample_recv TestEvent TestEvent;
  poll_cancelled t (s : test_store) := bool_decide (cancelled _ _ s !! t = Some true);
  queue_of := sample_queue
|}.

Section tests.
Context `{!HashOrder}.
Abbreviation Ess := (@EventSubSystem string EventId TestEvent TestEvent _ _ _ _ _).

Definition sut : Ess := Ess_new (empty_store TestEvent TestEvent : chans).

Definition read (client_id : string) (e : Ess) : outcome (UpsertResult * nat * Ess) :=
  read_events client_id e.

Definition numbered (e : TestEvent) (seq : Z) : TestEvent := (e.1.1, seq, e.2).

(** [TestClient::read_event] takes the oldest event delivered to the client. *)
Definition read_event (client_id : string) (e : Ess) : option TestEvent * Ess :=
  match client_by_id e !! client_id with
  | Some c =>
      let '(res, ch) := dequeue_event (sender c) (channels e) in
      (result_ok res, mkEss (ess_config e) (sender_by_event_id e) (client_by_id e) ch)
  | None => (None, e)
  end.

(** A subscription server run until it waits; the flag tells whether it ended. *)
Definition serve_until_idle (e : Ess) (sub : @Subscription string EventId TestEvent TestEvent _)
    : outcome (bool * Ess) :=
  '(ended, _, e, _) ← serve true sub numbered (ready_inputs 16 sub (channels e)) e [];
  Return (ended, e).

Definition read_events_returns_new_stream_on_each_call_for_same_client : outcome unit :=
  '(upsert1, stream1, e) ← read "client" sut;
  '(upsert2, stream2, _) ← read "client" e;
  _ ← assert_eq Inserted upsert1;
  _ ← assert_eq Updated upsert2;
  assert (bool_decide (stream1 ≠ stream2)).

Definition read_events_streams_event_on_update : outcome unit :=
  '(_, _, e) ← read "client1" sut;
  '(_, _, e) ← read "client2" e;
  '(subscriptions, e) ← register_subscriptions "client1" [Foo] e;
  subscriptions ← unwrap subscriptions;
  let '(_, e) := publish Foo (Foo, 0%Z, "data1") e in
  let '(_, e) := publish Foo (Foo, 0%Z, "data2") e in
  e ← for_each (λ e sub, '(_, e) ← serve_until_idle e sub; Return e) e subscriptions;
  let '(event, e) := read_event "client2" e in
  _ ← assert_eq None event;
  let '(event, e) := read_event "client1" e in
  _ ← assert_eq (Some (Foo, 1%Z, "data1")) event;
  let '(event, e) := read_event "client1" e in
  _ ← assert_eq (Some (Foo, 2%Z, "data2")) event;
  assert_eq None (read_event "client1" e).1.

Definition read_events_does_not_stream_events_of_unregistered_subscriptions : outcome unit :=
  '(_, _, e) ← read "client" sut;
  let '(published, e) := publish Foo (Foo, 0%Z, "data") e in
  _ ← assert (negb published);
  assert_eq None (read_event "client" e).1.

Definition deregistered_subscriptions_terminates_subscription_server : outcome unit :=
  '(_, _, e) ← read "client" sut;
  '(subscriptions, e) ← register_subscriptions "client" [Foo] e;
  subscriptions ← unwrap subscriptions;
  subscription ← unwrap_option (head subscriptions);
  let '(res, e) := deregister_subscriptions "client" [Foo] e in
  _ ← unwrap res;
  '(ended, _) ← serve_until_idle e subscription;
  assert ended.

Definition register_subscriptions_cannot_be_called_if_events_are_not_being_read : outcome unit :=
  '(result, _) ← register_subscriptions "client" [] sut;
  _ ← unwrap_err result;
  Return tt.

Definition deregister_subscriptions_cannot_be_called_if_events_are_not_being_read
    : outcome unit :=
  _ ← unwrap_err (deregister_subscriptions "client" [] sut).1;
  Return tt.

Definition get_subscriptions_returns_empty_list_when_no_subscriptions_registered : outcome unit :=
  assert_eq None (head (get_subscriptions "client" sut)).

Definition ess_suite : list (outcome unit) :=
  [read_events_returns_new_stream_on_each_call_for_same_client;
   read_events_streams_event_on_update;
   read_events_does_not_stream_events_of_unregistered_subscriptions;
   deregistered_subscriptions_terminates_subscription_server;
   register_subscriptions_cannot_be_called_if_events_are_not_being_read;
   deregister_subscriptions_cannot_be_called_if_events_are_not_being_read;
   get_subscriptions_returns_empty_list_when_no_subscriptions_registered].
End tests.
End EssUnitTests.

(** ** streaming_ess.rs, and the tests that follow an event to its stream *)
Module StreamingUnitTests.
#[local] Instance chs : Channels unit (result Event Status) :=
  sample_channels unit (result Event Status).

Section tests.
Context `{!UrlLib, !HashOrder, !RegexLib}.
(** The random UUID of the opened channel, and the times of the events. *)
Context (id : string) (now : Z → Timestamp).

Definition setup : StreamingEss (T := unit) :=
  StreamingEss_new (empty_store unit (result Event Status)).

Definition header_of (response : OpenResponse (T := unit)) (key : string) : option string :=
  snd <$> head (filter (λ kv, kv.1 = key) (open_metadata response)).
Definition open_channel (s : StreamingEss (T := unit))
    : outcome (string * nat * StreamingEss (T := unit)) :=
  '(response, s) ← open Some id s;
  response ← unwrap response;
  channel_id ← unwrap_option (header_of response "x-chariott-channel-id");
  Return (channel_id, open_stream response, s).

(** [collect_when_stable]: every spawned task is served until it waits, and the
    stream is read. *)
Definition collect_when_stable (s : StreamingEss (T := unit)) (stream : nat)
    : outcome (list Event) :=
  e ← for_each (λ e t,
      '(_, _, e, _) ← run_task true now t (ready_inputs 16 (task_subscription t) (channels e)) e [];
      Return e) (ess s) (tasks s);
  map_outcome unwrap (stream_of e stream).

Definition null_value (_ : unit) : ValueEnum := VNull 0.
Definition publish_unit (ev : string) (s : StreamingEss (T := unit)) : StreamingEss (T := unit) :=
  mkStreamingEss (publish ev tt (ess s)).2 (tasks s).

Definition open_should_set_channel_id : outcome unit :=
  '(channel_id, _, _) ← open_channel setup;
  assert (bool_decide (channel_id ≠ "")).

Definition serve_subscriptions_should_serve_subscription_for_event : outcome unit :=
  '(channel_id, stream, s) ← open_channel setup;
  '(res, s) ← serve_subscriptions
      (mkSubscribeIntent channel_id ["test-event-a"; "test-event-b"]) null_value s;
  _ ← unwrap res;
  let s := publish_unit "test-event-b" (publish_unit "test-event-a" s) in
  result ← collect_when_stable s stream;
  let expected_sources := ["test-event-a"; "test-event-b"] in
  _ ← assert_eq (length expected_sources) (length result);
  for_each (λ _ '(expected_source, actual),
      _ ← assert_eq expected_source (ev_source actual);
      _ ← assert_eq 1%Z (ev_seq actual);
      match ev_value actual with
      | Some (mkValueMessage (Some (VNull 0))) => Return tt
      | _ => Panic "assertion failed"
      end) tt (zip expected_sources result).

Definition serve_subscriptions_should_error_when_no_client_active : outcome unit :=
  '(result, _) ← serve_subscriptions (mkSubscribeIntent "client" ["test-event"]) null_value setup;
  result ← unwrap_err result;
  _ ← assert_eq FailedPrecondition (code result);
  assert_eq "The specified client does not exist." (message result).

(** execution.rs *)
Definition system_subscribe_binding_succeeds : outcome unit :=
  '(channel_id, stream, s) ← open_channel setup;
  '(result, (_, s)) ←
    execute (T := GrpcProvider) (W := @net unreachable_network) (C := @channel unreachable_network)
      (SystemSubscribe the_streaming_ess)
      (mkIntentMessage (Some (ISubscribe (mkSubscribeIntent channel_id ["test-event"])))) (tt, s);
  response ← unwrap result;
  _ ← match fulfillment response with
      | Some (mkFulfillmentMessage (Some (FSubscribe _))) => Return tt
      | _ => Panic "assertion failed"
      end;
  result ← collect_when_stable (publish_unit "test-event" s) stream;
  assert_eq ["test-event"] (ev_source <$> result).

(** registry.rs: every namespace is subscribed to, the observer is told of the
    changes, and the sources of the delivered events are compared up to order. *)
Definition namespace_change (changes : list Change) (expected : list IntentConfiguration)
    : outcome unit :=
  '(_, stream, e) ← read_events "CLIENT" (ess setup);
  s ← for_each (λ s nonce,
      '(res, s) ← serve_subscriptions (mkSubscribeIntent "CLIENT"
          [namespace_event (namespace (intent_with_nonce nonce))]) null_value s;
      _ ← unwrap res;
      Return s) (mkStreamingEss e []) ["A"; "B"; "C"];
  result ← collect_when_stable (streaming_on_change changes s) stream;
  assert (bool_decide ((ev_source <$> result) ≡ₚ (namespace_event ∘ namespace <$> expected))).

Definition on_change_notifies_when_namespace_change_detected : outcome unit :=
  let a := intent_with_nonce "A" in
  let b := intent_with_nonce "B" in
  let c := intent_with_nonce "C" in
  run_suite
    [namespace_change [Add a ∅] [a];
     namespace_change [Add a ∅; Modify b ∅] [a];
     namespace_change [Modify b ∅; Remove a] [a];
     namespace_change [Add b ∅; Remove a] [b; a];
     namespace_change [Add b ∅; Remove a; Modify c ∅] [a; b];
     namespace_change [Modify a ∅] []].

Definition streaming_suite : list (outcome unit) :=
  [open_should_set_channel_id;
   serve_subscriptions_should_serve_subscription_for_event;
   serve_subscriptions_should_error_when_no_client_active;
   system_subscribe_binding_succeeds;
   on_change_notifies_when_namespace_change_detected].
End tests.
End StreamingUnitTests.

(** Every replayed test passes, whichever way hash maps are iterated. *)
Example ess_suite_passes :
  Forall (λ order, run_suite (@EssUnitTests.ess_suite order) = Return tt)
    [canonical_order; reversed_order].
Proof. repeat (apply Forall_cons; split; [vm_compute; reflexivity|]); constructor. Qed.

Example streaming_suite_passes :
  Forall (λ order,
      run_suite (@StreamingUnitTests.streaming_suite string_url order fragment_regex
        "1b6a2ad9" (λ seq, mkTimestamp seq 0)) = Return tt)
    [canonical_order; reversed_order].
Proof. repeat (apply Forall_cons; split; [vm_compute; reflexivity|]); constructor. Qed.
