(* ===== verification/ServiceTests.v ===== *)
(** * The unit tests of service discovery, of the key-value store and of
      [OptionExt], replayed

    The tests of [service_registry_impl.rs], [key_value_store.rs] and [ext.rs],
    as computations that panic when an assertion fails. *)

From S2P Require Import Prelude RustStd Common Registry TestSupport ServiceDiscovery.
From S2P Require Import KeyValue.

(** ** service_registry_impl.rs *)
Module DiscoveryUnitTests.
Section tests.
Context `{!HashOrder}.
Context (debug_metadata : ServiceMetadata → string).
Abbreviation registry_map := (gmap ServiceIdentifier ServiceMetadata).

Definition map_has_service (m : registry_map) (key : ServiceIdentifier) : bool :=
  bool_decide (is_Some (m !! key)).

Definition service1 : ServiceMetadata :=
  mkServiceMetadata "sdv.test" "test_service" "1.0.0.0" "localhost:1000" "grpc+proto"
    "sdv.test.test_service.v1.proto".
Definition service2 : ServiceMetadata :=
  mkServiceMetadata "sdv.test" "test_service" "2.0.0.0" "localhost:2000" "grpc+proto"
    "sdv.test.test_service.v2.proto".
Definition service_identifier1 : ServiceIdentifier := identifier_of service1.
Definition service_identifier2 : ServiceIdentifier := identifier_of service2.
Definition one_service : registry_map := {[service_identifier1 := service1]}.

Definition register_test : outcome unit :=
  let '(result, m) := sd_register debug_metadata (Some service1) ∅ in
  _ ← assert (negb (is_err result));
  _ ← assert (map_has_service m service_identifier1);
  let service1 := mkServiceMetadata (sm_namespace service1) (sm_name service1)
                    (sm_version service1) "localhost:1001" (sm_communication_kind service1)
                    (sm_communication_reference service1) in
  let '(existing_service_result, m) := sd_register debug_metadata (Some service1) m in
  _ ← assert (is_err existing_service_result);
  e ← unwrap_err existing_service_result;
  assert_eq (code e) AlreadyExists.

Definition unregister_test : outcome unit :=
  let '(result, m) := sd_unregister service_identifier1 one_service in
  _ ← assert (negb (is_err result));
  let not_found_status := mkStatus NotFound
    ("Unable to remove service from registry: " +:+ ServiceIdentifier_debug service_identifier1) in
  let '(result, m) := sd_unregister service_identifier1 m in
  result ← unwrap_err result;
  _ ← assert_eq (code result) (code not_found_status);
  assert_eq (message result) (message not_found_status).

Definition discover_test : outcome unit :=
  service ← unwrap (sd_discover service_identifier1 one_service);
  _ ← assert_eq service service1;
  first ← unwrap_option (sd_discover_by_namespace (si_namespace service_identifier1) one_service !! 0);
  _ ← assert_eq first service1;
  assert_eq [] (sd_discover_by_namespace "sdv.none" one_service).

Definition list_test : outcome unit :=
  let m : registry_map :=
    <[service_identifier2 := service2]> (<[service_identifier1 := service1]> ∅) in
  let result_services := sd_list m in
  _ ← assert_eq (length result_services) 2;
  _ ← assert (bool_decide (service1 ∈ result_services));
  assert (bool_decide (service2 ∈ result_services)).

Definition discovery_suite : list (outcome unit) :=
  [register_test; unregister_test; discover_test; list_test].
End tests.
End DiscoveryUnitTests.

(** ** key_value_store.rs *)
Module StoreUnitTests.
Section observers.
(** [NotImplementedValueObserver] panics when it is called. *)
Inductive NotImplementedValueObserver := not_implemented.
#[local] Instance NotImplemented_observer {K V} :
    KvObserver unit K V NotImplementedValueObserver :=
  λ _ _ _ _, Panic "not yet implemented".

(** The observers of the tests check their arguments; the second one counts the
    calls in the state its handle refers to. *)
Inductive MyObserver := my_observer.
#[local] Instance MyObserver_observer : KvObserver nat string string MyObserver :=
  λ key value o counter,
    _ ← assert_eq key "key";
    _ ← assert_eq value "value";
    Return (o, S counter).

Definition store_without_observer {V}
    : InMemoryKeyValueStore (K := string) (V := V) (O := NotImplementedValueObserver) :=
  kv_new None.
Definition observed_store
    : InMemoryKeyValueStore (K := string) (V := string) (O := MyObserver) :=
  kv_new (Some my_observer).

Definition test_key_value_store : outcome unit :=
  '(store, _) ← kv_set store_without_observer "key" "value" tt;
  assert_eq (kv_get store "key") (Some "value").

(** [struct Test] of the test with the custom structure. *)
Inductive Test := mkTest (name : string) (age : Z) (test_metadata : gmap string string)
  (data : list Z) (links : list Test).
Definition inner_test : Test :=
  let map := {["test" := "value"]} in
  mkTest "test" 42 map [1; 2; 3]%Z [mkTest "test" 42 map [1; 2; 3]%Z []].
Definition test_key_value_store_with_custom_struct : outcome unit :=
  '(store, _) ← kv_set store_without_observer "key" inner_test tt;
  result ← unwrap_option (kv_get store "key");
  let '(mkTest name age metadata data links) := result in
  let '(mkTest name' age' metadata' data' _) := inner_test in
  _ ← assert_eq name name';
  _ ← assert_eq age age';
  _ ← assert_eq metadata metadata';
  _ ← assert_eq data data';
  assert_eq (length links) 1.

Definition test_key_value_store_with_observer : outcome unit :=
  _ ← kv_set observed_store "key" "value" 0;
  Return tt.

Definition test_observer_gets_notified_twice_when_setting_an_unchanged_value : outcome unit :=
  '(store, counter) ← kv_set observed_store "key" "value" 0;
  '(store, counter) ← kv_set store "key" "value" counter;
  assert_eq counter 2.

Definition store_suite : list (outcome unit) :=
  [test_key_value_store; test_key_value_store_with_custom_struct;
   test_key_value_store_with_observer;
   test_observer_gets_notified_twice_when_setting_an_unchanged_value].
End observers.
End StoreUnitTests.

(** ** ext.rs *)
Module ExtUnitTests.
Definition ok_with_none_returns_ok_of_some : outcome unit :=
  let result := option_ext_ok (None : option (result unit unit)) in
  _ ← assert (negb (is_err result));
  v ← unwrap result;
  assert_eq None v.
Definition ok_with_some_ok_returns_ok_of_some : outcome unit :=
  let result := option_ext_ok (Some (Ok 42 : result nat unit)) in
  _ ← assert (negb (is_err result));
  v ← unwrap result;
  assert_eq (Some 42) v.
Definition ok_with_some_err_returns_err_of_some : outcome unit :=
  let result := option_ext_ok (Some (Err tt : result unit unit)) in
  _ ← assert (is_err result);
  e ← unwrap_err result;
  assert_eq tt e.
Definition ext_suite : list (outcome unit) :=
  [ok_with_none_returns_ok_of_some; ok_with_some_ok_returns_ok_of_some;
   ok_with_some_err_returns_err_of_some].
End ExtUnitTests.

Example discovery_suite_passes :
  Forall (λ order,
      run_suite (@DiscoveryUnitTests.discovery_suite order sm_name) = Return tt)
    [canonical_order; reversed_order].
Proof. repeat (apply Forall_cons; split; [vm_compute; reflexivity|]); constructor. Qed.

Example store_suite_passes :
  run_suite (StoreUnitTests.store_suite ++ ExtUnitTests.ext_suite) = Return tt.
Proof. vm_compute. reflexivity. Qed.
