(* ===== verification/CommonTests.v ===== *)
(** * The unit tests of the common crate, replayed

    The tests of [common/src/config.rs] and of [common/src/error.rs]. *)

From S2P Require Import Prelude RustStd Common Registry TestSupport ExampleValue.
From S2P Require Import ExampleApi ExampleApps LoadTest.

(** ** config.rs *)
Module ConfigUnitTests.
Definition STR_VARIABLE_NAME : string := "STR".
Definition STR_VARIABLE_VALUE : string := "foobar".
Definition INT_VARIABLE_NAME : string := "INT".
Definition INT_VARIABLE_VALUE : Z := 42.

Definition var_os (key : string) : option string :=
  if decide (key = STR_VARIABLE_NAME) then Some STR_VARIABLE_VALUE
  else if decide (key = INT_VARIABLE_NAME) then Some "42"
  else None.
Definition utf8 (_ : string) : bool := true.
Definition from_string (s : string) : result string unit := Ok s.

Definition env_variable_is_found : outcome unit :=
  r ← env var_os utf8 from_string STR_VARIABLE_NAME;
  result ← unwrap_option r;
  assert_eq result STR_VARIABLE_VALUE.
Definition env_variable_not_set : outcome unit :=
  result ← env var_os utf8 from_string "something_else";
  assert_eq result None.
Definition try_env_variable_is_found : outcome unit :=
  r ← try_env var_os utf8 from_string STR_VARIABLE_NAME;
  r ← unwrap_option r;
  result ← unwrap r;
  assert_eq result STR_VARIABLE_VALUE.
Definition try_env_variable_not_set : outcome unit :=
  result ← try_env var_os utf8 from_string "something_else";
  assert (match result with None => true | Some _ => false end).
Definition try_env_variable_is_expected_type : outcome unit :=
  r ← try_env var_os utf8 parse_u32 INT_VARIABLE_NAME;
  r ← unwrap_option r;
  result ← unwrap r;
  assert_eq result INT_VARIABLE_VALUE.
Definition try_env_variable_is_not_expected_type : outcome unit :=
  r ← try_env var_os utf8 parse_u32 STR_VARIABLE_NAME;
  result ← unwrap_option r;
  error ← unwrap_err result;
  assert (match error with InvalidDigit => true | _ => false end).

Definition config_suite : list (outcome unit) :=
  [env_variable_is_found; env_variable_not_set; try_env_variable_is_found;
   try_env_variable_not_set; try_env_variable_is_expected_type;
   try_env_variable_is_not_expected_type].
End ConfigUnitTests.

(** ** error.rs *)
Module ErrorUnitTests.
(** A string literal within an expected output. *)
Definition quoted (s : string) : string := String "034" s +:+ String "034" EmptyString.
Definition get_io_error : Error :=
  io_as_source (mkIoError "address in use" "AddrInUse" "Address already in use").

Definition can_display_error : outcome unit :=
  assert_eq "description" (Error_display (Error_new "description")).
Definition can_debug_error : outcome unit :=
  assert_eq ("Error { description: " +:+ quoted "description" +:+ ", source: None }")
    (Error_debug (Error_new "description")).
Definition can_debug_error_with_source : outcome unit :=
  assert_eq ("Error { description: " +:+ quoted "description" +:+
    ", source: Some(Custom { kind: AddrInUse, error: " +:+ quoted "Address already in use" +:+ " }) }")
    (Error_debug (Error_from_error "description" get_io_error)).
Definition can_display_error_with_source : outcome unit :=
  assert_eq "description" (Error_display (Error_from_error "description" get_io_error)).
Definition can_get_source : outcome unit :=
  let outer := Error_from_error "Something went wrong" get_io_error in
  source ← unwrap_option (Error_source outer);
  assert_eq (Error_debug get_io_error) (Error_debug source).
Definition map_expect : outcome unit :=
  let result : result unit Error := Err get_io_error in
  source ← unwrap_err (map_err_with result "Something went wrong");
  assert_eq (Error_debug (Error_from_error "Something went wrong" get_io_error)) (Error_debug source).

Definition error_suite : list (outcome unit) :=
  [can_display_error; can_debug_error; can_debug_error_with_source;
   can_display_error_with_source; can_get_source; map_expect].
End ErrorUnitTests.

Example common_suite_passes :
  run_suite (ConfigUnitTests.config_suite ++ ErrorUnitTests.error_suite) = Return tt.
Proof. vm_compute. reflexivity. Qed.
