(* ===== verification/BindingTests.v ===== *)
(** * The unit tests through the test binding, replayed

    The tests of [execution.rs] and [intent_brokering_grpc.rs] that use the binding
    [RuntimeBinding::Test], which exists in the test build only.  [TestRuntimeBinding]
    is the type of that build, and without test bindings it executes as the one of
    [Execution]. *)

From S2P Require Import Prelude RustStd Common Proto Query QueryFacts Registry.
From S2P Require Import Ess EssSample StreamingEss Connection Execution Broker.
From S2P Require Import Server ExampleRegistration TestSupport BrokerTests.

(** ** [TestBinding] *)
Record TestBinding := mkTestBinding {
  tb_result : result Z Code;
  expected_arg : option IntentEnum
}.
Definition TestBinding_from_result (r : result Z Code) : TestBinding := mkTestBinding r None.

Definition test_execute (self : TestBinding) (arg : IntentMessage)
    : outcome (result FulfillResponse Status) :=
  _ ← match expected_arg self with
      | Some expected => i ← unwrap_option (intent_enum arg); assert_eq expected i
      | None => Return tt
      end;
  Return (map_err (λ c, mkStatus c "Some error")
    (result_map (λ v, mkFulfillResponse (Some (mkFulfillmentMessage
       (Some (FInvoke (mkInvokeFulfillment (Some (mkValueMessage (Some (VInt32 v))))))))))
       (tb_result self))).

Definition parse_result (f : result FulfillmentMessage Status) : outcome (result Z Code) :=
  match f with
  | Ok (mkFulfillmentMessage (Some (FInvoke (mkInvokeFulfillment
      (Some (mkValueMessage (Some (VInt32 v)))))))) => Return (Ok v)
  | Err e => Return (Err (code e))
  | _ => Panic "explicit panic"
  end.

Section tests.
Context `{!UrlLib, !HashOrder, !RegexLib, !Transport} `{!Channels unit (result Event Status)}.
Context (n : net) (ch : chans).

(** ** The binding of the test build *)
Inductive TestRuntimeBinding :=
  | RTest (t : TestBinding)
  | RFallback (primary secondary : TestRuntimeBinding)
  | RPlain (b : RuntimeBinding GrpcProvider).

Fixpoint execute_in_tests (self : TestRuntimeBinding) (arg : IntentMessage)
    (st : net * StreamingEss (T := unit))
    : outcome (result FulfillResponse Status * (net * StreamingEss (T := unit))) :=
  match self with
  | RTest item => res ← test_execute item arg; Return (res, st)
  | RFallback primary secondary =>
      '(res, st) ← execute_in_tests primary arg st;
      match res with
      | Ok ok => Return (Ok ok, st)
      | Err _ => execute_in_tests secondary arg st
      end
  | RPlain b => execute (C := channel) b arg st
  end.

(** A binding of the real build, with its fallbacks as those of the test build. *)
Fixpoint in_test_build (b : RuntimeBinding GrpcProvider) : TestRuntimeBinding :=
  match b with
  | Fallback primary secondary => RFallback (in_test_build primary) (in_test_build secondary)
  | b => RPlain b
  end.

Lemma execute_in_test_build b arg st :
  execute_in_tests (in_test_build b) arg st = execute (C := channel) b arg st.
Proof.
  revert st. induction b as [p|b1 IH1 b2 IH2|l|u|r]; intros st; try done.
  simpl. rewrite IH1. destruct (execute b1 arg st) as [[[ok|e] st1]|]; simpl; [done| |done]. apply IH2.
Qed.

(** ** execution.rs *)
Definition execute_with_empty_intent (b : TestRuntimeBinding) : outcome (result Z Code) :=
  '(res, _) ← execute_in_tests b (mkIntentMessage None) (n, StreamingEss_new ch);
  f ← match res with
      | Ok r => f ← unwrap_option (fulfillment r); Return (Ok f)
      | Err e => Return (Err e)
      end;
  parse_result f.

Definition fallback_binding_when_first_succeeds_should_return_response : outcome unit :=
  let primary := RTest (TestBinding_from_result (Ok 1%Z)) in
  let secondary := RTest (TestBinding_from_result (Ok 2%Z)) in
  result ← execute_with_empty_intent (RFallback primary secondary);
  v ← unwrap result;
  assert_eq 1%Z v.

Definition fallback_binding_when_first_fails_returns_second_response : outcome unit :=
  let primary := RTest (TestBinding_from_result (Err InvalidArgument)) in
  let secondary := RTest (TestBinding_from_result (Ok 2%Z)) in
  result ← execute_with_empty_intent (RFallback primary secondary);
  v ← unwrap result;
  assert_eq 2%Z v.

Definition fallback_binding_when_both_fail_returns_second_error : outcome unit :=
  let primary := RTest (TestBinding_from_result (Err InvalidArgument)) in
  let secondary := RTest (TestBinding_from_result (Err Internal)) in
  result ← execute_with_empty_intent (RFallback primary secondary);
  e ← unwrap_err result;
  assert_eq Internal e.

(** ** intent_brokering_grpc.rs *)
Definition RETURN_VALUE : Z := 10.
Definition create_fulfill : IntentMessage :=
  mkIntentMessage (Some (IInvoke (mkInvokeIntent "test" [mkValueMessage (Some (VInt32 1))]))).
Definition mock_resolve (_ : IntentConfiguration) : outcome (option TestRuntimeBinding) :=
  expected ← unwrap_option (intent_enum create_fulfill);
  Return (Some (RTest (mkTestBinding (Ok RETURN_VALUE) (Some expected)))).

(** [fulfill] of the test build, where the broker is the mock. *)
Definition fulfill_in_tests (request : RuntimeFulfillRequest)
    : outcome (result FulfillResponse Status) :=
  match ok_or (rf_intent request) (invalid_argument "intent is required") with
  | Err e => Return (Err e)
  | Ok intent =>
      match (match intent_enum intent with
             | Some i => Ok (map_intent_variant i)
             | None => Err (invalid_argument "Intent is not known.")
             end) with
      | Err e => Return (Err e)
      | Ok kind =>
          resolved ← mock_resolve (mkIntentConfiguration (rf_namespace request) kind);
          match ok_or resolved (mkStatus NotFound "No provider found.") with
          | Err e => Return (Err e)
          | Ok binding =>
              '(res, _) ← execute_in_tests binding intent (n, StreamingEss_new ch);
              Return (result_map (λ response, mkFulfillResponse (fulfillment response)) res)
          end
      end
  end.

Definition fulfill_ensures_binding_is_executed : outcome unit :=
  res ← fulfill_in_tests (mkRuntimeFulfillRequest "system" (Some create_fulfill));
  f ← match res with
      | Ok r => f ← unwrap_option (fulfillment r); Return (Ok f)
      | Err e => Return (Err e)
      end;
  r ← parse_result f;
  v ← unwrap r;
  assert_eq RETURN_VALUE v.

(** The numbers of the contract are those the server maps. *)
Definition test_intent_proto_mappings : outcome unit :=
  _ ← assert_eq (Intent_as_i32 Discover) INTENT_MAPPING_DISCOVER;
  _ ← assert_eq (Intent_as_i32 Inspect) INTENT_MAPPING_INSPECT;
  _ ← assert_eq (Intent_as_i32 Read) INTENT_MAPPING_READ;
  _ ← assert_eq (Intent_as_i32 Write) INTENT_MAPPING_WRITE;
  _ ← assert_eq (Intent_as_i32 Invoke) INTENT_MAPPING_INVOKE;
  assert_eq (Intent_as_i32 Subscribe) INTENT_MAPPING_SUBSCRIBE.

Definition binding_suite : list (outcome unit) :=
  [fallback_binding_when_first_succeeds_should_return_response;
   fallback_binding_when_first_fails_returns_second_response;
   fallback_binding_when_both_fail_returns_second_error;
   fulfill_ensures_binding_is_executed;
   test_intent_proto_mappings].
End tests.

Example binding_suite_passes :
  run_suite (@binding_suite string_url canonical_order fragment_regex unreachable_network
    (sample_channels unit (result Event Status)) tt (empty_store unit (result Event Status))) =
    Return tt.
Proof. vm_compute. reflexivity. Qed.
