(* ===== verification/IntegrationTests.v ===== *)
(** * The integration tests, replayed

    [tests/chariott_integration.rs] with the provider of [tests/provider.rs]: the
    client API, the server and test providers together, in one process.  They are
    written for any URL library, iteration order and regex engine; the network holds
    the providers that were started, by URL. *)

From stdpp Require Import pretty.
From S2P Require Import Prelude RustStd Common Proto Query QueryFacts Registry.
From S2P Require Import Ess EssSample StreamingEss Connection Execution Broker.
From S2P Require Import Server MainProgram ExampleValue ExampleApi TestSupport.

(** ** provider.rs *)
(** The callback of the test provider may panic. *)
Record TestProvider := mkTestProvider { on_invoke : option (InvokeIntent → outcome (option Value)) }.
Definition TestProvider_new : TestProvider := mkTestProvider None.
Definition with_on_invoke (_ : TestProvider) (f : InvokeIntent → outcome (option Value)) : TestProvider :=
  mkTestProvider (Some f).

Definition test_provider_fulfill (self : TestProvider) (request : ProviderFulfillRequest)
    : outcome (result FulfillResponse Status) :=
  match ok_or (pf_intent request ≫= intent_enum)
          (mkStatus InvalidArgument "Intent must be specified") with
  | Err e => Return (Err e)
  | Ok (IInvoke i) =>
      match on_invoke self with
      | Some f =>
          r ← f i;
          Return (Ok (mkFulfillResponse (Some (mkFulfillmentMessage
            (Some (FInvoke (mkInvokeFulfillment (Value_into_message <$> r))))))))
      | None => Panic "not implemented"
      end
  | Ok _ => Return (Err (mkStatus NotFound ""))
  end.

(** ** The network: a call that panics or fails is an error at the caller *)
Definition provider_network : Transport := {|
  net := list (string * TestProvider);
  channel := string;
  client_connect u n :=
    match find (λ p, String.eqb p.1 u) n with
    | Some _ => (Ok u, n)
    | None => (Err (Error_new "connection refused"), n)
    end;
  client_fulfill c request n :=
    match find (λ p, String.eqb p.1 c) n with
    | Some (_, p) =>
        match test_provider_fulfill p request with
        | Return res => (map_err (λ st, Error_new (message st)) res, n)
        | Panic msg => (Err (Error_new msg), n)
        end
    | None => (Err (Error_new "connection reset"), n)
    end
|}.

Section tests.
Context `{!UrlLib, !HashOrder, !RegexLib}.
#[local] Existing Instance provider_network.
#[local] Instance chs : Channels unit (result Event Status) :=
  sample_channels unit (result Event Status).
(** The random ids, and a [tonic::Status] as an error. *)
Context (uuid : N → string) (status_error : Status → Error).

Definition provider_serve (self : TestProvider) (port : N) (n : net) : outcome (Url * net) :=
  let text := "http://localhost:" +:+ pretty port in
  u ← parse_url text;
  Return (u, n ++ [(url_to_string u, self)]).

(** ** chariott_integration.rs *)
(** The static counter, an [AtomicU16] with [fetch_add]: the port and the new count. *)
Definition FIRST_PORT : N := 40040.
Definition get_port (counter : N) : N * N := (counter, (counter + 1) `mod` 65536)%N.

Record ProviderSetup := mkProviderSetup {
  ps_provider : TestProvider;
  ps_name : string;
  ps_port : N;
  ps_locality : ExecutionLocality
}.
Definition ProviderSetup_local (p : TestProvider) (counter : N) : ProviderSetup * N :=
  let '(port, next) := get_port counter in
  (mkProviderSetup p (uuid counter) port Local, next).
Definition ProviderSetup_cloud (p : TestProvider) (counter : N) : ProviderSetup * N :=
  let '(setup, next) := ProviderSetup_local p counter in
  (mkProviderSetup (ps_provider setup) (ps_name setup) (ps_port setup) Cloud, next).

(** A [Subject] is the server; a panic of the server is kept, and nothing happens
    after it. *)
Definition Subject : Type := outcome (IntentBrokeringServer IntentBroker * World).
Definition subject_namespace : string := "sdv.integration".

#[export] Instance Subject_communication : Communication Subject := λ namespace intent subject,
  match subject with
  | Panic msg => (Err (Error_new msg), Panic msg)
  | Return (self, w) =>
      match fulfill self (mkRuntimeFulfillRequest namespace
              (Some (mkIntentMessage (Some intent)))) w with
      | Panic msg => (Err (Error_new msg), Panic msg)
      | Return (res, w) =>
          (map_err_with (map_err status_error res) "Intent fulfillment failed.", Return (self, w))
      end
  end.

Definition setup_multiple (providers : list ProviderSetup) (now : Z) : Subject :=
  u ← parse_url "https://localhost:4243";
  let '(broker, w) := IntentBroker_new u the_streaming_ess ([], [] : net)
    (@StreamingEss_new unit chs (empty_store unit (result Event Status))) in
  '(registry, w) ← for_each (λ '(registry, w) s,
      '(u, n) ← provider_serve (ps_provider s) (ps_port s) (network w).2;
      let w := mkWorld (bindings_by_intent w) ((network w).1, n) (streaming w) in
      '(res, registry, w) ← upsert registry
        (mkServiceConfiguration (mkServiceId (ps_name s) "1.0.0") u (ps_locality s))
        [mkIntentConfiguration subject_namespace Invoke] now w;
      _ ← unwrap res;
      Return (registry, w)) (Registry_new broker Config_default, w) providers;
  Return (IntentBrokeringServer_new registry broker, w).
Definition setup_provider (p : TestProvider) (now : Z) : Subject :=
  setup_multiple [(ProviderSetup_local p FIRST_PORT).1] now.

Definition expect_invoke (subject : Subject) (command : string) (args : list Value) : outcome Value :=
  let '(response, subject) := api_invoke subject_namespace command args subject in
  _ ← subject;
  unwrap response.

Definition some_value : Value := Value_from_str "some_value".

Definition when_fulfill_invoke_intent_returns_response : outcome unit :=
  let subject := setup_provider
    (with_on_invoke TestProvider_new (λ _, Return (Some some_value))) 0 in
  response ← expect_invoke subject "foo" [];
  s ← unwrap (as_str response);
  assert_eq "some_value" s.

Definition when_two_providers_invoke_intent_prioritizes_cloud_response : outcome unit :=
  let loc := with_on_invoke TestProvider_new (λ _, Return (Some (Value_from_i32 10))) in
  let cloud := with_on_invoke TestProvider_new (λ _, Return (Some some_value)) in
  let '(s1, counter) := ProviderSetup_local loc FIRST_PORT in
  let '(s2, _) := ProviderSetup_cloud cloud counter in
  response ← expect_invoke (setup_multiple [s1; s2] 0) "foo" [];
  s ← unwrap (as_str response);
  assert_eq "some_value" s.

Definition when_two_providers_invoke_intent_falls_back_to_local_response : outcome unit :=
  let loc := with_on_invoke TestProvider_new (λ _, Return (Some (Value_from_i32 10))) in
  let cloud := with_on_invoke TestProvider_new (λ _, Panic "Cloud invocation failed") in
  let '(s1, counter) := ProviderSetup_local loc FIRST_PORT in
  let '(s2, _) := ProviderSetup_cloud cloud counter in
  response ← expect_invoke (setup_multiple [s1; s2] 0) "foo" [];
  v ← unwrap (to_i32 response);
  assert_eq 10%Z v.

Definition when_invoke_intent_arguments_are_passed_correctly : outcome unit :=
  let arg i n :=
    m ← unwrap_option (args i !! n);
    unwrap (Value_try_from_message m) in
  let subject := setup_provider (with_on_invoke TestProvider_new (λ i,
    _ ← assert_eq "foo" (command i);
    a0 ← arg i 0; v0 ← unwrap (to_i32 a0); _ ← assert_eq 10%Z v0;
    a1 ← arg i 1; v1 ← unwrap (to_bool a1); _ ← assert_eq true v1;
    Return (Some Value_NULL))) 0 in
  response ← expect_invoke subject "foo" [Value_from_i32 10; Value_from_bool true];
  match value_enum response with
  | VNull 0 => Return tt
  | _ => Panic "assertion failed"
  end.

(** The future that resolves when the cancelled token is seen ends the server. *)
Definition when_cancelled_shuts_down_provider : outcome unit :=
  assert (match serve_with_cancellation true (Ok tt) with
          | Some (Ok _) => true
          | _ => false
          end).

Definition integration_suite : list (outcome unit) :=
  [when_fulfill_invoke_intent_returns_response;
   when_two_providers_invoke_intent_prioritizes_cloud_response;
   when_two_providers_invoke_intent_falls_back_to_local_response;
   when_invoke_intent_arguments_are_passed_correctly;
   when_cancelled_shuts_down_provider].
End tests.

Example integration_suite_passes :
  Forall (λ order, run_suite (@integration_suite string_url order fragment_regex
      (λ i, "id-" +:+ pretty i) (λ st, Error_new (message st))) = Return tt)
    [canonical_order; reversed_order].
Proof. repeat (apply Forall_cons; split; [vm_compute; reflexivity|]); constructor. Qed.
