(* ===== verification/EndToEndTests.v ===== *)
(** * The end-to-end tests, replayed

    [tests/store-e2e.rs] and [tests/registry-e2e.rs] against the system of
    [EndToEndWitnesses]: the broker, the key-value application that is registered
    with it, and a client.  The tests wait for events with timeouts; here the spawned
    tasks are served until nothing is left to receive, as in [EssTests]. *)

From S2P Require Import Prelude RustStd Common Proto Query QueryFacts Registry Ess EssSample.
From S2P Require Import StreamingEss Connection Execution Broker Server ExampleValue.
From S2P Require Import ExampleApi ExampleKv ExampleRegistration RegistrationTheorems.
From S2P Require Import EndToEnd EndToEndWitnesses TestSupport BrokerTests EssTests.

Module EndToEndTests.
Import EndToEndWitnesses.
#[local] Existing Instance canonical_order.
#[local] Existing Instance string_url.
#[local] Existing Instance fragment_regex.
#[local] Existing Instance chs.
#[local] Existing Instance kv_chs.
#[local] Existing Instance transport.
#[local] Existing Instance communication.
#[local] Existing Instance streams.
#[local] Abbreviation Running :=
  (IntentBrokeringServer (Composite IntentBroker StreamingRef) * World)%type.

Definition no_variable (_ : string) : option string := None.
Definition any_text (_ : string) : bool := true.
Definition setup_grpc (st : Running) : outcome Running :=
  let '(client, st) := grpc_brokering_connect (BrokerFulfillClient0 := server_fulfill_client status_error)
    no_variable broker_url st in
  _ ← unwrap client; Return st.

(** The [?] of a test that returns a [Result]. *)
Definition expect {A} (r : result A Error * Running) : outcome (A * Running) :=
  a ← unwrap r.1; Return (a, r.2).

(** What a client reads from its stream when every task has been served. *)
Definition now (seq : Z) : Timestamp := mkTimestamp seq 0.
Definition read_stream (st : Running) (stream : event_stream) : outcome (list (result ApiEvent Error)) :=
  let present := λ item, stream_item (map_err status_error item) in
  match stream.1 with
  | KvEndpoint =>
      let s := ss_ess (network st.2).2 in
      e ← for_each (λ e t,
          '(_, _, e, _) ← run_task true now t (ready_inputs 16 (task_subscription t) (channels e)) e [];
          Return e) (ess s) (tasks s);
      Return (present <$> stream_of e stream.2)
  | BrokerEndpoint =>
      let s := streaming st.2 in
      e ← for_each (λ e t,
          '(_, _, e, _) ← run_task true now t (ready_inputs 16 (task_subscription t) (channels e)) e [];
          Return e) (ess s) (tasks s);
      Return (present <$> stream_of e stream.2)
  end.

(** ** store-e2e.rs *)
Definition KV_NAMESPACE : string := "sdv.kvs".

Definition when_key_does_not_exist_returns_none : outcome unit :=
  st ← setup_grpc registered;
  '(response, _) ← expect (api_read KV_NAMESPACE "1b6a2ad9" st);
  assert (match response with None => true | Some _ => false end).

Definition when_writing_value_returns_value_on_read : outcome unit :=
  st ← setup_grpc registered;
  '(_, st) ← expect (api_write KV_NAMESPACE "key" (Value_from_str "some_value") st);
  '(response, _) ← expect (api_read KV_NAMESPACE "key" st);
  v ← unwrap_option response;
  s ← unwrap (as_str v);
  assert_eq "some_value" s.

Definition when_provider_does_not_exist_returns_error : outcome unit :=
  st ← setup_grpc registered;
  e ← unwrap_err (api_read "sdv.does_not_exist" "key" st).1;
  source ← unwrap_option (Error_source e);
  assert (str_contains "No provider found." (Error_display source)).

Definition when_writing_while_streaming_publishes_value : outcome unit :=
  st ← setup_grpc registered;
  '(stream, st) ← expect (listen KV_NAMESPACE ["key"] st);
  '(_, st) ← expect (api_write KV_NAMESPACE "key" (Value_from_i32 10) st);
  events ← read_stream st stream;
  event ← unwrap_option (head events);
  event ← unwrap event;
  v ← unwrap (to_i32 (event_data event));
  _ ← assert_eq 10%Z v;
  _ ← assert_eq "key" (event_source event);
  assert_eq 1%Z (event_seq event).

Definition NUMBER_OF_EVENTS : nat := 5.
Definition when_streaming_increases_sequence_number : outcome unit :=
  st ← setup_grpc registered;
  '(stream, st) ← expect (listen KV_NAMESPACE ["key"] st);
  st ← for_each (λ st _,
      '(_, st) ← expect (api_write KV_NAMESPACE "key" (Value_from_i32 10) st); Return st)
    st (seq 0 NUMBER_OF_EVENTS);
  events ← read_stream st stream;
  actual_sequence_numbers ← unwrap (collect_result (result_map event_seq <$> take NUMBER_OF_EVENTS events));
  for_each (λ _ i, assert (bool_decide (Z.of_nat i ∈ actual_sequence_numbers))) tt (seq 1 NUMBER_OF_EVENTS).

Definition when_writing_to_a_different_key_does_not_publish_value : outcome unit :=
  st ← setup_grpc registered;
  '(stream, st) ← expect (listen KV_NAMESPACE ["key-1"] st);
  '(_, st) ← expect (api_write KV_NAMESPACE "key-2" (Value_from_i32 10) st);
  events ← read_stream st stream;
  match head events with
  | Some _ => Panic "Did not expect to receive an event."
  | None => Return tt
  end.

(** ** registry-e2e.rs *)
Definition e2e_namespace : string := "e2e.registration.1b6a2ad9".
Definition e2e_builder (name u : string) : outcome Builder :=
  u ← unwrap_option (url_parse u);
  Builder_new no_variable any_text broker_url name "1.0.0" u e2e_namespace [Inspect] Local.

Definition register_once_at (b : Builder) (time : Z) (st : Running) : outcome Running :=
  let '(res, _, s) := register_once b None true (mkServerAt st.1 st.2 time) in
  _ ← unwrap res;
  Return (at_server s, at_world s).

(** While the test sleeps the prune loop of the broker wakes up at its deadlines. *)
Definition sleep_until (times : list Z) (st : Running) : outcome Running :=
  '(_, _, self, w) ← registry_prune_loop mv ((λ t, (t, [], DeadlineReached)) <$> times) st.1 st.2;
  Return (self, w).

Definition expired_registrations_are_pruned_after_ttl : outcome unit :=
  builder ← e2e_builder "e2e" "http://localhost/";
  st ← setup_grpc start;
  st ← register_once_at builder (duration_from_secs 1) st;
  '(initial_entries, st) ← expect (api_inspect "system.registry" e2e_namespace st);
  let ttl := duration_from_secs 16 in
  st ← sleep_until [(duration_from_secs 1 + ttl)%Z] st;
  '(entries, _) ← expect (api_inspect "system.registry" e2e_namespace st);
  _ ← assert_eq 1 (length initial_entries);
  assert_eq 0 (length entries).

Definition when_provider_registers_notifies_registry_observers : outcome unit :=
  builder ← e2e_builder "registration.provider.e2e" "http://localhost:7090";
  st ← setup_grpc start;
  '(stream, st) ← expect (listen "system.registry" [namespace_event e2e_namespace] st);
  st ← register_once_at builder (duration_from_secs 1) st;
  events ← read_stream st stream;
  event ← unwrap_option (head events);
  event ← unwrap event;
  assert_eq (namespace_event e2e_namespace) (event_source event).

Definition end_to_end_suite : list (outcome unit) :=
  [when_key_does_not_exist_returns_none;
   when_writing_value_returns_value_on_read;
   when_provider_does_not_exist_returns_error;
   when_writing_while_streaming_publishes_value;
   when_streaming_increases_sequence_number;
   when_writing_to_a_different_key_does_not_publish_value;
   expired_registrations_are_pruned_after_ttl;
   when_provider_registers_notifies_registry_observers].

Example end_to_end_suite_passes : run_suite end_to_end_suite = Return tt.
Proof. vm_compute. reflexivity. Qed.
End EndToEndTests.
